(* ===== verification/_CoqProject ===== *)
-Q . S2P
Prelude.v
GoStd.v
Json.v
Wire.v
Codec.v
Raftctl.v
Logging.v
LogText.v
Metrics.v
Sql.v
Storage.v
StoreSpec.v
LogSpec.v
LogStore.v
Config.v
Types.v
JsonValid.v
Node.v
Rpc.v
NodeFrame.v
Apply.v
Follower.v
Leader.v
VoteLedger.v
NodeVote.v
Voting.v
Cluster.v
ClusterSafety.v
Instances.v
Elections.v
Replication.v
Commit.v
Snapshots.v
Clients.v
ConfigSpec.v
MetricsSpec.v
Durability.v
Timing.v
Findings.v
Lifecycle.v
LogFrame.v
Net.v
VoteLog.v
RaftLogs.v
LogRel.v
RaftSpec.v
RaftSafety.v
RaftReads.v
Simulation.v
SimElections.v
SimReplication.v
SimCommit.v
SimSnapshots.v
Refinement.v
Reads.v
Runs.v
