(* ===== verification/Prelude.v ===== *)
(** * A verified model of the Raft key-value cluster

    The program is a replicated key-value store in Go: every member runs [cmd/raftnode],
    which reads its configuration ([internal/config]), opens its SQLite database
    ([internal/storage]), and takes part in Raft ([internal/raft]) over gRPC messages
    ([internal/wire]); it logs ([internal/logging]) and counts ([internal/metrics]).
    [cmd/raftctl] is the client.  This development translates that code into executable
    definitions and proves what makes it correct, up to the safety of the whole cluster.

    ** How the code is modelled

    A Go function over a shared object is a function of the state monad [ST]
    (this file); [(T, error)] is [result T]; [uint64] and [int64] are integers whose
    arithmetic wraps ([+64], [-64], [uint64], [int64]).  The lock of a node makes each
    section of a handler that holds it one atomic definition; a handler that gives
    the lock up around a remote call is split there ([Write_begin], [Write_round];
    [Read_begin], [Read_check], and [Read_get], which the code runs after giving the lock
    up; [startElection_begin], [handleVote],
    [startElection_single]; [replicatePeer_prepare], [replicatePeer_append_reply],
    [replicatePeer_snapshot_reply]).

    What the program calls and does not contain is a parameter: the SQLite driver
    ([SqlDriver], with what it documents in [SqlLaws]: an operation may fail at any
    moment, a failed statement changes nothing outside its transaction, a failed commit
    leaves the tables saved before), the order in which the runtime visits a map
    ([GoRuntime]), the clock and the random source ([Env]), the network libraries
    ([Lifecycle.outside]), the protobuf library ([Codec]) and the RPC stub of the client
    ([Raftctl.ClientService]).  [Instances] and [Sql.fault_driver] give concrete
    values to them, with which every theorem that has hypotheses is applied to an input.

    ** The files

    - [Prelude], [GoStd]: integers, errors, the monad and its rules [wp] and [preserves];
      the parts of [strings], [strconv], [unicode/utf8] and [sort] the program uses.
    - [Json]: [encoding/json] for string maps and commands, down to the characters.
    - [Wire], [Codec]: the messages of [raft.pb.go] with their getters, [DialTarget];
      [codec.go].
    - [Raftctl]: [cmd/raftctl/main.go].
    - [Logging], [LogText]: [logger.go], as events and as lines of JSON.  [Metrics],
      [MetricsSpec]: [metrics.go].
    - [Sql], [Storage]: the four tables and the statements; every method of
      [storage.go] over the driver.  [StoreSpec] says what each promises ([reads],
      [refines]: all or nothing), [LogSpec] and [LogStore] what that means for the log,
      [Durability] for sequences of updates.
    - [Config], [ConfigSpec]: [config.go].
    - [JsonValid]: what the JSON reader gives is valid UTF-8, so that a table made of
      decoded commands can be encoded and read back.
    - [Types], [Node], [Rpc]: [types.go], [node.go], [rpc.go], one definition per function
      or locked section.  [NodeFrame], [Apply], [Follower], [Leader], [Clients],
      [Snapshots], [Commit], [Replication], [Timing] prove their functional behaviour on
      every branch.  [Lifecycle]: [Start], [Stop] and [cmd/raftnode/main.go].
    - [VoteLedger], [NodeVote], [Voting]: voting as an abstract machine, and that every
      operation of a node refines it.
    - [Cluster], [ClusterSafety], [Elections]: the cluster as a transition system in which
      vote messages are lost, repeated and reordered, the other handlers run with any
      arguments, drivers fail, members crash and restart; election safety.
    - [Net]: the cluster with its replication messages too: the entries and the snapshots a
      member receives, some leader has sent, and an answer was given.  [LogFrame], [VoteLog]: what the operations leave of the log.
    - [RaftLogs], [RaftSpec], [RaftSafety]: an abstract Raft protocol on lists, its invariant,
      and that every step keeps it.
    - [LogRel], [Simulation], [SimElections], [SimReplication], [SimCommit], [SimSnapshots],
      [Refinement]: the rows of a member as its log above its snapshot; every step of
      [Net] is matched by steps of the abstract protocol; what follows for the members.
    - [RaftReads], [Reads]: leaders over time, and what a read sees.
    - [Instances], [Runs], [Findings]: concrete drivers, nodes, clusters and executions;
      runs that show where the code departs from the protocol.

    ** What the theorems show

    - The cluster ([Elections], [Refinement], [Reads]): at most one leader in a term
      ([election_safety]), one vote in a term across crashes ([one_vote_per_term],
      [granted_vote_survives_crash]); the refinement of abstract Raft
      ([cluster_refines_raft]) and, from its invariant, log matching in every reachable
      state ([cluster_log_matching]), leader completeness ([committed_survives]),
      agreement on committed entries ([committed_agreement]), equal tables at equal
      applied indexes ([state_machine_safety]), acknowledged writes that no later leader
      lacks ([acknowledged_write_survives]) and that later reads see
      ([read_sees_acknowledged_writes]), and snapshots that are the table at their index
      ([snapshot_is_state]).
    - The handlers: exactly when [RequestVote] grants and [AppendEntries] accepts, what
      each branch of them, of [InstallSnapshot], [Write], [Read] and of the leader's
      handling of answers leaves, errors included; the commit rule; applying as the replay
      of the log; compaction and snapshot transfer as a round trip of the table.
    - The store: atomic updates under every fault of the driver ([store_history]).
    - The edges: commands, configurations, metrics text and escaped labels read back;
      timers stay in their window; loops end; [raftnode] releases what it opens.

    ** Bounds, fuel and assumptions

    The loops of the code that are not structural take fuel: the apply loop and the
    commit loop take the number of indexes they may visit, and [loops_terminate] shows
    that enough; the JSON reader takes the length of its text.  Indexes are kept below
    [2^63] where a row id has to hold them ([is_idx], [Net.has_room]), terms are words.

    In [Net] members compact and send each other snapshots, and crash between any two
    operations (a crash inside a handler leaves the disk as a driver does that refuses
    every operation from there on).  Four things the code lets happen have no counterpart in
    Raft (each is shown in [Findings]); the state of [Net] records them, and the theorems say
    which they exclude.  A snapshot installed below the applied index or under entries that
    disagree with it ([misplaced]), and a crash in a term that is not on the disk, since
    [stepDownLocked] goes on after a failed [SaveTermVote] ([forgets]), set [astray].  A
    commit index moved past the entries of the request that was answered ([overruns]), or on
    the answer to a snapshot by a member that does not lead ([usurps]), sets [overrun].
    The refinement and log matching hold in every execution that did not go [astray]; the
    theorems about committed entries, acknowledged writes, reads, tables and snapshots ask
    for no [overrun] either.  Election safety, one vote in a term and the durable terms
    ([Cluster]) need neither.

    ** Not modelled

    The gRPC stubs of [raft_grpc.pb.go] (dispatch tables of generated style); the
    descriptors and [Reset]/[String] methods of [raft.pb.go]; the text of an error (errors
    are values; [LogText] takes their text as a parameter); option parsing of [raftctl];
    the goroutine scheduler (locked sections are atomic, goroutines are steps in any
    order; a [Get] of [Read] that falls between two transactions of such a section sees the
    table of a section that the driver interrupts there).  Deployment files and scripts contain no program logic.

    ** Left to do

    Nothing of the program's own logic; [Read] needs for [read_sees_acknowledged_writes] that
    the leader has committed an entry of its own term, which the code does not wait for
    ([Findings.new_leader_reads_stale]). *)

From stdpp Require Export prelude base list gmap strings sorting.
From Stdlib Require Export ZArith Lia.
#[global] Open Scope Z_scope.

(** ** Scope and notations of the development *)

Declare Scope go_scope.
Delimit Scope go_scope with go.

(** ** Machine integers

    Go's [uint64] values are integers in [0, 2^64); [int64] values are
    integers in [-2^63, 2^63).  Arithmetic wraps, and so do the conversions
    the source writes as [uint64(x)] and [int64(x)]. *)

Definition two64 : Z := 2 ^ 64.
Definition two63 : Z := 2 ^ 63.

Definition uint64 (z : Z) : Z := z mod two64.

Definition int64 (z : Z) : Z :=
  let w := z mod two64 in if w <? two63 then w else w - two64.

Definition is_u64 (z : Z) : Prop := 0 <= z < two64.

(** The range in which [int64] and [uint64] are the identity: the indexes that
    a SQLite rowid can hold. *)
Definition is_idx (z : Z) : Prop := 0 <= z < two63.

#[global] Instance is_u64_dec z : Decision (is_u64 z).
Proof. unfold is_u64. apply _. Defined.
#[global] Instance is_idx_dec z : Decision (is_idx z).
Proof. unfold is_idx. apply _. Defined.

Definition u64_add (a b : Z) : Z := uint64 (a + b).
Definition u64_sub (a b : Z) : Z := uint64 (a - b).

Notation "a +64 b" := (u64_add a b) (at level 50, left associativity) : go_scope.
Notation "a -64 b" := (u64_sub a b) (at level 50, left associativity) : go_scope.
#[global] Open Scope go_scope.

(** ** Errors and results

    [error] is Go's [error] interface with the constructors the program can
    produce; a Go function returning [(T, error)] returns a [result T]. *)

Inductive error : Type :=
| ErrDriver (msg : string)
| ErrNoRows
| ErrSyntax (value : string)
| ErrJSON (reason : string)
| ErrText (msg : string)
| ErrWrap (msg : string) (cause : error).

#[global] Instance error_eq_dec : EqDecision error.
Proof. solve_decision. Defined.

Inductive result (A : Type) : Type :=
| Ok (a : A)
| Err (e : error).
Arguments Ok {A} a.
Arguments Err {A} e.

Definition is_ok {A} (r : result A) : bool :=
  match r with Ok _ => true | Err _ => false end.

(** [errors.Is(err, sql.ErrNoRows)]: [fmt.Errorf("...%w")] wraps are searched. *)
Fixpoint is_no_rows (e : error) : bool :=
  match e with
  | ErrNoRows => true
  | ErrWrap _ c => is_no_rows c
  | _ => false
  end.

(** ** The state monad of the handlers

    A Go function that reads and writes a shared object of type [S] is a
    function from the state to a result and the new state. *)

Definition ST (S A : Type) : Type := S → A * S.

#[global] Instance ST_ret S : MRet (ST S) := λ A a s, (a, s).
#[global] Instance ST_bind S : MBind (ST S) := λ A B f m s,
  let '(a, s') := m s in f a s'.

Definition gets {S A} (f : S → A) : ST S A := λ s, (f s, s).
Definition modify {S} (f : S → S) : ST S unit := λ s, (tt, f s).

(** [if err != nil { return err }]: sequence two fallible calls. *)
Definition try_bind {S A B} (m : ST S (result A)) (k : A → ST S (result B)) :
    ST S (result B) :=
  m ≫= λ r, match r with Ok a => k a | Err e => mret (Err e) end.

Notation "'try' x ':=' m 'in' k" := (try_bind m (λ x, k))
  (at level 10, x name, m at level 100, k at level 200) : go_scope.
Notation "'try' ' x ':=' m 'in' k" := (try_bind m (λ x, k))
  (at level 10, x strict pattern, m at level 100, k at level 200) : go_scope.

(** ** Reasoning about the monad

    [wp m Q s]: running [m] from [s] gives a result and a state satisfying [Q].
    [preserves R m]: every run of [m] goes from a state to an [R]-related one. *)

Definition wp {S A} (m : ST S A) (Q : A → S → Prop) (s : S) : Prop :=
  Q (m s).1 (m s).2.

Definition preserves {S A} (R : relation S) (m : ST S A) : Prop :=
  ∀ s, R s (m s).2.

Section monad_laws.
Context {S : Type}.
Implicit Types s : S.

Lemma wp_ret {A} (a : A) (Q : A → S → Prop) s : wp (mret a) Q s ↔ Q a s.
Proof. done. Qed.

Lemma bind_unfold {A B} (m : ST S A) (f : A → ST S B) s :
  (m ≫= f) s = f (m s).1 (m s).2.
Proof. unfold mbind, ST_bind. by destruct (m s). Qed.

Lemma wp_bind {A B} (m : ST S A) (f : A → ST S B) Q s :
  wp (m ≫= f) Q s ↔ wp m (λ a, wp (f a) Q) s.
Proof. unfold wp. by rewrite bind_unfold. Qed.

Lemma wp_try {A B} (m : ST S (result A)) (k : A → ST S (result B)) Q s :
  wp (try_bind m k) Q s ↔
  wp m (λ r, match r with Ok a => wp (k a) Q | Err e => Q (Err e) end) s.
Proof.
  unfold try_bind. rewrite wp_bind. unfold wp at 1 3. by destruct (m s).1.
Qed.

Lemma wp_gets {A} (f : S → A) Q s : wp (gets f) Q s ↔ Q (f s) s.
Proof. done. Qed.

Lemma wp_modify f (Q : unit → S → Prop) s : wp (modify f) Q s ↔ Q tt (f s).
Proof. done. Qed.

Lemma wp_mono {A} (m : ST S A) (Q Q' : A → S → Prop) s :
  wp m Q s → (∀ a s', Q a s' → Q' a s') → wp m Q' s.
Proof. unfold wp. auto. Qed.

Lemma wp_and {A} (m : ST S A) (P Q : A → S → Prop) s :
  wp m P s → wp m Q s → wp m (λ a s', P a s' ∧ Q a s') s.
Proof. done. Qed.

Lemma wp_impl {A} (m : ST S A) (X : Prop) (Q : A → S → Prop) s :
  (X → wp m Q s) → wp m (λ a s', X → Q a s') s.
Proof. done. Qed.

(** Two fallible calls whose errors are handled alike. *)
Lemma wp_try_match {A B} (m : ST S (result A)) (k : A → ST S (result unit))
    (F : error → ST S B) (G : ST S B) Q s :
  wp (try_bind m k) (λ r, match r with Err e => wp (F e) Q | Ok _ => wp G Q end) s →
  wp (r ← m; match r with
             | Err e => F e
             | Ok a => w ← k a; match w with Err e => F e | Ok _ => G end
             end) Q s.
Proof.
  rewrite wp_try, wp_bind. intros H. eapply wp_mono; [exact H|].
  intros [a|e] s'; [|done]. rewrite wp_bind. intros H'. eapply wp_mono; [exact H'|].
  by intros [[]|e].
Qed.

Lemma wp_preserves {A} (R : relation S) (m : ST S A) :
  preserves R m ↔ ∀ s, wp m (λ _ s', R s s') s.
Proof. done. Qed.

Section preorder.
Context (R : relation S) `{!PreOrder R}.

Lemma preserves_ret {A} (a : A) : preserves R (mret a).
Proof. intros s. cbn. reflexivity. Qed.

Lemma preserves_gets {A} (f : S → A) : preserves R (gets f).
Proof. intros s. cbn. reflexivity. Qed.

Lemma preserves_modify f : (∀ s, R s (f s)) → preserves R (modify f).
Proof. intros H s. apply H. Qed.

Lemma preserves_bind {A B} (m : ST S A) (f : A → ST S B) :
  preserves R m → (∀ a, preserves R (f a)) → preserves R (m ≫= f).
Proof. intros Hm Hf s. rewrite bind_unfold. etrans; [apply Hm | apply Hf]. Qed.

(** The continuation may depend on what the first computation has read. *)
Lemma preserves_at {A B} (m : ST S A) (f : A → ST S B) s :
  R s (m s).2 → R (m s).2 (f (m s).1 (m s).2).2 → R s ((m ≫= f) s).2.
Proof. intros ??. rewrite bind_unfold. by etrans. Qed.

Lemma preserves_gets_bind {A B} (g : S → A) (f : A → ST S B) :
  (∀ s, R s (f (g s) s).2) → preserves R (gets g ≫= f).
Proof. intros H s. rewrite bind_unfold. apply H. Qed.

Lemma preserves_try {A B} (m : ST S (result A)) (k : A → ST S (result B)) :
  preserves R m → (∀ a, preserves R (k a)) → preserves R (try_bind m k).
Proof.
  intros Hm Hk. apply preserves_bind; [done|]. intros [a|e]; [done|].
  apply preserves_ret.
Qed.
End preorder.
End monad_laws.

Create HintDb preserves discriminated.
Create HintDb go discriminated.
Create Rewrite HintDb go_rw.
#[export] Hint Resolve preserves_ret preserves_gets preserves_bind preserves_try : preserves.

(** Follow the syntax of a computation: sequence, branches, then [tac] on what is
    left. *)
Ltac preserve tac :=
  lazymatch goal with
  | |- preserves _ (mbind _ _) => apply preserves_bind;
      [exact _ | preserve tac | intros; preserve tac]
  | |- preserves _ (try_bind _ _) => apply preserves_try;
      [exact _ | preserve tac | intros; preserve tac]
  | |- preserves _ (mret _) => apply preserves_ret; exact _
  | |- preserves _ (gets _) => apply preserves_gets; exact _
  | |- preserves _ (match ?x with _ => _ end) => destruct x; preserve tac
  | |- preserves _ _ => tac
  | |- _ => idtac
  end.

(** Symbolic execution of the monad's primitives. *)
Ltac wp_pure :=
  repeat first
    [ rewrite wp_bind | rewrite wp_try | rewrite wp_ret | rewrite wp_gets
    | rewrite wp_modify ].

(** ** Maps with a default

    Reading a missing key of a Go [map[string]uint64] gives zero. *)

Definition map_get (m : gmap string Z) (k : string) : Z := default 0 (m !! k).

Lemma map_get_insert_eq m k v : map_get (<[k := v]> m) k = v.
Proof. unfold map_get. by rewrite lookup_insert_eq. Qed.

Lemma map_get_insert_ne m k k' v : k ≠ k' → map_get (<[k := v]> m) k' = map_get m k'.
Proof. intros. unfold map_get. by rewrite lookup_insert_ne. Qed.

(** ** Unspecified iteration order

    [for k, v := range m] visits the entries of a map in an order the Go
    specification leaves open.  A [GoRuntime] is one choice of that order. *)

Class GoRuntime : Type := {
  map_range : ∀ {V : Type}, gmap string V → list (string * V);
  map_range_perm : ∀ {V : Type} (m : gmap string V), map_range m ≡ₚ map_to_list m
}.

(** ** Machine-integer lemmas *)

Lemma uint64_id z : is_u64 z → uint64 z = z.
Proof. unfold is_u64, uint64. apply Z.mod_small. Qed.

Lemma uint64_range z : is_u64 (uint64 z).
Proof. unfold is_u64, uint64, two64. apply Z.mod_pos_bound. lia. Qed.

Lemma is_idx_u64 z : is_idx z → is_u64 z.
Proof. unfold is_idx, is_u64, two63, two64. lia. Qed.

Lemma int64_id z : is_idx z → int64 z = z.
Proof.
  intros Hz. unfold int64. rewrite Z.mod_small by (apply is_idx_u64, Hz).
  destruct (Z.ltb_spec z two63) as [_|H]; [done|]. unfold is_idx in Hz. lia.
Qed.

Lemma int64_range z : - two63 <= int64 z < two63.
Proof.
  unfold int64, two63, two64.
  pose proof (Z.mod_pos_bound z (2 ^ 64) ltac:(lia)).
  destruct (Z.ltb_spec (z mod 2 ^ 64) (2 ^ 63)); lia.
Qed.

Lemma uint64_int64 z : uint64 (int64 z) = uint64 z.
Proof.
  unfold uint64, int64. destruct (_ <? _).
  - unfold two64. by rewrite Z.mod_mod by lia.
  - replace (z mod two64 - two64) with (z mod two64 + (-1) * two64) by lia.
    rewrite Z.mod_add by (unfold two64; lia).
    unfold two64. by rewrite Z.mod_mod by lia.
Qed.

Lemma u64_succ z : is_u64 (z + 1) → 0 <= z → z +64 1 = z + 1.
Proof. intros. by apply uint64_id. Qed.

Lemma u64_sub_id a b : is_u64 a → 0 <= b <= a → a -64 b = a - b.
Proof. intros [? ?] ?. apply uint64_id. unfold is_u64. lia. Qed.

#[export] Hint Resolve is_idx_u64 uint64_range : go.

(** ** Majorities

    Two duplicate-free lists drawn from a common list of members, whose lengths
    add up to more than the number of members, share an element. *)

Lemma quorum_intersection {A} `{EqDecision A} (members q1 q2 : list A) :
  NoDup q1 → NoDup q2 →
  (∀ x, x ∈ q1 → x ∈ members) → (∀ x, x ∈ q2 → x ∈ members) →
  (length members < length q1 + length q2)%nat →
  ∃ x, x ∈ q1 ∧ x ∈ q2.
Proof.
  intros Hn1 Hn2 H1 H2 Hlen.
  destruct (decide (Exists (λ x, x ∈ q2) q1)) as [He|Hne].
  { apply Exists_exists in He as (x & ? & ?). eauto. }
  exfalso. apply not_Exists_Forall in Hne; [|intros x; apply _].
  rewrite Forall_forall in Hne.
  assert (NoDup (q1 ++ q2)) as Hn.
  { apply NoDup_app. split_and!; auto. }
  assert (q1 ++ q2 ⊆+ members) as Hsub.
  { apply NoDup_submseteq; [done|]. intros x [?|?]%elem_of_app; auto. }
  apply submseteq_length in Hsub. rewrite length_app in Hsub. lia.
Qed.
