(* ===== verification/GoStd.v ===== *)
(** * The parts of Go's standard library the program calls

    [strconv] (decimal numbers), [unicode/utf8] (rune decoding and encoding),
    and [strings] (splitting, trimming, replacing).  Go strings are sequences
    of bytes, so they are values of type [string] whose characters are bytes;
    a [[]byte] is one too. *)

From Stdlib Require Import Ascii String DecimalString DecimalN.
From stdpp Require Import strings.
From S2P Require Import Prelude.
#[local] Open Scope Z_scope.

(** ** strconv *)

(** [strconv.FormatUint(z, 10)]. *)
Definition FormatUint (z : Z) : string :=
  NilZero.string_of_uint (N.to_uint (Z.to_N z)).

(** A non-empty sequence of decimal digits and its value, of any size. *)
Definition parse_digits (s : string) : option Z :=
  match NilZero.uint_of_string s with
  | Some d => Some (Z.of_N (N.of_uint d))
  | None => None
  end.

(** [strconv.ParseUint(s, 10, 64)]: digits only, and the value fits. *)
Definition ParseUint (s : string) : result Z :=
  match parse_digits s with
  | Some z => if z <? two64 then Ok z else Err (ErrSyntax s)
  | None => Err (ErrSyntax s)
  end.

(** [strconv.Atoi]: an optional sign, digits, and the value fits an [int]. *)
Definition Atoi (s : string) : result Z :=
  match s with
  | String "-"%char s' =>
      match parse_digits s' with
      | Some z => if z <=? two63 then Ok (- z) else Err (ErrSyntax s)
      | None => Err (ErrSyntax s)
      end
  | String "+"%char s' =>
      match parse_digits s' with
      | Some z => if z <? two63 then Ok z else Err (ErrSyntax s)
      | None => Err (ErrSyntax s)
      end
  | _ =>
      match parse_digits s with
      | Some z => if z <? two63 then Ok z else Err (ErrSyntax s)
      | None => Err (ErrSyntax s)
      end
  end.

(** [strconv.Itoa]. *)
Definition Itoa (z : Z) : string :=
  if z <? 0 then String "-"%char (FormatUint (- z)) else FormatUint z.

(** ** unicode/utf8 *)

Definition byte_val (c : ascii) : Z := Z.of_N (N_of_ascii c).
Definition byte_of (z : Z) : ascii := ascii_of_N (Z.to_N z).

Definition RuneError : Z := 65533. (* U+FFFD *)

Definition in_range (lo hi z : Z) : bool := (lo <=? z) && (z <=? hi).

(** One step of decoding: the rune, the bytes it was read from, and the rest. *)
Record rune_step := RuneStep { rs_rune : Z; rs_bytes : string; rs_rest : string }.

(** [utf8.DecodeRuneInString]: [None] for the empty string; a malformed first
    byte gives [RuneError] read from that one byte. *)
Definition DecodeRune (s : string) : option rune_step :=
  match s with
  | EmptyString => None
  | String b0 s1 =>
      let c0 := byte_val b0 in
      let bad := Some (RuneStep RuneError (String b0 EmptyString) s1) in
      if c0 <? 128 then Some (RuneStep c0 (String b0 EmptyString) s1)
      else if in_range 194 223 c0 then
        match s1 with
        | String b1 s2 =>
            if in_range 128 191 (byte_val b1) then
              Some (RuneStep ((c0 - 192) * 64 + (byte_val b1 - 128))
                (String b0 (String b1 EmptyString)) s2)
            else bad
        | _ => bad
        end
      else if in_range 224 239 c0 then
        match s1 with
        | String b1 (String b2 s3) =>
            let lo := if c0 =? 224 then 160 else 128 in
            let hi := if c0 =? 237 then 159 else 191 in
            if in_range lo hi (byte_val b1) && in_range 128 191 (byte_val b2) then
              Some (RuneStep
                ((c0 - 224) * 4096 + (byte_val b1 - 128) * 64 + (byte_val b2 - 128))
                (String b0 (String b1 (String b2 EmptyString))) s3)
            else bad
        | _ => bad
        end
      else if in_range 240 244 c0 then
        match s1 with
        | String b1 (String b2 (String b3 s4)) =>
            let lo := if c0 =? 240 then 144 else 128 in
            let hi := if c0 =? 244 then 143 else 191 in
            if in_range lo hi (byte_val b1) && in_range 128 191 (byte_val b2)
               && in_range 128 191 (byte_val b3) then
              Some (RuneStep
                ((c0 - 240) * 262144 + (byte_val b1 - 128) * 4096
                  + (byte_val b2 - 128) * 64 + (byte_val b3 - 128))
                (String b0 (String b1 (String b2 (String b3 EmptyString)))) s4)
            else bad
        | _ => bad
        end
      else bad
  end.

(** [utf8.AppendRune]: surrogates and values past U+10FFFF encode [RuneError]. *)
Definition EncodeRune (r : Z) : string :=
  let r := if in_range 0 1114111 r && negb (in_range 55296 57343 r) then r else RuneError in
  if r <? 128 then String (byte_of r) EmptyString
  else if r <? 2048 then
    String (byte_of (192 + r / 64)) (String (byte_of (128 + r mod 64)) EmptyString)
  else if r <? 65536 then
    String (byte_of (224 + r / 4096))
      (String (byte_of (128 + (r / 64) mod 64))
        (String (byte_of (128 + r mod 64)) EmptyString))
  else
    String (byte_of (240 + r / 262144))
      (String (byte_of (128 + (r / 4096) mod 64))
        (String (byte_of (128 + (r / 64) mod 64))
          (String (byte_of (128 + r mod 64)) EmptyString))).

(** The runes of a string with the bytes each was read from: the loop
    [for i < len(s) { r, size := utf8.DecodeRuneInString(s[i:]); i += size }].
    Every step consumes at least one byte, so [length s] steps are enough. *)
Fixpoint runes_go (fuel : nat) (s : string) : list (Z * string) :=
  match fuel with
  | O => []
  | S fuel =>
      match DecodeRune s with
      | None => []
      | Some st => (rs_rune st, rs_bytes st) :: runes_go fuel (rs_rest st)
      end
  end.

Definition runes (s : string) : list (Z * string) := runes_go (String.length s) s.

(** [r == utf8.RuneError && size == 1]: the bytes were not a valid encoding. *)
Definition bad_rune (rb : Z * string) : bool :=
  (rb.1 =? RuneError) && (String.length rb.2 =? 1)%nat.

(** [utf8.ValidString]. *)
Definition ValidString (s : string) : bool := forallb (λ rb, negb (bad_rune rb)) (runes s).

(** ** strings *)

(** [unicode.IsSpace]. *)
Definition IsSpace (r : Z) : bool :=
  in_range 9 13 r || (r =? 32) || (r =? 133) || (r =? 160) || (r =? 5760)
  || in_range 8192 8202 r || (r =? 8232) || (r =? 8233) || (r =? 8239)
  || (r =? 8287) || (r =? 12288).

Definition concat_bytes (rs : list (Z * string)) : string :=
  foldr (λ rb acc, rb.2 +:+ acc) "" rs.

Fixpoint drop_spaces (rs : list (Z * string)) : list (Z * string) :=
  match rs with
  | rb :: rs' => if IsSpace rb.1 then drop_spaces rs' else rs
  | [] => []
  end.

(** [strings.TrimSpace]. *)
Definition TrimSpace (s : string) : string :=
  concat_bytes (reverse (drop_spaces (reverse (drop_spaces (runes s))))).

(** [strings.Split(s, sep)] for a one-byte separator. *)
Fixpoint Split (sep : ascii) (s : string) : list string :=
  match s with
  | EmptyString => [""]
  | String c s' =>
      if bool_decide (c = sep) then "" :: Split sep s'
      else match Split sep s' with
           | h :: t => String c h :: t
           | [] => [String c ""]
           end
  end.

(** Everything before the first [sep] and, when there is one, everything after. *)
Fixpoint cut (sep : ascii) (s : string) : string * option string :=
  match s with
  | EmptyString => ("", None)
  | String c s' =>
      if bool_decide (c = sep) then ("", Some s')
      else let '(a, b) := cut sep s' in (String c a, b)
  end.

(** [strings.SplitN(s, sep, 2)]. *)
Definition SplitN2 (sep : ascii) (s : string) : list string :=
  match cut sep s with
  | (a, None) => [a]
  | (a, Some b) => [a; b]
  end.

(** [strings.ReplaceAll(s, old, new)] for a one-byte [old]. *)
Fixpoint ReplaceAll (s : string) (old : ascii) (new : string) : string :=
  match s with
  | EmptyString => ""
  | String c s' =>
      if bool_decide (c = old) then new +:+ ReplaceAll s' old new
      else String c (ReplaceAll s' old new)
  end.

(** [strings.Contains]. *)
Definition Contains (s sub : string) : bool :=
  match String.index 0 sub s with Some _ => true | None => false end.

(** [sort.Strings]: bytewise lexicographic order. *)
Definition sort_strings : list string → list string := merge_sort String.le.

(** ** Decimal round trips *)

Lemma to_uint_nonnil n : N.to_uint n ≠ Decimal.Nil.
Proof. destruct n as [|p]; [done|]. apply DecimalPos.Unsigned.to_uint_nonnil. Qed.

Lemma parse_digits_FormatUint z : 0 <= z → parse_digits (FormatUint z) = Some z.
Proof.
  intros Hz. unfold parse_digits, FormatUint.
  rewrite NilZero.usu by apply to_uint_nonnil.
  by rewrite DecimalN.Unsigned.of_to, Z2N.id.
Qed.

Lemma ParseUint_FormatUint z : is_u64 z → ParseUint (FormatUint z) = Ok z.
Proof.
  intros [? Hlt]. unfold ParseUint. rewrite parse_digits_FormatUint by done.
  by destruct (Z.ltb_spec z two64); [|lia].
Qed.

Lemma FormatUint_inj a b : 0 <= a → 0 <= b → FormatUint a = FormatUint b → a = b.
Proof.
  intros Ha Hb Heq. apply parse_digits_FormatUint in Ha, Hb. congruence.
Qed.

Lemma ParseUint_range s z : ParseUint s = Ok z → is_u64 z.
Proof.
  unfold ParseUint, parse_digits, is_u64. intros H.
  destruct (NilZero.uint_of_string s) as [d|]; [|done].
  destruct (Z.ltb_spec (Z.of_N (N.of_uint d)) two64); simplify_eq. lia.
Qed.

#[export] Hint Rewrite ParseUint_FormatUint using done : go_rw.

(** ** Bytes *)

Lemma byte_val_range c : 0 <= byte_val c < 256.
Proof. unfold byte_val. pose proof (N_ascii_bounded c). lia. Qed.

Lemma byte_of_val c : byte_of (byte_val c) = c.
Proof. unfold byte_of, byte_val. by rewrite N2Z.id, ascii_N_embedding. Qed.

Lemma byte_val_of z : 0 <= z < 256 → byte_val (byte_of z) = z.
Proof.
  intros. unfold byte_of, byte_val. rewrite N_ascii_embedding by lia. lia.
Qed.

Lemma byte_of_eq c z : z = byte_val c → byte_of z = c.
Proof. intros ->. apply byte_of_val. Qed.

Lemma in_range_true lo hi z : in_range lo hi z = true ↔ lo <= z <= hi.
Proof. unfold in_range. rewrite andb_true_iff. lia. Qed.

(** ** Strings as concatenations *)

Lemma string_app_nil_l (s : string) : "" +:+ s = s.
Proof. done. Qed.

Lemma string_app_cons c (s t : string) : String c s +:+ t = String c (s +:+ t).
Proof. done. Qed.

Lemma string_app_nil_r (s : string) : s +:+ "" = s.
Proof. induction s as [|c s IH]; [done|]. by rewrite string_app_cons, IH. Qed.

Lemma string_app_assoc (a b c : string) : (a +:+ b) +:+ c = a +:+ b +:+ c.
Proof. induction a as [|x a IH]; [done|]. by rewrite !string_app_cons, IH. Qed.

Lemma string_length_app (a b : string) :
  String.length (a +:+ b) = (String.length a + String.length b)%nat.
Proof. induction a as [|x a IH]; [done|]. rewrite string_app_cons. cbn. by rewrite IH. Qed.

#[export] Hint Rewrite string_app_nil_l string_app_cons string_app_nil_r
  string_app_assoc string_length_app : go_rw.

(** ** Decoding runes *)

(** Case analysis on the tests of [DecodeRune]. *)
Ltac decode_cases :=
  repeat (match goal with
          | |- context [match ?s with EmptyString => _ | String _ _ => _ end] => destruct s
          | H : context [match ?s with EmptyString => _ | String _ _ => _ end] |- _ => destruct s
          | |- context [if ?b then _ else _] => let E := fresh "E" in destruct b eqn:E
          | H : context [if ?b then _ else _] |- _ => let E := fresh "E" in destruct b eqn:E
          end; simplify_eq; cbn [rs_rune rs_bytes rs_rest] in * ).

Lemma DecodeRune_split s st : DecodeRune s = Some st → s = rs_bytes st +:+ rs_rest st.
Proof. unfold DecodeRune. intros H. decode_cases; done. Qed.

Lemma DecodeRune_bytes s st : DecodeRune s = Some st → (1 ≤ String.length (rs_bytes st))%nat.
Proof. unfold DecodeRune. intros H. decode_cases; cbn; lia. Qed.

Lemma DecodeRune_None s : DecodeRune s = None → s = "".
Proof. unfold DecodeRune. intros H. decode_cases; done. Qed.

Definition good_step (st : rune_step) : Prop := bad_rune (rs_rune st, rs_bytes st) = false.

(** A well-formed first rune is read the same whatever follows it. *)
Lemma DecodeRune_extend s st t :
  DecodeRune s = Some st → good_step st →
  DecodeRune (rs_bytes st +:+ t) = Some (RuneStep (rs_rune st) (rs_bytes st) t).
Proof.
  unfold good_step. intros H Hg. unfold DecodeRune in H. decode_cases; try done;
    unfold DecodeRune; rewrite ?string_app_cons, ?string_app_nil_l; cbv zeta;
    repeat match goal with E : ?b = _ |- context [?b] => rewrite E end; done.
Qed.

(** Re-encoding a well-formed rune gives back the bytes it was read from. *)
Lemma EncodeRune_DecodeRune s st :
  DecodeRune s = Some st → good_step st → EncodeRune (rs_rune st) = rs_bytes st.
Proof.
  unfold DecodeRune, good_step, bad_rune. intros H Hg. decode_cases; try done;
    cbn [fst snd] in *;
    rewrite ?andb_true_iff, ?in_range_true in *; destruct_and?;
    repeat match goal with c : ascii |- _ =>
      lazymatch goal with
      | _ : 0 <= byte_val c < 256 |- _ => fail
      | _ => pose proof (byte_val_range c)
      end end;
    unfold EncodeRune, in_range, RuneError in *;
    repeat case_match; rewrite ?andb_true_iff, ?andb_false_iff, ?negb_true_iff,
      ?negb_false_iff, ?andb_true_iff, ?andb_false_iff in *;
    try (exfalso; lia);
    repeat (f_equal; try (apply byte_of_eq)); Z.to_euclidean_division_equations; lia.
Qed.

(** ** Segmenting a string into runes *)

Lemma runes_go_fuel n m s :
  (String.length s ≤ n)%nat → (String.length s ≤ m)%nat → runes_go n s = runes_go m s.
Proof.
  revert m s. induction n as [|n IH]; intros [|m] s Hn Hm; cbn;
    try (destruct s; cbn in *; [done|lia]); try done.
  destruct (DecodeRune s) as [st|] eqn:E; [|done]. f_equal.
  pose proof (DecodeRune_bytes _ _ E). apply DecodeRune_split in E.
  apply IH; rewrite E, string_length_app in *; lia.
Qed.

Lemma runes_unfold s :
  runes s = match DecodeRune s with
            | None => []
            | Some st => (rs_rune st, rs_bytes st) :: runes (rs_rest st)
            end.
Proof.
  unfold runes at 1. destruct s as [|c s]; [done|].
  cbn [String.length runes_go]. destruct (DecodeRune _) as [st|] eqn:E; [|done].
  f_equal. pose proof (DecodeRune_bytes _ _ E). apply DecodeRune_split in E.
  apply runes_go_fuel; [|done].
  apply (f_equal String.length) in E. rewrite string_length_app in E. cbn in E. lia.
Qed.

(** Induction over a string one rune at a time. *)
Lemma rune_ind (P : string → Prop) :
  P "" → (∀ s st, DecodeRune s = Some st → P (rs_rest st) → P s) → ∀ s, P s.
Proof.
  intros Hnil Hstep s. remember (String.length s) as n eqn:En.
  revert s En. induction (lt_wf n) as [n _ IH]; intros s ->.
  destruct (DecodeRune s) as [st|] eqn:E.
  - eapply Hstep; [done|]. eapply IH; [|done].
    pose proof (DecodeRune_bytes _ _ E). apply DecodeRune_split in E.
    rewrite E, string_length_app. lia.
  - apply DecodeRune_None in E as ->. done.
Qed.

Lemma concat_bytes_runes s : concat_bytes (runes s) = s.
Proof.
  induction s as [|s st E IH] using rune_ind; [done|].
  rewrite runes_unfold, E. unfold concat_bytes in *. cbn. rewrite IH.
  symmetry. by apply DecodeRune_split.
Qed.

Lemma ValidString_step s st :
  DecodeRune s = Some st → ValidString s = true →
  good_step st ∧ ValidString (rs_rest st) = true.
Proof.
  intros E. unfold ValidString. rewrite runes_unfold, E. cbn.
  rewrite andb_true_iff, negb_true_iff. done.
Qed.

(** A string of ASCII bytes is well-formed UTF-8. *)
Definition is_ascii (s : string) : Prop :=
  Forall (λ c, byte_val c < 128) (String.list_ascii_of_string s).

Lemma is_ascii_valid s : is_ascii s → ValidString s = true.
Proof.
  unfold is_ascii, ValidString. induction s as [|c s IH]; [done|].
  intros [Hc Hs]%Forall_cons. rewrite runes_unfold. unfold DecodeRune.
  destruct (Z.ltb_spec (byte_val c) 128); [|lia].
  cbn [rs_rune rs_bytes rs_rest forallb]. rewrite IH by done.
  rewrite andb_true_r, negb_true_iff. unfold bad_rune, RuneError.
  apply andb_false_iff. left. apply Z.eqb_neq. cbn. lia.
Qed.

(** ** Splitting *)

Lemma Split_nonempty sep s : Split sep s ≠ [].
Proof. destruct s; cbn; repeat case_match; done. Qed.

Lemma cut_spec sep s a b : cut sep s = (a, Some b) → s = a +:+ String sep b.
Proof.
  revert a b. induction s as [|c s IH]; intros a b; cbn; [done|].
  case_bool_decide as E.
  - intros [= <- <-]. by subst.
  - destruct (cut sep s) as [a' b'] eqn:Ec. intros [= <- ->].
    rewrite string_app_cons. f_equal. by apply IH.
Qed.
