(* ===== verification/Json.v ===== *)
(** * The JSON the program writes and reads

    [encoding/json] as the source uses it: [json.Marshal] of a struct of strings
    (a log command) and of a [map[string]string] (a snapshot), and
    [json.Unmarshal] into the same two types.  The writer escapes as the
    standard library does (HTML characters, control bytes, invalid UTF-8); the
    reader accepts every JSON document, so that the behaviour on documents the
    program did not write is the library's too. *)

From Stdlib Require Import Ascii String.
From stdpp Require Import strings.
From S2P Require Import Prelude GoStd.
#[local] Open Scope Z_scope.

(** ** Writing strings *)

Definition dquote : ascii := ascii_of_nat 34.
Definition bslash : ascii := ascii_of_nat 92.

(** [hex = "0123456789abcdef"]. *)
Definition hex_digit (n : Z) : ascii :=
  if n <? 10 then byte_of (48 + n) else byte_of (87 + n).

(** [htmlSafeSet]: ASCII bytes written as they are. *)
Definition html_safe (r : Z) : bool :=
  (32 <=? r) && negb ((r =? 34) || (r =? 38) || (r =? 60) || (r =? 62) || (r =? 92)).

Definition esc (c : ascii) : string := String bslash (String c "").

Definition escape_ascii (r : Z) : string :=
  if (r =? 34) || (r =? 92) then esc (byte_of r)
  else if r =? 8 then esc "b"
  else if r =? 12 then esc "f"
  else if r =? 10 then esc "n"
  else if r =? 13 then esc "r"
  else if r =? 9 then esc "t"
  else "\u00" +:+ String (hex_digit (r / 16)) (String (hex_digit (r mod 16)) "").

(** What [appendString] writes for one rune of its argument. *)
Definition quote_rune (rb : Z * string) : string :=
  let '(r, b) := rb in
  if bad_rune rb then "\ufffd"
  else if r <? 128 then
    if html_safe r then b else escape_ascii r
  else if (r =? 8232) || (r =? 8233) then
    "\u202" +:+ String (hex_digit (r mod 16)) ""
  else b.

Definition quote_body (s : string) : string :=
  foldr (λ rb acc, quote_rune rb +:+ acc) "" (runes s).

(** A JSON string literal, quotes included. *)
Definition quote (s : string) : string :=
  String dquote (quote_body s +:+ String dquote "").

(** [json.Marshal] of a [map[string]string]: members sorted by key. *)
Definition key_le (a b : string * string) : Prop := String.le a.1 b.1.

#[global] Instance key_le_dec a b : Decision (key_le a b).
Proof. unfold key_le. apply _. Defined.

Definition member (kv : string * string) : string :=
  quote kv.1 +:+ String ":" (quote kv.2).

Fixpoint members (l : list (string * string)) : string :=
  match l with
  | [] => ""
  | [kv] => member kv
  | kv :: l' => member kv +:+ String "," (members l')
  end.

Definition MarshalMap (m : gmap string string) : string :=
  String "{" (members (merge_sort key_le (map_to_list m)) +:+ String "}" "").

(** ** Reading documents *)

#[warnings="-register-all"]
Inductive json : Type :=
| JNull
| JBool (b : bool)
| JNum (raw : string)
| JStr (s : string)
| JArr (l : list json)
| JObj (l : list (string * json)).

Definition is_ws (c : ascii) : bool :=
  let z := byte_val c in (z =? 32) || (z =? 9) || (z =? 10) || (z =? 13).

Fixpoint skip_ws (s : string) : string :=
  match s with
  | String c s' => if is_ws c then skip_ws s' else s
  | EmptyString => ""
  end.

Definition hex_val (c : ascii) : option Z :=
  let z := byte_val c in
  if in_range 48 57 z then Some (z - 48)
  else if in_range 97 102 z then Some (z - 87)
  else if in_range 65 70 z then Some (z - 55)
  else None.

(** [getu4], after the backslash and the [u]: four hexadecimal digits. *)
Definition hex4 (s : string) : option (Z * string) :=
  match s with
  | String a (String b (String c (String d t))) =>
      match hex_val a, hex_val b, hex_val c, hex_val d with
      | Some a, Some b, Some c, Some d => Some (a * 4096 + b * 256 + c * 16 + d, t)
      | _, _, _, _ => None
      end
  | _ => None
  end.

Definition is_surrogate (r : Z) : bool := in_range 55296 57343 r.

(** What follows a [\uXXXX] escape that reads a surrogate: a second escape that
    completes the pair, or nothing, which decodes as [RuneError]. *)
Definition low_surrogate (r : Z) (t : string) : Z * string :=
  match t with
  | String c (String u t') =>
      if bool_decide (c = bslash) && bool_decide (u = "u"%char) then
        match hex4 t' with
        | Some (r2, t'') =>
            if in_range 55296 56319 r && in_range 56320 57343 r2
            then ((r - 55296) * 1024 + (r2 - 56320) + 65536, t'')
            else (RuneError, t)
        | None => (RuneError, t)
        end
      else (RuneError, t)
  | _ => (RuneError, t)
  end.

Inductive unquote_step : Type :=
| UEnd (rest : string)
| UPut (out rest : string).

Definition unquote_escape (s : string) : option unquote_step :=
  match s with
  | EmptyString => None
  | String e t =>
      let z := byte_val e in
      if (z =? 34) || (z =? 92) || (z =? 47) then Some (UPut (String e "") t)
      else if z =? 98 then Some (UPut (String (byte_of 8) "") t)
      else if z =? 102 then Some (UPut (String (byte_of 12) "") t)
      else if z =? 110 then Some (UPut (String (byte_of 10) "") t)
      else if z =? 114 then Some (UPut (String (byte_of 13) "") t)
      else if z =? 116 then Some (UPut (String (byte_of 9) "") t)
      else if z =? 117 then
        match hex4 t with
        | None => None
        | Some (r, t') =>
            if is_surrogate r then
              let '(r', t'') := low_surrogate r t' in Some (UPut (EncodeRune r') t'')
            else Some (UPut (EncodeRune r) t')
        end
      else None
  end.

(** One step inside a string literal: its end, or the bytes it contributes.
    Control bytes are rejected and invalid UTF-8 is coerced to U+FFFD. *)
Definition unquote_one (s : string) : option unquote_step :=
  match DecodeRune s with
  | None => None
  | Some st =>
      let r := rs_rune st in
      if r =? 34 then Some (UEnd (rs_rest st))
      else if r =? 92 then unquote_escape (rs_rest st)
      else if r <? 32 then None
      else Some (UPut (EncodeRune r) (rs_rest st))
  end.

Fixpoint unquote_go (fuel : nat) (s : string) : option (string * string) :=
  match fuel with
  | O => None
  | S fuel =>
      match unquote_one s with
      | None => None
      | Some (UEnd rest) => Some ("", rest)
      | Some (UPut out rest) =>
          match unquote_go fuel rest with
          | None => None
          | Some (s', rest') => Some (out +:+ s', rest')
          end
      end
  end.

(** The literal that starts after an opening quote, and what follows it.  Every
    step consumes a byte, so the length of the input bounds the steps. *)
Definition unquote (s : string) : option (string * string) :=
  unquote_go (String.length s) s.

Fixpoint take_digits (s : string) : string * string :=
  match s with
  | String c s' =>
      if in_range 48 57 (byte_val c)
      then let '(d, r) := take_digits s' in (String c d, r)
      else ("", s)
  | EmptyString => ("", "")
  end.

(** At least one digit. *)
Definition digits1 (s : string) : option (string * string) :=
  match take_digits s with
  | (EmptyString, _) => None
  | (d, r) => Some (d, r)
  end.

(** [0 | [1-9][0-9]*]. *)
Definition int_part (s : string) : option (string * string) :=
  match s with
  | String "0"%char s' => Some ("0", s')
  | _ => digits1 s
  end.

Definition frac_part (s : string) : option (string * string) :=
  match s with
  | String "."%char s' =>
      match digits1 s' with Some (d, r) => Some (String "." d, r) | None => None end
  | _ => Some ("", s)
  end.

Definition exp_part (s : string) : option (string * string) :=
  match s with
  | String c s' =>
      if (byte_val c =? 101) || (byte_val c =? 69) then
        let '(sg, s'') :=
          match s' with
          | String "+"%char t => ("+", t)
          | String "-"%char t => ("-", t)
          | _ => ("", s')
          end in
        match digits1 s'' with
        | Some (d, r) => Some (String c (sg +:+ d), r)
        | None => None
        end
      else Some ("", s)
  | EmptyString => Some ("", s)
  end.

Definition parse_number (s : string) : option (string * string) :=
  let '(sg, s0) := match s with String "-"%char t => ("-", t) | _ => ("", s) end in
  match int_part s0 with
  | None => None
  | Some (i, s1) =>
      match frac_part s1 with
      | None => None
      | Some (f, s2) =>
          match exp_part s2 with
          | None => None
          | Some (e, s3) => Some (sg +:+ i +:+ f +:+ e, s3)
          end
      end
  end.

(** [maxNestingDepth]. *)
Definition max_depth : Z := 10000.

(** Values, the elements of an array after its bracket, and the members of an
    object from its first key.  Each call consumes a byte per unit of fuel. *)
Fixpoint parse_value (fuel : nat) (depth : Z) (s : string) : option (json * string) :=
  match fuel with
  | O => None
  | S fuel =>
      match skip_ws s with
      | EmptyString => None
      | String c t =>
          if bool_decide (c = dquote) then
            match unquote t with Some (x, r) => Some (JStr x, r) | None => None end
          else if bool_decide (c = "{"%char) then
            if max_depth <=? depth then None
            else match skip_ws t with
                 | String "}"%char r => Some (JObj [], r)
                 | t' => match parse_members fuel (depth + 1) t' with
                         | Some (l, r) => Some (JObj l, r)
                         | None => None
                         end
                 end
          else if bool_decide (c = "["%char) then
            if max_depth <=? depth then None
            else match skip_ws t with
                 | String "]"%char r => Some (JArr [], r)
                 | t' => match parse_elements fuel (depth + 1) t' with
                         | Some (l, r) => Some (JArr l, r)
                         | None => None
                         end
                 end
          else match String c t with
               | String "t" (String "r" (String "u" (String "e" r))) => Some (JBool true, r)
               | String "f" (String "a" (String "l" (String "s" (String "e" r)))) =>
                   Some (JBool false, r)
               | String "n" (String "u" (String "l" (String "l" r))) => Some (JNull, r)
               | s' => match parse_number s' with
                       | Some (n, r) => Some (JNum n, r)
                       | None => None
                       end
               end%char
      end
  end
with parse_members (fuel : nat) (depth : Z) (s : string) :
    option (list (string * json) * string) :=
  match fuel with
  | O => None
  | S fuel =>
      match s with
      | EmptyString => None
      | String q t =>
          if bool_decide (q = dquote) then
            match unquote t with
            | None => None
            | Some (k, r1) =>
                match skip_ws r1 with
                | String ":"%char r2 =>
                    match parse_value fuel depth r2 with
                    | None => None
                    | Some (v, r3) =>
                        match skip_ws r3 with
                        | String "}"%char r4 => Some ([(k, v)], r4)
                        | String ","%char r4 =>
                            match parse_members fuel depth (skip_ws r4) with
                            | Some (l, r5) => Some ((k, v) :: l, r5)
                            | None => None
                            end
                        | _ => None
                        end
                    end
                | _ => None
                end
            end
          else None
      end
  end
with parse_elements (fuel : nat) (depth : Z) (s : string) :
    option (list json * string) :=
  match fuel with
  | O => None
  | S fuel =>
      match parse_value fuel depth s with
      | None => None
      | Some (v, r) =>
          match skip_ws r with
          | String "]"%char r' => Some ([v], r')
          | String ","%char r' =>
              match parse_elements fuel depth r' with
              | Some (l, r'') => Some (v :: l, r'')
              | None => None
              end
          | _ => None
          end
      end
  end.

(** A whole document: one value and nothing but white space after it. *)
Definition parse_document (raw : string) : option json :=
  match parse_value (S (String.length raw)) 0 raw with
  | Some (v, r) => match skip_ws r with EmptyString => Some v | _ => None end
  | None => None
  end.

(** [json.Unmarshal(raw, &values)] into an empty [map[string]string]. *)
Fixpoint fill_map (l : list (string * json)) (m : gmap string string) :
    result (gmap string string) :=
  match l with
  | [] => Ok m
  | (k, JStr s) :: l' => fill_map l' (<[k := s]> m)
  | (k, JNull) :: l' => fill_map l' (<[k := ""]> m)
  | _ => Err (ErrJSON "cannot unmarshal into Go value of type string")
  end.

Definition UnmarshalMap (raw : string) : result (gmap string string) :=
  match parse_document raw with
  | None => Err (ErrJSON "invalid document")
  | Some JNull => Ok ∅
  | Some (JObj l) => fill_map l ∅
  | Some _ => Err (ErrJSON "cannot unmarshal into Go value of type map[string]string")
  end.

(** The string a reader gets back: invalid bytes replaced by U+FFFD. *)
Definition coerce_rune (rb : Z * string) : string :=
  if bad_rune rb then EncodeRune RuneError else rb.2.

Definition coerce_utf8 (s : string) : string :=
  foldr (λ rb acc, coerce_rune rb +:+ acc) "" (runes s).

(** ** Lemmas: one escape *)

Lemma coerce_utf8_step s st :
  DecodeRune s = Some st →
  coerce_utf8 s = coerce_rune (rs_rune st, rs_bytes st) +:+ coerce_utf8 (rs_rest st).
Proof. intros E. unfold coerce_utf8. by rewrite runes_unfold, E. Qed.

Lemma coerce_utf8_valid s : ValidString s = true → coerce_utf8 s = s.
Proof.
  induction s as [|s st E IH] using rune_ind; [done|]. intros Hv.
  destruct (ValidString_step _ _ E Hv) as [Hg Hv'].
  rewrite (coerce_utf8_step _ _ E), IH by done.
  unfold coerce_rune. rewrite Hg. cbn. symmetry. by apply DecodeRune_split.
Qed.

Lemma quote_body_step s st :
  DecodeRune s = Some st →
  quote_body s = quote_rune (rs_rune st, rs_bytes st) +:+ quote_body (rs_rest st).
Proof. intros E. unfold quote_body. by rewrite runes_unfold, E. Qed.

Lemma hex_val_digit n : 0 <= n < 16 → hex_val (hex_digit n) = Some n.
Proof.
  intros Hn. unfold hex_val, hex_digit.
  destruct (Z.ltb_spec n 10); rewrite byte_val_of by lia; unfold in_range;
    repeat case_match; rewrite ?andb_true_iff, ?andb_false_iff in *;
    first [f_equal; lia | exfalso; lia].
Qed.

(** A rune below 128 was read from the one byte that is its value. *)
Lemma DecodeRune_ascii s st :
  DecodeRune s = Some st → good_step st → rs_rune st < 128 →
  0 <= rs_rune st ∧ rs_bytes st = String (byte_of (rs_rune st)) "".
Proof.
  unfold good_step. intros H Hg Hlt. unfold DecodeRune in H. decode_cases;
    rewrite ?andb_true_iff, ?in_range_true in *; destruct_and?;
    try (unfold RuneError in *; lia);
    repeat match goal with c : ascii |- _ =>
      lazymatch goal with
      | _ : 0 <= byte_val c < 256 |- _ => fail
      | _ => pose proof (byte_val_range c)
      end end; try lia.
  all: split; [lia|]. all: by rewrite byte_of_val.
Qed.

(** The first byte of a literal decides what [unquote_one] does with it. *)
Lemma DecodeRune_byte c t :
  byte_val c < 128 → DecodeRune (String c t) = Some (RuneStep (byte_val c) (String c "") t).
Proof. intros H. unfold DecodeRune. by destruct (Z.ltb_spec (byte_val c) 128); [|lia]. Qed.

Lemma unquote_one_escape t : unquote_one (String bslash t) = unquote_escape t.
Proof. unfold unquote_one. by rewrite DecodeRune_byte. Qed.

Lemma unquote_one_end t : unquote_one (String dquote t) = Some (UEnd t).
Proof. unfold unquote_one. by rewrite DecodeRune_byte. Qed.

Lemma escape_ascii_unquote r t :
  0 <= r < 128 → html_safe r = false →
  unquote_one (escape_ascii r +:+ t) = Some (UPut (String (byte_of r) "") t).
Proof.
  intros Hr. destruct r as [|p|p]; [done| |lia].
  do 7 (destruct p as [p|p|]; try done). all: lia.
Qed.

Lemma quote_rune_unquote s st t :
  DecodeRune s = Some st →
  unquote_one (quote_rune (rs_rune st, rs_bytes st) +:+ t) =
  Some (UPut (coerce_rune (rs_rune st, rs_bytes st)) t).
Proof.
  intros E. unfold quote_rune, coerce_rune. cbn [snd].
  destruct (bad_rune _) eqn:Hg; [done|].
  destruct (Z.ltb_spec (rs_rune st) 128) as [Hlt|Hge].
  - destruct (DecodeRune_ascii _ _ E Hg Hlt) as [Hpos Hb].
    destruct (html_safe _) eqn:Hs; [|rewrite Hb; by apply escape_ascii_unquote].
    unfold unquote_one. rewrite (DecodeRune_extend _ _ _ E Hg). cbn [rs_rune rs_rest].
    rewrite (EncodeRune_DecodeRune _ _ E Hg). unfold html_safe in Hs.
    rewrite andb_true_iff, negb_true_iff, !orb_false_iff in Hs.
    repeat (case_match; [lia|]). done.
  - destruct ((rs_rune st =? 8232) || _) eqn:Hl.
    + rewrite <- (EncodeRune_DecodeRune _ _ E Hg).
      apply orb_true_iff in Hl as [->%Z.eqb_eq| ->%Z.eqb_eq]; done.
    + unfold unquote_one. rewrite (DecodeRune_extend _ _ _ E Hg). cbn [rs_rune rs_rest].
      rewrite (EncodeRune_DecodeRune _ _ E Hg).
      repeat (case_match; [lia|]). done.
Qed.

(** ** Round trip of a literal *)

Lemma unquote_go_quote fuel s t :
  (String.length (quote_body s +:+ String dquote t) ≤ fuel)%nat →
  unquote_go fuel (quote_body s +:+ String dquote t) = Some (coerce_utf8 s, t).
Proof.
  revert fuel. induction s as [|s st E IH] using rune_ind; intros fuel Hf.
  - change (quote_body "" +:+ String dquote t) with (String dquote t) in *.
    destruct fuel as [|fuel]; [cbn in Hf; lia|]. cbn [unquote_go].
    by rewrite unquote_one_end.
  - rewrite (quote_body_step _ _ E), string_app_assoc in *.
    rewrite string_length_app in Hf.
    assert (1 ≤ String.length (quote_rune (rs_rune st, rs_bytes st)))%nat as Hq.
    { pose proof (DecodeRune_bytes _ _ E). unfold quote_rune, escape_ascii, esc.
      repeat case_match; rewrite ?string_length_app; cbn; lia. }
    destruct fuel as [|fuel]; [lia|]. cbn [unquote_go].
    rewrite (quote_rune_unquote _ _ _ E), IH by lia.
    by rewrite (coerce_utf8_step _ _ E).
Qed.

Lemma unquote_quote s t : unquote (quote_body s +:+ String dquote t) = Some (coerce_utf8 s, t).
Proof. by apply unquote_go_quote. Qed.

Lemma quote_app s t : quote s +:+ t = String dquote (quote_body s +:+ String dquote t).
Proof. unfold quote. by rewrite string_app_cons, string_app_assoc. Qed.

Lemma skip_ws_nows c x : is_ws c = false → skip_ws (String c x) = String c x.
Proof. intros H. cbn. by rewrite H. Qed.

Lemma parse_value_quote fuel depth s t :
  parse_value (S fuel) depth (quote s +:+ t) = Some (JStr (coerce_utf8 s), t).
Proof.
  rewrite quote_app. cbn [parse_value]. rewrite skip_ws_nows by done.
  by rewrite bool_decide_true, unquote_quote.
Qed.

(** ** Round trip of an object of strings *)

Definition coerce_member (kv : string * string) : string * json :=
  (coerce_utf8 kv.1, JStr (coerce_utf8 kv.2)).

Lemma member_app kv t :
  member kv +:+ t = quote kv.1 +:+ String ":" (quote kv.2 +:+ t).
Proof. unfold member. by rewrite string_app_assoc, string_app_cons. Qed.

(** One step of [parse_members] over a written member. *)
Lemma parse_members_member fuel depth kv t :
  parse_members (S (S fuel)) depth (member kv +:+ t) =
  match skip_ws t with
  | String "}"%char r => Some ([coerce_member kv], r)
  | String ","%char r =>
      match parse_members (S fuel) depth (skip_ws r) with
      | Some (l, r') => Some (coerce_member kv :: l, r')
      | None => None
      end
  | _ => None
  end.
Proof.
  rewrite member_app, quote_app.
  remember (S fuel) as n eqn:En. cbn [parse_members].
  rewrite bool_decide_true, unquote_quote by done.
  rewrite skip_ws_nows by done. rewrite En, parse_value_quote. done.
Qed.

Lemma members_cons kv kv' l :
  members (kv :: kv' :: l) = member kv +:+ String "," (members (kv' :: l)).
Proof. done. Qed.

(** Written members start with a quote, so no white space is skipped. *)
Lemma members_quote kv l t : ∃ x, members (kv :: l) +:+ t = String dquote x.
Proof.
  destruct l; [cbn [members]|rewrite members_cons];
    rewrite ?string_app_assoc, member_app, quote_app; eauto.
Qed.

Lemma members_one kv : members [kv] = member kv.
Proof. done. Qed.

Lemma members_skip_ws kv l t : skip_ws (members (kv :: l) +:+ t) = members (kv :: l) +:+ t.
Proof. destruct (members_quote kv l t) as [x ->]. by rewrite skip_ws_nows. Qed.

Lemma parse_members_members l fuel depth t :
  l ≠ [] → (S (length l) ≤ fuel)%nat →
  parse_members fuel depth (members l +:+ String "}" t) = Some (coerce_member <$> l, t).
Proof.
  intros Hl. revert fuel. induction l as [|kv l IH]; [done|]; intros fuel Hf.
  destruct fuel as [|[|fuel]]; cbn in Hf; [lia..|].
  destruct l as [|kv' l].
  - cbn [members]. by rewrite parse_members_member.
  - rewrite members_cons, string_app_assoc, string_app_cons, parse_members_member.
    rewrite skip_ws_nows by done. rewrite members_skip_ws.
    cbn in Hf. by rewrite IH by (done || cbn; lia).
Qed.

Lemma members_length l : (length l ≤ String.length (members l))%nat.
Proof.
  induction l as [|kv [|kv' l] IH]; [done|..].
  - rewrite members_one. unfold member. rewrite string_length_app. cbn. lia.
  - rewrite members_cons, string_length_app. cbn [length String.length] in *. lia.
Qed.

Lemma parse_value_object n depth t x :
  depth < max_depth → skip_ws t = String dquote x →
  parse_value (S n) depth (String "{" t) =
  match parse_members n (depth + 1) (String dquote x) with
  | Some (l, r) => Some (JObj l, r)
  | None => None
  end.
Proof.
  intros Hd Hs. cbn [parse_value]. rewrite skip_ws_nows by done.
  rewrite bool_decide_false, bool_decide_true by done.
  destruct (Z.leb_spec max_depth depth); [lia|]. by rewrite Hs.
Qed.

Lemma parse_document_object l :
  parse_document (String "{" (members l +:+ String "}" "")) = Some (JObj (coerce_member <$> l)).
Proof.
  unfold parse_document. destruct l as [|kv l]; [done|].
  remember (kv :: l) as l' eqn:El. cbn [String.length].
  rewrite string_length_app. cbn [String.length]. rewrite Nat.add_1_r.
  pose proof (members_length l') as Hlen.
  remember (S (String.length (members l'))) as n eqn:En.
  destruct (members_quote kv l (String "}" "")) as [x Hx].
  assert (skip_ws (members l' +:+ String "}" "") = String dquote x) as Hs
    by (subst l'; by rewrite members_skip_ws).
  rewrite (parse_value_object (S n) 0 _ x ltac:(unfold max_depth; lia) Hs). rewrite <- Hx, <- El.
  rewrite parse_members_members; [done|by subst|subst n; lia].
Qed.

Lemma fill_map_members l (m : gmap string string) :
  fill_map (coerce_member <$> l) m =
  Ok (foldl (λ m kv, <[coerce_utf8 kv.1 := coerce_utf8 kv.2]> m) m l).
Proof. revert m. induction l as [|kv l IH]; intros m; [done|]. cbn. apply IH. Qed.

Definition valid_map (m : gmap string string) : Prop :=
  map_Forall (λ k v, ValidString k = true ∧ ValidString v = true) m.

#[global] Instance valid_map_dec m : Decision (valid_map m).
Proof. unfold valid_map. apply _. Defined.

Lemma foldl_insert_valid (l : list (string * string)) (m : gmap string string) :
  Forall (λ kv, ValidString kv.1 = true ∧ ValidString kv.2 = true) l →
  NoDup l.*1 → (∀ k, k ∈ l.*1 → m !! k = None) →
  foldl (λ m kv, <[coerce_utf8 kv.1 := coerce_utf8 kv.2]> m) m l = list_to_map l ∪ m.
Proof.
  revert m. induction l as [|[k v] l IH]; intros m Hv Hn Hm.
  { by rewrite list_to_map_nil, (left_id_L ∅ (∪)). }
  rewrite fmap_cons in Hn, Hm. apply NoDup_cons in Hn as [Hk' Hn].
  apply Forall_cons in Hv as [[Hk Hv] Hl]. cbn [foldl fst snd list_to_map] in *.
  rewrite (coerce_utf8_valid k), (coerce_utf8_valid v) by done.
  rewrite IH; [|done..|].
  - rewrite list_to_map_cons, <- insert_union_l, insert_union_r; [done|].
    apply not_elem_of_list_to_map_1. done.
  - intros k' Hk2. rewrite lookup_insert_ne by (intros ->; done).
    apply Hm. by constructor.
Qed.

(** What [json.Marshal] writes for a map of well-formed strings,
    [json.Unmarshal] reads back. *)
Lemma UnmarshalMap_MarshalMap m : valid_map m → UnmarshalMap (MarshalMap m) = Ok m.
Proof.
  intros Hm. unfold UnmarshalMap, MarshalMap. rewrite parse_document_object, fill_map_members.
  assert (merge_sort key_le (map_to_list m) ≡ₚ map_to_list m) as Hp
    by apply merge_sort_Permutation.
  rewrite foldl_insert_valid.
  - rewrite map_union_empty. f_equal. rewrite <- (list_to_map_to_list m) at 2.
    apply list_to_map_proper; [|done].
    rewrite Hp. apply NoDup_fst_map_to_list.
  - rewrite Hp. unfold valid_map in Hm. rewrite map_Forall_to_list in Hm.
    eapply Forall_impl; [done|]. by intros [k v].
  - rewrite Hp. apply NoDup_fst_map_to_list.
  - intros. apply lookup_empty.
Qed.
