(* ===== verification/Wire.v ===== *)
(** * Wire messages

    The messages of [internal/wire/raft.pb.go].  A message is passed by pointer,
    so a handler's argument is an [option] ([None] is a nil pointer), and the
    getters return the field's zero value on a nil receiver as the Go getters
    do.  The protobuf runtime and the gRPC stubs are not modelled. *)

From Stdlib Require Import Ascii String.
From stdpp Require Import strings.
From S2P Require Import Prelude GoStd.
#[local] Open Scope Z_scope.

Record LogEntry := mkLogEntry {
  LogEntry_Index : Z;
  LogEntry_Term : Z;
  LogEntry_Command : string
}.

Definition LogEntry_GetIndex (m : option LogEntry) : Z :=
  match m with Some m => LogEntry_Index m | None => 0 end.
Definition LogEntry_GetTerm (m : option LogEntry) : Z :=
  match m with Some m => LogEntry_Term m | None => 0 end.
Definition LogEntry_GetCommand (m : option LogEntry) : string :=
  match m with Some m => LogEntry_Command m | None => "" end.

Record RequestVoteRequest := mkRequestVoteRequest {
  RequestVoteRequest_Term : Z;
  RequestVoteRequest_CandidateId : string;
  RequestVoteRequest_LastLogIndex : Z;
  RequestVoteRequest_LastLogTerm : Z
}.

Definition RequestVoteRequest_GetTerm (m : option RequestVoteRequest) : Z :=
  match m with Some m => RequestVoteRequest_Term m | None => 0 end.
Definition RequestVoteRequest_GetCandidateId (m : option RequestVoteRequest) : string :=
  match m with Some m => RequestVoteRequest_CandidateId m | None => "" end.
Definition RequestVoteRequest_GetLastLogIndex (m : option RequestVoteRequest) : Z :=
  match m with Some m => RequestVoteRequest_LastLogIndex m | None => 0 end.
Definition RequestVoteRequest_GetLastLogTerm (m : option RequestVoteRequest) : Z :=
  match m with Some m => RequestVoteRequest_LastLogTerm m | None => 0 end.

Record RequestVoteResponse := mkRequestVoteResponse {
  RequestVoteResponse_Term : Z;
  RequestVoteResponse_VoteGranted : bool
}.

Definition RequestVoteResponse_GetTerm (m : option RequestVoteResponse) : Z :=
  match m with Some m => RequestVoteResponse_Term m | None => 0 end.
Definition RequestVoteResponse_GetVoteGranted (m : option RequestVoteResponse) : bool :=
  match m with Some m => RequestVoteResponse_VoteGranted m | None => false end.

Record AppendEntriesRequest := mkAppendEntriesRequest {
  AppendEntriesRequest_Term : Z;
  AppendEntriesRequest_LeaderId : string;
  AppendEntriesRequest_PrevLogIndex : Z;
  AppendEntriesRequest_PrevLogTerm : Z;
  AppendEntriesRequest_Entries : list (option LogEntry);
  AppendEntriesRequest_LeaderCommit : Z
}.

Definition AppendEntriesRequest_GetTerm (m : option AppendEntriesRequest) : Z :=
  match m with Some m => AppendEntriesRequest_Term m | None => 0 end.
Definition AppendEntriesRequest_GetLeaderId (m : option AppendEntriesRequest) : string :=
  match m with Some m => AppendEntriesRequest_LeaderId m | None => "" end.
Definition AppendEntriesRequest_GetPrevLogIndex (m : option AppendEntriesRequest) : Z :=
  match m with Some m => AppendEntriesRequest_PrevLogIndex m | None => 0 end.
Definition AppendEntriesRequest_GetPrevLogTerm (m : option AppendEntriesRequest) : Z :=
  match m with Some m => AppendEntriesRequest_PrevLogTerm m | None => 0 end.
Definition AppendEntriesRequest_GetEntries (m : option AppendEntriesRequest) : list (option LogEntry) :=
  match m with Some m => AppendEntriesRequest_Entries m | None => [] end.
Definition AppendEntriesRequest_GetLeaderCommit (m : option AppendEntriesRequest) : Z :=
  match m with Some m => AppendEntriesRequest_LeaderCommit m | None => 0 end.

Record AppendEntriesResponse := mkAppendEntriesResponse {
  AppendEntriesResponse_Term : Z;
  AppendEntriesResponse_Success : bool;
  AppendEntriesResponse_MatchIndex : Z
}.

Definition AppendEntriesResponse_GetTerm (m : option AppendEntriesResponse) : Z :=
  match m with Some m => AppendEntriesResponse_Term m | None => 0 end.
Definition AppendEntriesResponse_GetSuccess (m : option AppendEntriesResponse) : bool :=
  match m with Some m => AppendEntriesResponse_Success m | None => false end.
Definition AppendEntriesResponse_GetMatchIndex (m : option AppendEntriesResponse) : Z :=
  match m with Some m => AppendEntriesResponse_MatchIndex m | None => 0 end.

Record InstallSnapshotRequest := mkInstallSnapshotRequest {
  InstallSnapshotRequest_Term : Z;
  InstallSnapshotRequest_LeaderId : string;
  InstallSnapshotRequest_LastIncludedIndex : Z;
  InstallSnapshotRequest_LastIncludedTerm : Z;
  InstallSnapshotRequest_Data : string
}.

Definition InstallSnapshotRequest_GetTerm (m : option InstallSnapshotRequest) : Z :=
  match m with Some m => InstallSnapshotRequest_Term m | None => 0 end.
Definition InstallSnapshotRequest_GetLeaderId (m : option InstallSnapshotRequest) : string :=
  match m with Some m => InstallSnapshotRequest_LeaderId m | None => "" end.
Definition InstallSnapshotRequest_GetLastIncludedIndex (m : option InstallSnapshotRequest) : Z :=
  match m with Some m => InstallSnapshotRequest_LastIncludedIndex m | None => 0 end.
Definition InstallSnapshotRequest_GetLastIncludedTerm (m : option InstallSnapshotRequest) : Z :=
  match m with Some m => InstallSnapshotRequest_LastIncludedTerm m | None => 0 end.
Definition InstallSnapshotRequest_GetData (m : option InstallSnapshotRequest) : string :=
  match m with Some m => InstallSnapshotRequest_Data m | None => "" end.

Record InstallSnapshotResponse := mkInstallSnapshotResponse {
  InstallSnapshotResponse_Term : Z
}.

Definition InstallSnapshotResponse_GetTerm (m : option InstallSnapshotResponse) : Z :=
  match m with Some m => InstallSnapshotResponse_Term m | None => 0 end.

Record ClientWriteRequest := mkClientWriteRequest {
  ClientWriteRequest_Key : string;
  ClientWriteRequest_Value : string
}.

Definition ClientWriteRequest_GetKey (m : option ClientWriteRequest) : string :=
  match m with Some m => ClientWriteRequest_Key m | None => "" end.
Definition ClientWriteRequest_GetValue (m : option ClientWriteRequest) : string :=
  match m with Some m => ClientWriteRequest_Value m | None => "" end.

Record ClientWriteResponse := mkClientWriteResponse {
  ClientWriteResponse_Success : bool;
  ClientWriteResponse_LeaderId : string;
  ClientWriteResponse_Error : string;
  ClientWriteResponse_Index : Z;
  ClientWriteResponse_Term : Z
}.

Definition ClientWriteResponse_GetSuccess (m : option ClientWriteResponse) : bool :=
  match m with Some m => ClientWriteResponse_Success m | None => false end.
Definition ClientWriteResponse_GetLeaderId (m : option ClientWriteResponse) : string :=
  match m with Some m => ClientWriteResponse_LeaderId m | None => "" end.
Definition ClientWriteResponse_GetError (m : option ClientWriteResponse) : string :=
  match m with Some m => ClientWriteResponse_Error m | None => "" end.
Definition ClientWriteResponse_GetIndex (m : option ClientWriteResponse) : Z :=
  match m with Some m => ClientWriteResponse_Index m | None => 0 end.
Definition ClientWriteResponse_GetTerm (m : option ClientWriteResponse) : Z :=
  match m with Some m => ClientWriteResponse_Term m | None => 0 end.

Record ClientReadRequest := mkClientReadRequest {
  ClientReadRequest_Key : string
}.

Definition ClientReadRequest_GetKey (m : option ClientReadRequest) : string :=
  match m with Some m => ClientReadRequest_Key m | None => "" end.

Record ClientReadResponse := mkClientReadResponse {
  ClientReadResponse_Success : bool;
  ClientReadResponse_LeaderId : string;
  ClientReadResponse_Error : string;
  ClientReadResponse_Value : string
}.

Definition ClientReadResponse_GetSuccess (m : option ClientReadResponse) : bool :=
  match m with Some m => ClientReadResponse_Success m | None => false end.
Definition ClientReadResponse_GetLeaderId (m : option ClientReadResponse) : string :=
  match m with Some m => ClientReadResponse_LeaderId m | None => "" end.
Definition ClientReadResponse_GetError (m : option ClientReadResponse) : string :=
  match m with Some m => ClientReadResponse_Error m | None => "" end.
Definition ClientReadResponse_GetValue (m : option ClientReadResponse) : string :=
  match m with Some m => ClientReadResponse_Value m | None => "" end.

Record PeerStatus := mkPeerStatus {
  PeerStatus_Id : string;
  PeerStatus_Address : string;
  PeerStatus_MatchIndex : Z;
  PeerStatus_NextIndex : Z
}.

Definition PeerStatus_GetId (m : option PeerStatus) : string :=
  match m with Some m => PeerStatus_Id m | None => "" end.
Definition PeerStatus_GetAddress (m : option PeerStatus) : string :=
  match m with Some m => PeerStatus_Address m | None => "" end.
Definition PeerStatus_GetMatchIndex (m : option PeerStatus) : Z :=
  match m with Some m => PeerStatus_MatchIndex m | None => 0 end.
Definition PeerStatus_GetNextIndex (m : option PeerStatus) : Z :=
  match m with Some m => PeerStatus_NextIndex m | None => 0 end.

Record StatusResponse := mkStatusResponse {
  StatusResponse_Id : string;
  StatusResponse_Role : string;
  StatusResponse_Term : Z;
  StatusResponse_LeaderId : string;
  StatusResponse_CommitIndex : Z;
  StatusResponse_LastApplied : Z;
  StatusResponse_LastLogIndex : Z;
  StatusResponse_Peers : list (option PeerStatus)
}.

Definition StatusResponse_GetId (m : option StatusResponse) : string :=
  match m with Some m => StatusResponse_Id m | None => "" end.
Definition StatusResponse_GetRole (m : option StatusResponse) : string :=
  match m with Some m => StatusResponse_Role m | None => "" end.
Definition StatusResponse_GetTerm (m : option StatusResponse) : Z :=
  match m with Some m => StatusResponse_Term m | None => 0 end.
Definition StatusResponse_GetLeaderId (m : option StatusResponse) : string :=
  match m with Some m => StatusResponse_LeaderId m | None => "" end.
Definition StatusResponse_GetCommitIndex (m : option StatusResponse) : Z :=
  match m with Some m => StatusResponse_CommitIndex m | None => 0 end.
Definition StatusResponse_GetLastApplied (m : option StatusResponse) : Z :=
  match m with Some m => StatusResponse_LastApplied m | None => 0 end.
Definition StatusResponse_GetLastLogIndex (m : option StatusResponse) : Z :=
  match m with Some m => StatusResponse_LastLogIndex m | None => 0 end.
Definition StatusResponse_GetPeers (m : option StatusResponse) : list (option PeerStatus) :=
  match m with Some m => StatusResponse_Peers m | None => [] end.

(** [wire.DialTarget]: addresses without a scheme bypass name resolution. *)
Definition DialTarget (address : string) : string :=
  if Contains address "://" then address else "passthrough:///" +:+ address.

(** ** Well-formed messages: integer fields are [uint64] values *)

Definition wf_LogEntry (e : option LogEntry) : Prop :=
  is_u64 (LogEntry_GetIndex e) ∧ is_u64 (LogEntry_GetTerm e).

Definition wf_RequestVoteRequest (r : option RequestVoteRequest) : Prop :=
  is_u64 (RequestVoteRequest_GetTerm r) ∧ is_u64 (RequestVoteRequest_GetLastLogIndex r)
  ∧ is_u64 (RequestVoteRequest_GetLastLogTerm r).

Definition wf_AppendEntriesRequest (r : option AppendEntriesRequest) : Prop :=
  is_u64 (AppendEntriesRequest_GetTerm r) ∧ is_u64 (AppendEntriesRequest_GetPrevLogIndex r)
  ∧ is_u64 (AppendEntriesRequest_GetPrevLogTerm r)
  ∧ is_u64 (AppendEntriesRequest_GetLeaderCommit r)
  ∧ Forall wf_LogEntry (AppendEntriesRequest_GetEntries r).

Definition wf_InstallSnapshotRequest (r : option InstallSnapshotRequest) : Prop :=
  is_u64 (InstallSnapshotRequest_GetTerm r)
  ∧ is_u64 (InstallSnapshotRequest_GetLastIncludedIndex r)
  ∧ is_u64 (InstallSnapshotRequest_GetLastIncludedTerm r).

#[global] Instance RequestVoteRequest_eq_dec : EqDecision RequestVoteRequest.
Proof. solve_decision. Defined.
#[global] Instance wf_LogEntry_dec e : Decision (wf_LogEntry e).
Proof. unfold wf_LogEntry. apply _. Defined.
#[global] Instance wf_AppendEntriesRequest_dec r : Decision (wf_AppendEntriesRequest r).
Proof. unfold wf_AppendEntriesRequest. apply _. Defined.
#[global] Instance wf_InstallSnapshotRequest_dec r : Decision (wf_InstallSnapshotRequest r).
Proof. unfold wf_InstallSnapshotRequest. apply _. Defined.
