(* ===== verification/Codec.v ===== *)
(** * The protobuf codec of the RPC layer

    [internal/wire/codec.go]: the codec gRPC uses for both generations of protobuf
    messages.  The protobuf library is a parameter. *)

From Stdlib Require Import Ascii String.
From stdpp Require Import strings.
From S2P Require Import Prelude GoStd.
#[local] Open Scope Z_scope.

Section codec.
(** Messages of the new API and of the old one, and their bytes. *)
Context {M O Bytes : Type}.

(** [newproto.Marshal]; [newproto.Unmarshal] into a message; [protoadapt.MessageV2Of], the
    view of an old message as a new one, and the old message behind a view once the
    view has changed. *)
Context (Marshal : M → result Bytes) (Unmarshal : Bytes → M → result M)
  (MessageV2Of : O → M) (behind : M → O).

(** What gRPC hands to the codec ([any]). *)
Inductive any_value :=
| AnyNew (m : M)
| AnyOld (m : O)
| AnyOther (type_name : string).

Definition codec_Name : string := "proto".

Definition codec_Marshal (v : any_value) : result Bytes :=
  match v with
  | AnyNew m => Marshal m
  | AnyOld m => Marshal (MessageV2Of m)
  | AnyOther t => Err (ErrText ("cannot marshal " +:+ t +:+ " as protobuf"))
  end.

Definition codec_Unmarshal (data : Bytes) (v : any_value) : result any_value :=
  match v with
  | AnyNew m => match Unmarshal data m with Ok m' => Ok (AnyNew m') | Err e => Err e end
  | AnyOld m =>
      match Unmarshal data (MessageV2Of m) with Ok m' => Ok (AnyOld (behind m')) | Err e => Err e end
  | AnyOther t => Err (ErrText ("cannot unmarshal protobuf into " +:+ t))
  end.

(** Same generation of message on both sides. *)
Definition same_kind (v w : any_value) : bool :=
  match v, w with AnyNew _, AnyNew _ | AnyOld _, AnyOld _ => true | _, _ => false end.

(** What is marshalled is read back, into a message of either API, when the library does
    so and its view of an old message loses nothing. *)
Lemma codec_roundtrip v w data :
  (∀ m m' d, Marshal m = Ok d → Unmarshal d m' = Ok m) → (∀ o, behind (MessageV2Of o) = o) →
  same_kind v w = true → codec_Marshal v = Ok data → codec_Unmarshal data w = Ok v.
Proof.
  intros Hrt Hb. destruct v as [m|o|t], w as [m'|o'|t']; try done; intros _ E; cbn in *.
  - by rewrite (Hrt _ _ _ E).
  - rewrite (Hrt _ _ _ E). by rewrite Hb.
Qed.

Lemma codec_refuses t data : is_ok (codec_Marshal (AnyOther t)) = false ∧ is_ok (codec_Unmarshal data (AnyOther t)) = false.
Proof. done. Qed.
End codec.
