(* ===== verification/Raftctl.v ===== *)
(** * The command-line client

    [main] of [cmd/raftctl]: the request a command line stands for, what is printed and
    the exit status.  The client stub - gRPC and the node behind it - is a parameter
    that may change a state; [flag] has parsed the options. *)

From Stdlib Require Import Ascii String.
From stdpp Require Import strings.
From S2P Require Import Prelude GoStd Wire.
#[local] Open Scope Z_scope.

(** [wire.ClientServiceClient] over the state of the servers. *)
Record ClientService (S : Type) := mkClientService {
  cs_Write : ClientWriteRequest → ST S (result (option ClientWriteResponse));
  cs_Read : ClientReadRequest → ST S (result (option ClientReadResponse));
  cs_Status : ST S (result (option StatusResponse))
}.
Arguments cs_Write {S} _ _.
Arguments cs_Read {S} _ _.
Arguments cs_Status {S} _.

(** What [printJSON] writes to standard output. *)
Inductive printed :=
| PWrite (r : option ClientWriteResponse)
| PRead (r : option ClientReadResponse)
| PStatus (r : option StatusResponse).

(** What goes to standard error. *)
Inductive complaint := Usage | Fatal (e : error).

Record outcome := Outcome {
  exit_status : Z;
  out : option printed;
  complained : option complaint
}.

Definition usage : outcome := Outcome 2 None (Some Usage).
Definition fatal (e : error) : outcome := Outcome 1 None (Some (Fatal e)).

(** Printed, and 1 unless the response says success. *)
Definition answered_with (p : printed) (success : bool) : outcome :=
  Outcome (if success then 0 else 1) (Some p) None.

Definition raftctl_main {S} (addr : string) (args : list string)
    (newClient : string → result unit) (client : ClientService S) : ST S outcome :=
  match args with
  | [] => mret usage
  | command :: operands =>
      match newClient (DialTarget addr) with
      | Err e => mret (fatal e)
      | Ok _ =>
          if bool_decide (command = "write") then
            match operands with
            | [key; value] =>
                r ← cs_Write client (mkClientWriteRequest key value);
                mret match r with
                     | Err e => fatal e
                     | Ok resp => answered_with (PWrite resp) (ClientWriteResponse_GetSuccess resp)
                     end
            | _ => mret usage
            end
          else if bool_decide (command = "read") then
            match operands with
            | [key] =>
                r ← cs_Read client (mkClientReadRequest key);
                mret match r with
                     | Err e => fatal e
                     | Ok resp => answered_with (PRead resp) (ClientReadResponse_GetSuccess resp)
                     end
            | _ => mret usage
            end
          else if bool_decide (command = "status") then
            r ← cs_Status client;
            mret match r with
                 | Err e => fatal e
                 | Ok resp => answered_with (PStatus resp) true
                 end
          else mret usage
      end
  end.

(** The command lines that ask for something: [status] takes any operands. *)
Definition well_used (args : list string) : bool :=
  match args with
  | ["write"; _; _] | ["read"; _] | "status" :: _ => true
  | _ => false
  end.

Section raftctl.
Context {S : Type} (addr : string) (newClient : string → result unit) (client : ClientService S).
Hypothesis Hconn : is_ok (newClient (DialTarget addr)) = true.

(** A wrong command line is told so, with 2, and nothing is asked of the cluster. *)
Lemma raftctl_usage args s :
  well_used args = false → raftctl_main addr args newClient client s = (usage, s).
Proof.
  intros Hw. unfold raftctl_main. destruct args as [|command operands]; [done|].
  destruct (newClient (DialTarget addr)); [|done]. cbn in Hw.
  repeat case_bool_decide; subst; try done.
  - destruct operands as [|key [|value [|? ?]]]; done.
  - destruct operands as [|key [|? ?]]; done.
Qed.

(** A [write] exits with 0 exactly when the cluster has answered success. *)
Lemma raftctl_write key value s r s' :
  cs_Write client (mkClientWriteRequest key value) s = (r, s') →
  ∃ o, raftctl_main addr ["write"; key; value] newClient client s = (o, s')
    ∧ (exit_status o = 0 ↔ ∃ resp, r = Ok resp ∧ ClientWriteResponse_GetSuccess resp = true)
    ∧ (exit_status o = 0 ∨ exit_status o = 1).
Proof.
  intros E. unfold raftctl_main. destruct (newClient (DialTarget addr)); [|done].
  unfold mbind, ST_bind, mret, ST_ret. rewrite bool_decide_true, E by done. eexists. split; [reflexivity|].
  destruct r as [resp|e]; cbn; [|split; [|by right]; split; [done|by intros (? & [=] & _)]].
  destruct (ClientWriteResponse_GetSuccess resp) eqn:Es; cbn; (split; [|by (left + right)]).
  - split; [|done]. intros _. by exists resp.
  - split; [done|]. intros (? & [= <-] & ?). congruence.
Qed.

(** A [read] prints the answer, and exits with 0 exactly when it is a success. *)
Lemma raftctl_read key s r s' :
  cs_Read client (mkClientReadRequest key) s = (r, s') →
  ∃ o, raftctl_main addr ["read"; key] newClient client s = (o, s')
    ∧ (exit_status o = 0 ↔ ∃ resp, r = Ok resp ∧ ClientReadResponse_GetSuccess resp = true)
    ∧ ∀ resp, r = Ok resp → out o = Some (PRead resp).
Proof.
  intros E. unfold raftctl_main. destruct (newClient (DialTarget addr)); [|done].
  unfold mbind, ST_bind, mret, ST_ret. rewrite bool_decide_false, bool_decide_true, E by done. eexists. split; [reflexivity|].
  destruct r as [resp|e]; cbn; [|split; [|done]; split; [done|by intros (? & [=] & _)]].
  destruct (ClientReadResponse_GetSuccess resp) eqn:Es; cbn; (split; [|by intros ? [= <-]]).
  - split; [|done]. intros _. by exists resp.
  - split; [done|]. intros (? & [= <-] & ?). congruence.
Qed.
End raftctl.
