(* ===== verification/Logging.v ===== *)
(** * Structured logging

    [internal/logging/logger.go]: an event is a map with four fixed keys, over
    which the caller's fields are written.  The logger keeps the events it has
    encoded; [LogText] says what it prints of them. *)

From Stdlib Require Import Ascii String.
From stdpp Require Import strings.
From S2P Require Import Prelude GoStd.
#[local] Open Scope Z_scope.

(** The values the program puts in a field ([map[string]any]). *)
Inductive field :=
| FString (s : string)
| FUint (z : Z)
| FError (e : error)
| FTimestamp (ns : Z).

Definition event : Type := gmap string field.

Record Logger := mkLogger {
  log_nodeID : string;
  log_out : list event
}.

Definition NewLogger (nodeID : string) : Logger := mkLogger nodeID [].

(** [for key, value := range fields { event[key] = value }]. *)
Definition log_event (now : Z) (nodeID level message : string)
    (fields : gmap string field) : event :=
  fields ∪ <["ts" := FTimestamp now]> (<["level" := FString level]>
    (<["node_id" := FString nodeID]> {["message" := FString message]})).

Definition log_write (now : Z) (level message : string) (fields : gmap string field)
    (l : Logger) : Logger :=
  mkLogger (log_nodeID l) (log_out l ++ [log_event now (log_nodeID l) level message fields]).
