(* ===== verification/LogText.v ===== *)
(** * The text of the log

    What [Logger.write] prints of an event: [json.NewEncoder(out).Encode(event)] writes the
    members of the map in the order of their keys and a newline.  Strings are quoted as in
    [Json], words are decimal, and the time is in [time.RFC3339Nano].  The text of an
    error is a parameter; what a writer that fails leaves out is not modelled. *)

From Stdlib Require Import Ascii String DecimalString.
From stdpp Require Import strings.
From S2P Require Import Prelude GoStd Json Logging.
#[local] Open Scope Z_scope.

(** ** [time.Time.UTC().Format(time.RFC3339Nano)]

    A day, counted from 1970-01-01, as a date of the Gregorian calendar: years start in
    March, so that a leap day is the last of its year. *)

Definition civil_in_cycle (doe : Z) : Z * Z * Z :=
  let yoe := (doe - doe / 1460 + doe / 36524 - doe / 146096) / 365 in
  let doy := doe - (365 * yoe + yoe / 4 - yoe / 100) in
  let mp := (5 * doy + 2) / 153 in
  let m := if mp <? 10 then mp + 3 else mp - 9 in
  (yoe + (if m <=? 2 then 1 else 0), m, doy - (153 * mp + 2) / 5 + 1).

(** A cycle of four hundred years has 146097 days. *)
Definition civil_of_days (days : Z) : Z * Z * Z :=
  let z := days + 719468 in
  let '(y, m, d) := civil_in_cycle (z mod 146097) in (y + z / 146097 * 400, m, d).

(** The other way: the days of the years, of the months and of the month. *)
Definition days_of_civil (date : Z * Z * Z) : Z :=
  let '(y, m, d) := date in
  let y' := if m <=? 2 then y - 1 else y in
  let mp := if m <=? 2 then m + 9 else m - 3 in
  365 * y' + y' / 4 - y' / 100 + y' / 400 + (153 * mp + 2) / 5 + d - 1 - 719468.

Definition zeros (n : nat) : string := String.string_of_list_ascii (replicate n "0"%char).

(** A number in at least [n] digits. *)
Definition pad (n : nat) (z : Z) : string :=
  let s := FormatUint z in zeros (n - String.length s) +:+ s.

Definition year_text (y : Z) : string := if y <? 0 then String "-" (pad 4 (- y)) else pad 4 y.

Fixpoint trim_zeros (s : string) : string :=
  match s with
  | EmptyString => ""
  | String c s' =>
      let t := trim_zeros s' in
      if bool_decide (t = "" ∧ c = "0"%char) then "" else String c t
  end.

(** [.999999999]: nothing for a whole second. *)
Definition fraction (ns : Z) : string := if ns =? 0 then "" else String "." (trim_zeros (pad 9 ns)).

Definition RFC3339Nano (now : Z) : string :=
  let sec := now / 1000000000 in
  let '(y, m, d) := civil_of_days (sec / 86400) in
  let s := sec mod 86400 in
  year_text y +:+ String "-" (pad 2 m) +:+ String "-" (pad 2 d)
  +:+ String "T" (pad 2 (s / 3600)) +:+ String ":" (pad 2 (s / 60 mod 60)) +:+ String ":" (pad 2 (s mod 60))
  +:+ fraction (now mod 1000000000) +:+ "Z".

(** ** [Logger.write] *)

Definition newline : ascii := byte_of 10.

Section text.
Context (error_text : error → string).

Definition field_text (f : field) : string :=
  match f with
  | FString s => quote s
  | FUint z => FormatUint z
  | FError e => quote (error_text e)
  | FTimestamp now => quote (RFC3339Nano now)
  end.

Definition field_le (a b : string * field) : Prop := String.le a.1 b.1.

#[global] Instance field_le_dec a b : Decision (field_le a b).
Proof. unfold field_le. apply _. Defined.

Definition log_member (kv : string * field) : string := quote kv.1 +:+ String ":" (field_text kv.2).

Fixpoint log_members (l : list (string * field)) : string :=
  match l with
  | [] => ""
  | [kv] => log_member kv
  | kv :: l' => log_member kv +:+ String "," (log_members l')
  end.

Definition event_text (ev : event) : string :=
  String "{" (log_members (merge_sort field_le (map_to_list ev)) +:+ String "}" "").

(** What the logger has written. *)
Definition log_text (l : Logger) : string :=
  foldr (λ ev acc, event_text ev +:+ String newline acc) "" (log_out l).

(** ** One line for each event *)

(** No control characters. *)
Definition plain (s : string) : Prop := Forall (λ c, 32 <= byte_val c) (String.list_ascii_of_string s).

Lemma plain_cons c s : 32 <= byte_val c → plain s → plain (String c s).
Proof. intros. by constructor. Qed.

Lemma plain_app a b : plain a → plain b → plain (a +:+ b).
Proof.
  intros Ha Hb. induction a as [|c a IH]; [done|]. rewrite string_app_cons.
  apply Forall_cons in Ha as [? ?]. apply plain_cons; [done|by apply IH].
Qed.

Lemma plain_nil : plain "".
Proof. constructor. Qed.

(** Of a string that can be evaluated. *)
Lemma plain_dec s : forallb (λ c, 32 <=? byte_val c) (String.list_ascii_of_string s) = true → plain s.
Proof.
  intros H. unfold plain. rewrite Forall_forall. intros c Hc. apply Z.leb_le.
  rewrite forallb_forall in H. apply H. by apply list_elem_of_In.
Qed.
Lemma plain_char z s : 32 <= z < 256 → plain s → plain (String (byte_of z) s).
Proof. intros Hz Hs. apply plain_cons; [|done]. rewrite byte_val_of; lia. Qed.

Lemma hex_digit_plain n s : 0 <= n < 16 → plain s → plain (String (hex_digit n) s).
Proof. intros Hn Hs. unfold hex_digit. destruct (Z.ltb_spec n 10); apply plain_char; [lia|done|lia|done]. Qed.

Lemma escape_plain r : 0 <= r < 128 → plain (escape_ascii r).
Proof.
  intros Hr. unfold escape_ascii, esc.
  destruct ((r =? 34) || (r =? 92)) eqn:E.
  { apply plain_cons; [done|]. apply plain_char; [|apply plain_nil].
    apply orb_prop in E as [?%Z.eqb_eq|?%Z.eqb_eq]; lia. }
  repeat (case_match; [apply plain_dec; done|]).
  apply plain_app; [apply plain_dec; done|].
  apply hex_digit_plain; [split; [apply Z.div_pos; lia|apply Z.div_lt_upper_bound; lia]|].
  apply hex_digit_plain; [apply Z.mod_pos_bound; lia|apply plain_nil].
Qed.

(** The bytes of a rune beyond ASCII are beyond it too. *)
Lemma DecodeRune_plain s st :
  DecodeRune s = Some st → good_step st → 128 <= rs_rune st → plain (rs_bytes st).
Proof.
  unfold good_step. intros H Hg Hr. unfold DecodeRune in H. decode_cases; try done;
    rewrite ?andb_true_iff, ?in_range_true in *; destruct_and?;
    repeat (apply plain_cons; [lia|]); try apply plain_nil; try lia.
  all: repeat case_match; lia.
Qed.

Lemma quote_rune_plain s st : DecodeRune s = Some st → plain (quote_rune (rs_rune st, rs_bytes st)).
Proof.
  intros H. unfold quote_rune. destruct (bad_rune _) eqn:Hb; [apply plain_dec; done|].
  destruct (Z.ltb_spec (rs_rune st) 128) as [Hlt|Hge].
  - destruct (DecodeRune_ascii s st H Hb Hlt) as [Hpos ->].
    destruct (html_safe (rs_rune st)) eqn:Es; [|apply escape_plain; lia].
    unfold html_safe in Es. apply andb_prop in Es as [Es%Z.leb_le _].
    apply plain_char; [lia|apply plain_nil].
  - destruct (_ || _); [|by eapply DecodeRune_plain].
    apply plain_app; [apply plain_dec; done|].
    apply hex_digit_plain; [apply Z.mod_pos_bound; lia|apply plain_nil].
Qed.

Lemma quote_plain s : plain (quote s).
Proof.
  unfold quote. apply plain_cons; [done|]. apply plain_app; [|apply plain_dec; done].
  induction s as [|s st E IH] using rune_ind; [apply plain_nil|].
  rewrite (quote_body_step _ _ E). apply plain_app; [by eapply quote_rune_plain|done].
Qed.

Lemma uint_plain d : plain (NilEmpty.string_of_uint d).
Proof. induction d; cbn; [apply plain_nil|apply plain_cons; done..]. Qed.

Lemma FormatUint_plain z : plain (FormatUint z).
Proof.
  unfold FormatUint, NilZero.string_of_uint. destruct (N.to_uint _) as [|d|d|d|d|d|d|d|d|d|d]; [by apply plain_dec|..];
    apply uint_plain.
Qed.

Lemma field_plain f : plain (field_text f).
Proof. destruct f; [apply quote_plain|apply FormatUint_plain|apply quote_plain..]. Qed.

Lemma member_plain kv : plain (log_member kv).
Proof. apply plain_app; [apply quote_plain|]. apply plain_cons; [done|]. apply field_plain. Qed.

Lemma event_plain ev : plain (event_text ev).
Proof.
  apply plain_cons; [done|]. apply plain_app; [|apply plain_dec; done].
  induction (merge_sort field_le (map_to_list ev)) as [|kv [|kv' l] IH]; [apply plain_nil|apply member_plain|].
  cbn [log_members]. apply plain_app; [apply member_plain|]. by apply plain_cons.
Qed.

Lemma Split_line s rest : plain s → Split newline (s +:+ String newline rest) = s :: Split newline rest.
Proof.
  induction s as [|c s IH]; intros Hs.
  - rewrite string_app_nil_l. cbn [Split]. by rewrite bool_decide_true.
  - apply Forall_cons in Hs as [Hc Hs]. rewrite string_app_cons. cbn [Split].
    rewrite bool_decide_false by (intros ->; by vm_compute in Hc). by rewrite IH.
Qed.

(** C38. Whatever strings clients, peers and errors put into it, the log has exactly one
    line for each event, which is the JSON text of that event, in the order written, and
    no line holds a control character. *)
Theorem log_has_one_line_per_event l :
  Split newline (log_text l) = (event_text <$> log_out l) ++ [""] ∧ Forall (λ ev, plain (event_text ev)) (log_out l).
Proof.
  split; [|by apply Forall_true; apply event_plain].
  unfold log_text. induction (log_out l) as [|ev evs IH]; [done|].
  cbn [foldr fmap list_fmap app]. by rewrite (Split_line _ _ (event_plain ev)), IH.
Qed.

(** A write adds its line at the end. *)
Lemma log_write_text now level message fields l :
  log_text (log_write now level message fields l)
  = log_text l +:+ event_text (log_event now (log_nodeID l) level message fields) +:+ String newline "".
Proof.
  unfold log_text, log_write. cbn [log_out]. induction (log_out l) as [|ev evs IH]; [done|].
  cbn [foldr app]. by rewrite IH, !string_app_assoc, string_app_cons.
Qed.
End text.

(** ** The calendar *)

Definition date_ok (doe : Z) : bool :=
  let '(y, m, d) := civil_in_cycle doe in
  (days_of_civil (y, m, d) =? doe - 719468) && (1 <=? m) && (m <=? 12) && (1 <=? d) && (d <=? 31).

Fixpoint all_below (P : Z → bool) (k : nat) (z : Z) : bool :=
  match k with O => true | S k => P z && all_below P k (z + 1) end.

Lemma all_below_spec P k z i : all_below P k z = true → z <= i < z + Z.of_nat k → P i = true.
Proof.
  revert z. induction k as [|k IH]; intros z; cbn [all_below]; [lia|].
  intros [H1 H2]%andb_prop Hi. destruct (decide (i = z)) as [->|Hne]; [done|]. apply (IH (z + 1)); [done|lia].
Qed.

Lemma cycle_ok : all_below date_ok (Z.to_nat 146097) 0 = true.
Proof. vm_compute. reflexivity. Qed.

Lemma days_of_cycles y m d era : days_of_civil (y + era * 400, m, d) = days_of_civil (y, m, d) + era * 146097.
Proof.
  unfold days_of_civil. set (y' := if m <=? 2 then y - 1 else y).
  replace (if m <=? 2 then y + era * 400 - 1 else y + era * 400) with (y' + era * 400)
    by (unfold y'; destruct (m <=? 2); lia).
  replace ((y' + era * 400) / 4) with (y' / 4 + era * 100) by (rewrite <- Z.div_add by lia; f_equal; lia).
  replace ((y' + era * 400) / 100) with (y' / 100 + era * 4) by (rewrite <- Z.div_add by lia; f_equal; lia).
  rewrite Z.div_add by lia. lia.
Qed.

(** The date of a day is a date, and of that day. *)
Lemma civil_of_days_ok days :
  let '(y, m, d) := civil_of_days days in
  days_of_civil (y, m, d) = days ∧ 1 <= m <= 12 ∧ 1 <= d <= 31.
Proof.
  pose proof (Z.mod_pos_bound (days + 719468) 146097 ltac:(lia)) as Hd.
  pose proof (Z.div_mod (days + 719468) 146097 ltac:(lia)) as Hdm. unfold civil_of_days.
  pose proof (all_below_spec _ _ _ ((days + 719468) mod 146097) cycle_ok ltac:(lia)) as Hok. unfold date_ok in Hok.
  destruct (civil_in_cycle _) as [[y m] d]. rewrite days_of_cycles.
  rewrite !andb_true_iff, Z.eqb_eq, !Z.leb_le in Hok. lia.
Qed.
