(* ===== verification/Metrics.v ===== *)
(** * Prometheus metrics

    [internal/metrics/metrics.go]: the counters and gauges a node keeps, their
    updates, and the text of the exposition endpoint. *)

From Stdlib Require Import Ascii String.
From stdpp Require Import strings.
From S2P Require Import Prelude GoStd.
#[local] Open Scope Z_scope.

Record Metrics := mkMetrics {
  m_nodeID : string;
  m_role : string;
  m_term : Z;
  m_commitIndex : Z;
  m_lastApplied : Z;
  m_lastLogIndex : Z;
  m_elections : Z;
  m_rpcs : gmap string Z;
  m_lag : gmap string Z
}.

Definition NewMetrics (nodeID : string) : Metrics :=
  mkMetrics nodeID "follower" 0 0 0 0 0 ∅ ∅.

Definition SetState (role : string) (term commitIndex lastApplied lastLogIndex : Z)
    (m : Metrics) : Metrics :=
  mkMetrics (m_nodeID m) role term commitIndex lastApplied lastLogIndex
    (m_elections m) (m_rpcs m) (m_lag m).

Definition IncElection (m : Metrics) : Metrics :=
  mkMetrics (m_nodeID m) (m_role m) (m_term m) (m_commitIndex m) (m_lastApplied m)
    (m_lastLogIndex m) (m_elections m +64 1) (m_rpcs m) (m_lag m).

Definition rpc_key (method result : string) : string := method +:+ "|" +:+ result.

Definition IncRPC (method result : string) (m : Metrics) : Metrics :=
  let key := rpc_key method result in
  mkMetrics (m_nodeID m) (m_role m) (m_term m) (m_commitIndex m) (m_lastApplied m)
    (m_lastLogIndex m) (m_elections m)
    (<[key := map_get (m_rpcs m) key +64 1]> (m_rpcs m)) (m_lag m).

Definition SetReplicationLag (peerID : string) (lag : Z) (m : Metrics) : Metrics :=
  mkMetrics (m_nodeID m) (m_role m) (m_term m) (m_commitIndex m) (m_lastApplied m)
    (m_lastLogIndex m) (m_elections m) (m_rpcs m) (<[peerID := lag]> (m_lag m)).

(** ** The exposition text *)

Definition dq : string := String (ascii_of_nat 34) "".
Definition bs : string := String (ascii_of_nat 92) "".
Definition nl : string := String (ascii_of_nat 10) "".

(** [strings.ReplaceAll] three times: backslashes, then newlines, then quotes. *)
Definition escapeLabel (value : string) : string :=
  let value := ReplaceAll value (ascii_of_nat 92) (bs +:+ bs) in
  let value := ReplaceAll value (ascii_of_nat 10) (bs +:+ "n") in
  ReplaceAll value (ascii_of_nat 34) (bs +:+ dq).

(** [name="value"]. *)
Definition label (name value : string) : string := name +:+ "=" +:+ dq +:+ value +:+ dq.

Definition metric_header (name help kind : string) : string :=
  "# HELP " +:+ name +:+ " " +:+ help +:+ nl +:+
  "# TYPE " +:+ name +:+ " " +:+ kind +:+ nl.

Definition sample (name labels : string) (v : Z) : string :=
  name +:+ "{" +:+ labels +:+ "} " +:+ FormatUint v +:+ nl.

Definition concat_lines (l : list string) : string := foldr String.append "" l.

(** One [raft_rpc_total] line: the key is split at its first bar. *)
Definition rpc_line (labels key : string) (v : Z) : string :=
  match SplitN2 "|"%char key with
  | method :: rest =>
      sample "raft_rpc_total"
        (labels +:+ "," +:+ label "method" (escapeLabel method) +:+ ","
         +:+ label "result" (escapeLabel (default "" (head rest)))) v
  | [] => ""
  end.

Definition lag_line (labels peer : string) (v : Z) : string :=
  sample "raft_replication_lag_entries"
    (labels +:+ "," +:+ label "peer_id" (escapeLabel peer)) v.

Definition gauge (labels name help kind : string) (v : Z) : string :=
  metric_header name help kind +:+ sample name labels v.

(** The [Content-Type] of the answer and its text. *)
Definition ServeHTTP `{!GoRuntime} (m : Metrics) : string * string :=
  let labels := label "node_id" (escapeLabel (m_nodeID m)) in
  let leader := if bool_decide (m_role m = "leader") then 1 else 0 in
  let rpcKeys := sort_strings (map_range (m_rpcs m)).*1 in
  let peers := sort_strings (map_range (m_lag m)).*1 in
  ("text/plain; version=0.0.4; charset=utf-8",
  gauge labels "raft_node_up" "Node liveness marker." "gauge" 1 +:+
  gauge labels "raft_is_leader" "Whether this node currently believes it is leader." "gauge" leader +:+
  gauge labels "raft_current_term" "Current Raft term." "gauge" (m_term m) +:+
  gauge labels "raft_commit_index" "Highest committed log index." "gauge" (m_commitIndex m) +:+
  gauge labels "raft_last_applied" "Highest state-machine-applied log index." "gauge" (m_lastApplied m) +:+
  gauge labels "raft_last_log_index" "Highest local log index." "gauge" (m_lastLogIndex m) +:+
  gauge labels "raft_elections_total" "Elections started by this node." "counter" (m_elections m) +:+
  metric_header "raft_rpc_total" "Consensus RPCs handled by method and result." "counter" +:+
  concat_lines ((λ k, rpc_line labels k (map_get (m_rpcs m) k)) <$> rpcKeys) +:+
  metric_header "raft_replication_lag_entries" "Leader-side lag by peer." "gauge" +:+
  concat_lines ((λ p, lag_line labels p (map_get (m_lag m) p)) <$> peers)).
