(* ===== verification/Sql.v ===== *)
(** * The database the store runs on

    The tables and the SQL statements of [internal/storage/storage.go], with the
    documented meaning of those statements on the tables, and the interface of
    the driver that executes them.  The driver (go-sqlite3) is third-party code:
    it is the parameter [SqlDriver], and what the program relies on is the class
    [SqlLaws] - statements are atomic, transactions are all-or-nothing, an error
    leaves the committed state alone.  [fault_driver] is a concrete driver that
    executes statements and fails when a script tells it to. *)

From Stdlib Require Import Ascii String.
From stdpp Require Import strings sorting.
From S2P Require Import Prelude GoStd.
#[local] Open Scope Z_scope.

(** ** Tables: [CREATE TABLE] of [Store.init]

    A rowid is a signed 64-bit integer; [kv] rows carry a value and a log index;
    [snapshot] has at most the row [id = 1]. *)

Record tables := mkTables {
  metadata : gmap string string;
  log_entries : gmap Z (Z * string);
  kv : gmap string (string * Z);
  snapshot : option (Z * Z * string)
}.

Definition empty_tables : tables := mkTables ∅ ∅ ∅ None.

Definition set_metadata (f : gmap string string → gmap string string) (t : tables) : tables :=
  mkTables (f (metadata t)) (log_entries t) (kv t) (snapshot t).
Definition set_log (f : gmap Z (Z * string) → gmap Z (Z * string)) (t : tables) : tables :=
  mkTables (metadata t) (f (log_entries t)) (kv t) (snapshot t).
Definition set_kv (f : gmap string (string * Z) → gmap string (string * Z)) (t : tables) : tables :=
  mkTables (metadata t) (log_entries t) (f (kv t)) (snapshot t).
Definition set_snapshot (s : option (Z * Z * string)) (t : tables) : tables :=
  mkTables (metadata t) (log_entries t) (kv t) s.

(** ** Statements *)

Inductive stmt : Type :=
| Pragma (text : string)
| CreateTableIfNotExists (name : string)
| InsertOrIgnoreMeta (key value : string)
| UpsertMeta (key value : string)
| UpsertLog (idx term : Z) (command : string)
| DeleteLogFrom (idx : Z)
| DeleteLogUpTo (idx : Z)
| UpsertKv (key value : string) (log_index : Z)
| InsertKv (key value : string) (log_index : Z)
| DeleteKvAll
| UpsertSnapshot (index term : Z) (data : string).

(** The effect of a statement; [None] is a constraint violation.  A pragma or a
    [CREATE TABLE IF NOT EXISTS] does not change the rows of the database. *)
Definition run_stmt (s : stmt) (t : tables) : option tables :=
  match s with
  | Pragma _ | CreateTableIfNotExists _ => Some t
  | InsertOrIgnoreMeta k v =>
      Some (set_metadata (λ m, match m !! k with Some _ => m | None => <[k := v]> m end) t)
  | UpsertMeta k v => Some (set_metadata (<[k := v]>) t)
  | UpsertLog i tm c => Some (set_log (<[i := (tm, c)]>) t)
  | DeleteLogFrom i => Some (set_log (filter (λ kv, kv.1 < i)) t)
  | DeleteLogUpTo i => Some (set_log (filter (λ kv, i < kv.1)) t)
  | UpsertKv k v i => Some (set_kv (<[k := (v, i)]>) t)
  | InsertKv k v i =>
      match kv t !! k with
      | Some _ => None
      | None => Some (set_kv (<[k := (v, i)]>) t)
      end
  | DeleteKvAll => Some (set_kv (λ _, ∅) t)
  | UpsertSnapshot i tm d => Some (set_snapshot (Some (i, tm, d)) t)
  end.

Fixpoint run_stmts (l : list stmt) (t : tables) : option tables :=
  match l with
  | [] => Some t
  | s :: l' => match run_stmt s t with Some t' => run_stmts l' t' | None => None end
  end.

(** Statements whose success depends only on the tables: an empty [[]byte]
    argument may reach the driver as NULL, which a BLOB NOT NULL column refuses. *)
Definition plain_stmt (s : stmt) : Prop :=
  match s with
  | UpsertLog _ _ c => c ≠ ""
  | UpsertSnapshot _ _ d => d ≠ ""
  | _ => True
  end.

(** ** Queries: the columns of a row are its type *)

Inductive query : Type → Type :=
| SelectMeta (key : string) : query string
| SelectLastLog : query (Z * Z)
| SelectLogTerm (idx : Z) : query Z
| SelectLogRow (idx : Z) : query (Z * Z * string)
| SelectLogFrom (start : Z) (limit : Z) : query (Z * Z * string)
| SelectKv (key : string) : query string
| SelectKvAll : query (string * string)
| SelectSnapshot : query (Z * Z * string).

(** Rows ordered by [idx ASC]. *)
Definition idx_le (a b : Z * (Z * string)) : Prop := a.1 <= b.1.
#[global] Instance idx_le_dec a b : Decision (idx_le a b).
Proof. unfold idx_le. apply _. Defined.

Definition rows_asc (l : gmap Z (Z * string)) : list (Z * (Z * string)) :=
  merge_sort idx_le (map_to_list l).

Definition flat_row (r : Z * (Z * string)) : Z * Z * string := (r.1, r.2.1, r.2.2).

(** [ORDER BY key ASC]. *)
Definition kv_row_le (a b : string * (string * Z)) : Prop := String.le a.1 b.1.
#[global] Instance kv_row_le_dec a b : Decision (kv_row_le a b).
Proof. unfold kv_row_le. apply _. Defined.

(** [LIMIT n]: a negative limit is no limit. *)
Definition sql_limit {A} (n : Z) (l : list A) : list A :=
  if n <? 0 then l else take (Z.to_nat n) l.

Definition run_query {A} (q : query A) (t : tables) : list A :=
  match q with
  | SelectMeta k => option_list (metadata t !! k)
  | SelectLastLog => (λ r, (r.1, r.2.1)) <$> sql_limit 1 (reverse (rows_asc (log_entries t)))
  | SelectLogTerm i => option_list (fst <$> log_entries t !! i)
  | SelectLogRow i => option_list ((λ r, (i, r.1, r.2)) <$> log_entries t !! i)
  | SelectLogFrom start n =>
      flat_row <$> sql_limit n (rows_asc (filter (λ kv, start <= kv.1) (log_entries t)))
  | SelectKv k => option_list (fst <$> kv t !! k)
  | SelectKvAll => (λ r, (r.1, r.2.1)) <$> merge_sort kv_row_le (map_to_list (kv t))
  | SelectSnapshot => option_list (snapshot t)
  end.

(** ** The driver *)

Class SqlDriver : Type := {
  conn : Type;
  drv_open : string → tables → result conn;
  drv_begin : ST conn (result unit);
  drv_exec : stmt → ST conn (result unit);
  drv_query : ∀ {A}, query A → ST conn (result (list A));
  drv_commit : ST conn (result unit);
  drv_rollback : ST conn (result unit);
  (* the contents of the database file, as a crash would leave it *)
  drv_file : conn → tables
}.

(** What a connection sees: outside a transaction, the committed tables; inside,
    the tables at [BEGIN] and the working copy; after a failed statement, a
    transaction that can only be rolled back. *)
Inductive session : Type :=
| Idle (t : tables)
| InTx (saved work : tables)
| Aborted (saved : tables).

(** What survives a crash. *)
Definition durable (s : session) : tables :=
  match s with Idle t => t | InTx saved _ => saved | Aborted saved => saved end.

(** What the next statement runs on. *)
Definition working (s : session) : tables :=
  match s with Idle t => t | InTx _ work => work | Aborted saved => saved end.

Class SqlLaws (D : SqlDriver) : Type := {
  view : conn → session;
  healthy : conn → Prop;

  file_law c : drv_file c = durable (view c);
  open_law path t c : drv_open path t = Ok c → view c = Idle t;

  begin_law c t : view c = Idle t →
    wp drv_begin (λ r c', view c' = if is_ok r then InTx t t else Idle t) c;
  begin_healthy c t : view c = Idle t → healthy c →
    wp drv_begin (λ r c', r = Ok tt ∧ healthy c') c;

  exec_law s c t : view c = Idle t →
    wp (drv_exec s) (λ r c',
      if is_ok r then ∃ t', run_stmt s t = Some t' ∧ view c' = Idle t'
      else view c' = Idle t) c;
  exec_tx_law s c saved work : view c = InTx saved work →
    wp (drv_exec s) (λ r c',
      if is_ok r then ∃ work', run_stmt s work = Some work' ∧ view c' = InTx saved work'
      else view c' = InTx saved work ∨ view c' = Aborted saved) c;
  exec_healthy s c : plain_stmt s → healthy c → (∀ saved, view c ≠ Aborted saved) →
    is_Some (run_stmt s (working (view c))) →
    wp (drv_exec s) (λ r c', r = Ok tt ∧ healthy c') c;

  query_law {A} (q : query A) c t : view c = Idle t →
    wp (drv_query q) (λ r c', view c' = Idle t ∧
      match r with Ok rows => rows = run_query q t | Err e => is_no_rows e = false end) c;
  query_healthy {A} (q : query A) c t : view c = Idle t → healthy c →
    wp (drv_query q) (λ r c', is_ok r = true ∧ healthy c') c;

  commit_law c saved work : view c = InTx saved work →
    wp drv_commit (λ r c', view c' = Idle (if is_ok r then work else saved)) c;
  commit_healthy c saved work : view c = InTx saved work → healthy c →
    wp drv_commit (λ r c', r = Ok tt ∧ healthy c') c;

  rollback_law c : (∀ t, view c ≠ Idle t) →
    wp drv_rollback (λ _ c', view c' = Idle (durable (view c))) c
}.

(** ** A concrete driver with injected faults

    The connection holds its session and a script: each call consumes one bit
    and fails when it is [true]; past the end of the script nothing fails. *)

Record fault_conn := FaultConn { fc_session : session; fc_script : list bool }.

Definition fault_err {A} : result A := Err (ErrDriver "injected fault").

Definition fault_step {A} (f : session → result A * session) (g : session → session) :
    ST fault_conn (result A) :=
  λ c, match fc_script c with
       | true :: rest => (fault_err, FaultConn (g (fc_session c)) rest)
       | script => let '(r, s) := f (fc_session c) in (r, FaultConn s (tail script))
       end.

#[global] Instance fault_driver : SqlDriver := {|
  conn := fault_conn;
  drv_open _ t := Ok (FaultConn (Idle t) []);
  drv_begin := fault_step
    (λ s, match s with Idle t => (Ok tt, InTx t t) | _ => (fault_err, s) end) id;
  drv_exec q := fault_step
    (λ s, match s with
          | Idle t => match run_stmt q t with
                      | Some t' => (Ok tt, Idle t') | None => (fault_err, Idle t) end
          | InTx sv w => match run_stmt q w with
                         | Some w' => (Ok tt, InTx sv w') | None => (fault_err, InTx sv w) end
          | Aborted sv => (fault_err, Aborted sv)
          end)
    (λ s, match s with InTx sv _ => Aborted sv | _ => s end);
  drv_query A q := fault_step
    (λ s, match s with
          | Idle t => (Ok (run_query q t), s)
          | InTx sv w => (Ok (run_query q w), s)
          | Aborted _ => (fault_err, s)
          end) id;
  drv_commit := fault_step
    (λ s, match s with InTx _ w => (Ok tt, Idle w) | _ => (fault_err, Idle (durable s)) end)
    (λ s, Idle (durable s));
  drv_rollback := fault_step (λ s, (Ok tt, Idle (durable s))) (λ s, Idle (durable s));
  drv_file c := durable (fc_session c)
|}.

Definition fault_healthy (c : fault_conn) : Prop := fc_script c = [].

#[global] Instance fault_laws : SqlLaws fault_driver.
Proof.
  refine {| view := fc_session : conn → session; healthy := fault_healthy |};
    unfold wp, fault_healthy; cbn; unfold fault_step.
  all: try (by intros; simplify_eq).
  - by intros [[t'| |] [|[] l]] t; cbn; intros; simplify_eq.
  - by intros [[t'| |] [|[] l]] t; cbn; intros; simplify_eq.
  - intros s [ss [|[] l]] t; cbn; intros ->; cbn; try done;
      destruct (run_stmt s t) eqn:E; cbn; eauto.
  - intros s [ss [|[] l]] saved work; cbn; intros ->; cbn; eauto;
      destruct (run_stmt s work) eqn:E; cbn; eauto.
  - intros s [ss l]; cbn. intros _ -> Hab [t Ht].
    destruct ss as [t'|saved work|saved]; cbn in *; [..|naive_solver]; by rewrite Ht.
  - by intros A q [ss [|[] l]] t; cbn; intros ->.
  - by intros A q [ss [|[] l]] t; cbn; intros ->.
  - by intros [ss [|[] l]] saved work; cbn; intros ->.
  - by intros [ss [|[] l]] saved work; cbn; intros ->.
  - by intros [ss [|[] l]].
Defined.
