(* ===== verification/Storage.v ===== *)
(** * The durable store

    [internal/storage/storage.go]: every method of [Store], as a program over
    the driver interface of [Sql].  A method of the store is a computation
    [ST conn (result A)]: it may fail at any driver call, and what it leaves in
    the database is what its statements have done. *)

From Stdlib Require Import Ascii String.
From stdpp Require Import strings.
From S2P Require Import Prelude GoStd Json Sql.
#[local] Open Scope Z_scope.

Record Entry := mkEntry { Entry_Index : Z; Entry_Term : Z; Entry_Command : string }.

Record Snapshot := mkSnapshot {
  LastIncludedIndex : Z;
  LastIncludedTerm : Z;
  Data : string
}.

Definition zero_Entry : Entry := mkEntry 0 0 "".
Definition zero_Snapshot : Snapshot := mkSnapshot 0 0 "".

Section store.
Context `{!SqlDriver} `{!GoRuntime}.

Abbreviation M A := (ST conn (result A)).

Definition ok {A} (a : A) : M A := mret (Ok a).
Definition fail {A} (e : error) : M A := mret (Err e).

(** [db.QueryRow(...).Scan(...)]: the first row, or [sql.ErrNoRows]. *)
Definition query_row {A} (q : query A) : M A :=
  try rows := drv_query q in
  match rows with
  | [] => fail ErrNoRows
  | r :: _ => ok r
  end.

(** The same, where the caller tests [errors.Is(err, sql.ErrNoRows)]. *)
Definition on_row {A B} (q : query A) (none : M B) (some : A → M B) : M B :=
  r ← query_row q;
  match r with
  | Err e => if is_no_rows e then none else fail e
  | Ok a => some a
  end.

(** [for _, s := range ... { if _, err := Exec(s); err != nil { return err } }]. *)
Fixpoint exec_all (l : list stmt) : M unit :=
  match l with
  | [] => ok tt
  | s :: l' => try _ := drv_exec s in exec_all l'
  end.

(** [tx, err := db.Begin(); ...; defer rollback(tx); body; return tx.Commit()].
    After [Commit] the deferred rollback finds the transaction done and does not
    reach the driver; after an error in the body it rolls back. *)
Definition in_tx (body : M unit) : M unit :=
  try _ := drv_begin in
  r ← body;
  match r with
  | Ok _ => drv_commit
  | Err e => _ ← drv_rollback; fail e
  end.

(** ** Metadata *)

Definition stringMeta (key : string) : M string := query_row (SelectMeta key).

Definition uintMeta (key : string) : M Z :=
  try value := stringMeta key in
  match ParseUint value with
  | Ok parsed => ok parsed
  | Err e => fail (ErrWrap ("metadata " +:+ key +:+ " has invalid uint value") e)
  end.

Definition setMetaTx (key value : string) : M unit := drv_exec (UpsertMeta key value).

Definition CurrentTermVote : M (Z * string) :=
  try term := uintMeta "current_term" in
  try votedFor := stringMeta "voted_for" in
  ok (term, votedFor).

Definition SaveTermVote (term : Z) (votedFor : string) : M unit :=
  in_tx (
    try _ := setMetaTx "current_term" (FormatUint term) in
    setMetaTx "voted_for" votedFor).

Definition LastApplied : M Z := uintMeta "last_applied".

Definition SetLastApplied (index : Z) : M unit :=
  drv_exec (UpsertMeta "last_applied" (FormatUint index)).

Definition SnapshotIndexTerm : M (Z * Z) :=
  try index := uintMeta "snapshot_index" in
  try term := uintMeta "snapshot_term" in
  ok (index, term).

(** ** The log *)

Definition LastIndexAndTerm : M (Z * Z) :=
  on_row SelectLastLog SnapshotIndexTerm (λ r, ok (uint64 r.1, uint64 r.2)).

Definition Term (index : Z) : M (Z * bool) :=
  if index =? 0 then ok (0, true)
  else
    try ' (snapIndex, snapTerm) := SnapshotIndexTerm in
    if index =? snapIndex then ok (snapTerm, true)
    else if index <? snapIndex then ok (0, false)
    else on_row (SelectLogTerm (int64 index)) (ok (0, false)) (λ term, ok (uint64 term, true)).

Definition entry_of_row (r : Z * Z * string) : Entry :=
  mkEntry (uint64 r.1.1) (uint64 r.1.2) r.2.

Definition get_Entry (index : Z) : M (Entry * bool) :=
  on_row (SelectLogRow (int64 index)) (ok (zero_Entry, false))
    (λ row, ok (entry_of_row row, true)).

Definition EntriesFrom (start limit : Z) : M (list Entry) :=
  try ' (snapIndex, _) := SnapshotIndexTerm in
  let start := if start <=? snapIndex then snapIndex +64 1 else start in
  try rows := drv_query (SelectLogFrom (int64 start) limit) in
  ok (entry_of_row <$> rows).

Definition upsert_entry (e : Entry) : stmt :=
  UpsertLog (int64 (Entry_Index e)) (int64 (Entry_Term e)) (Entry_Command e).

Definition store_AppendEntries (entries : list Entry) : M unit :=
  match entries with
  | [] => ok tt
  | _ => in_tx (exec_all (upsert_entry <$> entries))
  end.

Definition DeleteFrom (index : Z) : M unit := drv_exec (DeleteLogFrom (int64 index)).

(** ** The key-value table and snapshots *)

Definition ApplySet (index : Z) (key value : string) : M unit :=
  in_tx (
    try _ := drv_exec (UpsertKv key value (int64 index)) in
    setMetaTx "last_applied" (FormatUint index)).

Definition Get (key : string) : M (string * bool) :=
  on_row (SelectKv key) (ok ("", false)) (λ value, ok (value, true)).

Definition All : M (gmap string string) :=
  try rows := drv_query SelectKvAll in
  ok (foldl (λ m r, <[r.1 := r.2]> m) ∅ rows).

(** The three metadata rows a snapshot sets. *)
Definition snapshot_meta (index term : Z) : list stmt :=
  [UpsertMeta "snapshot_index" (FormatUint index);
   UpsertMeta "snapshot_term" (FormatUint term);
   UpsertMeta "last_applied" (FormatUint index)].

Definition CreateSnapshot (lastIncludedIndex lastIncludedTerm : Z) : M Snapshot :=
  try values := All in
  let data := MarshalMap values in
  try _ := in_tx (exec_all (
    [UpsertSnapshot (int64 lastIncludedIndex) (int64 lastIncludedTerm) data;
     DeleteLogUpTo (int64 lastIncludedIndex)]
    ++ snapshot_meta lastIncludedIndex lastIncludedTerm)) in
  ok (mkSnapshot lastIncludedIndex lastIncludedTerm data).

Definition LoadSnapshot : M Snapshot :=
  on_row SelectSnapshot (ok zero_Snapshot)
    (λ r, ok (mkSnapshot (uint64 r.1.1) (uint64 r.1.2) r.2)).

Definition decode_snapshot (data : string) : result (gmap string string) :=
  match data with
  | EmptyString => Ok ∅
  | _ => UnmarshalMap data
  end.

Definition install_stmts (values : gmap string string) (snap : Snapshot) : list stmt :=
  let idx := int64 (LastIncludedIndex snap) in
  [DeleteKvAll]
  ++ ((λ kv, InsertKv kv.1 kv.2 idx) <$> map_range values)
  ++ [DeleteLogUpTo idx;
      UpsertSnapshot idx (int64 (LastIncludedTerm snap)) (Data snap)]
  ++ snapshot_meta (LastIncludedIndex snap) (LastIncludedTerm snap).

Definition store_InstallSnapshot (snap : Snapshot) : M unit :=
  match decode_snapshot (Data snap) with
  | Err e => fail e
  | Ok values => in_tx (exec_all (install_stmts values snap))
  end.

(** ** Opening *)

Definition init_stmts : list stmt :=
  [Pragma "journal_mode=WAL"; Pragma "synchronous=FULL";
   CreateTableIfNotExists "metadata"; CreateTableIfNotExists "log_entries";
   CreateTableIfNotExists "kv"; CreateTableIfNotExists "snapshot"].

Definition defaults : gmap string string :=
  <["current_term" := "0"]> (<["voted_for" := ""]> (<["last_applied" := "0"]>
    (<["snapshot_index" := "0"]> {["snapshot_term" := "0"]}))).

Definition init : M unit :=
  try _ := exec_all init_stmts in
  exec_all ((λ kv, InsertOrIgnoreMeta kv.1 kv.2) <$> map_range defaults).

(** [Open(dir)], given what [os.MkdirAll(dir)] reports, [path], which is
    [filepath.Join(dir, "raft.db")], and the contents of that file: a connection,
    or an error (the handle is then closed), and what the file then holds. *)
Definition Open (mkdir : result unit) (path : string) (file : tables) : result conn * tables :=
  match mkdir with
  | Err e => (Err e, file)
  | Ok _ =>
      match drv_open (path +:+ "?_busy_timeout=5000&_journal_mode=WAL&_synchronous=FULL") file with
      | Err e => (Err e, file)
      | Ok c => match init c with
                | (Ok _, c') => (Ok c', drv_file c')
                | (Err e, c') => (Err e, drv_file c')
                end
      end
  end.
End store.
