(* ===== verification/StoreSpec.v ===== *)
(** * What the store promises

    Each method of [Storage] against a function on the tables: [reads m f] - the
    method leaves the database as it is and returns what [f] computes; [refines
    m f] - the method has done all of [f] or, when it reports an error, none of
    it.  Both also say that a healthy driver makes the method succeed where [f]
    is defined (and [pre] holds). *)

From Stdlib Require Import Ascii String.
From stdpp Require Import strings sorting.
From S2P Require Import Prelude GoStd Json Sql Storage.
#[local] Open Scope Z_scope.

Create HintDb store discriminated.

(** ** The specifications *)

Definition meta_uint (key : string) (t : tables) : option Z :=
  v ← metadata t !! key; match ParseUint v with Ok z => Some z | Err _ => None end.

Definition spec_CurrentTermVote (t : tables) : option (Z * string) :=
  z ← meta_uint "current_term" t; v ← metadata t !! "voted_for"; Some (z, v).

Definition spec_SnapshotIndexTerm (t : tables) : option (Z * Z) :=
  i ← meta_uint "snapshot_index" t; tm ← meta_uint "snapshot_term" t; Some (i, tm).

(** The row with the greatest rowid. *)
Definition last_row (l : gmap Z (Z * string)) : option (Z * (Z * string)) :=
  head (reverse (rows_asc l)).

Definition spec_LastIndexAndTerm (t : tables) : option (Z * Z) :=
  match last_row (log_entries t) with
  | Some r => Some (uint64 r.1, uint64 r.2.1)
  | None => spec_SnapshotIndexTerm t
  end.

Definition spec_Term (index : Z) (t : tables) : option (Z * bool) :=
  if index =? 0 then Some (0, true)
  else
    '(snapIndex, snapTerm) ← spec_SnapshotIndexTerm t;
    if index =? snapIndex then Some (snapTerm, true)
    else if index <? snapIndex then Some (0, false)
    else match log_entries t !! int64 index with
         | Some (tm, _) => Some (uint64 tm, true)
         | None => Some (0, false)
         end.

Definition spec_Entry (index : Z) (t : tables) : Entry * bool :=
  match log_entries t !! int64 index with
  | Some (tm, c) => (mkEntry (uint64 (int64 index)) (uint64 tm) c, true)
  | None => (zero_Entry, false)
  end.

Definition spec_EntriesFrom (start limit : Z) (t : tables) : option (list Entry) :=
  '(snapIndex, _) ← spec_SnapshotIndexTerm t;
  let start := if start <=? snapIndex then snapIndex +64 1 else start in
  Some (entry_of_row ∘ flat_row <$>
    sql_limit limit (rows_asc (filter (λ kv, int64 start <= kv.1) (log_entries t)))).

Definition spec_Get (key : string) (t : tables) : string * bool :=
  match kv t !! key with Some (v, _) => (v, true) | None => ("", false) end.

Definition kv_values (t : tables) : gmap string string := fst <$> kv t.

Definition spec_LoadSnapshot (t : tables) : Snapshot :=
  match snapshot t with
  | Some (i, tm, d) => mkSnapshot (uint64 i) (uint64 tm) d
  | None => zero_Snapshot
  end.

Definition put_meta (key value : string) : tables → tables := set_metadata (<[key := value]>).

Definition spec_SaveTermVote (term : Z) (votedFor : string) (t : tables) : tables :=
  put_meta "voted_for" votedFor (put_meta "current_term" (FormatUint term) t).

Definition upsert_row (l : gmap Z (Z * string)) (e : Entry) : gmap Z (Z * string) :=
  <[int64 (Entry_Index e) := (int64 (Entry_Term e), Entry_Command e)]> l.

Definition spec_AppendEntries (entries : list Entry) : tables → tables :=
  set_log (λ l, foldl upsert_row l entries).

Definition spec_DeleteFrom (index : Z) : tables → tables :=
  set_log (filter (λ kv, kv.1 < int64 index)).

Definition spec_ApplySet (index : Z) (key value : string) (t : tables) : tables :=
  put_meta "last_applied" (FormatUint index) (set_kv (<[key := (value, int64 index)]>) t).

(** The part [CreateSnapshot] and [InstallSnapshot] share. *)
Definition put_snapshot (snap : Snapshot) (t : tables) : tables :=
  put_meta "last_applied" (FormatUint (LastIncludedIndex snap))
    (put_meta "snapshot_term" (FormatUint (LastIncludedTerm snap))
      (put_meta "snapshot_index" (FormatUint (LastIncludedIndex snap))
        (set_snapshot (Some (int64 (LastIncludedIndex snap), int64 (LastIncludedTerm snap), Data snap))
          (set_log (filter (λ kv, int64 (LastIncludedIndex snap) < kv.1)) t)))).

Definition spec_CreateSnapshot (index term : Z) (t : tables) : Snapshot * tables :=
  let snap := mkSnapshot index term (MarshalMap (kv_values t)) in
  (snap, put_snapshot snap t).

Definition spec_InstallSnapshot (snap : Snapshot) (t : tables) : option tables :=
  match decode_snapshot (Data snap) with
  | Ok values =>
      Some (put_snapshot snap
        (set_kv (λ _, (λ v, (v, int64 (LastIncludedIndex snap))) <$> values) t))
  | Err _ => None
  end.

Definition spec_init (t : tables) : tables := set_metadata (λ m, m ∪ defaults) t.

(** ** Reads, transaction bodies, atomic updates *)

Section refinement.
Context `{D : !SqlDriver} `{L : !SqlLaws D} `{R : !GoRuntime}.

Abbreviation M A := (ST conn (result A)).

Definition progress {A B} (pre : Prop) (f : option B) (c : conn) (r : result A) (c' : conn) : Prop :=
  pre → healthy c → is_Some f → healthy c' ∧ is_ok r = true.

Definition reads {A} (m : M A) (f : tables → option A) : Prop :=
  ∀ c t, view c = Idle t →
    wp m (λ r c', view c' = Idle t ∧ (∀ a, r = Ok a → f t = Some a)
      ∧ progress True (f t) c r c') c.

Definition refines {A} (pre : Prop) (m : M A) (f : tables → option (A * tables)) : Prop :=
  ∀ c t, view c = Idle t →
    wp m (λ r c',
      match r with
      | Ok a => ∃ t', f t = Some (a, t') ∧ view c' = Idle t'
      | Err _ => view c' = Idle t
      end ∧ progress pre (f t) c r c') c.

Lemma refines_pre {A} (pre pre' : Prop) (m : M A) f :
  (pre' → pre) → refines pre m f → refines pre' m f.
Proof.
  intros Hp Hm c t Hc. specialize (Hm c t Hc). unfold wp in *. destruct (m c) as [r c'].
  destruct Hm as [Hr Hpr]. split; [done|]. intros H. by apply Hpr, Hp.
Qed.

(** Inside a transaction; an error may leave it open or aborted. *)
Definition tx_refines (pre : Prop) (m : M unit) (f : tables → option tables) : Prop :=
  ∀ c saved work, view c = InTx saved work →
    wp m (λ r c',
      match r with
      | Ok _ => ∃ work', f work = Some work' ∧ view c' = InTx saved work'
      | Err _ => durable (view c') = saved ∧ ∀ t, view c' ≠ Idle t
      end ∧ progress pre (f work) c r c') c.

Lemma reads_ext {A} (m : M A) f g : (∀ t, f t = g t) → reads m f → reads m g.
Proof. intros E H c t Hc. rewrite <- E. by apply H. Qed.

Lemma refines_ext {A} pre (m : M A) f g : (∀ t, f t = g t) → refines pre m f → refines pre m g.
Proof. intros E H c t Hc. rewrite <- E. by apply H. Qed.

Lemma reads_ok {A} (a : A) : reads (ok a) (λ _, Some a).
Proof. intros c t Hc. split_and!; [done|by intros ? [= ->]|done]. Qed.

Lemma reads_fail {A} e : reads (fail e : M A) (λ _, None).
Proof. intros c t Hc. split_and!; [done|done|by intros _ _ []]. Qed.

Lemma reads_query {A} (q : query A) : reads (drv_query q) (λ t, Some (run_query q t)).
Proof.
  intros c t Hc. pose proof (query_law q c t Hc) as [Hv Hr].
  split_and!; [done| |].
  - intros a Ha. rewrite Ha in Hr. by subst.
  - intros _ Hh _. pose proof (query_healthy q c t Hc Hh) as [Hok Hh']. done.
Qed.

(** The failing branch of a sequence. *)
Lemma progress_bind_err {A B C} pre (f : option A) (g : A → option C) c e c' :
  progress True f c (Err (A := A) e) c' →
  progress pre (a ← f; g a) c (Err (A := B) e) c'.
Proof.
  intros Hp _ Hh [b Hb]. destruct f as [a|]; [|done].
  by destruct (Hp I Hh (ex_intro _ a eq_refl)).
Qed.

Lemma progress_bind_ok {A B C} pre (f : option A) (g : A → option C) a c c' (r : result B) c'' :
  progress True f c (Ok a) c' → f = Some a →
  progress pre (g a) c' r c'' → progress pre (a ← f; g a) c r c''.
Proof.
  intros Hp -> Hp' Hpre Hh Hs. destruct (Hp I Hh) as [Hh' _]; [eauto|]. by apply Hp'.
Qed.

Lemma reads_try {A B} (m : M A) (k : A → M B) f g :
  reads m f → (∀ a, reads (k a) (g a)) →
  reads (try_bind m k) (λ t, a ← f t; g a t).
Proof.
  intros Hm Hk c t Hc. rewrite wp_try. eapply wp_mono; [by apply Hm|].
  intros [a|e] c' (Hc' & Ha & Hp).
  - specialize (Ha a eq_refl). eapply wp_mono; [by apply Hk|].
    intros r c'' (Hc'' & Hr & Hp'). split_and!; [done|by rewrite Ha|].
    by eapply progress_bind_ok.
  - split_and!; [done..|]. by eapply progress_bind_err.
Qed.

Lemma reads_query_row {A} (q : query A) : reads (query_row q) (λ t, head (run_query q t)).
Proof.
  apply (reads_try (drv_query q) _ (λ t, Some (run_query q t)) (λ rows _, head rows)).
  - apply reads_query.
  - intros [|a l]; [apply reads_fail|apply reads_ok].
Qed.

Lemma reads_on_row {A B} (q : query A) (none : M B) (some : A → M B) fn fs :
  reads none fn → (∀ a, reads (some a) (fs a)) →
  reads (on_row q none some)
    (λ t, match head (run_query q t) with None => fn t | Some a => fs a t end).
Proof.
  intros Hn Hs c t Hc. unfold on_row, query_row. rewrite wp_bind, wp_try.
  eapply wp_mono; [exact (wp_and _ _ _ _ (query_law q c t Hc) (wp_impl _ _ _ _ (query_healthy q c t Hc)))|].
  intros r c' [[Hc' Hr] Hp]. destruct r as [rows|e].
  - subst rows. destruct (run_query q t) as [|a l];
      unfold ok, fail; rewrite wp_ret; cbn [head is_no_rows].
    + eapply wp_mono; [by apply Hn|]. intros r c'' (? & ? & Hp'). split_and!; [done..|].
      intros _ Hh ?. apply Hp'; [done| |done]. by apply Hp.
    + eapply wp_mono; [by apply Hs|]. intros r c'' (? & ? & Hp'). split_and!; [done..|].
      intros _ Hh ?. apply Hp'; [done| |done]. by apply Hp.
  - rewrite Hr. split_and!; [done..|]. intros _ Hh. by destruct (Hp Hh).
Qed.

Lemma refines_reads {A} (m : M A) f : reads m f → refines True m (λ t, (., t) <$> f t).
Proof.
  intros H c t Hc. eapply wp_mono; [by apply H|]. intros r c' (Hc' & Hr & Hp). split.
  - destruct r as [a|e]; [|done]. rewrite (Hr a eq_refl). eauto.
  - intros _ Hh Hf. apply Hp; [done..|]. by apply fmap_is_Some in Hf.
Qed.

(** A read, then an atomic update. *)
Lemma refines_try {A B} pre (m : M A) (k : A → M B) f g :
  reads m f → (∀ a, refines pre (k a) (g a)) →
  refines pre (try_bind m k) (λ t, a ← f t; g a t).
Proof.
  intros Hm Hk c t Hc. rewrite wp_try. eapply wp_mono; [by apply Hm|].
  intros [a|e] c' (Hc' & Ha & Hp).
  - specialize (Ha a eq_refl). eapply wp_mono; [by apply Hk|].
    intros r c'' (Hr & Hp'). split; [by rewrite Ha|]. by eapply progress_bind_ok.
  - split; [done|]. by eapply progress_bind_err.
Qed.

Lemma refines_exec s : refines (plain_stmt s) (drv_exec s) (λ t, (tt,.) <$> run_stmt s t).
Proof.
  intros c t Hc. pose proof (exec_law s c t Hc) as Hr. split.
  - unfold wp in Hr. destruct (drv_exec s c).1 as [[]|e]; [|done].
    destruct Hr as (t' & -> & ?). eauto.
  - intros Hpl Hh Hs%fmap_is_Some.
    destruct (exec_healthy s c Hpl Hh) as [Hok Hh'];
      [rewrite Hc; naive_solver|by rewrite Hc|]. by rewrite Hok.
Qed.

Lemma tx_exec s : tx_refines (plain_stmt s) (drv_exec s) (run_stmt s).
Proof.
  intros c saved work Hc. pose proof (exec_tx_law s c saved work Hc) as Hr. split.
  - unfold wp in Hr. destruct (drv_exec s c).1 as [[]|e]; [done|].
    cbn in Hr. destruct Hr as [-> | ->]; naive_solver.
  - intros Hpl Hh Hs.
    destruct (exec_healthy s c Hpl Hh) as [Hok Hh'];
      [rewrite Hc; naive_solver|by rewrite Hc|]. by rewrite Hok.
Qed.

Lemma tx_try pre1 pre2 (m k : M unit) f g :
  tx_refines pre1 m f → tx_refines pre2 k g →
  tx_refines (pre1 ∧ pre2) (try_bind m (λ _, k)) (λ t, t' ← f t; g t').
Proof.
  intros Hm Hk c saved work Hc. rewrite wp_try. eapply wp_mono; [by apply Hm|].
  intros [[]|e] c' (Hr & Hp).
  - destruct Hr as (work' & Ef & Hc'). eapply wp_mono; [by apply Hk|].
    intros r c'' (Hr' & Hp'). rewrite Ef. split; [done|].
    intros [? ?] Hh Hs. destruct (Hp ltac:(done) Hh) as [Hh' _]; [rewrite Ef; eauto|].
    by apply Hp'.
  - split; [done|]. intros [? ?] Hh [t Ht]. destruct (f work) as [w|]; [|done].
    by destruct (Hp ltac:(done) Hh (ex_intro _ w eq_refl)).
Qed.

Lemma tx_ok : tx_refines True (ok tt) Some.
Proof. intros c saved work Hc. split; [cbn; eauto|done]. Qed.

Lemma tx_exec_all l : tx_refines (Forall plain_stmt l) (exec_all l) (run_stmts l).
Proof.
  induction l as [|s l IH]; intros c saved work Hc.
  - eapply wp_mono; [by apply tx_ok|]. intros r c' [? Hp].
    split; [done|]. intros _. by apply Hp.
  - eapply wp_mono; [by apply (tx_try _ _ _ _ _ _ (tx_exec s) IH)|].
    intros r c' [Hr Hp]. cbn [run_stmts].
    destruct (run_stmt s work) eqn:E; cbn in Hr, Hp; (split; [done|]);
      intros Hpl%Forall_cons Hh Hs; by apply (Hp Hpl Hh Hs).
Qed.

(** A transaction does all of its body or nothing. *)
Lemma refines_tx pre body f :
  tx_refines pre body f → refines pre (in_tx body) (λ t, (tt,.) <$> f t).
Proof.
  intros Hb c t Hc. unfold in_tx. rewrite wp_try.
  eapply wp_mono; [exact (wp_and _ _ _ _ (begin_law c t Hc) (wp_impl _ _ _ _ (begin_healthy c t Hc)))|].
  intros r c1 [Hc1 Hp1]. destruct r as [[]|e]; cbn in Hc1.
  2: { split; [done|]. intros _ Hh. by destruct (Hp1 Hh). }
  rewrite wp_bind. eapply wp_mono; [by apply Hb|].
  intros [[]|e] c2 [Hr Hp2].
  - destruct Hr as (w & Ef & Hc2). rewrite Ef. cbn.
    eapply wp_mono; [exact (wp_and _ _ _ _ (commit_law c2 t w Hc2) (wp_impl _ _ _ _ (commit_healthy c2 t w Hc2)))|].
    intros r c3 [Hc3 Hp3]. split.
    + destruct r as [[]|e]; cbn in Hc3; eauto.
    + intros Hpre Hh _. destruct (Hp1 Hh) as [_ Hh1].
      destruct (Hp2 Hpre Hh1) as [Hh2 _]; [rewrite Ef; eauto|].
      by destruct (Hp3 Hh2) as [-> ?].
  - destruct Hr as [Hd Hni]. rewrite wp_bind.
    eapply wp_mono; [by apply rollback_law|]. intros r c3 Hc3. split.
    + cbn. by rewrite Hc3, Hd.
    + intros Hpre Hh Hs%fmap_is_Some. destruct (Hp1 Hh) as [_ Hh1].
      by destruct (Hp2 Hpre Hh1 Hs).
Qed.

(** ** The methods *)

Lemma reads_stringMeta key : reads (stringMeta key) (λ t, metadata t !! key).
Proof.
  eapply reads_ext; [|apply reads_query_row].
  intros t. cbn. by destruct (metadata t !! key).
Qed.

Lemma reads_uintMeta key : reads (uintMeta key) (meta_uint key).
Proof.
  eapply reads_ext; [|apply (reads_try _ _ _ (λ v _,
    match ParseUint v with Ok z => Some z | Err _ => None end) (reads_stringMeta key))].
  - done.
  - intros v. destruct (ParseUint v); [apply reads_ok|apply reads_fail].
Qed.

Lemma reads_CurrentTermVote : reads CurrentTermVote spec_CurrentTermVote.
Proof.
  apply (reads_try _ _ _ (λ z t, v ← metadata t !! "voted_for"; Some (z, v))
    (reads_uintMeta _)).
  intros z. apply (reads_try _ _ _ (λ v _, Some (z, v)) (reads_stringMeta _)).
  intros v. apply reads_ok.
Qed.

Lemma reads_LastApplied : reads LastApplied (meta_uint "last_applied").
Proof. apply reads_uintMeta. Qed.

Lemma reads_SnapshotIndexTerm : reads SnapshotIndexTerm spec_SnapshotIndexTerm.
Proof.
  apply (reads_try _ _ _ (λ i t, tm ← meta_uint "snapshot_term" t; Some (i, tm))
    (reads_uintMeta _)).
  intros i. apply (reads_try _ _ _ (λ tm _, Some (i, tm)) (reads_uintMeta _)).
  intros v. apply reads_ok.
Qed.

Lemma reads_LastIndexAndTerm : reads LastIndexAndTerm spec_LastIndexAndTerm.
Proof.
  eapply reads_ext; [|apply reads_on_row; [apply reads_SnapshotIndexTerm|intros; apply reads_ok]].
  intros t. cbn. unfold spec_LastIndexAndTerm, last_row, sql_limit.
  by destruct (reverse (rows_asc (log_entries t))).
Qed.

Lemma reads_Term index : reads (Term index) (spec_Term index).
Proof.
  unfold Term, spec_Term. destruct (index =? 0); [apply reads_ok|].
  eapply reads_ext; [|apply reads_try; [apply reads_SnapshotIndexTerm|]].
  2: { intros [si st]. instantiate (1 := λ a t, if index =? a.1 then Some (a.2, true)
         else if index <? a.1 then Some (0, false)
         else match head (run_query (SelectLogTerm (int64 index)) t) with
              | None => Some (0, false) | Some tm => Some (uint64 tm, true) end). cbn [fst snd].
       destruct (index =? si); [apply reads_ok|]. destruct (index <? si); [apply reads_ok|].
       apply reads_on_row; [apply reads_ok|intros; apply reads_ok]. }
  intros t. cbn. destruct (spec_SnapshotIndexTerm t) as [[si st]|]; [|done]. cbn.
  destruct (index =? si), (index <? si); try done.
  by destruct (log_entries t !! int64 index) as [[tm c]|].
Qed.

Lemma reads_Entry index : reads (get_Entry index) (λ t, Some (spec_Entry index t)).
Proof.
  eapply reads_ext; [|apply reads_on_row; [apply reads_ok|intros; apply reads_ok]].
  intros t. cbn. unfold spec_Entry. by destruct (log_entries t !! int64 index) as [[tm c]|].
Qed.

Lemma reads_EntriesFrom start limit :
  reads (EntriesFrom start limit) (spec_EntriesFrom start limit).
Proof.
  unfold EntriesFrom, spec_EntriesFrom.
  eapply reads_ext; [|apply reads_try; [apply reads_SnapshotIndexTerm|]].
  2: { intros [si st]. instantiate (1 := λ a t, Some (entry_of_row <$> run_query
         (SelectLogFrom (int64 (if start <=? a.1 then a.1 +64 1 else start)) limit) t)).
       apply (reads_try _ _ _ (λ rows _, Some (entry_of_row <$> rows)) (reads_query _)).
       intros rows. apply reads_ok. }
  intros t. cbn. destruct (spec_SnapshotIndexTerm t) as [[si st]|]; [|done]. cbn.
  by rewrite list_fmap_compose.
Qed.

Lemma reads_Get key : reads (Get key) (λ t, Some (spec_Get key t)).
Proof.
  eapply reads_ext; [|apply reads_on_row; [apply reads_ok|intros; apply reads_ok]].
  intros t. cbn. unfold spec_Get. by destruct (kv t !! key) as [[v i]|].
Qed.

Lemma reads_LoadSnapshot : reads LoadSnapshot (λ t, Some (spec_LoadSnapshot t)).
Proof.
  eapply reads_ext; [|apply reads_on_row; [apply reads_ok|intros; apply reads_ok]].
  intros t. cbn. unfold spec_LoadSnapshot. by destruct (snapshot t) as [[[i tm] d]|].
Qed.

Lemma foldl_insert_perm (l : list (string * string)) (m : gmap string string) :
  NoDup l.*1 → (∀ k, k ∈ l.*1 → m !! k = None) →
  foldl (λ m r, <[r.1 := r.2]> m) m l = list_to_map l ∪ m.
Proof.
  revert m. induction l as [|[k v] l IH]; intros m Hn Hm.
  { by rewrite list_to_map_nil, (left_id_L ∅ (∪)). }
  rewrite fmap_cons in Hn, Hm. apply NoDup_cons in Hn as [Hk Hn].
  cbn [foldl fst snd] in *. rewrite IH; [|done|].
  - rewrite list_to_map_cons, <- insert_union_l, insert_union_r; [done|].
    by apply not_elem_of_list_to_map_1.
  - intros k' Hk'. rewrite lookup_insert_ne by (intros ->; done). apply Hm. by constructor.
Qed.

Lemma reads_All : reads All (λ t, Some (kv_values t)).
Proof.
  eapply reads_ext; [|apply (reads_try _ _ _ (λ rows _,
    Some (foldl (λ m r, <[r.1 := r.2]> m) ∅ rows)) (reads_query _)); intros; apply reads_ok].
  intros t. cbn. f_equal. unfold kv_values.
  set (l := (λ r : string * (string * Z), (r.1, r.2.1)) <$> merge_sort kv_row_le (map_to_list (kv t))).
  assert (l ≡ₚ map_to_list (fst <$> kv t)) as Hp.
  { unfold l. rewrite merge_sort_Permutation, map_to_list_fmap. apply Permutation_refl'.
    apply list_fmap_ext. by intros ? [k [v i]] ?. }
  rewrite foldl_insert_perm.
  - rewrite (right_id_L ∅ (∪)). rewrite <- (list_to_map_to_list (fst <$> kv t)).
    apply list_to_map_proper; [|done]. rewrite Hp. apply NoDup_fst_map_to_list.
  - rewrite Hp. apply NoDup_fst_map_to_list.
  - intros. apply lookup_empty.
Qed.

Lemma refines_SaveTermVote term votedFor :
  refines True (SaveTermVote term votedFor) (λ t, Some (tt, spec_SaveTermVote term votedFor t)).
Proof.
  intros c t Hc. eapply wp_mono.
  { by apply (refines_tx _ _ _ (tx_try _ _ _ _ _ _ (tx_exec (UpsertMeta _ _)) (tx_exec (UpsertMeta _ _)))). }
  intros r c' [Hr Hp]. split; [done|]. intros _ Hh Hs. by apply Hp.
Qed.

Lemma refines_tx_stmts l g :
  (∀ t, run_stmts l t = Some (g t)) →
  refines (Forall plain_stmt l) (in_tx (exec_all l)) (λ t, Some (tt, g t)).
Proof.
  intros H. eapply refines_ext; [|apply refines_tx, tx_exec_all].
  intros t. cbn. by rewrite H.
Qed.

Lemma run_upsert_entries es t :
  run_stmts (upsert_entry <$> es) t = Some (spec_AppendEntries es t).
Proof.
  revert t. induction es as [|e es IH]; intros t; [by destruct t|].
  cbn [fmap list_fmap run_stmts]. unfold upsert_entry at 1. cbn [run_stmt]. by rewrite IH.
Qed.

Definition nonempty_commands (es : list Entry) : Prop :=
  Forall (λ e, Entry_Command e ≠ "") es.

Lemma refines_AppendEntries es :
  refines (nonempty_commands es) (store_AppendEntries es)
    (λ t, Some (tt, spec_AppendEntries es t)).
Proof.
  destruct es as [|e es].
  - intros c t Hc. split; [|done]. exists t. split; [|done]. by destruct t.
  - intros c t Hc. eapply wp_mono.
    { by apply (refines_tx_stmts _ _ (run_upsert_entries (e :: es))). }
    intros r c' [Hr Hp]. split; [done|]. intros Hne. apply Hp.
    by apply Forall_fmap.
Qed.

Lemma refines_DeleteFrom index :
  refines True (DeleteFrom index) (λ t, Some (tt, spec_DeleteFrom index t)).
Proof. apply (refines_exec (DeleteLogFrom (int64 index))). Qed.

Lemma refines_SetLastApplied index :
  refines True (SetLastApplied index)
    (λ t, Some (tt, put_meta "last_applied" (FormatUint index) t)).
Proof. apply (refines_exec (UpsertMeta "last_applied" (FormatUint index))). Qed.

Lemma refines_ApplySet index key value :
  refines True (ApplySet index key value) (λ t, Some (tt, spec_ApplySet index key value t)).
Proof.
  intros c t Hc. eapply wp_mono.
  { by apply (refines_tx _ _ _ (tx_try _ _ _ _ _ _ (tx_exec (UpsertKv _ _ _)) (tx_exec (UpsertMeta _ _)))). }
  intros r c' [Hr Hp]. split; [done|]. intros _ Hh Hs. by apply Hp.
Qed.

Lemma MarshalMap_nonempty m : MarshalMap m ≠ "".
Proof. done. Qed.

Lemma refines_CreateSnapshot index term :
  refines True (CreateSnapshot index term) (λ t, Some (spec_CreateSnapshot index term t)).
Proof.
  unfold CreateSnapshot. eapply refines_ext; [|apply refines_try; [apply reads_All|]].
  2: { intros values. instantiate (1 := λ values t,
         let snap := mkSnapshot index term (MarshalMap values) in Some (snap, put_snapshot snap t)).
       intros c t Hc. rewrite wp_try. eapply wp_mono.
       { by apply (refines_tx_stmts _ (put_snapshot (mkSnapshot index term (MarshalMap values)))). }
       intros [[]|e] c' [Hr Hp].
       - destruct Hr as (t' & [= <-] & Hc').
         split; [eexists; split; [reflexivity|done]|].
         intros _ Hh _. destruct (Hp ltac:(by repeat constructor) Hh ltac:(done)). done.
       - split; [done|]. intros _ Hh _.
         by destruct (Hp ltac:(by repeat constructor) Hh ltac:(done)). }
  done.
Qed.

Lemma run_stmts_app l1 l2 t :
  run_stmts (l1 ++ l2) t = (t' ← run_stmts l1 t; run_stmts l2 t').
Proof.
  revert t. induction l1 as [|s l1 IH]; intros t; [done|]. cbn.
  destruct (run_stmt s t); [apply IH|done].
Qed.

(** Inserting the rows of a map, in any order, into an empty [kv]. *)
Lemma run_insert_rows (l : list (string * string)) i t :
  NoDup l.*1 → (∀ k, k ∈ l.*1 → kv t !! k = None) →
  run_stmts ((λ r, InsertKv r.1 r.2 i) <$> l) t =
  Some (set_kv (λ m, ((λ v, (v, i)) <$> list_to_map l) ∪ m) t).
Proof.
  revert t. induction l as [|[k v] l IH]; intros t Hn Hm.
  { cbn. f_equal. destruct t. unfold set_kv. cbn. by rewrite fmap_empty, (left_id_L ∅ (∪)). }
  rewrite fmap_cons in Hn, Hm. apply NoDup_cons in Hn as [Hk Hn].
  cbn [fmap list_fmap run_stmts run_stmt fst snd].
  rewrite (Hm k) by constructor. rewrite IH; [|done|].
  - f_equal. unfold set_kv. cbn [metadata log_entries kv snapshot]. f_equal.
    rewrite list_to_map_cons, fmap_insert, <- insert_union_l, insert_union_r; [done|].
    rewrite lookup_fmap. by rewrite not_elem_of_list_to_map_1.
  - intros k' Hk'. cbn. rewrite lookup_insert_ne by (intros ->; done). apply Hm. by constructor.
Qed.

Lemma run_install_stmts values snap t :
  run_stmts (install_stmts values snap) t =
  Some (put_snapshot snap
    (set_kv (λ _, (λ v, (v, int64 (LastIncludedIndex snap))) <$> values) t)).
Proof.
  unfold install_stmts. cbn [app run_stmts run_stmt].
  rewrite run_stmts_app, run_insert_rows.
  - cbn. unfold put_snapshot, put_meta, set_metadata, set_log, set_kv, set_snapshot. cbn. do 2 f_equal. rewrite (right_id_L ∅ (∪)).
    f_equal. rewrite <- (list_to_map_to_list values) at 2.
    apply list_to_map_proper; [|apply map_range_perm].
    rewrite map_range_perm. apply NoDup_fst_map_to_list.
  - rewrite map_range_perm. apply NoDup_fst_map_to_list.
  - intros. apply lookup_empty.
Qed.

Lemma refines_InstallSnapshot snap :
  refines (Data snap ≠ "") (store_InstallSnapshot snap)
    (λ t, (tt,.) <$> spec_InstallSnapshot snap t).
Proof.
  unfold store_InstallSnapshot, spec_InstallSnapshot.
  destruct (decode_snapshot (Data snap)) as [values|e].
  - intros c t Hc. eapply wp_mono.
    { by apply (refines_tx_stmts _ _ (run_install_stmts values snap)). }
    intros r c' [Hr Hp]. split; [done|]. intros Hne. apply Hp.
    unfold install_stmts. rewrite !Forall_app, Forall_fmap. split_and!; repeat constructor; try done.
    apply Forall_true. done.
  - intros c t Hc. split; [done|]. by intros _ _ [].
Qed.

(** ** Opening: the statements of [init] autocommit one by one *)

Lemma wp_exec_all_autocommit l c t :
  view c = Idle t →
  wp (exec_all l) (λ r c', ∃ l1 l2 t', l = l1 ++ l2 ∧ run_stmts l1 t = Some t'
    ∧ view c' = Idle t' ∧ (is_ok r = true → l2 = [])) c.
Proof.
  revert c t. induction l as [|s l IH]; intros c t Hc.
  { exists [], [], t. done. }
  cbn [exec_all]. rewrite wp_try. eapply wp_mono; [by apply exec_law|].
  intros [[]|e] c' Hr; cbn in Hr.
  - destruct Hr as (t' & Es & Hc'). eapply wp_mono; [by apply IH|].
    intros r c'' (l1 & l2 & t'' & -> & Hl1 & Hc'' & Hok).
    exists (s :: l1), l2, t''. cbn. by rewrite Es.
  - exists [], (s :: l), t. done.
Qed.

Lemma run_default_rows (l : list (string * string)) t :
  NoDup l.*1 →
  run_stmts ((λ r, InsertOrIgnoreMeta r.1 r.2) <$> l) t =
  Some (set_metadata (λ m, m ∪ list_to_map l) t).
Proof.
  revert t. induction l as [|[k v] l IH]; intros t Hn.
  { cbn. f_equal. destruct t. unfold set_metadata. cbn. by rewrite (right_id_L ∅ (∪)). }
  rewrite fmap_cons in Hn. apply NoDup_cons in Hn as [Hk Hn].
  cbn [fmap list_fmap run_stmts run_stmt fst snd]. rewrite IH by done.
  f_equal. unfold set_metadata. cbn [metadata log_entries kv snapshot]. f_equal.
  rewrite list_to_map_cons. destruct (metadata t !! k) eqn:E.
  - apply map_eq. intros i. rewrite !lookup_union.
    destruct (decide (i = k)) as [->|Hne]; [|by rewrite lookup_insert_ne].
    rewrite E, lookup_insert_eq. by destruct ((list_to_map l : gmap string string) !! k).
  - by rewrite <- insert_union_l, insert_union_r.
Qed.

(** What [init] can leave behind: all of the old rows, some of the defaults. *)
Definition init_between (t t' : tables) : Prop :=
  metadata t ⊆ metadata t' ∧ metadata t' ⊆ metadata t ∪ defaults
  ∧ log_entries t' = log_entries t ∧ kv t' = kv t ∧ snapshot t' = snapshot t.

Lemma run_stmts_noop l t :
  Forall (λ s, ∀ t, run_stmt s t = Some t) l → run_stmts l t = Some t.
Proof. induction 1 as [|s l Hs _ IH]; cbn; [done|]. by rewrite Hs. Qed.

Lemma map_range_defaults_prefix p q :
  map_range defaults = p ++ q →
  NoDup p.*1 ∧ (list_to_map p : gmap string string) ⊆ defaults
  ∧ (q = [] → (list_to_map p : gmap string string) = defaults).
Proof.
  intros E. pose proof (map_range_perm defaults) as Hp. rewrite E in Hp.
  assert (NoDup (p ++ q).*1) as Hn by (rewrite Hp; apply NoDup_fst_map_to_list).
  assert ((list_to_map (p ++ q) : gmap string string) = defaults) as Hd.
  { rewrite <- (list_to_map_to_list defaults). apply list_to_map_proper; done. }
  rewrite fmap_app in Hn. split_and!.
  - by apply NoDup_app in Hn as [? _].
  - rewrite <- Hd, list_to_map_app. apply map_union_subseteq_l.
  - intros ->. by rewrite app_nil_r in Hd.
Qed.

Lemma wp_init c t :
  view c = Idle t →
  wp init (λ r c', ∃ t', view c' = Idle t' ∧ init_between t t'
    ∧ (is_ok r = true → t' = spec_init t)) c.
Proof.
  intros Hc. unfold init. rewrite wp_try.
  eapply wp_mono; [by apply wp_exec_all_autocommit|].
  intros r c1 (l1 & l2 & t1 & El & Hl1 & Hc1 & _).
  assert (t1 = t) as ->.
  { rewrite run_stmts_noop in Hl1; [by simplify_eq|].
    assert (Forall (λ s, ∀ t, run_stmt s t = Some t) init_stmts) as Hf by (by repeat constructor).
    rewrite El, Forall_app in Hf. by destruct Hf. }
  destruct r as [[]|e].
  2: { exists t. split_and!; [done|split_and!; [done|apply map_union_subseteq_l|done..]|done]. }
  eapply wp_mono; [by apply wp_exec_all_autocommit|].
  intros r c2 (m1 & m2 & t2 & Em & Hm1 & Hc2 & Hok).
  apply fmap_app_inv in Em as (p & q & -> & -> & E). 
  destruct (map_range_defaults_prefix p q E) as (Hn & Hsub & Hfull).
  rewrite run_default_rows in Hm1 by done. simplify_eq.
  eexists. split_and!; [done| |].
  - split_and!; cbn; [apply map_union_subseteq_l| |done..].
    by apply map_union_mono_l.
  - intros Hr. unfold spec_init. rewrite Hfull; [done|].
    specialize (Hok Hr). by apply fmap_nil_inv in Hok.
Qed.

(** A successful [Open] gives a connection on the old rows and the defaults; in
    every case the file keeps its old rows and gains at most defaults. *)
Lemma Open_spec mkdir path file :
  let '(r, file') := Open mkdir path file in
  init_between file file' ∧
  match r with
  | Ok c => view c = Idle (spec_init file) ∧ file' = spec_init file
  | Err _ => True
  end.
Proof.
  assert (init_between file file) as Hrefl.
  { split_and!; [done|apply map_union_subseteq_l|done..]. }
  unfold Open. destruct mkdir as [[]|e]; [|done].
  destruct (drv_open _ file) as [c|e] eqn:Eo; [|done].
  apply open_law in Eo. pose proof (wp_init c file Eo) as Hw. unfold wp in Hw.
  destruct (init c) as [[[]|e] c']; cbn in Hw; destruct Hw as (t' & Hv & Hb & Hok);
    rewrite file_law, Hv; cbn; [|done].
  rewrite Hok in * by done. done.
Qed.
End refinement.

#[export] Hint Resolve reads_stringMeta reads_uintMeta reads_CurrentTermVote
  reads_LastApplied reads_SnapshotIndexTerm reads_LastIndexAndTerm reads_Term
  reads_Entry reads_EntriesFrom reads_Get reads_LoadSnapshot reads_All : store.
#[export] Hint Resolve refines_SaveTermVote refines_AppendEntries refines_DeleteFrom
  refines_ApplySet refines_CreateSnapshot refines_InstallSnapshot : store.
