(* ===== verification/LogSpec.v ===== *)
(** * The log, abstractly

    The rows of [log_entries] above the snapshot form an unbroken run of indexes;
    [shape] says so.  [merge] is what accepting a chunk of entries does to the
    rows, as a function, and its properties are the ones the replication of the
    log rests on: the matching prefix is kept, the chunk is there afterwards, and
    nothing is cut off unless an entry conflicts. *)

From Stdlib Require Import Ascii String.
From stdpp Require Import strings sorting.
From S2P Require Import Prelude GoStd Json Sql Storage StoreSpec.
#[local] Open Scope Z_scope.

Abbreviation rows := (gmap Z (Z * string)).

(** The rows are those of the indexes in (base, last]. *)
Definition dense (base last : Z) (l : rows) : Prop :=
  ∀ i, is_Some (l !! i) ↔ base < i <= last.

Lemma dense_last base last last' (l : rows) :
  dense base last l → dense base last' l → base <= last → base <= last' → last = last'.
Proof.
  intros H1 H2 Hb Hb'. destruct (Z.lt_trichotomy last last') as [Hlt|[?|Hlt]]; [|done|].
  - assert (base < last' <= last) by (apply H1, H2; lia). lia.
  - assert (base < last <= last') by (apply H2, H1; lia). lia.
Qed.

(** The log of a database: the snapshot's index and term, and the last index. *)
Record shape (t : tables) (base bterm last : Z) : Prop := {
  sh_meta : spec_SnapshotIndexTerm t = Some (base, bterm);
  sh_dense : dense base last (log_entries t);
  sh_base : 0 <= base <= last;
  sh_last : is_idx last
}.

(** The term of an index, where it is known. *)
Definition term_at (t : tables) (base bterm i : Z) : option Z :=
  if i =? 0 then Some 0
  else if i =? base then Some bterm
  else (λ r, uint64 r.1) <$> log_entries t !! i.

(** A chunk of entries at the indexes [p + 1, p + 2, ...]. *)
Fixpoint chunk (p : Z) (es : list Entry) : Prop :=
  match es with
  | [] => True
  | e :: es' => Entry_Index e = p + 1 ∧ is_u64 (Entry_Term e) ∧ chunk (p + 1) es'
  end.

#[global] Instance chunk_dec p es : Decision (chunk p es).
Proof. revert p. induction es; cbn; apply _. Defined.

Definition row_of (e : Entry) : Z * string := (int64 (Entry_Term e), Entry_Command e).

(** Accepting a chunk: skip the entries the log has with the same term; from the
    first that is missing or differs, drop the rest of the log and append. *)
Fixpoint merge (l : rows) (es : list Entry) : rows :=
  match es with
  | [] => l
  | e :: es' =>
      match l !! Entry_Index e with
      | Some (tm, _) =>
          if uint64 tm =? Entry_Term e then merge l es'
          else foldl upsert_row (filter (λ kv, kv.1 < int64 (Entry_Index e)) l) es
      | None => foldl upsert_row l es
      end
  end.

(** The chunk contradicts nothing in the log. *)
Definition agrees (l : rows) (es : list Entry) : Prop :=
  ∀ e tm c, e ∈ es → l !! Entry_Index e = Some (tm, c) → uint64 tm = Entry_Term e.

(** ** Words *)

Lemma uint64_int64_id z : is_u64 z → uint64 (int64 z) = z.
Proof. intros. rewrite uint64_int64. by apply uint64_id. Qed.

Lemma int64_idx_inv z : is_u64 z → is_idx (int64 z) → int64 z = z.
Proof.
  intros Hu Hi. rewrite <- (uint64_id (int64 z)) by by apply is_idx_u64. by apply uint64_int64_id.
Qed.

(** ** Chunks *)

Lemma chunk_app p es1 es2 :
  chunk p (es1 ++ es2) ↔ chunk p es1 ∧ chunk (p + Z.of_nat (length es1)) es2.
Proof.
  revert p. induction es1 as [|e es1 IH]; intros p; cbn [app chunk length].
  - rewrite Z.add_0_r. naive_solver.
  - rewrite IH. replace (p + 1 + Z.of_nat (length es1)) with (p + Z.of_nat (S (length es1))) by lia.
    naive_solver.
Qed.

Lemma chunk_elem p es e :
  chunk p es → e ∈ es → p < Entry_Index e <= p + Z.of_nat (length es) ∧ is_u64 (Entry_Term e).
Proof.
  revert p. induction es as [|e' es IH]; intros p; cbn [chunk length].
  - intros _ H. by apply elem_of_nil in H.
  - intros (He & Ht & Hes) [->|Hin]%elem_of_cons; [split; [lia|done]|].
    destruct (IH (p + 1) Hes Hin). split; [lia|done].
Qed.

(** Appending a chunk writes its rows and no others. *)
Lemma foldl_upsert l p es i :
  chunk p es → 0 <= p → is_idx (p + Z.of_nat (length es)) →
  (foldl upsert_row l es) !! i =
    (if decide (p < i <= p + Z.of_nat (length es))
     then row_of <$> es !! Z.to_nat (i - p - 1) else l !! i).
Proof.
  revert p l. induction es as [|e es IH]; intros p l; cbn [foldl chunk length].
  - intros. rewrite decide_False by lia. done.
  - intros (He & _ & Hes) Hp Hb. unfold is_idx in Hb. rewrite (IH (p + 1)); [|done|lia|unfold is_idx; lia].
    assert (int64 (Entry_Index e) = p + 1) as Hi by (rewrite He; apply int64_id; unfold is_idx; lia).
    unfold upsert_row. rewrite Hi. destruct (decide (i = p + 1)) as [->|Hne].
    + rewrite decide_False, decide_True by lia. rewrite lookup_insert_eq.
      replace (Z.to_nat (p + 1 - p - 1)) with 0%nat by lia. done.
    + rewrite lookup_insert_ne by done.
      destruct (decide (p + 1 < i <= p + 1 + Z.of_nat (length es))).
      * rewrite decide_True by lia.
        replace (Z.to_nat (i - p - 1)) with (S (Z.to_nat (i - (p + 1) - 1))) by lia. done.
      * by rewrite decide_False by lia.
Qed.

(** ** Merging *)

(** The log has the entry, as far as its term tells. *)
Definition has_entry (l : rows) (e : Entry) : Prop :=
  ∃ tm c, l !! Entry_Index e = Some (tm, c) ∧ uint64 tm = Entry_Term e.

Lemma merge_present_noop l es : (∀ e, e ∈ es → has_entry l e) → merge l es = l.
Proof.
  induction es as [|e es IH]; intros H; cbn [merge]; [done|].
  destruct (H e) as (tm & c & -> & Ht); [by left|]. rewrite (proj2 (Z.eqb_eq _ _) Ht).
  apply IH. intros e' He'. apply H. by right.
Qed.

Lemma dense_above base last l i : dense base last l → last < i → l !! i = None.
Proof.
  intros Hd Hi. destruct (l !! i) eqn:E; [|done].
  assert (is_Some (l !! i)) as Hs by eauto. apply Hd in Hs. lia.
Qed.

Lemma filter_all base last l j :
  dense base last l → last < j → filter (λ kv, kv.1 < j) l = l.
Proof.
  intros Hd Hj. apply map_filter_id. intros i r Hi. cbn.
  assert (is_Some (l !! i)) as Hs by eauto. apply Hd in Hs. lia.
Qed.

Section merge_facts.
Context (base last : Z).

(** The entries up to [k] are in the log; the rest, if any, replaces the log from
    there. *)
Lemma merge_split l p es :
  dense base last l → chunk p es → base <= p <= last → 0 <= base →
  is_idx (p + Z.of_nat (length es)) →
  ∃ es1 es2, es = es1 ++ es2 ∧ (∀ e, e ∈ es1 → has_entry l e) ∧
    merge l es = foldl upsert_row (if es2 then l else
      filter (λ kv, kv.1 < p + Z.of_nat (length es1) + 1) l) es2 ∧
    p + Z.of_nat (length es1) <= last ∧
    (∀ e es', es2 = e :: es' → ¬ has_entry l e).
Proof.
  intros Hd. revert p. induction es as [|e es IH]; intros p; cbn [chunk length merge].
  - intros _ Hp Hb _. exists [], []. split_and!; [done| |done|cbn; lia|done].
    intros e H. by apply elem_of_nil in H.
  - intros (He & Ht & Hes) Hp Hb Hi. unfold is_idx in Hi.
    assert (int64 (Entry_Index e) = p + 1) as Hi64.
    { rewrite He. apply int64_id. unfold is_idx. lia. }
    assert (∀ e', e' ∈ ([] : list Entry) → has_entry l e') as Hnil.
    { intros e' H. by apply elem_of_nil in H. }
    destruct (l !! Entry_Index e) as [[tm c]|] eqn:El.
    + destruct (Z.eqb_spec (uint64 tm) (Entry_Term e)) as [Heq|Hneq].
      * assert (base < p + 1 <= last) as Hp1 by (apply Hd; rewrite <- He; eauto).
        destruct (IH (p + 1)) as (es1 & es2 & -> & H1 & H2 & H3 & H4);
          [done|lia|done|unfold is_idx; lia|].
        exists (e :: es1), es2. cbn [length]. split_and!; [done| | |lia|done].
        -- intros e' [->|Hin]%elem_of_cons; [by exists tm, c|by apply H1].
        -- rewrite H2. by replace (p + Z.of_nat (S (length es1)) + 1)
             with (p + 1 + Z.of_nat (length es1) + 1) by lia.
      * exists [], (e :: es). cbn [length app]. split_and!; [done|done| |lia|].
        -- by rewrite Hi64, Z.add_0_r.
        -- intros e' es' [= <- <-] (tm' & c' & E' & Ht'). rewrite El in E'. by simplify_eq.
    + assert (last = p) as ->.
      { destruct (decide (last = p)); [done|]. exfalso.
        assert (is_Some (l !! Entry_Index e)) as [? ?] by (apply Hd; lia). congruence. }
      exists [], (e :: es). cbn [length app]. split_and!; [done|done| |lia|].
      * by rewrite (filter_all base p) by (done || lia).
      * intros e' es' [= <- <-] (tm' & c' & E' & _). congruence.
Qed.

Context (l : rows) (p : Z) (es : list Entry).
Hypothesis Hd : dense base last l.
Hypothesis Hc : chunk p es.
Hypothesis Hp : base <= p <= last.
Hypothesis Hb : 0 <= base.
Hypothesis Hi : is_idx (p + Z.of_nat (length es)).

Abbreviation top := (p + Z.of_nat (length es)).

Lemma chunk_lookup i : p < i <= top →
  ∃ e, es !! Z.to_nat (i - p - 1) = Some e ∧ e ∈ es ∧ Entry_Index e = i.
Proof.
  intros Hr. destruct (lookup_lt_is_Some_2 es (Z.to_nat (i - p - 1))) as [e He]; [lia|].
  exists e. split_and!; [done|by eapply list_elem_of_lookup_2|].
  rewrite <- (take_drop_middle _ _ _ He) in Hc. apply chunk_app in Hc as [_ [-> _]].
  apply lookup_lt_Some in He. rewrite length_take_le by lia. lia.
Qed.

(** Either the log has the whole chunk, or from some index [q] on it is replaced. *)
Lemma merge_cases :
  ((∀ e, e ∈ es → has_entry l e) ∧ merge l es = l) ∨
  ∃ q, p <= q <= last ∧ q < top
    ∧ (∀ e, e ∈ es → Entry_Index e <= q → has_entry l e)
    ∧ (∀ e, e ∈ es → Entry_Index e = q + 1 → ¬ has_entry l e)
    ∧ ∀ i, merge l es !! i = if decide (i <= q) then l !! i
             else if decide (i <= top) then row_of <$> es !! Z.to_nat (i - p - 1) else None.
Proof.
  destruct (merge_split l p es Hd Hc Hp Hb Hi) as (es1 & es2 & E & H1 & H2 & H3 & H4).
  destruct es2 as [|e es2].
  { left. cbn in H2. split; [|done]. rewrite E, app_nil_r. done. }
  right. pose proof Hc as Hc'. rewrite E in Hc'. apply chunk_app in Hc' as [Hc1 Hc2].
  pose proof Hi as Hi'. unfold is_idx in Hi'.
  pose proof (f_equal length E) as Hlen. rewrite length_app in Hlen. cbn [length] in Hlen.
  exists (p + Z.of_nat (length es1)). split_and!; [lia|lia|lia| | |].
  - intros e' Hin Hle. rewrite E in Hin. apply elem_of_app in Hin as [Hin|Hin]; [by apply H1|].
    apply (chunk_elem _ _ _ Hc2) in Hin as [? _]. lia.
  - intros e' Hin Heq. rewrite E in Hin. apply elem_of_app in Hin as [Hin|Hin].
    + apply (chunk_elem _ _ _ Hc1) in Hin as [? _]. lia.
    + apply elem_of_cons in Hin as [->|Hin]; [by eapply H4|].
      destruct Hc2 as (_ & _ & Hc2). apply (chunk_elem _ _ _ Hc2) in Hin as [? _]. lia.
  - intros i. rewrite H2, (foldl_upsert _ (p + Z.of_nat (length es1)));
      [|done|lia|unfold is_idx; cbn [length]; lia].
    destruct (decide (i <= p + Z.of_nat (length es1))) as [Hle|Hgt].
    + rewrite decide_False by lia. destruct (l !! i) eqn:El.
      * apply map_lookup_filter_Some. cbn. split; [done|lia].
      * apply map_lookup_filter_None. by left.
    + destruct (decide (i <= top)) as [Hlt|Hge].
      * rewrite decide_True by (cbn [length]; lia). rewrite E, (lookup_app_r es1) by lia.
        do 2 f_equal. lia.
      * rewrite decide_False by (cbn [length]; lia). apply map_lookup_filter_None. right.
        intros r _. cbn. lia.
Qed.

(** What the log had up to the previous entry, it keeps. *)
Lemma merge_prefix i : i <= p → merge l es !! i = l !! i.
Proof.
  intros Hle. destruct merge_cases as [[_ ->]|(q & Hq & _ & _ & _ & ->)]; [done|].
  by rewrite decide_True by lia.
Qed.

(** Every entry of the chunk is there: its own row, or the log's with its term. *)
Lemma merge_present e : e ∈ es →
  merge l es !! Entry_Index e = Some (row_of e)
  ∨ has_entry l e ∧ merge l es !! Entry_Index e = l !! Entry_Index e.
Proof.
  intros Hin. destruct merge_cases as [[Hall ->]|(q & Hq & Hqt & H1 & H2 & ->)]; [by auto|].
  destruct (decide (Entry_Index e <= q)); [right; split; [by apply H1|done]|]. left.
  destruct (chunk_elem _ _ _ Hc Hin) as [Hr _].
  rewrite decide_True by lia. destruct (chunk_lookup (Entry_Index e)) as (e' & He' & Hin' & Hidx); [lia|].
  rewrite He'. cbn. do 2 f_equal.
  apply list_elem_of_lookup_1 in Hin as [k Hk].
  pose proof Hc as Hc'. rewrite <- (take_drop_middle _ _ _ Hk) in Hc'.
  apply chunk_app in Hc' as [_ [Hk' _]]. pose proof (lookup_lt_Some _ _ _ Hk).
  rewrite length_take_le in Hk' by lia.
  replace (Z.to_nat (Entry_Index e - p - 1)) with k in He' by lia. congruence.
Qed.

(** So the chunk is in the merged log. *)
Lemma merge_has_entry e : e ∈ es → has_entry (merge l es) e.
Proof.
  intros Hin. destruct (chunk_elem _ _ _ Hc Hin) as [_ Hu].
  destruct (merge_present e Hin) as [E|[(tm & c & E & Ht) E']].
  - exists (int64 (Entry_Term e)), (Entry_Command e). split; [done|]. by apply uint64_int64_id.
  - exists tm, c. by rewrite E'.
Qed.

(** Doing it twice is doing it once. *)
Lemma merge_idempotent : merge (merge l es) es = merge l es.
Proof. apply merge_present_noop, merge_has_entry. Qed.

(** A chunk that contradicts nothing removes nothing. *)
Lemma merge_agrees : agrees l es → l ⊆ merge l es.
Proof.
  intros Ha. destruct merge_cases as [[_ ->]|(q & Hq & Hqt & _ & H2 & Hm)]; [done|].
  apply map_subseteq_spec. intros i r Hir. rewrite Hm.
  destruct (decide (i <= q)); [done|]. exfalso.
  assert (base < i <= last) as Hil by (apply Hd; eauto).
  destruct (chunk_lookup (q + 1)) as (e & _ & Hin & Hidx); [lia|].
  assert (is_Some (l !! (q + 1))) as [[tm c] Hq1] by (apply Hd; lia).
  apply (H2 e Hin Hidx). exists tm, c. rewrite Hidx. split; [done|].
  eapply Ha; [done|]. by rewrite Hidx.
Qed.

(** The merged log is dense again.  It reaches at least to the end of the chunk, and
    no further when an entry conflicted. *)
Lemma merge_dense : ∃ last', dense base last' (merge l es) ∧ top <= last' <= Z.max last top
  ∧ (¬ agrees l es → last' = top) ∧ (agrees l es → last' = Z.max last top).
Proof.
  destruct merge_cases as [[Hall Hm]|(q & Hq & Hqt & H1 & H2 & Hm)].
  - exists last. rewrite Hm.
    assert (agrees l es) as Ha.
    { intros e tm c Hin He. destruct (Hall e Hin) as (tm' & c' & He' & ?). by simplify_eq. }
    assert (top <= last).
    { destruct (decide (top = p)) as [->|]; [lia|].
      destruct (chunk_lookup top) as (e & _ & Hin & Hidx); [lia|].
      destruct (Hall e Hin) as (tm & c & He & _). rewrite Hidx in He.
      assert (is_Some (l !! top)) as Hs by eauto. apply Hd in Hs. lia. }
    split_and!; [done|lia|lia|done|lia].
  - exists top. split_and!; [|lia|lia|done|].
    + intros i. rewrite Hm. destruct (decide (i <= q)).
      * rewrite (Hd i). lia.
      * destruct (decide (i <= top)).
        -- destruct (chunk_lookup i) as (e & -> & _); [lia|]. split; [lia|]. intros _. by eexists.
        -- split; [by intros [? ?]|lia].
    + intros Ha. destruct (decide (last <= top)); [lia|]. exfalso.
      pose proof (merge_agrees Ha) as Hsub.
      assert (is_Some (l !! last)) as [r Hr] by (apply Hd; lia).
      eapply lookup_weaken in Hsub; [|exact Hr]. rewrite Hm in Hsub.
      rewrite !decide_False in Hsub by lia. done.
Qed.
End merge_facts.
