(* ===== verification/LogStore.v ===== *)
(** * The store's view of the log

    On a database of the right [shape], what the reads of the log return, and that
    the writes keep the shape. *)

From Stdlib Require Import Ascii String.
From stdpp Require Import strings sorting.
From S2P Require Import Prelude GoStd Json Sql Storage StoreSpec LogSpec.
#[local] Open Scope Z_scope.

(** ** Rows in order *)

#[global] Instance idx_le_total : Total idx_le.
Proof. intros a b. unfold idx_le. lia. Qed.
#[global] Instance idx_le_trans : Transitive idx_le.
Proof. intros a b c. unfold idx_le. lia. Qed.

Lemma rows_asc_sorted l : StronglySorted idx_le (rows_asc l).
Proof. apply (StronglySorted_merge_sort idx_le). Qed.

Lemma rows_asc_elem l r : r ∈ rows_asc l ↔ l !! r.1 = Some r.2.
Proof.
  unfold rows_asc. rewrite merge_sort_Permutation. destruct r. apply elem_of_map_to_list.
Qed.

Lemma rows_asc_keys l : NoDup (rows_asc l).*1.
Proof. unfold rows_asc. rewrite merge_sort_Permutation. apply NoDup_fst_map_to_list. Qed.

(** The greatest row comes last. *)
Lemma last_row_spec l :
  match last_row l with
  | Some r => l !! r.1 = Some r.2 ∧ ∀ i, is_Some (l !! i) → i <= r.1
  | None => l = ∅
  end.
Proof.
  unfold last_row. pose proof (rows_asc_sorted l) as Hs. pose proof (rows_asc_elem l) as He.
  destruct (rows_asc l) as [|r L _] using rev_ind.
  { cbn. apply map_empty. intros i. destruct (l !! i) as [x|] eqn:E; [|done].
    apply (He (i, x)), elem_of_nil in E. done. }
  rewrite reverse_app. cbn. split; [apply He, elem_of_app; right; by left|].
  intros i [x Hx]. apply (He (i, x)), elem_of_app in Hx as [Hin|Hin].
  - assert (∀ L, StronglySorted idx_le (L ++ [r]) → (i, x) ∈ L → i <= r.1) as Hlt.
    { clear. induction L as [|a L IH]; cbn; [by intros _ ?%elem_of_nil|].
      intros [Hs Ha]%StronglySorted_inv [<-|Hin]%elem_of_cons; [|by apply IH].
      rewrite Forall_forall in Ha. apply (Ha r), elem_of_app. right. by left. }
    by eapply Hlt.
  - apply list_elem_of_singleton in Hin. by subst r.
Qed.

(** Sorted rows whose keys fill (a, b] are numbered from [a + 1]. *)
Fixpoint numbered {A} (a : Z) (L : list (Z * A)) : Prop :=
  match L with [] => True | r :: L' => r.1 = a + 1 ∧ numbered (a + 1) L' end.

Lemma sorted_numbered (L : list (Z * (Z * string))) a b :
  StronglySorted idx_le L → NoDup L.*1 → (∀ i, i ∈ L.*1 ↔ a < i <= b) → a <= b →
  numbered a L ∧ Z.of_nat (length L) = b - a.
Proof.
  revert a. induction L as [|r L IH]; intros a Hs Hn Hk Hab; cbn.
  - split; [done|]. destruct (decide (a = b)); [lia|].
    assert ((a + 1) ∈ (@nil (Z * (Z * string))).*1) as H by (apply Hk; lia).
    by apply elem_of_nil in H.
  - apply StronglySorted_inv in Hs as [Hs Hr]. cbn in Hn. apply NoDup_cons in Hn as [Hni Hn].
    assert (a < r.1 <= b) as Hrb by (apply Hk; cbn; by left).
    assert (r.1 = a + 1) as Heq.
    { assert ((a + 1) ∈ (r :: L).*1) as H by (apply Hk; lia). cbn in H.
      apply elem_of_cons in H as [->|H]; [done|].
      apply list_elem_of_fmap in H as (r' & E & Hin).
      rewrite Forall_forall in Hr. pose proof (Hr r' Hin) as Hle. unfold idx_le in Hle. lia. }
    destruct (IH (a + 1)) as [H1 H2]; [done|done| |lia|split; [done|lia]].
    intros i. specialize (Hk i). cbn in Hk. rewrite elem_of_cons in Hk. split.
    + intros Hin. assert (i ≠ r.1) by (intros ->; done). assert (a < i <= b) by (apply Hk; by right).
      lia.
    + intros Hi. assert (i = r.1 ∨ i ∈ L.*1) as [->|?] by (apply Hk; lia); [lia|done].
Qed.

(** A log given by its rows is dense when its keys, in order, are a run. *)
Lemma dense_of_keys base last l :
  bool_decide ((rows_asc l).*1 = seqZ (base + 1) (last - base)) = true → dense base last l.
Proof.
  intros E%bool_decide_eq_true i.
  assert (is_Some (l !! i) ↔ i ∈ (rows_asc l).*1) as ->.
  { rewrite list_elem_of_fmap. split.
    - intros [r Hr]. exists (i, r). split; [done|]. by apply rows_asc_elem.
    - intros ([j r] & -> & Hr%rows_asc_elem). by exists r. }
  rewrite E, elem_of_seqZ. lia.
Qed.

Lemma rows_asc_numbered base last l start :
  dense base last l → base < start <= last + 1 →
  let L := rows_asc (filter (λ kv, start <= kv.1) l) in
  numbered (start - 1) L ∧ Z.of_nat (length L) = last - (start - 1).
Proof.
  intros Hd Hs L. apply sorted_numbered; [apply rows_asc_sorted|apply rows_asc_keys| |lia].
  intros i. subst L. rewrite list_elem_of_fmap. split.
  - intros ((i' & x) & -> & Hin%rows_asc_elem). cbn in *.
    apply map_lookup_filter_Some in Hin as [Hl Hi]. cbn in Hi.
    assert (base < i' <= last) by (apply Hd; eauto). lia.
  - intros Hi. assert (is_Some (l !! i)) as [x Hx] by (apply Hd; lia).
    exists (i, x). split; [done|]. apply rows_asc_elem. cbn.
    apply map_lookup_filter_Some. cbn. split; [done|lia].
Qed.

Lemma numbered_take {A} a (L : list (Z * A)) k : numbered a L → numbered a (take k L).
Proof.
  revert a k. induction L as [|r L IH]; intros a [|k]; cbn; try done.
  intros [? ?]. split; [done|by apply IH].
Qed.

(** ** What the reads return *)

Definition found (x : option Z) : Z * bool :=
  match x with Some tm => (tm, true) | None => (0, false) end.

(** The term of the last index. *)
Definition last_term (t : tables) (base bterm last : Z) : Z :=
  if last =? base then bterm
  else match log_entries t !! last with Some r => uint64 r.1 | None => 0 end.

Section reads.
Context (t : tables) (base bterm last : Z) (Hs : shape t base bterm last).

Lemma row_idx i : is_Some (log_entries t !! i) → is_idx i.
Proof.
  intros Hi. apply (sh_dense _ _ _ _ Hs) in Hi.
  pose proof (sh_last _ _ _ _ Hs). pose proof (sh_base _ _ _ _ Hs). unfold is_idx in *. lia.
Qed.

(** Rows are found under the word the index is stored as. *)
Lemma lookup_int64 i : is_u64 i → log_entries t !! int64 i = log_entries t !! i.
Proof.
  intros Hu. destruct (decide (is_idx i)) as [Hi|Hi]; [by rewrite int64_id|].
  destruct (log_entries t !! i) eqn:E1; [by destruct Hi; apply row_idx; eauto|].
  destruct (log_entries t !! int64 i) eqn:E2; [|done].
  destruct Hi. rewrite <- (int64_idx_inv i); [|done|]; apply row_idx; eauto.
Qed.

Lemma spec_LastIndexAndTerm_shape :
  spec_LastIndexAndTerm t = Some (last, last_term t base bterm last).
Proof.
  pose proof (sh_base _ _ _ _ Hs) as Hb. pose proof (sh_dense _ _ _ _ Hs) as Hd.
  unfold spec_LastIndexAndTerm. pose proof (last_row_spec (log_entries t)) as Hr.
  destruct (last_row _) as [[i r]|].
  - destruct Hr as [Hi Hmax]. cbn in *. assert (base < i <= last) as Hil by (apply Hd; eauto).
    assert (last <= i) by (apply Hmax, Hd; lia). assert (i = last) as -> by lia.
    unfold last_term. destruct (Z.eqb_spec last base) as [|_]; [lia|]. rewrite Hi.
    rewrite uint64_id by (apply is_idx_u64, Hs). done.
  - assert (last = base) as ->.
    { destruct (decide (last = base)); [done|].
      assert (is_Some (log_entries t !! last)) as [x Hx] by (apply Hd; lia).
      rewrite Hr, lookup_empty in Hx. done. }
    rewrite (sh_meta _ _ _ _ Hs). unfold last_term. by rewrite Z.eqb_refl.
Qed.

Lemma spec_Term_shape i : is_u64 i → spec_Term i t = Some (found (term_at t base bterm i)).
Proof.
  intros Hu. unfold spec_Term, term_at. destruct (Z.eqb_spec i 0) as [->|Hne]; [done|].
  rewrite (sh_meta _ _ _ _ Hs). cbn. destruct (Z.eqb_spec i base) as [->|Hnb]; [done|].
  rewrite (lookup_int64 i Hu). destruct (Z.ltb_spec i base) as [Hlt|Hge].
  - destruct (log_entries t !! i) eqn:E; [|done].
    assert (base < i <= last) by (apply (sh_dense _ _ _ _ Hs); eauto). lia.
  - by destruct (log_entries t !! i) as [[tm c]|].
Qed.

Lemma spec_Entry_shape i : is_u64 i →
  spec_Entry i t = match log_entries t !! i with
                   | Some r => (mkEntry i (uint64 r.1) r.2, true)
                   | None => (zero_Entry, false)
                   end.
Proof.
  intros Hu. unfold spec_Entry. rewrite (lookup_int64 i Hu), (uint64_int64_id i Hu).
  by destruct (log_entries t !! i) as [[tm c]|].
Qed.

Lemma numbered_chunk a L :
  (∀ r, r ∈ L → log_entries t !! r.1 = Some r.2) → numbered a L →
  chunk a (entry_of_row ∘ flat_row <$> L)
  ∧ ∀ e, e ∈ (entry_of_row ∘ flat_row <$> L) →
      ∃ r, log_entries t !! Entry_Index e = Some r
        ∧ Entry_Term e = uint64 r.1 ∧ Entry_Command e = r.2.
Proof.
  revert a. induction L as [|[i r] L IH]; intros a Hin; cbn.
  - intros _. split; [done|]. by intros e ?%elem_of_nil.
  - intros [Hi Hn]. cbn in Hi. destruct (IH (a + 1)) as [H1 H2]; [|done|].
    { intros r' Hr'. apply Hin. by right. }
    assert (log_entries t !! i = Some r) as Hr by (apply (Hin (i, r)); by left).
    assert (uint64 i = i) as Hu by (apply uint64_id, is_idx_u64, row_idx; eauto).
    split.
    + rewrite Hu. split_and!; [done|apply uint64_range|done].
    + intros e [->|He]%elem_of_cons; [|by apply H2]. exists r. cbn. by rewrite Hu.
Qed.

(** A batch is the run of rows from [start], at most [limit] of them. *)
Lemma spec_EntriesFrom_shape start limit :
  base < start <= last + 1 → is_idx start → 0 <= limit →
  ∃ es, spec_EntriesFrom start limit t = Some es ∧ chunk (start - 1) es
    ∧ Z.of_nat (length es) = Z.min limit (last - (start - 1))
    ∧ ∀ e, e ∈ es → ∃ r, log_entries t !! Entry_Index e = Some r
        ∧ Entry_Term e = uint64 r.1 ∧ Entry_Command e = r.2.
Proof.
  intros Hst Hi Hl. unfold spec_EntriesFrom. rewrite (sh_meta _ _ _ _ Hs). cbn.
  destruct (Z.leb_spec start base); [lia|]. eexists. split; [done|]. rewrite (int64_id start Hi).
  destruct (rows_asc_numbered base last _ start (sh_dense _ _ _ _ Hs) Hst) as [Hn Hlen].
  set (L := rows_asc _) in *.
  assert (sql_limit limit L = take (Z.to_nat limit) L) as ->.
  { unfold sql_limit. by destruct (Z.ltb_spec limit 0); [lia|]. }
  destruct (numbered_chunk (start - 1) (take (Z.to_nat limit) L)) as [H1 H2].
  - intros r Hr. apply list_elem_of_lookup_1 in Hr as [k Hk]. apply lookup_take_Some in Hk as [Hk _].
    apply list_elem_of_lookup_2, rows_asc_elem, map_lookup_filter_Some in Hk. by destruct Hk.
  - by apply numbered_take.
  - split_and!; [done| |done]. rewrite length_fmap, length_take. lia.
Qed.
End reads.

Lemma last_term_at t base bterm last :
  shape t base bterm last → last ≠ 0 → term_at t base bterm last = Some (last_term t base bterm last).
Proof.
  intros Hs Hne. pose proof (sh_base _ _ _ _ Hs). unfold term_at, last_term.
  destruct (Z.eqb_spec last 0); [done|]. destruct (Z.eqb_spec last base); [done|].
  assert (is_Some (log_entries t !! last)) as [r ->] by (apply (sh_dense _ _ _ _ Hs); lia). done.
Qed.

(** ** The writes keep the shape *)

Lemma shape_frame t t' base bterm last :
  log_entries t' = log_entries t →
  metadata t' !! "snapshot_index" = metadata t !! "snapshot_index" →
  metadata t' !! "snapshot_term" = metadata t !! "snapshot_term" →
  shape t base bterm last → shape t' base bterm last.
Proof.
  intros Hl Hi Ht [Hm Hd Hb Hla]. split; [|by rewrite Hl|done|done].
  unfold spec_SnapshotIndexTerm, meta_uint in *. by rewrite Hi, Ht.
Qed.

Lemma shape_SaveTermVote term v t base bterm last :
  shape t base bterm last → shape (spec_SaveTermVote term v t) base bterm last.
Proof. apply shape_frame; [done|..]; cbn; by rewrite !lookup_insert_ne. Qed.

Lemma shape_ApplySet i k v t base bterm last :
  shape t base bterm last → shape (spec_ApplySet i k v t) base bterm last.
Proof. apply shape_frame; [done|..]; cbn; by rewrite !lookup_insert_ne. Qed.

Lemma shape_set_log f t base bterm last last' :
  shape t base bterm last → dense base last' (f (log_entries t)) → base <= last' → is_idx last' →
  shape (set_log f t) base bterm last'.
Proof. intros [Hm Hd Hb Hla] Hd' Hb' Hla'. split; [done|done|lia|done]. Qed.

(** Taking a snapshot of [idx], or installing one: the rows up to [idx] go. *)
Lemma spec_SnapshotIndexTerm_put snap t :
  is_u64 (LastIncludedIndex snap) → is_u64 (LastIncludedTerm snap) →
  spec_SnapshotIndexTerm (put_snapshot snap t)
    = Some (LastIncludedIndex snap, LastIncludedTerm snap).
Proof.
  intros Hi Ht. unfold spec_SnapshotIndexTerm, meta_uint, put_snapshot, put_meta. cbn.
  rewrite !(lookup_insert_ne _ "last_applied") by done.
  rewrite (lookup_insert_ne _ "snapshot_term" "snapshot_index") by done.
  rewrite !lookup_insert_eq. cbn. rewrite ParseUint_FormatUint by done. cbn.
  by rewrite ParseUint_FormatUint.
Qed.

Lemma dense_above_filter base last l j :
  dense base last l → base <= j → dense j (Z.max last j) (filter (λ kv, j < kv.1) l).
Proof.
  intros Hd Hj i. split.
  - intros [r Hr]. apply map_lookup_filter_Some in Hr as [Hl Hi]. cbn in Hi.
    assert (base < i <= last) by (apply Hd; eauto). lia.
  - intros Hi. assert (is_Some (l !! i)) as [r Hr] by (apply Hd; lia). exists r.
    apply map_lookup_filter_Some. cbn. split; [done|lia].
Qed.

Lemma shape_put_snapshot snap t base bterm last :
  shape t base bterm last → base <= LastIncludedIndex snap → is_idx (LastIncludedIndex snap) →
  is_u64 (LastIncludedTerm snap) →
  shape (put_snapshot snap t) (LastIncludedIndex snap) (LastIncludedTerm snap)
    (Z.max last (LastIncludedIndex snap)).
Proof.
  intros [Hm Hd Hb Hla] Hle Hi Ht. split.
  - apply spec_SnapshotIndexTerm_put; [by apply is_idx_u64|done].
  - cbn. rewrite (int64_id _ Hi). by apply (dense_above_filter base).
  - lia.
  - unfold is_idx in *. lia.
Qed.
