(* ===== verification/Config.v ===== *)
(** * Configuration from the environment

    [internal/config/config.go]: reading the [RAFT_*] variables, parsing the peer
    list, and the checks a configuration must pass.  [getenv] is [os.Getenv]:
    the empty string for a variable that is not set.  Durations are [int64]
    nanoseconds. *)

From Stdlib Require Import Ascii String.
From stdpp Require Import strings.
From S2P Require Import Prelude GoStd.
#[local] Open Scope Z_scope.

Record Peer := mkPeer { Peer_ID : string; Peer_Address : string }.

Record Config := mkConfig {
  cfg_NodeID : string;
  cfg_GRPCAddr : string;
  cfg_HTTPAddr : string;
  cfg_DataDir : string;
  cfg_Peers : list Peer;
  cfg_ElectionMin : Z;
  cfg_ElectionMax : Z;
  cfg_HeartbeatInterval : Z;
  cfg_SnapshotThreshold : Z
}.

Definition Millisecond : Z := 1000000.

(** [strings.SplitN(strings.TrimSpace(part), "=", 2)] and the check on it. *)
Definition split_peer (part : string) : option (string * string) :=
  match SplitN2 "="%char (TrimSpace part) with
  | [id; addr] => if bool_decide (id = "") || bool_decide (addr = "") then None else Some (id, addr)
  | _ => None
  end.

(** The loop over the parts, with the ids seen and the peers kept so far.  The
    [%q] quoting of the offending text is left out of the error messages. *)
Fixpoint parse_parts (selfID : string) (parts : list string) (seen : gset string)
    (peers : list Peer) : result (list Peer) :=
  match parts with
  | [] => Ok peers
  | part :: parts' =>
      match split_peer part with
      | None => Err (ErrText ("invalid RAFT_PEERS entry, expected id=host:port: " +:+ part))
      | Some (id, addr) =>
          if bool_decide (id ∈ seen) then Err (ErrText ("duplicate peer id " +:+ id))
          else
            let seen' := {[id]} ∪ seen in
            if bool_decide (id = selfID) then parse_parts selfID parts' seen' peers
            else parse_parts selfID parts' seen' (peers ++ [mkPeer id addr])
      end
  end.

Definition parsePeers (raw selfID : string) : result (list Peer) :=
  if bool_decide (TrimSpace raw = "") then Ok []
  else parse_parts selfID (Split ","%char raw) ∅ [].

Section env.
Context (getenv : string → string).

Definition env (key fallback : string) : string :=
  let value := TrimSpace (getenv key) in
  if bool_decide (value = "") then fallback else value.

Definition envDurationMS (key : string) (fallback : Z) : Z :=
  match Atoi (env key (Itoa fallback)) with
  | Ok ms => if ms <=? 0 then int64 (fallback * Millisecond) else int64 (ms * Millisecond)
  | Err _ => int64 (fallback * Millisecond)
  end.

Definition envUint64 (key : string) (fallback : Z) : Z :=
  match ParseUint (env key (FormatUint fallback)) with
  | Ok parsed => parsed
  | Err _ => fallback
  end.

Definition FromEnv : result Config :=
  let cfg := mkConfig
    (env "NODE_ID" "node1")
    (env "RAFT_GRPC_ADDR" ":9001")
    (env "RAFT_HTTP_ADDR" ":8001")
    (env "RAFT_DATA_DIR" "data/node1")
    []
    (envDurationMS "RAFT_ELECTION_MIN_MS" 500)
    (envDurationMS "RAFT_ELECTION_MAX_MS" 900)
    (envDurationMS "RAFT_HEARTBEAT_MS" 100)
    (envUint64 "RAFT_SNAPSHOT_THRESHOLD" 10000) in
  if cfg_ElectionMin cfg <=? cfg_HeartbeatInterval cfg then
    Err (ErrText "RAFT_ELECTION_MIN_MS must be greater than RAFT_HEARTBEAT_MS")
  else if cfg_ElectionMax cfg <? cfg_ElectionMin cfg then
    Err (ErrText "RAFT_ELECTION_MAX_MS must be >= RAFT_ELECTION_MIN_MS")
  else
    match parsePeers (getenv "RAFT_PEERS") (cfg_NodeID cfg) with
    | Err e => Err e
    | Ok peers =>
        Ok (mkConfig (cfg_NodeID cfg) (cfg_GRPCAddr cfg) (cfg_HTTPAddr cfg) (cfg_DataDir cfg)
          peers (cfg_ElectionMin cfg) (cfg_ElectionMax cfg) (cfg_HeartbeatInterval cfg)
          (cfg_SnapshotThreshold cfg))
    end.
End env.
