(* ===== verification/Types.v ===== *)
(** * Roles, options and commands

    [internal/raft/types.go]: the roles of a node, its options, and the encoding
    of a log command as JSON. *)

From Stdlib Require Import Ascii String.
From stdpp Require Import strings.
From S2P Require Import Prelude GoStd Json Config.
#[local] Open Scope Z_scope.

Inductive Role := RoleFollower | RoleCandidate | RoleLeader.

#[global] Instance Role_eq_dec : EqDecision Role.
Proof. solve_decision. Defined.

(** [string(role)]. *)
Definition role_string (r : Role) : string :=
  match r with
  | RoleFollower => "follower"
  | RoleCandidate => "candidate"
  | RoleLeader => "leader"
  end.

Record Options := mkOptions {
  opt_NodeID : string;
  opt_GRPCAddr : string;
  opt_HTTPAddr : string;
  opt_DataDir : string;
  opt_Peers : list Peer;
  opt_ElectionMin : Z;
  opt_ElectionMax : Z;
  opt_HeartbeatInterval : Z;
  opt_SnapshotThreshold : Z
}.

(** [config.Peer] and [raft.Peer] have the same fields and are one type here. *)
Definition OptionsFromConfig (cfg : Config) : Options :=
  mkOptions (cfg_NodeID cfg) (cfg_GRPCAddr cfg) (cfg_HTTPAddr cfg) (cfg_DataDir cfg)
    ((λ p, mkPeer (Peer_ID p) (Peer_Address p)) <$> cfg_Peers cfg)
    (cfg_ElectionMin cfg) (cfg_ElectionMax cfg) (cfg_HeartbeatInterval cfg)
    (cfg_SnapshotThreshold cfg).

(** ** Commands *)

Record command := mkCommand { cmd_Op : string; cmd_Key : string; cmd_Value : string }.

Definition zero_command : command := mkCommand "" "" "".

(** [json.Marshal(command{Op: "set", Key: key, Value: value})]: the fields in
    order under their tag names.  Marshalling strings cannot fail. *)
Definition command_json (key value : string) : string :=
  String "{" (members [("op", "set"); ("key", key); ("value", value)] +:+ String "}" "").

Definition encodeSetCommand (key value : string) : result string :=
  Ok (command_json key value).

(** [foldName] of [encoding/json] for a key that has to match an ASCII name:
    letters fold to upper case, U+017F and U+212A fold to S and K. *)
Definition fold_rune (rb : Z * string) : string :=
  if in_range 97 122 rb.1 then String (byte_of (rb.1 - 32)) ""
  else if rb.1 =? 383 then "S"
  else if rb.1 =? 8490 then "K"
  else rb.2.

Definition fold_name (s : string) : string :=
  foldr (λ rb acc, fold_rune rb +:+ acc) "" (runes s).

(** The struct field a JSON key selects: its exact name, or else its folding. *)
Definition field_of_key (k : string) : option string :=
  if bool_decide (k ∈ ["op"; "key"; "value"]) then Some k
  else head (filter (λ f, fold_name f = fold_name k) ["op"; "key"; "value"]).

Definition set_command_field (f s : string) (c : command) : command :=
  if bool_decide (f = "op") then mkCommand s (cmd_Key c) (cmd_Value c)
  else if bool_decide (f = "key") then mkCommand (cmd_Op c) s (cmd_Value c)
  else mkCommand (cmd_Op c) (cmd_Key c) s.

(** The members of an object stored into the struct: unknown keys are skipped,
    [null] leaves the field, any other type is an error, the last one wins. *)
Fixpoint fill_command (l : list (string * json)) (c : command) : result command :=
  match l with
  | [] => Ok c
  | (k, v) :: l' =>
      match field_of_key k with
      | None => fill_command l' c
      | Some f =>
          match v with
          | JStr s => fill_command l' (set_command_field f s c)
          | JNull => fill_command l' c
          | _ => Err (ErrJSON "cannot unmarshal into Go struct field of type string")
          end
      end
  end.

Definition unmarshal_command (raw : string) : result command :=
  match parse_document raw with
  | None => Err (ErrJSON "invalid document")
  | Some JNull => Ok zero_command
  | Some (JObj l) => fill_command l zero_command
  | Some _ => Err (ErrJSON "cannot unmarshal into Go value of type raft.command")
  end.

Definition decodeCommand (raw : string) : result command :=
  match unmarshal_command raw with
  | Err e => Err e
  | Ok cmd =>
      if bool_decide (cmd_Op cmd = "set") then Ok cmd
      else Err (ErrText "unsupported command")
  end.

(** ** The encoding round-trips *)

Lemma unmarshal_encoded key value :
  unmarshal_command (command_json key value) =
  Ok (mkCommand "set" (coerce_utf8 key) (coerce_utf8 value)).
Proof. unfold unmarshal_command, command_json. rewrite parse_document_object. reflexivity. Qed.

(** The encoding of a set command reads back as that command, with invalid UTF-8
    in the key or the value coerced. *)
Lemma decode_encode_coerced key value raw :
  encodeSetCommand key value = Ok raw →
  decodeCommand raw = Ok (mkCommand "set" (coerce_utf8 key) (coerce_utf8 value)).
Proof. intros [= <-]. unfold decodeCommand. by rewrite unmarshal_encoded. Qed.

(** C33. Commands round-trip: what [encodeSetCommand] writes for a key and a value that are
    UTF-8 text, [decodeCommand] reads back, whatever characters they hold. *)
Theorem command_roundtrip (key value : string) :
  ValidString key = true → ValidString value = true →
  ∃ raw, encodeSetCommand key value = Ok raw
    ∧ decodeCommand raw = Ok (mkCommand "set" key value).
Proof.
  intros Hk Hv. eexists. split; [reflexivity|].
  by rewrite (decode_encode_coerced key value), !coerce_utf8_valid.
Qed.

Lemma command_roundtrip_witness :
  ∃ raw, encodeSetCommand "user:1" "{<a>&b}" = Ok raw
    ∧ decodeCommand raw = Ok (mkCommand "set" "user:1" "{<a>&b}").
Proof.
  assert (ValidString "user:1" = true) as H1 by (vm_compute; reflexivity).
  assert (ValidString "{<a>&b}" = true) as H2 by (vm_compute; reflexivity).
  exact (command_roundtrip "user:1" "{<a>&b}" H1 H2).
Defined.
