(* ===== verification/JsonValid.v ===== *)
(** * What a JSON text decodes to is UTF-8

    The decoder coerces what is not: every string that [unquote] reads, and so every key
    and value of a decoded map or command, is valid UTF-8.  A table whose entries came
    through [decodeCommand] therefore survives its own snapshot. *)

From Stdlib Require Import Ascii String.
From stdpp Require Import strings.
From S2P Require Import Prelude GoStd Json Types.
#[local] Open Scope Z_scope.

(** ** Runes *)

(** What [EncodeRune] encodes. *)
Definition scalar (r : Z) : Z :=
  if in_range 0 1114111 r && negb (in_range 55296 57343 r) then r else RuneError.

Lemma scalar_range r : 0 <= scalar r <= 1114111 ∧ ¬ 55296 <= scalar r <= 57343.
Proof.
  unfold scalar, RuneError. destruct (_ && _) eqn:E; [|lia].
  rewrite andb_true_iff, negb_true_iff, in_range_true in E. destruct E as [H1 H2]. split; [done|].
  intros H%in_range_true. congruence.
Qed.

Lemma ValidString_cons_ascii c s : byte_val c < 128 → ValidString (String c s) = ValidString s.
Proof.
  intros Hc. unfold ValidString at 1. rewrite runes_unfold. unfold DecodeRune.
  destruct (Z.ltb_spec (byte_val c) 128); [|lia]. cbn [rs_rune rs_bytes rs_rest forallb].
  unfold bad_rune. cbn [fst snd]. rewrite (proj2 (Z.eqb_neq _ _)) by (unfold RuneError; lia). done.
Qed.

Lemma in_range_intro lo hi z : lo <= z <= hi → in_range lo hi z = true.
Proof. apply in_range_true. Qed.

Lemma in_range_elim lo hi z : ¬ lo <= z <= hi → in_range lo hi z = false.
Proof. intros H. destruct (in_range lo hi z) eqn:E; [|done]. by apply in_range_true in E. Qed.

Lemma DecodeRune_EncodeRune r t :
  DecodeRune (EncodeRune r +:+ t) = Some (RuneStep (scalar r) (EncodeRune r) t).
Proof.
  pose proof (scalar_range r) as [Hr Hs]. unfold EncodeRune. fold (scalar r). set (z := scalar r) in *.
  clearbody z. cbv zeta.
  repeat match goal with |- context [?a <? ?b] => destruct (Z.ltb_spec a b) end;
    rewrite ?string_app_cons, ?string_app_nil_l; unfold DecodeRune; rewrite !byte_val_of
      by (Z.to_euclidean_division_equations; lia).
  all: repeat match goal with
    | |- context [?a <? ?b] => destruct (Z.ltb_spec a b); [try (exfalso; Z.to_euclidean_division_equations; lia)|
           try (exfalso; Z.to_euclidean_division_equations; lia)]
    | |- context [in_range 194 223 ?x] =>
        first [ rewrite (in_range_intro 194 223 x) by (Z.to_euclidean_division_equations; lia)
              | rewrite (in_range_elim 194 223 x) by (Z.to_euclidean_division_equations; lia) ]
    | |- context [in_range 224 239 ?x] =>
        first [ rewrite (in_range_intro 224 239 x) by (Z.to_euclidean_division_equations; lia)
              | rewrite (in_range_elim 224 239 x) by (Z.to_euclidean_division_equations; lia) ]
    | |- context [in_range 240 244 ?x] =>
        rewrite (in_range_intro 240 244 x) by (Z.to_euclidean_division_equations; lia)
    end; cbv zeta.
  all: rewrite ?(in_range_intro _ _ (128 + _ mod 64)) by
    (repeat case_match; Z.to_euclidean_division_equations; lia); cbn [andb].
  all: try (do 2 f_equal; Z.to_euclidean_division_equations; lia).
Qed.

Lemma ValidString_EncodeRune r s : ValidString s = true → ValidString (EncodeRune r +:+ s) = true.
Proof.
  intros Hs. pose proof (DecodeRune_EncodeRune r s) as H. unfold ValidString.
  rewrite runes_unfold, H. cbn [rs_rune rs_bytes rs_rest forallb]. fold (ValidString s). rewrite Hs, andb_true_r.
  unfold bad_rune. cbn [fst snd]. destruct (Z.eqb_spec (scalar r) RuneError) as [E|]; [|done].
  unfold EncodeRune. fold (scalar r). by rewrite E.
Qed.

(** ** Literals *)

(** What one step of a literal contributes. *)
Definition valid_step (st : unquote_step) : Prop :=
  match st with
  | UEnd _ => True
  | UPut out _ => ∀ s, ValidString s = true → ValidString (out +:+ s) = true
  end.

Lemma valid_ascii c : byte_val c < 128 → ∀ s, ValidString s = true → ValidString (String c "" +:+ s) = true.
Proof. intros Hc s Hs. rewrite string_app_cons, string_app_nil_l. by rewrite ValidString_cons_ascii. Qed.

Lemma unquote_escape_valid s st : unquote_escape s = Some st → valid_step st.
Proof.
  destruct s as [|e t]; [done|]. cbn [unquote_escape]. cbv zeta.
  destruct (_ || _) eqn:E1.
  { intros [= <-]. rewrite !orb_true_iff, !Z.eqb_eq in E1. intros s. apply valid_ascii. lia. }
  destruct (_ =? 98); [intros [= <-] s; by apply valid_ascii|].
  destruct (_ =? 102); [intros [= <-] s; by apply valid_ascii|].
  destruct (_ =? 110); [intros [= <-] s; by apply valid_ascii|].
  destruct (_ =? 114); [intros [= <-] s; by apply valid_ascii|].
  destruct (_ =? 116); [intros [= <-] s; by apply valid_ascii|].
  destruct (_ =? 117); [|done]. destruct (hex4 t) as [[r t']|]; [|done].
  destruct (is_surrogate r).
  - destruct (low_surrogate r t') as [r' t'']. intros [= <-] s. apply ValidString_EncodeRune.
  - intros [= <-] s. apply ValidString_EncodeRune.
Qed.

Lemma unquote_one_valid s st : unquote_one s = Some st → valid_step st.
Proof.
  unfold unquote_one. destruct (DecodeRune s) as [rs|]; [|done].
  destruct (_ =? 34); [by intros [= <-]|]. destruct (_ =? 92); [apply unquote_escape_valid|].
  destruct (_ <? 32); [done|]. intros [= <-] s'. apply ValidString_EncodeRune.
Qed.

Lemma unquote_go_valid fuel s x t : unquote_go fuel s = Some (x, t) → ValidString x = true.
Proof.
  revert s x t. induction fuel as [|fuel IH]; intros s x t; cbn [unquote_go]; [done|].
  destruct (unquote_one s) as [[rest|out rest]|] eqn:E; [by intros [= <- _]| |done].
  destruct (unquote_go fuel rest) as [[s' r']|] eqn:E'; [|done]. intros [= <- _].
  apply (unquote_one_valid _ _ E). by eapply IH.
Qed.

Lemma unquote_valid s x t : unquote s = Some (x, t) → ValidString x = true.
Proof. apply unquote_go_valid. Qed.

(** ** Documents *)

Definition valid_text (v : json) : Prop := match v with JStr s => ValidString s = true | _ => True end.

Definition valid_member (kv : string * json) : Prop := ValidString kv.1 = true ∧ valid_text kv.2.

Definition valid_value (v : json) : Prop :=
  valid_text v ∧ match v with JObj l => Forall valid_member l | _ => True end.

Lemma parse_valid fuel :
  (∀ depth s v r, parse_value fuel depth s = Some (v, r) → valid_value v)
  ∧ (∀ depth s l r, parse_members fuel depth s = Some (l, r) → Forall valid_member l).
Proof.
  induction fuel as [|fuel [IHv IHm]]; [by split|]. split.
  - intros depth s v r. cbn [parse_value]. destruct (skip_ws s) as [|c t]; [done|].
    case_bool_decide.
    { destruct (unquote t) as [[x r']|] eqn:E; [|done]. intros [= <- _]. split; [|done]. by eapply unquote_valid. }
    case_bool_decide.
    { destruct (_ <=? _); [done|].
      repeat case_match; intros; simplify_eq; (split; [done|]); first [by eapply IHm|by constructor]. }
    case_bool_decide; [repeat case_match; intros; by simplify_eq|].
    repeat case_match; intros; by simplify_eq.
  - intros depth s l r. cbn [parse_members]. destruct s as [|q t]; [done|]. case_bool_decide; [|done].
    repeat case_match; intros; simplify_eq;
      (constructor; [split; [by eapply unquote_valid|]|]); try done; try (by eapply IHm);
      match goal with H : parse_value _ _ _ = _ |- _ => exact (proj1 (IHv _ _ _ _ H)) end.
Qed.

Lemma parse_document_valid raw l : parse_document raw = Some (JObj l) → Forall valid_member l.
Proof.
  unfold parse_document. destruct (parse_value _ _ _) as [[v r]|] eqn:E; [|done].
  destruct (skip_ws r); [|done]. intros [= ->]. by apply (proj1 (parse_valid _)) in E as [_ ?].
Qed.

(** ** Maps and commands *)

Lemma fill_map_valid l m m' : Forall valid_member l → valid_map m → fill_map l m = Ok m' → valid_map m'.
Proof.
  intros Hl. revert m. induction Hl as [|[k v] l [Hk Hv] _ IH]; intros m Hm; cbn; [by intros [= <-]|].
  destruct v as [| | |s| |]; try done; intros H; (eapply IH; [|exact H]);
    (apply map_Forall_insert_2; [|done]); by split.
Qed.

Lemma UnmarshalMap_valid raw m : UnmarshalMap raw = Ok m → valid_map m.
Proof.
  unfold UnmarshalMap. destruct (parse_document raw) as [[| | | | |l]|] eqn:E; try done.
  - intros [= <-]. apply map_Forall_empty.
  - intros H. eapply fill_map_valid; [by eapply parse_document_valid|apply map_Forall_empty|exact H].
Qed.

Definition valid_command (c : command) : Prop :=
  ValidString (cmd_Key c) = true ∧ ValidString (cmd_Value c) = true.

Lemma fill_command_valid l c c' :
  Forall valid_member l → valid_command c → fill_command l c = Ok c' → valid_command c'.
Proof.
  intros Hl. revert c. induction Hl as [|[k v] l [Hk Hv] _ IH]; intros c Hc; cbn; [by intros [= <-]|].
  destruct (field_of_key k) as [f|]; [|by apply IH].
  destruct v as [| | |s| |]; try done; intros H; (eapply IH; [|exact H]); [done|].
  destruct Hc. unfold set_command_field, valid_command. repeat case_bool_decide; by split.
Qed.

Lemma decodeCommand_valid raw c : decodeCommand raw = Ok c → valid_command c.
Proof.
  unfold decodeCommand, unmarshal_command.
  destruct (parse_document raw) as [[| | | | |l]|] eqn:E; try done.
  destruct (fill_command l zero_command) as [c'|] eqn:Ef; [|done]. case_bool_decide; [|done]. intros [= <-].
  eapply fill_command_valid; [by eapply parse_document_valid| |exact Ef]. by split.
Qed.
