(* ===== verification/Node.v ===== *)
(** * The node: state and internal operations

    [internal/raft/node.go].  A [Node] is the record of the Go struct; a function
    that runs with [n.mu] held is a computation in the state monad over it, and a
    function that releases the lock around a remote call is split at that call
    into the sections that run with the lock held.  Goroutines a function starts
    are appended to [tasks]; the clock and the random source are read from
    [world]; log lines go to [logger]. *)

From Stdlib Require Import Ascii String.
From stdpp Require Import strings.
From S2P Require Import Prelude GoStd Wire Logging Metrics Sql Storage Config Types.
#[local] Open Scope Z_scope.

Definition defaultElectionMin : Z := 500 * Millisecond.
Definition defaultElectionMax : Z := 900 * Millisecond.
Definition defaultHeartbeatInterval : Z := 100 * Millisecond.
Definition appendBatchSize : Z := 128.

(** What [time.Now] and [rand] will return, by number of calls made so far. *)
Record Env := mkEnv { env_clock : nat → Z; env_rand : nat → Z; env_calls : nat }.

(** Goroutines started and not yet run. *)
Inductive task :=
| TStartElection
| TReplicateAll.

Definition minUint64 (a b : Z) : Z := if a <? b then a else b.
Definition maxUint64 (a b : Z) : Z := if b <? a then a else b.

Definition wrapInternal (e : error) : error := ErrWrap "internal raft error" e.

Section node.
Context `{!SqlDriver} `{!GoRuntime}.

Record Node := mkNode {
  node_id : string;
  grpcAddr : string;
  httpAddr : string;
  peers : list Peer;
  store : conn;
  logger : Logger;
  metrics : Metrics;
  role : Role;
  currentTerm : Z;
  votedFor : string;
  leaderID : string;
  commitIndex : Z;
  lastApplied : Z;
  nextIndex : gmap string Z;
  matchIndex : gmap string Z;
  electionMin : Z;
  electionMax : Z;
  heartbeatInterval : Z;
  snapshotThreshold : Z;
  electionDeadline : Z;
  clients : gset string;
  tasks : list task;
  world : Env
}.

Definition set_store (x : conn) (n : Node) : Node :=
  mkNode (node_id n) (grpcAddr n) (httpAddr n) (peers n) x (logger n) (metrics n) (role n)
    (currentTerm n) (votedFor n) (leaderID n) (commitIndex n) (lastApplied n) (nextIndex n)
    (matchIndex n) (electionMin n) (electionMax n) (heartbeatInterval n)
    (snapshotThreshold n) (electionDeadline n) (clients n) (tasks n) (world n) .
Definition set_logger (x : Logger) (n : Node) : Node :=
  mkNode (node_id n) (grpcAddr n) (httpAddr n) (peers n) (store n) x (metrics n) (role n)
    (currentTerm n) (votedFor n) (leaderID n) (commitIndex n) (lastApplied n) (nextIndex n)
    (matchIndex n) (electionMin n) (electionMax n) (heartbeatInterval n)
    (snapshotThreshold n) (electionDeadline n) (clients n) (tasks n) (world n) .
Definition set_metrics (x : Metrics) (n : Node) : Node :=
  mkNode (node_id n) (grpcAddr n) (httpAddr n) (peers n) (store n) (logger n) x (role n)
    (currentTerm n) (votedFor n) (leaderID n) (commitIndex n) (lastApplied n) (nextIndex n)
    (matchIndex n) (electionMin n) (electionMax n) (heartbeatInterval n)
    (snapshotThreshold n) (electionDeadline n) (clients n) (tasks n) (world n) .
Definition set_role (x : Role) (n : Node) : Node :=
  mkNode (node_id n) (grpcAddr n) (httpAddr n) (peers n) (store n) (logger n) (metrics n) x
    (currentTerm n) (votedFor n) (leaderID n) (commitIndex n) (lastApplied n) (nextIndex n)
    (matchIndex n) (electionMin n) (electionMax n) (heartbeatInterval n)
    (snapshotThreshold n) (electionDeadline n) (clients n) (tasks n) (world n) .
Definition set_currentTerm (x : Z) (n : Node) : Node :=
  mkNode (node_id n) (grpcAddr n) (httpAddr n) (peers n) (store n) (logger n) (metrics n)
    (role n) x (votedFor n) (leaderID n) (commitIndex n) (lastApplied n) (nextIndex n)
    (matchIndex n) (electionMin n) (electionMax n) (heartbeatInterval n)
    (snapshotThreshold n) (electionDeadline n) (clients n) (tasks n) (world n) .
Definition set_votedFor (x : string) (n : Node) : Node :=
  mkNode (node_id n) (grpcAddr n) (httpAddr n) (peers n) (store n) (logger n) (metrics n)
    (role n) (currentTerm n) x (leaderID n) (commitIndex n) (lastApplied n) (nextIndex n)
    (matchIndex n) (electionMin n) (electionMax n) (heartbeatInterval n)
    (snapshotThreshold n) (electionDeadline n) (clients n) (tasks n) (world n) .
Definition set_leaderID (x : string) (n : Node) : Node :=
  mkNode (node_id n) (grpcAddr n) (httpAddr n) (peers n) (store n) (logger n) (metrics n)
    (role n) (currentTerm n) (votedFor n) x (commitIndex n) (lastApplied n) (nextIndex n)
    (matchIndex n) (electionMin n) (electionMax n) (heartbeatInterval n)
    (snapshotThreshold n) (electionDeadline n) (clients n) (tasks n) (world n) .
Definition set_commitIndex (x : Z) (n : Node) : Node :=
  mkNode (node_id n) (grpcAddr n) (httpAddr n) (peers n) (store n) (logger n) (metrics n)
    (role n) (currentTerm n) (votedFor n) (leaderID n) x (lastApplied n) (nextIndex n)
    (matchIndex n) (electionMin n) (electionMax n) (heartbeatInterval n)
    (snapshotThreshold n) (electionDeadline n) (clients n) (tasks n) (world n) .
Definition set_lastApplied (x : Z) (n : Node) : Node :=
  mkNode (node_id n) (grpcAddr n) (httpAddr n) (peers n) (store n) (logger n) (metrics n)
    (role n) (currentTerm n) (votedFor n) (leaderID n) (commitIndex n) x (nextIndex n)
    (matchIndex n) (electionMin n) (electionMax n) (heartbeatInterval n)
    (snapshotThreshold n) (electionDeadline n) (clients n) (tasks n) (world n) .
Definition set_nextIndex (x : gmap string Z) (n : Node) : Node :=
  mkNode (node_id n) (grpcAddr n) (httpAddr n) (peers n) (store n) (logger n) (metrics n)
    (role n) (currentTerm n) (votedFor n) (leaderID n) (commitIndex n) (lastApplied n) x
    (matchIndex n) (electionMin n) (electionMax n) (heartbeatInterval n)
    (snapshotThreshold n) (electionDeadline n) (clients n) (tasks n) (world n) .
Definition set_matchIndex (x : gmap string Z) (n : Node) : Node :=
  mkNode (node_id n) (grpcAddr n) (httpAddr n) (peers n) (store n) (logger n) (metrics n)
    (role n) (currentTerm n) (votedFor n) (leaderID n) (commitIndex n) (lastApplied n)
    (nextIndex n) x (electionMin n) (electionMax n) (heartbeatInterval n)
    (snapshotThreshold n) (electionDeadline n) (clients n) (tasks n) (world n) .
Definition set_electionDeadline (x : Z) (n : Node) : Node :=
  mkNode (node_id n) (grpcAddr n) (httpAddr n) (peers n) (store n) (logger n) (metrics n)
    (role n) (currentTerm n) (votedFor n) (leaderID n) (commitIndex n) (lastApplied n)
    (nextIndex n) (matchIndex n) (electionMin n) (electionMax n) (heartbeatInterval n)
    (snapshotThreshold n) x (clients n) (tasks n) (world n) .
Definition set_clients (x : gset string) (n : Node) : Node :=
  mkNode (node_id n) (grpcAddr n) (httpAddr n) (peers n) (store n) (logger n) (metrics n)
    (role n) (currentTerm n) (votedFor n) (leaderID n) (commitIndex n) (lastApplied n)
    (nextIndex n) (matchIndex n) (electionMin n) (electionMax n) (heartbeatInterval n)
    (snapshotThreshold n) (electionDeadline n) x (tasks n) (world n) .
Definition set_tasks (x : list task) (n : Node) : Node :=
  mkNode (node_id n) (grpcAddr n) (httpAddr n) (peers n) (store n) (logger n) (metrics n)
    (role n) (currentTerm n) (votedFor n) (leaderID n) (commitIndex n) (lastApplied n)
    (nextIndex n) (matchIndex n) (electionMin n) (electionMax n) (heartbeatInterval n)
    (snapshotThreshold n) (electionDeadline n) (clients n) x (world n) .
Definition set_world (x : Env) (n : Node) : Node :=
  mkNode (node_id n) (grpcAddr n) (httpAddr n) (peers n) (store n) (logger n) (metrics n)
    (role n) (currentTerm n) (votedFor n) (leaderID n) (commitIndex n) (lastApplied n)
    (nextIndex n) (matchIndex n) (electionMin n) (electionMax n) (heartbeatInterval n)
    (snapshotThreshold n) (electionDeadline n) (clients n) (tasks n) x.

Abbreviation N A := (ST Node A).

(** A method of the store, called on the node's store. *)
Definition with_store {A} (m : ST conn A) : N A :=
  λ n, let '(a, c) := m (store n) in (a, set_store c n).

Definition call_env {A} (f : Env → A) : N A :=
  e ← gets world;
  _ ← modify (set_world (mkEnv (env_clock e) (env_rand e) (S (env_calls e))));
  mret (f e).

Definition time_Now : N Z := call_env (λ e, env_clock e (env_calls e)).

(** [rand.Int63n(w)], a number in [0, w). *)
Definition Int63n (w : Z) : N Z := call_env (λ e, env_rand e (env_calls e) mod w).

Definition log (level message : string) (fields : gmap string field) : N unit :=
  now ← time_Now; modify (λ n, set_logger (log_write now level message fields (logger n)) n).

Definition logError (message : string) (e : error) : N unit :=
  log "error" message {["error" := FError e]}.

Definition on_metrics (f : Metrics → Metrics) : N unit :=
  modify (λ n, set_metrics (f (metrics n)) n).

Definition go (t : task) : N unit := modify (λ n, set_tasks (tasks n ++ [t]) n).

(** ** Roles and terms *)

Definition resetElectionDeadlineLocked : N unit :=
  n ← gets (λ n, n);
  let window := int64 (electionMax n - electionMin n) in
  jitter ← (if 0 <? window then Int63n window else mret 0);
  now ← time_Now;
  modify (set_electionDeadline (now + int64 (electionMin n + jitter))).

Definition majorityLocked (n : Node) : Z := (Z.of_nat (length (peers n)) + 1) / 2 + 1.

Definition refreshMetricsLocked : N unit :=
  r ← with_store LastIndexAndTerm;
  let lastIndex := match r with Ok (i, _) => i | Err _ => 0 end in
  n ← gets (λ n, n);
  on_metrics (SetState (role_string (role n)) (currentTerm n) (commitIndex n)
    (lastApplied n) lastIndex).

Definition stepDownLocked (term : Z) (leader : string) : N unit :=
  cur ← gets currentTerm;
  _ ← (if cur <? term then
         _ ← modify (set_currentTerm term);
         _ ← modify (set_votedFor "");
         n ← gets (λ n, n);
         r ← with_store (SaveTermVote (currentTerm n) (votedFor n));
         match r with
         | Ok _ => mret tt
         | Err e => logError "failed to persist higher term" e
         end
       else mret tt);
  _ ← modify (set_role RoleFollower);
  _ ← modify (set_leaderID leader);
  _ ← resetElectionDeadlineLocked;
  refreshMetricsLocked.

Definition init_peer_progress (lastIndex : Z) (p : Peer) : N unit :=
  _ ← modify (λ n, set_nextIndex (<[Peer_ID p := lastIndex +64 1]> (nextIndex n)) n);
  _ ← modify (λ n, set_matchIndex (<[Peer_ID p := 0]> (matchIndex n)) n);
  on_metrics (SetReplicationLag (Peer_ID p) lastIndex).

Fixpoint for_peers (f : Peer → N unit) (l : list Peer) : N unit :=
  match l with
  | [] => mret tt
  | p :: l' => _ ← f p; for_peers f l'
  end.

Definition becomeLeaderLocked : N unit :=
  r ← with_store LastIndexAndTerm;
  match r with
  | Err e => logError "failed to initialize leader replication state" e
  | Ok (lastIndex, _) =>
      _ ← modify (set_role RoleLeader);
      _ ← modify (λ n, set_leaderID (node_id n) n);
      _ ← modify (λ n, set_votedFor (node_id n) n);
      ps ← gets peers;
      _ ← for_peers (init_peer_progress lastIndex) ps;
      _ ← modify (λ n, set_matchIndex (<[node_id n := lastIndex]> (matchIndex n)) n);
      _ ← refreshMetricsLocked;
      term ← gets currentTerm;
      _ ← log "info" "became leader" {["term" := FUint term]};
      go TReplicateAll
  end.

(** ** Elections *)

(** What the goroutine that asks for votes has captured. *)
Record Election := mkElection {
  el_term : Z;
  el_lastLogIndex : Z;
  el_lastLogTerm : Z;
  el_majority : Z;
  el_peers : list Peer
}.

(** [startElection] up to the release of the lock; [None] is an early return. *)
Definition startElection_begin : N (option Election) :=
  r ← gets role;
  if bool_decide (r = RoleLeader) then mret None
  else
    _ ← modify (set_role RoleCandidate);
    _ ← modify (λ n, set_currentTerm (currentTerm n +64 1) n);
    term ← gets currentTerm;
    _ ← modify (λ n, set_votedFor (node_id n) n);
    _ ← modify (set_leaderID "");
    n ← gets (λ n, n);
    saved ← with_store (SaveTermVote (currentTerm n) (votedFor n));
    match saved with
    | Err e =>
        _ ← logError "failed to persist election term" e;
        _ ← resetElectionDeadlineLocked;
        mret None
    | Ok _ =>
        last ← with_store LastIndexAndTerm;
        match last with
        | Err e =>
            _ ← logError "failed to read last log for election" e;
            _ ← resetElectionDeadlineLocked;
            mret None
        | Ok (lastLogIndex, lastLogTerm) =>
            _ ← resetElectionDeadlineLocked;
            _ ← refreshMetricsLocked;
            _ ← on_metrics IncElection;
            majority ← gets majorityLocked;
            ps ← gets peers;
            _ ← log "info" "election started" {["term" := FUint term]};
            mret (Some (mkElection term lastLogIndex lastLogTerm majority ps))
        end
    end.

Definition vote_request (candidate : string) (e : Election) : RequestVoteRequest :=
  mkRequestVoteRequest (el_term e) candidate (el_lastLogIndex e) (el_lastLogTerm e).

(** The variables the vote goroutines of one election share. *)
Record Tally := mkTally { votes : Z; won : bool }.

Definition init_tally : Tally := mkTally 1 false.

(** A vote goroutine once its call has returned a response. *)
Definition handleVote (e : Election) (resp : option RequestVoteResponse) (ty : Tally) : N Tally :=
  n ← gets (λ n, n);
  if currentTerm n <? RequestVoteResponse_GetTerm resp then
    _ ← stepDownLocked (RequestVoteResponse_GetTerm resp) "";
    mret ty
  else if negb (bool_decide (role n = RoleCandidate)) || negb (currentTerm n =? el_term e)
          || negb (RequestVoteResponse_GetVoteGranted resp) then mret ty
  else
    let votes' := votes ty + 1 in
    if (el_majority e <=? votes') && negb (won ty) then
      _ ← becomeLeaderLocked;
      mret (mkTally votes' true)
    else mret (mkTally votes' (won ty)).

(** The end of [startElection]: a cluster of one needs no votes. *)
Definition startElection_single (e : Election) : N unit :=
  if el_majority e =? 1 then
    n ← gets (λ n, n);
    if bool_decide (role n = RoleCandidate) && (currentTerm n =? el_term e)
    then becomeLeaderLocked else mret tt
  else mret tt.

(** One tick of [run]: the new [nextHeartbeat]. *)
Definition run_tick (nextHeartbeat : Z) : N Z :=
  now ← time_Now;
  n ← gets (λ n, n);
  let electionDue := negb (bool_decide (role n = RoleLeader)) && (electionDeadline n <? now) in
  let heartbeatDue := bool_decide (role n = RoleLeader) && negb (now <? nextHeartbeat) in
  _ ← (if electionDue then go TStartElection else mret tt);
  _ ← (if heartbeatDue then go TReplicateAll else mret tt);
  mret (if heartbeatDue then now + heartbeatInterval n else nextHeartbeat).

(** ** Applying and compacting

    How a loop ends: its condition became false, its body returned from the
    function, or the fuel ran out.  The fuel given below is never exhausted. *)

Inductive loop_exit := Completed | Returned | OutOfFuel.

Definition compactIfNeededLocked : N unit :=
  n ← gets (λ n, n);
  if (snapshotThreshold n =? 0) || (lastApplied n =? 0) then mret tt
  else
    r ← with_store SnapshotIndexTerm;
    match r with
    | Err e => logError "failed to read snapshot metadata for compaction" e
    | Ok (snapIndex, _) =>
        if (lastApplied n <=? snapIndex)
           || (lastApplied n -64 snapIndex <? snapshotThreshold n) then mret tt
        else
          tr ← with_store (Term (lastApplied n));
          match tr with
          | Err e => logError "failed to read snapshot term" e
          | Ok (term, found) =>
              if negb found then mret tt
              else
                sr ← with_store (CreateSnapshot (lastApplied n) term);
                match sr with
                | Err e => logError "failed to create snapshot" e
                | Ok _ => log "info" "snapshot created"
                    (<["index" := FUint (lastApplied n)]> {["term" := FUint term]})
                end
          end
    end.

(** The body of the loop of [applyCommittedLocked]: [true] goes on. *)
Definition apply_one : N bool :=
  next ← gets (λ n, lastApplied n +64 1);
  er ← with_store (get_Entry next);
  match er with
  | Err e => _ ← log "error" "failed to load committed entry"
               (<["index" := FUint next]> {["error" := FError e]}); mret false
  | Ok (_, false) =>
      sr ← with_store SnapshotIndexTerm;
      match sr with
      | Err e => _ ← logError "failed to read snapshot metadata while applying" e; mret false
      | Ok (snapIndex, _) =>
          if next <=? snapIndex then _ ← modify (set_lastApplied snapIndex); mret true
          else _ ← log "error" "committed entry missing" {["index" := FUint next]}; mret false
      end
  | Ok (entry, true) =>
      match decodeCommand (Entry_Command entry) with
      | Err e => _ ← log "error" "failed to decode command"
                   (<["index" := FUint (Entry_Index entry)]> {["error" := FError e]}); mret false
      | Ok cmd =>
          ar ← with_store (ApplySet (Entry_Index entry) (cmd_Key cmd) (cmd_Value cmd));
          match ar with
          | Err e => _ ← log "error" "failed to apply command"
                       (<["index" := FUint (Entry_Index entry)]> {["error" := FError e]}); mret false
          | Ok _ => _ ← modify (set_lastApplied (Entry_Index entry)); mret true
          end
      end
  end.

Fixpoint apply_loop (fuel : nat) : N loop_exit :=
  n ← gets (λ n, n);
  if lastApplied n <? commitIndex n then
    match fuel with
    | O => mret OutOfFuel
    | S fuel =>
        goes_on ← apply_one;
        if goes_on : bool then apply_loop fuel else mret Returned
    end
  else mret Completed.

(** Every turn of the loop raises [lastApplied]. *)
Definition apply_fuel (n : Node) : nat := Z.to_nat (commitIndex n - lastApplied n).

Definition applyCommittedLocked : N unit :=
  fuel ← gets apply_fuel;
  exit ← apply_loop fuel;
  match exit with
  | Completed => _ ← compactIfNeededLocked; refreshMetricsLocked
  | _ => mret tt
  end.

(** ** Advancing the commit index *)

(** The nodes known to hold the log up to [idx]: this one, and each peer whose
    match index has reached it. *)
Definition replicas (n : Node) (idx : Z) : Z :=
  1 + Z.of_nat (length (filter (λ p, idx <= map_get (matchIndex n) (Peer_ID p)) (peers n))).

(** The body of the loop of [advanceCommitLocked]: [false] is its [return]. *)
Definition advance_one (majority idx : Z) : N bool :=
  tr ← with_store (Term idx);
  match tr with
  | Err e => _ ← logError "failed to read term while advancing commit" e; mret false
  | Ok (term, found) =>
      n ← gets (λ n, n);
      if negb found || negb (term =? currentTerm n) then mret true
      else
        _ ← (if majority <=? replicas n idx then modify (set_commitIndex idx) else mret tt);
        mret true
  end.

Fixpoint advance_loop (fuel : nat) (majority lastIndex idx : Z) : N loop_exit :=
  if idx <=? lastIndex then
    match fuel with
    | O => mret OutOfFuel
    | S fuel =>
        goes_on ← advance_one majority idx;
        if goes_on : bool then advance_loop fuel majority lastIndex (idx +64 1)
        else mret Returned
    end
  else mret Completed.

Definition advanceCommitLocked : N unit :=
  r ← with_store LastIndexAndTerm;
  match r with
  | Err e => logError "failed to read last log while advancing commit" e
  | Ok (lastIndex, _) =>
      n ← gets (λ n, n);
      let start := commitIndex n +64 1 in
      exit ← advance_loop (Z.to_nat (lastIndex - start + 1)) (majorityLocked n) lastIndex start;
      match exit with
      | Completed => applyCommittedLocked
      | _ => mret tt
      end
  end.

(** ** Replication to one peer *)

Inductive attempt :=
| AttemptReturn (ok : bool)
| AttemptContinue
| SendSnapshot (snap : Snapshot) (req : InstallSnapshotRequest)
| SendAppend (term lastSent : Z) (req : AppendEntriesRequest).

Definition wire_entry (e : Entry) : option LogEntry :=
  Some (mkLogEntry (Entry_Index e) (Entry_Term e) (Entry_Command e)).

Definition peer_error (message peerID : string) (e : error) : N attempt :=
  _ ← log "error" message (<["peer_id" := FString peerID]> {["error" := FError e]});
  mret (AttemptReturn false).

(** One attempt up to the release of the lock: the request to send. *)
Definition replicatePeer_prepare (peerID : string) : N attempt :=
  r ← gets role;
  if negb (bool_decide (r = RoleLeader)) then mret (AttemptReturn false)
  else
    term ← gets currentTerm;
    leaderCommit ← gets commitIndex;
    self ← gets node_id;
    next0 ← gets (λ n, map_get (nextIndex n) peerID);
    next ← (if next0 =? 0 then
              _ ← modify (λ n, set_nextIndex (<[peerID := 1]> (nextIndex n)) n); mret 1
            else mret next0);
    sr ← with_store SnapshotIndexTerm;
    match sr with
    | Err e => peer_error "failed to read snapshot metadata" peerID e
    | Ok (snapIndex, snapTerm) =>
        if next <=? snapIndex then
          lr ← with_store LoadSnapshot;
          match lr with
          | Err e => peer_error "failed to load snapshot" peerID e
          | Ok snap =>
              mret (SendSnapshot snap (mkInstallSnapshotRequest term self
                (LastIncludedIndex snap) (LastIncludedTerm snap) (Data snap)))
          end
        else
          let prevLogIndex := next -64 1 in
          tr ← with_store (Term prevLogIndex);
          match tr with
          | Err e => peer_error "failed to read previous log term" peerID e
          | Ok (prevLogTerm0, found0) =>
              let usesnap := negb found0 && (prevLogIndex <=? snapIndex) in
              let prevLogTerm := if usesnap then snapTerm else prevLogTerm0 in
              if negb (found0 || usesnap) then
                _ ← modify (λ n,
                  set_nextIndex (<[peerID := maxUint64 1 (next -64 1)]> (nextIndex n)) n);
                mret AttemptContinue
              else
                er ← with_store (EntriesFrom next appendBatchSize);
                match er with
                | Err e => peer_error "failed to read entries for replication" peerID e
                | Ok entries =>
                    let lastSent := default prevLogIndex (Entry_Index <$> last entries) in
                    mret (SendAppend term lastSent (mkAppendEntriesRequest term self
                      prevLogIndex prevLogTerm (wire_entry <$> entries) leaderCommit))
                end
          end
    end.

(** After [InstallSnapshot] has answered. *)
Definition replicatePeer_snapshot_reply (peerID : string) (snap : Snapshot)
    (resp : option InstallSnapshotResponse) : N bool :=
  cur ← gets currentTerm;
  if cur <? InstallSnapshotResponse_GetTerm resp then
    _ ← stepDownLocked (InstallSnapshotResponse_GetTerm resp) "";
    mret false
  else
    _ ← modify (λ n, set_matchIndex (<[peerID := LastIncludedIndex snap]> (matchIndex n)) n);
    _ ← modify (λ n, set_nextIndex (<[peerID := LastIncludedIndex snap +64 1]> (nextIndex n)) n);
    _ ← advanceCommitLocked;
    _ ← refreshMetricsLocked;
    mret true.

(** After [AppendEntries] has answered: [None] makes another attempt. *)
Definition replicatePeer_append_reply (peerID : string) (term lastSent : Z)
    (resp : option AppendEntriesResponse) : N (option bool) :=
  n ← gets (λ n, n);
  if currentTerm n <? AppendEntriesResponse_GetTerm resp then
    _ ← stepDownLocked (AppendEntriesResponse_GetTerm resp) "";
    mret (Some false)
  else if negb (bool_decide (role n = RoleLeader)) || negb (currentTerm n =? term) then
    mret (Some false)
  else if AppendEntriesResponse_GetSuccess resp then
    let match0 := AppendEntriesResponse_GetMatchIndex resp in
    let matched := if match0 <? lastSent then lastSent else match0 in
    _ ← (if map_get (matchIndex n) peerID <? matched
         then modify (λ n, set_matchIndex (<[peerID := matched]> (matchIndex n)) n)
         else mret tt);
    _ ← modify (λ n,
      set_nextIndex (<[peerID := map_get (matchIndex n) peerID +64 1]> (nextIndex n)) n);
    lr ← with_store LastIndexAndTerm;
    let lastIndex := match lr with Ok (i, _) => i | Err _ => 0 end in
    mi ← gets (λ n, map_get (matchIndex n) peerID);
    _ ← (if mi <=? lastIndex then on_metrics (SetReplicationLag peerID (lastIndex -64 mi))
         else mret tt);
    _ ← advanceCommitLocked;
    _ ← refreshMetricsLocked;
    mret (Some true)
  else
    _ ← (if 1 <? map_get (nextIndex n) peerID
         then modify (λ n,
           set_nextIndex (<[peerID := map_get (nextIndex n) peerID -64 1]> (nextIndex n)) n)
         else mret tt);
    mret None.

(** The calls of one attempt, made without the lock: other goroutines may change
    the node until the answer arrives ([None] is an RPC error). *)
Record PeerClient := mkPeerClient {
  call_append : AppendEntriesRequest → N (option (option AppendEntriesResponse));
  call_install : InstallSnapshotRequest → N (option (option InstallSnapshotResponse))
}.

(** [replicatePeer]: [ctx_done] and the calls are indexed by the attempt. *)
Fixpoint replicatePeer_loop (ctx_done : nat → bool) (client : nat → PeerClient)
    (peerID : string) (budget attempts : nat) : N bool :=
  match budget with
  | O => mret false
  | S budget =>
      if ctx_done attempts then mret false
      else
        a ← replicatePeer_prepare peerID;
        match a with
        | AttemptReturn b => mret b
        | AttemptContinue => replicatePeer_loop ctx_done client peerID budget (S attempts)
        | SendSnapshot snap req =>
            r ← call_install (client attempts) req;
            match r with
            | None => mret false
            | Some resp => replicatePeer_snapshot_reply peerID snap resp
            end
        | SendAppend term lastSent req =>
            r ← call_append (client attempts) req;
            match r with
            | None => mret false
            | Some resp =>
                b ← replicatePeer_append_reply peerID term lastSent resp;
                match b with
                | Some b => mret b
                | None => replicatePeer_loop ctx_done client peerID budget (S attempts)
                end
            end
        end
  end.

Definition replicatePeer ctx_done client peerID : N bool :=
  replicatePeer_loop ctx_done client peerID 64 0.

(** [replicateAllOnce] before its goroutines ([None]: not the leader) and the
    count it returns when they have finished. *)
Definition replicateAllOnce_begin : N (option (list Peer)) :=
  n ← gets (λ n, n);
  mret (if bool_decide (role n = RoleLeader) then Some (peers n) else None).

Definition replicateAllOnce_count (done : list bool) : Z :=
  1 + Z.of_nat (length (filter (λ b, b = true) done)).

(** ** Creation *)

(** [New(opts)]: [mkdir], [path] and [file] as in [Storage.Open].  On a failed
    read of the metadata the store is closed. *)
Definition New (opts : Options) (mkdir : result unit) (path : string) (file : tables)
    (env : Env) : result Node * tables :=
  if bool_decide (opt_NodeID opts = "") then (Err (ErrText "node id is required"), file)
  else if bool_decide (opt_GRPCAddr opts = "") then (Err (ErrText "gRPC address is required"), file)
  else if bool_decide (opt_DataDir opts = "") then (Err (ErrText "data dir is required"), file)
  else
    let emin := if opt_ElectionMin opts =? 0 then defaultElectionMin else opt_ElectionMin opts in
    let emax := if opt_ElectionMax opts =? 0 then defaultElectionMax else opt_ElectionMax opts in
    let hb := if opt_HeartbeatInterval opts =? 0 then defaultHeartbeatInterval
              else opt_HeartbeatInterval opts in
    match Open mkdir path file with
    | (Err e, file') => (Err e, file')
    | (Ok c, _) =>
        match CurrentTermVote c with
        | (Err e, c1) => (Err e, drv_file c1)
        | (Ok (term, voted), c1) =>
            match LastApplied c1 with
            | (Err e, c2) => (Err e, drv_file c2)
            | (Ok applied, c2) =>
                let n := mkNode (opt_NodeID opts) (opt_GRPCAddr opts) (opt_HTTPAddr opts)
                  (opt_Peers opts) c2 (NewLogger (opt_NodeID opts)) (NewMetrics (opt_NodeID opts))
                  RoleFollower term voted "" applied applied ∅ ∅ emin emax hb
                  (opt_SnapshotThreshold opts) 0 ∅ [] env in
                let n' := (_ ← resetElectionDeadlineLocked; refreshMetricsLocked) n in
                (Ok n'.2, drv_file (store n'.2))
            end
        end
    end.

(** One poll of [WaitForLeader]; the empty string keeps polling. *)
Definition leader_hint (n : Node) : string :=
  if bool_decide (role n = RoleLeader) then node_id n else leaderID n.

Definition WaitForLeader_poll : N (option string) :=
  l ← gets leader_hint;
  mret (if bool_decide (l = "") then None else Some l).
End node.
