(* ===== verification/Rpc.v ===== *)
(** * The RPC handlers

    [internal/raft/rpc.go]: the three consensus RPCs, the client RPCs and the
    status query.  A handler that runs with the lock held throughout is one
    computation; [Write] and [Read] release it while they replicate and are given
    as the sections that hold it. *)

From Stdlib Require Import Ascii String.
From stdpp Require Import strings.
From S2P Require Import Prelude GoStd Wire Logging Metrics Sql Storage Config Types Node.
#[local] Open Scope Z_scope.

Section rpc.
Context `{!SqlDriver} `{!GoRuntime}.

Abbreviation N A := (ST Node A).

Definition count_rpc (method result : string) : N unit := on_metrics (IncRPC method result).

(** [n.metrics.IncRPC(method, "error"); return nil, wrapInternal(err)]. *)
Definition rpc_error {A} (method : string) (e : error) : N (result A) :=
  _ ← count_rpc method "error"; mret (Err (wrapInternal e)).

(** ** RequestVote *)

Definition vote_reply (granted : bool) : N (result RequestVoteResponse) :=
  term ← gets currentTerm; mret (Ok (mkRequestVoteResponse term granted)).

Definition RequestVote (req : option RequestVoteRequest) : N (result RequestVoteResponse) :=
  cur ← gets currentTerm;
  if RequestVoteRequest_GetTerm req <? cur then
    _ ← count_rpc "RequestVote" "stale_term"; vote_reply false
  else
    _ ← (if cur <? RequestVoteRequest_GetTerm req
         then stepDownLocked (RequestVoteRequest_GetTerm req) "" else mret tt);
    r ← with_store LastIndexAndTerm;
    match r with
    | Err e => rpc_error "RequestVote" e
    | Ok (lastLogIndex, lastLogTerm) =>
        let upToDate :=
          (lastLogTerm <? RequestVoteRequest_GetLastLogTerm req)
          || ((RequestVoteRequest_GetLastLogTerm req =? lastLogTerm)
              && (lastLogIndex <=? RequestVoteRequest_GetLastLogIndex req)) in
        voted ← gets votedFor;
        let canVote := bool_decide (voted = "")
          || bool_decide (voted = RequestVoteRequest_GetCandidateId req) in
        if canVote && upToDate then
          _ ← modify (set_votedFor (RequestVoteRequest_GetCandidateId req));
          n ← gets (λ n, n);
          saved ← with_store (SaveTermVote (currentTerm n) (votedFor n));
          match saved with
          | Err e => rpc_error "RequestVote" e
          | Ok _ =>
              _ ← resetElectionDeadlineLocked;
              _ ← refreshMetricsLocked;
              _ ← count_rpc "RequestVote" "granted";
              vote_reply true
          end
        else
          _ ← count_rpc "RequestVote" "rejected"; vote_reply false
    end.

(** ** AppendEntries *)

Definition append_reply (success : bool) (matchIndex : Z) : N (result AppendEntriesResponse) :=
  term ← gets currentTerm; mret (Ok (mkAppendEntriesResponse term success matchIndex)).

(** [lastIndex, _, _ := n.store.LastIndexAndTerm()]: zero on an error. *)
Definition lastIndex_or_zero : N Z :=
  r ← with_store LastIndexAndTerm;
  mret (match r with Ok (i, _) => i | Err _ => 0 end).

(** The entries above the snapshot, and the greatest index among them. *)
Fixpoint collect_incoming (snapIndex matchIndex : Z) (entries : list (option LogEntry)) :
    Z * list Entry :=
  match entries with
  | [] => (matchIndex, [])
  | e :: entries' =>
      if LogEntry_GetIndex e <=? snapIndex then collect_incoming snapIndex matchIndex entries'
      else
        let matchIndex' :=
          if matchIndex <? LogEntry_GetIndex e then LogEntry_GetIndex e else matchIndex in
        let '(m, l) := collect_incoming snapIndex matchIndex' entries' in
        (m, mkEntry (LogEntry_GetIndex e) (LogEntry_GetTerm e) (LogEntry_GetCommand e) :: l)
  end.

(** The loop that compares the incoming entries with the log: [toAppend], with
    the local suffix deleted from the first entry whose term differs. *)
Fixpoint reconcile (incoming : list Entry) : N (result (list Entry)) :=
  match incoming with
  | [] => mret (Ok [])
  | entry :: rest =>
      try ' (localTerm, exists_) := with_store (Term (Entry_Index entry)) in
      if negb exists_ then mret (Ok incoming)
      else if negb (localTerm =? Entry_Term entry) then
        try _ := with_store (DeleteFrom (Entry_Index entry)) in
        mret (Ok incoming)
      else reconcile rest
  end.

Definition append_all (toAppend : list Entry) : N (result unit) :=
  match toAppend with
  | [] => mret (Ok tt)
  | _ => with_store (store_AppendEntries toAppend)
  end.

(** From the matching previous entry on. *)
Definition accept_entries (req : option AppendEntriesRequest) (snapIndex : Z) :
    N (result AppendEntriesResponse) :=
  let '(matchIndex, incoming) :=
    collect_incoming snapIndex (AppendEntriesRequest_GetPrevLogIndex req)
      (AppendEntriesRequest_GetEntries req) in
  ar ← reconcile incoming;
  match ar with
  | Err e => rpc_error "AppendEntries" e
  | Ok toAppend =>
      wr ← append_all toAppend;
      match wr with
      | Err e => rpc_error "AppendEntries" e
      | Ok _ =>
          lr ← with_store LastIndexAndTerm;
          match lr with
          | Err e => rpc_error "AppendEntries" e
          | Ok (lastIndex, _) =>
              commit ← gets commitIndex;
              _ ← (if commit <? AppendEntriesRequest_GetLeaderCommit req then
                     _ ← modify (set_commitIndex
                           (minUint64 (AppendEntriesRequest_GetLeaderCommit req) lastIndex));
                     applyCommittedLocked
                   else mret tt);
              _ ← refreshMetricsLocked;
              _ ← count_rpc "AppendEntries" "success";
              append_reply true matchIndex
          end
      end
  end.

(** The part of [AppendEntries] and [InstallSnapshot] that follows a leader. *)
Definition follow_leader (term : Z) (leader : string) : N unit :=
  n ← gets (λ n, n);
  _ ← (if (currentTerm n <? term) || negb (bool_decide (role n = RoleFollower))
       then stepDownLocked term leader else mret tt);
  _ ← modify (set_leaderID leader);
  resetElectionDeadlineLocked.

Definition AppendEntries (req : option AppendEntriesRequest) : N (result AppendEntriesResponse) :=
  cur ← gets currentTerm;
  if AppendEntriesRequest_GetTerm req <? cur then
    _ ← count_rpc "AppendEntries" "stale_term";
    lastIndex ← lastIndex_or_zero;
    append_reply false lastIndex
  else
    _ ← follow_leader (AppendEntriesRequest_GetTerm req) (AppendEntriesRequest_GetLeaderId req);
    sr ← with_store SnapshotIndexTerm;
    match sr with
    | Err e => rpc_error "AppendEntries" e
    | Ok (snapIndex, _) =>
        if AppendEntriesRequest_GetPrevLogIndex req <? snapIndex then
          _ ← count_rpc "AppendEntries" "behind_snapshot";
          append_reply false snapIndex
        else
          tr ← with_store (Term (AppendEntriesRequest_GetPrevLogIndex req));
          match tr with
          | Err e => rpc_error "AppendEntries" e
          | Ok (prevTerm, found) =>
              if negb found || negb (prevTerm =? AppendEntriesRequest_GetPrevLogTerm req) then
                _ ← count_rpc "AppendEntries" "log_mismatch";
                lastIndex ← lastIndex_or_zero;
                append_reply false lastIndex
              else accept_entries req snapIndex
          end
    end.

(** ** InstallSnapshot *)

Definition snapshot_reply : N (result InstallSnapshotResponse) :=
  term ← gets currentTerm; mret (Ok (mkInstallSnapshotResponse term)).

Definition InstallSnapshot (req : option InstallSnapshotRequest) : N (result InstallSnapshotResponse) :=
  cur ← gets currentTerm;
  if InstallSnapshotRequest_GetTerm req <? cur then
    _ ← count_rpc "InstallSnapshot" "stale_term"; snapshot_reply
  else
    _ ← follow_leader (InstallSnapshotRequest_GetTerm req) (InstallSnapshotRequest_GetLeaderId req);
    sr ← with_store SnapshotIndexTerm;
    match sr with
    | Err e => rpc_error "InstallSnapshot" e
    | Ok (currentSnapIndex, _) =>
        if InstallSnapshotRequest_GetLastIncludedIndex req <=? currentSnapIndex then
          _ ← count_rpc "InstallSnapshot" "ignored"; snapshot_reply
        else
          ir ← with_store (store_InstallSnapshot (mkSnapshot
            (InstallSnapshotRequest_GetLastIncludedIndex req)
            (InstallSnapshotRequest_GetLastIncludedTerm req)
            (InstallSnapshotRequest_GetData req)));
          match ir with
          | Err e => rpc_error "InstallSnapshot" e
          | Ok _ =>
              _ ← modify (λ n, set_commitIndex (maxUint64 (commitIndex n)
                    (InstallSnapshotRequest_GetLastIncludedIndex req)) n);
              _ ← modify (λ n, set_lastApplied (maxUint64 (lastApplied n)
                    (InstallSnapshotRequest_GetLastIncludedIndex req)) n);
              _ ← refreshMetricsLocked;
              _ ← count_rpc "InstallSnapshot" "success";
              snapshot_reply
          end
    end.

(** ** Client writes *)

(** [newNotLeaderResponse]. *)
Definition newNotLeaderResponse (leader : string) : ClientWriteResponse :=
  mkClientWriteResponse false leader "not leader" 0 0.

(** What [Write] does with the request: answer, hand it to the node it believes
    is the leader, or wait for the entry it has appended to commit. *)
Inductive write_start :=
| WriteReply (r : result ClientWriteResponse)
| WriteForward (leader : string)
| WriteWait (index term : Z).

Definition Write_begin (req : option ClientWriteRequest) : N write_start :=
  if bool_decide (ClientWriteRequest_GetKey req = "") then
    mret (WriteReply (Ok (mkClientWriteResponse false "" "key is required" 0 0)))
  else
    n ← gets (λ n, n);
    if negb (bool_decide (role n = RoleLeader)) then
      mret (if bool_decide (leaderID n ∈ clients n) then WriteForward (leaderID n)
            else WriteReply (Ok (newNotLeaderResponse (leaderID n))))
    else
      match encodeSetCommand (ClientWriteRequest_GetKey req) (ClientWriteRequest_GetValue req) with
      | Err e => mret (WriteReply (Err (wrapInternal e)))
      | Ok commandBytes =>
          lr ← with_store LastIndexAndTerm;
          match lr with
          | Err e => mret (WriteReply (Err (wrapInternal e)))
          | Ok (lastIndex, _) =>
              let entry := mkEntry (lastIndex +64 1) (currentTerm n) commandBytes in
              wr ← with_store (store_AppendEntries [entry]);
              match wr with
              | Err e => mret (WriteReply (Err (wrapInternal e)))
              | Ok _ =>
                  _ ← modify (λ n, set_matchIndex
                        (<[node_id n := Entry_Index entry]> (matchIndex n)) n);
                  majority ← gets majorityLocked;
                  _ ← (if majority =? 1 then advanceCommitLocked else mret tt);
                  _ ← refreshMetricsLocked;
                  term ← gets currentTerm;
                  mret (WriteWait (Entry_Index entry) term)
              end
          end
      end.

(** One round of the waiting loop after [replicateAllOnce] has returned.
    [deadline] is the error of the context when its branch of the [select] is
    taken, and [None] when the ticker's is; both branches of the test on the
    number of successes end in the same [select]. *)
Definition Write_round (key : string) (index term : Z) (deadline : option string) :
    N (option ClientWriteResponse) :=
  n ← gets (λ n, n);
  if negb (bool_decide (role n = RoleLeader)) || negb (currentTerm n =? term) then
    mret (Some (newNotLeaderResponse (leaderID n)))
  else if index <=? commitIndex n then
    _ ← log "info" "client write committed"
          (<["key" := FString key]> (<["index" := FUint index]> {["term" := FUint term]}));
    mret (Some (mkClientWriteResponse true (node_id n) "" index term))
  else
    mret (match deadline with
          | Some err => Some (mkClientWriteResponse false (node_id n) err index term)
          | None => None
          end).

(** ** Client reads *)

Inductive read_start :=
| ReadReply (r : result ClientReadResponse)
| ReadForward (leader : string)
| ReadConfirm.

Definition read_refused (leader err : string) : ClientReadResponse :=
  mkClientReadResponse false leader err "".

Definition Read_begin (req : option ClientReadRequest) : N read_start :=
  if bool_decide (ClientReadRequest_GetKey req = "") then
    mret (ReadReply (Ok (read_refused "" "key is required")))
  else
    n ← gets (λ n, n);
    mret (if bool_decide (role n = RoleLeader) then ReadConfirm
          else if bool_decide (leaderID n ∈ clients n) then ReadForward (leaderID n)
          else ReadReply (Ok (read_refused (leaderID n) "not leader"))).

(** Under the lock, after [replicateAllOnce] has returned [successes]: the answer, or
    [None] when the read goes on. *)
Definition Read_check (successes : Z) : N (option ClientReadResponse) :=
  n ← gets (λ n, n);
  mret (if negb (bool_decide (role n = RoleLeader)) then Some (read_refused (leaderID n) "not leader")
        else if successes <? majorityLocked n then
          Some (read_refused (node_id n) "could not confirm leader quorum")
        else None).

(** What is left then, without the lock. *)
Definition Read_get (req : option ClientReadRequest) : N (result ClientReadResponse) :=
  n ← gets (λ n, n);
  r ← with_store (Get (ClientReadRequest_GetKey req));
  match r with
  | Err e => mret (Err (wrapInternal e))
  | Ok (_, false) => mret (Ok (read_refused (node_id n) "key not found"))
  | Ok (value, true) =>
      _ ← log "info" "client read served" {["key" := FString (ClientReadRequest_GetKey req)]};
      mret (Ok (mkClientReadResponse true (node_id n) "" value))
  end.

(** ** Status *)

Definition peer_status (n : Node) (p : Peer) : option PeerStatus :=
  Some (mkPeerStatus (Peer_ID p) (Peer_Address p) (map_get (matchIndex n) (Peer_ID p))
    (map_get (nextIndex n) (Peer_ID p))).

Definition Status : N (result StatusResponse) :=
  r ← with_store LastIndexAndTerm;
  match r with
  | Err e => mret (Err (wrapInternal e))
  | Ok (lastIndex, _) =>
      n ← gets (λ n, n);
      mret (Ok (mkStatusResponse (node_id n) (role_string (role n)) (currentTerm n)
        (leader_hint n) (commitIndex n) (lastApplied n) lastIndex
        (peer_status n <$> peers n)))
  end.

Definition MustLeaderID : N (string * bool) :=
  n ← gets (λ n, n);
  mret (if bool_decide (role n = RoleLeader) then (node_id n, true) else (leaderID n, false)).
End rpc.
