(* ===== verification/NodeFrame.v ===== *)
(** * What the node's operations leave alone

    Most of what a handler calls - reads of the store, log lines, metrics, the
    election timer - does not touch the protocol state.  [quiet] says so once,
    and the rules below run a handler one store call at a time. *)

From Stdlib Require Import Ascii String.
From stdpp Require Import strings.
From S2P Require Import Prelude GoStd Json Wire Logging Metrics Sql Storage StoreSpec.
From S2P Require Import Config Types Node Rpc.
#[local] Open Scope Z_scope.

Create HintDb quiet discriminated.

(** The metadata rows [init] creates hold what the methods read. *)
Definition wf_tables (t : tables) : Prop :=
  is_Some (spec_CurrentTermVote t) ∧ is_Some (spec_SnapshotIndexTerm t)
  ∧ is_Some (meta_uint "last_applied" t).

#[global] Instance wf_tables_dec t : Decision (wf_tables t).
Proof. unfold wf_tables. apply _. Defined.

Section frame.
Context `{D : !SqlDriver} `{L : !SqlLaws D} `{R : !GoRuntime}.

(** The connection still sees [t], and is still healthy if it was. *)
Definition still (c c' : conn) : Prop :=
  ∀ t, view c = Idle t → view c' = Idle t ∧ (wf_tables t → healthy c → healthy c').

(** Only the timer, the metrics, the log output and the environment may differ. *)
Definition quiet (n n' : Node) : Prop :=
  n' = set_store (store n') (set_logger (logger n') (set_metrics (metrics n')
         (set_electionDeadline (electionDeadline n') (set_world (world n') n))))
  ∧ still (store n) (store n').

#[global] Instance still_preorder : PreOrder still.
Proof.
  split.
  - by intros c t Hc.
  - intros c1 c2 c3 H12 H23 t Hc. destruct (H12 t Hc) as [Hc2 Hh2].
    destruct (H23 t Hc2) as [Hc3 Hh3]. eauto.
Qed.

#[global] Instance quiet_preorder : PreOrder quiet.
Proof.
  split.
  - intros n. split; [by destruct n|reflexivity].
  - intros n1 n2 n3 [-> H12] [-> H23]. split; [by destruct n1|by etrans].
Qed.

Lemma quiet_modify f :
  (∀ n, f n = set_store (store n) (set_logger (logger (f n)) (set_metrics (metrics (f n))
         (set_electionDeadline (electionDeadline (f n)) (set_world (world (f n)) n))))) →
  preserves quiet (modify f).
Proof.
  intros H n. cbn. specialize (H n). split.
  - rewrite H at 1. by rewrite H.
  - rewrite H. cbn. reflexivity.
Qed.

Lemma quiet_call_env {A} (f : Env → A) : preserves quiet (call_env f).
Proof. intros n. split; [by destruct n|reflexivity]. Qed.

Lemma quiet_log level msg fields : preserves quiet (log level msg fields).
Proof. intros n. split; [by destruct n|reflexivity]. Qed.

Lemma quiet_logError msg e : preserves quiet (logError msg e).
Proof. apply quiet_log. Qed.

Lemma quiet_on_metrics f : preserves quiet (on_metrics f).
Proof. intros n. split; [by destruct n|reflexivity]. Qed.

Lemma quiet_count_rpc m r : preserves quiet (count_rpc m r).
Proof. apply quiet_on_metrics. Qed.

(** A store that will do what it is asked: between statements, with the metadata
    rows in place, on a driver that does not fail. *)
Definition sound (c : conn) : Prop := ∃ t, view c = Idle t ∧ wf_tables t ∧ healthy c.

Lemma still_sound c c' : still c c' → sound c → sound c'.
Proof. intros H (t & Hv & Hw & Hh). destruct (H t Hv) as [? ?]. exists t. auto. Qed.

Lemma quiet_sound n n' : quiet n n' → sound (store n) → sound (store n').
Proof. intros [_ H]. by apply still_sound. Qed.

Lemma quiet_view n n' t : quiet n n' → view (store n) = Idle t → view (store n') = Idle t.
Proof. intros [_ H] Hv. by destruct (H t Hv). Qed.

(** The connection replaced, before or after a quiet computation. *)
Lemma quiet_set_store n n' : quiet n n' → quiet (set_store (store n') n) n'.
Proof. intros [E _]. split; [by rewrite E at 1|]. cbn. reflexivity. Qed.

Lemma quiet_with_store c n n' : quiet n n' → quiet (set_store c n) (set_store c n').
Proof. intros [E _]. split; [by rewrite E; cbn|]. cbn. reflexivity. Qed.

(** A failed call on a store that was not sound. *)
Lemma quiet_unsound n n' c t :
  quiet n n' → view (store n) = Idle t → view c = Idle t → ¬ sound (store n) →
  quiet n (set_store c n').
Proof.
  intros [E _] Hv Hc Hns. split; [by rewrite E; cbn|]. cbn. intros t0 Ht0.
  assert (t0 = t) as -> by congruence. split; [done|]. intros Hw Hh. destruct Hns. by exists t.
Qed.

(** ** Calls of the store *)

Lemma wp_reads {A} (m : ST conn (result A)) f n t (Q : result A → Node → Prop) :
  reads m f → (∀ t, wf_tables t → is_Some (f t)) → view (store n) = Idle t →
  (∀ a n', f t = Some a → quiet n n' → Q (Ok a) n') →
  (∀ e n', ¬ sound (store n) → quiet n n' → Q (Err e) n') →
  wp (with_store m) Q n.
Proof.
  intros Hm Hf Hv Hok Herr. unfold wp, with_store.
  pose proof (Hm (store n) t Hv) as (Hv' & Ha & Hp).
  destruct (m (store n)) as [r c]. cbn in *.
  assert (quiet n (set_store c n)) as Hq.
  { split; [by destruct n|]. intros t' Ht'. cbn. rewrite Hv in Ht'. simplify_eq.
    split; [done|]. intros Hw Hh. by apply Hp; [| |apply Hf]. }
  destruct r as [a|e]; [by apply Hok; auto|]. apply Herr; [|done].
  intros (t' & Ht' & Hw & Hh). rewrite Hv in Ht'. simplify_eq.
  by destruct (Hp I Hh (Hf _ Hw)).
Qed.

Lemma quiet_reads {A} (m : ST conn (result A)) f :
  reads m f → (∀ t, wf_tables t → is_Some (f t)) → preserves quiet (with_store m).
Proof.
  intros Hm Hf n. split.
  { unfold with_store. destruct (m (store n)). by destruct n. }
  intros t Hv.
  assert (wp (with_store m) (λ _ n', still (store n) (store n')) n) as Hw.
  { by eapply wp_reads; [done..|intros ?? _ [_ ?]|intros ?? _ [_ ?]]. }
  by apply Hw.
Qed.

Lemma wp_refines {A} pre (m : ST conn (result A)) f n t (Q : result A → Node → Prop) :
  refines pre m f → (pre → wf_tables t → is_Some (f t)) → view (store n) = Idle t →
  (∀ a t' c, f t = Some (a, t') → view c = Idle t' →
     (pre → healthy (store n) → wf_tables t → healthy c) → Q (Ok a) (set_store c n)) →
  (∀ e c, ¬ (pre ∧ sound (store n)) → view c = Idle t → Q (Err e) (set_store c n)) →
  wp (with_store m) Q n.
Proof.
  intros Hm Hf Hv Hok Herr. unfold wp, with_store.
  pose proof (Hm (store n) t Hv) as [Hr Hp].
  destruct (m (store n)) as [[a|e] c]; cbn in *.
  - destruct Hr as (t' & E & Hv'). eapply Hok; [done..|]. intros. by apply Hp; auto.
  - apply Herr; [|done]. intros (Hpre & t' & Ht' & Hw & Hh). rewrite Hv in Ht'. simplify_eq.
    by destruct (Hp Hpre Hh (Hf Hpre Hw)).
Qed.

(** Run a quiet computation and forget what it did. *)
Lemma wp_quiet {A} (m : ST Node A) (Q : A → Node → Prop) n :
  preserves quiet m → (∀ a n', quiet n n' → Q a n') → wp m Q n.
Proof. intros Hm HQ. apply HQ, Hm. Qed.

(** ** The reads the handlers make *)

Lemma wf_SnapshotIndexTerm t : wf_tables t → is_Some (spec_SnapshotIndexTerm t).
Proof. by intros (_ & ? & _). Qed.

Lemma wf_LastIndexAndTerm t : wf_tables t → is_Some (spec_LastIndexAndTerm t).
Proof.
  intros Hw. unfold spec_LastIndexAndTerm. destruct (last_row _); [done|].
  by apply wf_SnapshotIndexTerm.
Qed.

Lemma wf_Term i t : wf_tables t → is_Some (spec_Term i t).
Proof.
  intros Hw. unfold spec_Term. destruct (i =? 0); [done|].
  destruct (wf_SnapshotIndexTerm t Hw) as [[si st] ->]. cbn.
  destruct (i =? si), (i <? si); [done..|]. by destruct (log_entries t !! int64 i) as [[]|].
Qed.

Lemma wf_EntriesFrom i k t : wf_tables t → is_Some (spec_EntriesFrom i k t).
Proof.
  intros Hw. unfold spec_EntriesFrom. by destruct (wf_SnapshotIndexTerm t Hw) as [[si st] ->].
Qed.

Lemma quiet_LastIndexAndTerm : preserves quiet (with_store LastIndexAndTerm).
Proof. eapply quiet_reads; [apply reads_LastIndexAndTerm|apply wf_LastIndexAndTerm]. Qed.

Lemma quiet_SnapshotIndexTerm : preserves quiet (with_store SnapshotIndexTerm).
Proof. eapply quiet_reads; [apply reads_SnapshotIndexTerm|apply wf_SnapshotIndexTerm]. Qed.

Lemma quiet_Term i : preserves quiet (with_store (Term i)).
Proof. eapply quiet_reads; [apply reads_Term|apply wf_Term]. Qed.

Lemma quiet_EntriesFrom i k : preserves quiet (with_store (EntriesFrom i k)).
Proof. eapply quiet_reads; [apply reads_EntriesFrom|apply wf_EntriesFrom]. Qed.

Lemma quiet_Entry i : preserves quiet (with_store (get_Entry i)).
Proof. eapply quiet_reads; [apply reads_Entry|done]. Qed.

Lemma quiet_Get k : preserves quiet (with_store (Get k)).
Proof. eapply quiet_reads; [apply reads_Get|done]. Qed.

Lemma quiet_LoadSnapshot : preserves quiet (with_store LoadSnapshot).
Proof. eapply quiet_reads; [apply reads_LoadSnapshot|done]. Qed.

#[local] Hint Resolve quiet_call_env quiet_LastIndexAndTerm quiet_on_metrics quiet_log : quiet.

Lemma quiet_resetElectionDeadlineLocked : preserves quiet resetElectionDeadlineLocked.
Proof.
  unfold resetElectionDeadlineLocked, Int63n, time_Now.
  preserve ltac:(first [solve [eauto with quiet] | apply quiet_modify]).
  by intros [].
Qed.

Lemma quiet_refreshMetricsLocked : preserves quiet refreshMetricsLocked.
Proof. unfold refreshMetricsLocked. preserve ltac:(eauto with quiet). Qed.

End frame.

#[export] Hint Resolve quiet_call_env quiet_log quiet_logError quiet_on_metrics
  quiet_count_rpc quiet_LastIndexAndTerm quiet_SnapshotIndexTerm quiet_Term
  quiet_EntriesFrom quiet_Entry quiet_Get quiet_LoadSnapshot
  quiet_resetElectionDeadlineLocked quiet_refreshMetricsLocked : quiet.

(** Discharge [preserves quiet] of a computation. *)
Ltac solve_quiet := preserve ltac:(eauto with quiet).

(** Step over a quiet computation: the node after it, and that it is quiet. *)
Tactic Notation "wp_skip" "as" simple_intropattern(n') simple_intropattern(H) :=
  wp_pure; eapply wp_quiet; [solve [eauto with quiet] | intros ? n' H].

Section stepping_down.
Context `{D : !SqlDriver} `{L : !SqlLaws D} `{R : !GoRuntime}.

(** ** Stepping down, exactly *)

Lemma wf_SaveTermVote term v t : is_u64 term → wf_tables t → wf_tables (spec_SaveTermVote term v t).
Proof.
  intros Ht (_ & Hs & Ha).
  assert (∀ k, k ≠ "current_term" → k ≠ "voted_for" →
    meta_uint k (spec_SaveTermVote term v t) = meta_uint k t) as Hk.
  { intros k H1 H2. unfold meta_uint, spec_SaveTermVote, put_meta. cbn.
    by rewrite !lookup_insert_ne by done. }
  split_and!.
  - unfold spec_CurrentTermVote, meta_uint, spec_SaveTermVote, put_meta. cbn.
    rewrite (lookup_insert_ne _ "voted_for" "current_term") by done.
    rewrite !lookup_insert_eq. cbn. by rewrite ParseUint_FormatUint.
  - unfold spec_SnapshotIndexTerm in *. by rewrite !Hk.
  - by rewrite Hk.
Qed.

(** The node after [stepDownLocked], over a connection [c]. *)
Definition stepped_down (term : Z) (leader : string) (c : conn) (n : Node) : Node :=
  set_leaderID leader (set_role RoleFollower
    (if currentTerm n <? term then set_votedFor "" (set_currentTerm term (set_store c n))
     else set_store c n)).

Definition step_down_tables (term cur : Z) (t : tables) : tables :=
  if cur <? term then spec_SaveTermVote term "" t else t.

Lemma quiet_follower leader n n0 :
  quiet n n0 → quiet (set_leaderID leader (set_role RoleFollower (set_store (store n0) n)))
    (set_leaderID leader (set_role RoleFollower n0)).
Proof. intros [E _]. split; [by rewrite E; cbn|]. cbn. reflexivity. Qed.

(** The tables are those of before, or with the new term; the latter when the store
    is sound. *)
Lemma wp_stepDown term leader n t (Q : unit → Node → Prop) :
  view (store n) = Idle t → is_u64 term →
  (∀ c t' n', view c = Idle t' → t' = t ∨ t' = step_down_tables term (currentTerm n) t →
     (sound (store n) → sound c ∧ t' = step_down_tables term (currentTerm n) t) →
     quiet (stepped_down term leader c n) n' → Q tt n') →
  wp (stepDownLocked term leader) Q n.
Proof.
  intros Hv Hu HQ. unfold stepDownLocked, step_down_tables, stepped_down in *. wp_pure.
  destruct (Z.ltb_spec (currentTerm n) term) as [Hlt|Hge].
  2: { wp_skip as n1 Hq1. wp_pure. apply wp_quiet; [apply quiet_refreshMetricsLocked|].
       intros [] n2 Hq2. apply (HQ (store n) t); [done|by left|done|].
       replace (set_store (store n) n) with n by (by destruct n). by etrans. }
  wp_pure. cbn [currentTerm votedFor set_votedFor set_currentTerm].
  eapply wp_refines; [apply refines_SaveTermVote|done|exact Hv| |].
  - intros [] t' c [= <-] Hc Hh. wp_pure. wp_skip as n1 Hq1.
    apply wp_quiet; [apply quiet_refreshMetricsLocked|]. intros [] n2 Hq2.
    eapply (HQ c); [done|by right| |by etrans]. intros (t0 & Ht0 & Hw & Hh0).
    assert (t0 = t) as -> by congruence.
    split; [|done]. eexists. split; [done|]. split; [by apply wf_SaveTermVote|]. by apply Hh.
  - intros e c Hns Hc. eapply wp_quiet; [apply quiet_logError|]. intros _ n0 Hq0. pose proof Hq0 as [_ Hs0].
    wp_pure. wp_skip as n1 Hq1.
    apply wp_quiet; [apply quiet_refreshMetricsLocked|]. intros [] n2 Hq2.
    eapply (HQ (store n0) t); [by apply Hs0|by left| |].
    + intros H. destruct Hns. split; [done|exact H].
    + etrans; [|etrans; [exact Hq1|exact Hq2]]. exact (quiet_follower leader _ _ Hq0).
Qed.

(** ** Following a leader *)

Lemma quiet_leader leader n n' :
  quiet n n' → quiet (set_leaderID leader n) (set_leaderID leader n').
Proof. intros [E Hs]. split; [by rewrite E at 1; cbn|done]. Qed.

Lemma stepped_down_same term leader n :
  role n = RoleFollower → currentTerm n = term →
  stepped_down term leader (store n) n = set_leaderID leader n.
Proof.
  intros Hr <-. unfold stepped_down. rewrite Z.ltb_irrefl. destruct n; cbn in *. by rewrite Hr.
Qed.

Lemma wp_follow_leader term leader n t (Q : unit → Node → Prop) :
  view (store n) = Idle t → is_u64 term → currentTerm n <= term →
  (∀ c t0 n', view c = Idle t0 → t0 = t ∨ t0 = step_down_tables term (currentTerm n) t →
     (sound (store n) → sound c ∧ t0 = step_down_tables term (currentTerm n) t) →
     quiet (stepped_down term leader c n) n' → Q tt n') →
  wp (follow_leader term leader) Q n.
Proof.
  intros Hv Hu Hle HQ. unfold follow_leader. wp_pure.
  destruct (_ || _) eqn:Ec.
  - eapply wp_stepDown; [done..|]. intros c t0 n1 Hc Ht0 Hso Hq1. wp_pure.
    apply wp_quiet; [apply quiet_resetElectionDeadlineLocked|]. intros [] n2 Hq2.
    apply (HQ c t0); [done..|]. etrans; [|exact Hq2]. exact (quiet_leader leader _ _ Hq1).
  - apply orb_false_iff in Ec as [Hlt Hr]. apply Z.ltb_ge in Hlt.
    rewrite negb_false_iff, bool_decide_eq_true in Hr. wp_pure.
    apply wp_quiet; [apply quiet_resetElectionDeadlineLocked|]. intros [] n2 Hq2.
    apply (HQ (store n) t); [done|by left| |].
    + intros Hso. split; [done|]. unfold step_down_tables.
      by destruct (Z.ltb_spec (currentTerm n) term); [lia|].
    + rewrite stepped_down_same; [done|done|lia].
Qed.
End stepping_down.
