(* ===== verification/Apply.v ===== *)
(** * Applying and compacting

    [applyCommittedLocked] and [compactIfNeededLocked] against the log: the
    key-value table is the replay of the applied entries, in order; a snapshot
    takes rows away but no term above it. *)

From Stdlib Require Import Ascii String.
From stdpp Require Import strings relations.
From S2P Require Import Prelude GoStd Json Wire Logging Metrics Sql Storage StoreSpec LogSpec LogStore.
From S2P Require Import Config Types Node Rpc NodeFrame.
#[local] Open Scope Z_scope.

Abbreviation kv_rows := (gmap string (string * Z)).

(** The table after the [k] entries that follow [a] have been applied to [m]. *)
Fixpoint replay (l : rows) (m : kv_rows) (a : Z) (k : nat) : option kv_rows :=
  match k with
  | O => Some m
  | S k =>
      match l !! (a + 1) with
      | None => None
      | Some r =>
          match decodeCommand r.2 with
          | Err _ => None
          | Ok cmd => replay l (<[cmd_Key cmd := (cmd_Value cmd, int64 (a + 1))]> m) (a + 1) k
          end
      end
  end.

(** One turn of the loop on the tables and [lastApplied]. *)
Definition apply_step (base : Z) (ta : tables * Z) : option (tables * Z) :=
  let '(t, a) := ta in
  match log_entries t !! (a + 1) with
  | Some r =>
      match decodeCommand r.2 with
      | Ok cmd => Some (spec_ApplySet (a + 1) (cmd_Key cmd) (cmd_Value cmd) t, a + 1)
      | Err _ => None
      end
  | None => if a + 1 <=? base then Some (t, base) else None
  end.

(** A snapshot of the applied prefix, or nothing. *)
Definition compacted (base bterm last a : Z) (t t' : tables) : Prop :=
  t' = t ∨ ∃ tm, base < a <= last ∧ term_at t base bterm a = Some tm
    ∧ t' = put_snapshot (mkSnapshot a tm (MarshalMap (kv_values t))) t.

Section apply.
Context `{D : !SqlDriver} `{L : !SqlLaws D} `{R : !GoRuntime}.
Implicit Types (n : Node).

Lemma shape_snapshot_index t base bterm last :
  shape t base bterm last → is_u64 base ∧ is_u64 bterm.
Proof.
  intros [Hm _ _ _]. unfold spec_SnapshotIndexTerm, meta_uint in Hm.
  destruct (metadata t !! "snapshot_index"); [|done]. cbn in Hm.
  destruct (ParseUint s) eqn:E1; [|done]. cbn in Hm.
  destruct (metadata t !! "snapshot_term"); [|done]. cbn in Hm.
  destruct (ParseUint s0) eqn:E2; [|done]. cbn in Hm. simplify_eq.
  split; by eapply ParseUint_range.
Qed.

(** ** One entry *)

Lemma wp_apply_one n t base bterm last (Q : bool → Node → Prop) :
  view (store n) = Idle t → shape t base bterm last →
  is_u64 (lastApplied n) → is_u64 (lastApplied n + 1) →
  (∀ t' a' c n', apply_step base (t, lastApplied n) = Some (t', a') → view c = Idle t' →
     (sound (store n) → healthy c) → quiet (set_lastApplied a' (set_store c n)) n' → Q true n') →
  (∀ n', quiet n n' → (sound (store n) → apply_step base (t, lastApplied n) = None) → Q false n') →
  wp apply_one Q n.
Proof.
  intros Hv Hs Hu Hu1 Hgo Hstop. unfold apply_one. wp_pure.
  assert (lastApplied n +64 1 = lastApplied n + 1) as ->
    by (apply u64_succ; [done|unfold is_u64 in *; lia]).
  set (a := lastApplied n) in *. unfold apply_step in *.
  eapply wp_reads; [apply reads_Entry|done|exact Hv| |].
  2: { intros e n1 Hns Hq1. wp_skip as n2 Hq2. wp_pure. apply Hstop; [by etrans|done]. }
  intros [e b] n1 Ha Hq1. injection Ha as Ha. rewrite (spec_Entry_shape t base bterm last Hs) in Ha by done.
  pose proof (quiet_view _ _ _ Hq1 Hv) as Hv1.
  destruct (log_entries t !! (a + 1)) as [r|] eqn:El; simplify_eq/=.
  - destruct (decodeCommand r.2) as [cmd|e] eqn:Ed.
    2: { wp_skip as n2 Hq2. wp_pure. apply Hstop; [by etrans|done]. }
    wp_pure. eapply (wp_refines True); [apply refines_ApplySet|done|exact Hv1| |].
    + intros [] t' c [= <-] Hc Hh. wp_pure. pose proof Hq1 as [E1 _].
      eapply (Hgo _ (a + 1) c); [done|done| |].
      * intros Hso. destruct (quiet_sound _ _ Hq1 Hso) as (t1 & Ht1 & Hw & Hh1).
        assert (t1 = t) as -> by congruence. by apply Hh.
      * rewrite E1. split; [by destruct n|]. cbn. reflexivity.
    + intros e c Hns Hc. wp_skip as n2 Hq2. wp_pure. apply Hstop.
      * etrans; [|exact Hq2]. destruct Hq1 as [E1 Hst1]. rewrite E1. split; [by destruct n|].
        cbn. intros t0 Ht0. assert (t0 = t) as -> by congruence.
        split; [done|]. intros Hw Hh. destruct Hns. split; [done|].
        destruct (Hst1 t Hv) as [_ Hh1]. exists t. auto.
      * intros Hso. destruct Hns. split; [done|]. by apply (quiet_sound n).
  - wp_pure. eapply wp_reads; [apply reads_SnapshotIndexTerm|apply wf_SnapshotIndexTerm|exact Hv1| |].
    2: { intros e n2 Hns Hq2. wp_skip as n3 Hq3. wp_pure. apply Hstop.
         - etrans; [exact Hq1|]. by etrans.
         - intros Hso. destruct Hns. by apply (quiet_sound n). }
    intros [si st] n2 Ha Hq2. rewrite (sh_meta _ _ _ _ Hs) in Ha. injection Ha as <- <-.
    assert (quiet n n2) as Hq by (by etrans).
    destruct (Z.leb_spec (a + 1) base) as [Hle|Hgt].
    + wp_pure. pose proof Hq as [E _].
      eapply (Hgo t base (store n2)); [done|by apply (quiet_view n)| |].
      * intros Hso. destruct (quiet_sound _ _ Hq Hso) as (t1 & _ & _ & ?). done.
      * rewrite E at 2. split; [by destruct n|]. cbn. reflexivity.
    + wp_skip as n3 Hq3. wp_pure. apply Hstop; [by etrans|done].
Qed.

(** ** The loop *)

(** The turns that are taken while [lastApplied] is below the commit index. *)
Definition turn (base commit : Z) : relation (tables * Z) :=
  λ x y, x.2 < commit ∧ apply_step base x = Some y.

Lemma apply_step_facts base bterm last t a t' a' :
  shape t base bterm last → is_u64 a → is_u64 (a + 1) → apply_step base (t, a) = Some (t', a') →
  shape t' base bterm last ∧ a < a' ∧ is_u64 a' ∧ log_entries t' = log_entries t
  ∧ (wf_tables t → wf_tables t').
Proof.
  intros Hs Hu Hu1. pose proof (shape_snapshot_index _ _ _ _ Hs) as [Hbu _].
  unfold apply_step. destruct (log_entries t !! (a + 1)) as [r|].
  - destruct (decodeCommand r.2) as [cmd|]; [|done]. intros [= <- <-].
    split_and!; [by apply shape_ApplySet|lia|done|done|].
    intros (H1 & H2 & H3). unfold wf_tables, spec_CurrentTermVote, spec_SnapshotIndexTerm, meta_uint,
      spec_ApplySet, put_meta in *. cbn. rewrite !(lookup_insert_ne _ "last_applied") by done.
    split_and!; [done|done|]. rewrite lookup_insert_eq. cbn. by rewrite ParseUint_FormatUint.
  - destruct (Z.leb_spec (a + 1) base); [|done]. intros [= <- <-]. split_and!; [done|lia|done|done|done].
Qed.

Lemma quiet_applied a c n n' :
  quiet n n' → quiet (set_lastApplied a (set_store c n)) (set_lastApplied a (set_store c n')).
Proof. intros [E _]. split; [by rewrite E; cbn|]. cbn. reflexivity. Qed.

Record loop_post n (t : tables) (base : Z) (exit : loop_exit) (n' : Node)
    (t' : tables) (a' : Z) (c : conn) : Prop := {
  lp_turns : rtc (turn base (commitIndex n)) (t, lastApplied n) (t', a');
  lp_view : view c = Idle t';
  lp_quiet : quiet (set_lastApplied a' (set_store c n)) n';
  lp_sound : sound (store n) → sound c;
  lp_done : exit = Completed ↔ commitIndex n <= a';
  lp_fuel : exit ≠ OutOfFuel;
  lp_stuck : sound (store n) → exit = Returned → apply_step base (t', a') = None
}.

Lemma wp_apply_loop fuel n t base bterm last :
  view (store n) = Idle t → shape t base bterm last →
  is_u64 (lastApplied n) → is_u64 (commitIndex n) →
  commitIndex n - lastApplied n <= Z.of_nat fuel →
  wp (apply_loop fuel) (λ exit n', ∃ t' a' c, loop_post n t base exit n' t' a' c) n.
Proof.
  revert n t. induction fuel as [|fuel IH]; intros n t Hv Hs Hu Hc Hf; cbn [apply_loop]; wp_pure;
    destruct (Z.ltb_spec (lastApplied n) (commitIndex n)) as [Hlt|Hge]; try lia.
  1,3: wp_pure; exists t, (lastApplied n), (store n); split; try done;
    split; [by destruct n|reflexivity].
  assert (is_u64 (lastApplied n + 1)) as Hu1 by (unfold is_u64 in *; lia).
  wp_pure. eapply wp_apply_one; [done..| |].
  - intros t1 a1 c1 n1 Hstep Hc1 Hh1 Hq1. pose proof Hq1 as [E1 _].
    destruct (apply_step_facts _ _ _ _ _ _ _ Hs Hu Hu1 Hstep) as (Hs1 & Ha1 & Hau & _ & Hw1).
    assert (lastApplied n1 = a1 ∧ commitIndex n1 = commitIndex n) as [El Ec] by (rewrite E1; done).
    assert (sound (store n) → sound c1) as Hso.
    { intros Hso. exists t1. split_and!; [done| |by apply Hh1].
      destruct Hso as (t0 & Ht0 & Hw & _). assert (t0 = t) as -> by congruence. by apply Hw1. }
    eapply wp_mono; [apply (IH n1 t1)|].
    + by apply (quiet_view _ _ _ Hq1).
    + done.
    + by rewrite El.
    + by rewrite Ec.
    + rewrite El, Ec. lia.
    + intros exit n' (t' & a' & c & [H1 H2 H3 H4 H5 H6 H7]).
      rewrite ?El, ?Ec in *. exists t', a', c.
      assert (sound (store n) → sound (store n1)) as Hso1.
      { intros H. apply (quiet_sound _ _ Hq1). by apply Hso. }
      split; [eapply rtc_l; [by split|exact H1]|done| |auto|done|done|auto].
      etrans; [|exact H3]. by apply (quiet_applied a' c _ _ Hq1).
  - intros n' Hq Hstop. wp_pure. exists t, (lastApplied n), (store n). split; try done.
    + split; [done|lia].
    + intros Hso _. by apply Hstop.
Qed.

(** The turns write no row of the log. *)
Lemma turns_facts base bterm last commit t a t' a' :
  shape t base bterm last → is_u64 a → is_u64 commit →
  rtc (turn base commit) (t, a) (t', a') →
  shape t' base bterm last ∧ log_entries t' = log_entries t ∧ a <= a' ∧ is_u64 a'.
Proof.
  intros Hs Hu Hc Hst. remember (t, a) as x eqn:Ex. remember (t', a') as y eqn:Ey.
  revert t a Ex Hs Hu. induction Hst as [x|x [t1 a1] y [Hlt Hstep] _ IH]; intros t a -> Hs Hu.
  - simplify_eq. split_and!; done || lia.
  - cbn in Hlt. assert (is_u64 (a + 1)) as Hu1 by (unfold is_u64 in *; lia).
    destruct (apply_step_facts _ _ _ _ _ _ _ Hs Hu Hu1 Hstep) as (Hs1 & Ha & Hua & Hl1 & _).
    destruct (IH Ey t1 a1 eq_refl Hs1 Hua) as (H1 & H2 & H3 & H4).
    split_and!; [done|congruence|lia|done].
Qed.

(** From the snapshot on, the turns replay the log. *)
Lemma turns_replay base bterm last commit t a t' a' :
  shape t base bterm last → base <= a → is_u64 a → is_u64 commit →
  rtc (turn base commit) (t, a) (t', a') →
  shape t' base bterm last ∧ log_entries t' = log_entries t ∧ snapshot t' = snapshot t
  ∧ a <= a' <= Z.max a commit ∧ replay (log_entries t) (kv t) a (Z.to_nat (a' - a)) = Some (kv t').
Proof.
  intros Hs Hb Hu Hc Hst. remember (t, a) as x eqn:Ex. remember (t', a') as y eqn:Ey.
  revert t a Ex Hs Hb Hu. induction Hst as [x|x [t1 a1] y [Hlt Hstep] _ IH]; intros t a -> Hs Hb Hu.
  - simplify_eq. rewrite Z.sub_diag. split_and!; done || lia.
  - cbn in Hlt. assert (is_u64 (a + 1)) as Hu1 by (unfold is_u64 in *; lia).
    destruct (apply_step_facts _ _ _ _ _ _ _ Hs Hu Hu1 Hstep) as (Hs1 & _ & Hua & Hl1 & _).
    unfold apply_step in Hstep. destruct (log_entries t !! (a + 1)) as [r|] eqn:El.
    2: { destruct (Z.leb_spec (a + 1) base); [lia|done]. }
    destruct (decodeCommand r.2) as [cmd|] eqn:Ed; [|done]. simplify_eq.
    destruct (IH eq_refl (spec_ApplySet (a + 1) (cmd_Key cmd) (cmd_Value cmd) t) (a + 1))
      as (H1 & H2 & H3 & H4 & H5); [done..|lia|done|].
    split_and!; [done|done|done|lia|lia|].
    replace (Z.to_nat (a' - a)) with (S (Z.to_nat (a' - (a + 1)))) by lia. cbn [replay].
    by rewrite El, Ed.
Qed.

(** And [last_applied] on disk follows [lastApplied] in memory. *)
Lemma turns_last_applied base bterm last commit t a t' a' :
  shape t base bterm last → base <= a → is_u64 a → is_u64 commit →
  rtc (turn base commit) (t, a) (t', a') →
  meta_uint "last_applied" t = Some a → meta_uint "last_applied" t' = Some a'.
Proof.
  intros Hs Hb Hu Hc Hst. remember (t, a) as x eqn:Ex. remember (t', a') as y eqn:Ey.
  revert t a Ex Hs Hb Hu. induction Hst as [x|x [t1 a1] y [Hlt Hstep] _ IH]; intros t a -> Hs Hb Hu Hm.
  - by simplify_eq.
  - cbn in Hlt. assert (is_u64 (a + 1)) as Hu1 by (unfold is_u64 in *; lia).
    destruct (apply_step_facts _ _ _ _ _ _ _ Hs Hu Hu1 Hstep) as (Hs1 & Ha & Hua & _ & _).
    apply (IH Ey t1 a1 eq_refl Hs1); [lia|done|].
    unfold apply_step in Hstep. destruct (log_entries t !! (a + 1)) as [r|].
    + destruct (decodeCommand r.2) as [cmd|]; [|done]. simplify_eq.
      unfold meta_uint, spec_ApplySet, put_meta. cbn. rewrite lookup_insert_eq. cbn.
      by rewrite ParseUint_FormatUint.
    + destruct (Z.leb_spec (a + 1) base); [lia|done].
Qed.

Lemma compacted_last_applied base bterm last a t t' :
  is_u64 a → compacted base bterm last a t t' →
  meta_uint "last_applied" t = Some a → meta_uint "last_applied" t' = Some a.
Proof.
  intros Hu [->|(tm & _ & _ & ->)]; [done|]. intros _.
  unfold meta_uint, put_snapshot, put_meta. cbn. rewrite lookup_insert_eq. cbn.
  by rewrite ParseUint_FormatUint.
Qed.

(** The replay depends on the rows it reads and nothing else. *)
Lemma replay_ext l l' m a k :
  (∀ i, a < i <= a + Z.of_nat k → l !! i = l' !! i) → replay l m a k = replay l' m a k.
Proof.
  revert m a. induction k as [|k IH]; intros m a H; cbn; [done|].
  rewrite (H (a + 1)) by lia. destruct (l' !! (a + 1)) as [r|]; [|done].
  destruct (decodeCommand r.2); [|done]. apply IH. intros i Hi. apply H. lia.
Qed.

(** ** Compaction *)

Lemma quiet_refl_store n c : quiet (set_store c n) (set_store c n).
Proof. reflexivity. Qed.

Lemma wp_compact n t base bterm last (Q : unit → Node → Prop) :
  view (store n) = Idle t → shape t base bterm last → is_u64 (lastApplied n) →
  (∀ t' c n', compacted base bterm last (lastApplied n) t t' →
     view c = Idle t' → quiet (set_store c n) n' → Q tt n') →
  wp compactIfNeededLocked Q n.
Proof.
  intros Hv Hs Hu HQ.
  assert (∀ n', quiet n n' → Q tt n') as Hskip.
  { intros n' Hq. apply (HQ t (store n) n'); [by left|done|].
    by replace (set_store (store n) n) with n by (by destruct n). }
  unfold compactIfNeededLocked. wp_pure.
  destruct (Z.eqb_spec (snapshotThreshold n) 0) as [|Hth]; cbn [orb]; [by apply Hskip|].
  destruct (lastApplied n =? 0); [by apply Hskip|].
  wp_pure. eapply wp_reads; [apply reads_SnapshotIndexTerm|apply wf_SnapshotIndexTerm|exact Hv| |].
  2: { intros e n1 _ Hq1. apply wp_quiet; [apply quiet_logError|]. intros [] n2 Hq2.
       apply Hskip. by etrans. }
  intros [si st] n1 Ha Hq1. rewrite (sh_meta _ _ _ _ Hs) in Ha. injection Ha as <- <-.
  pose proof Hq1 as [E1 _]. pose proof (quiet_view _ _ _ Hq1 Hv) as Hv1.
  destruct ((lastApplied n <=? base) || (lastApplied n -64 base <? snapshotThreshold n)) eqn:Ecmp;
    [by apply Hskip|].
  apply orb_false_iff in Ecmp as [Ecmp _]. apply Z.leb_gt in Ecmp.
  wp_pure. eapply wp_reads; [apply reads_Term|apply wf_Term|exact Hv1| |].
  2: { intros e n2 _ Hq2. apply wp_quiet; [apply quiet_logError|]. intros [] n3 Hq3.
       apply Hskip. etrans; [exact Hq1|]. by etrans. }
  intros [tm b] n2 Ha Hq2. rewrite (spec_Term_shape t base bterm last Hs) in Ha by done.
  assert (quiet n n2) as Hq by (by etrans). pose proof Hq as [E2 _].
  destruct (term_at t base bterm (lastApplied n)) as [tm'|] eqn:Et; simplify_eq/=; [|by apply Hskip].
  wp_pure. eapply wp_refines; [apply refines_CreateSnapshot|done|by apply (quiet_view n)| |].
  2: { intros e c _ Hc. apply wp_quiet; [apply quiet_logError|]. intros [] n3 Hq3.
       apply (HQ t c n3); [by left|done|]. etrans; [|exact Hq3].
       rewrite E2. split; [done|]. cbn. reflexivity. }
  intros snap t' c [= <- <-] Hc _. apply wp_quiet; [apply quiet_log|]. intros [] n3 Hq3.
  assert (base < lastApplied n <= last) as Hr.
  { unfold term_at in Et. pose proof (sh_base _ _ _ _ Hs).
    destruct (Z.eqb_spec (lastApplied n) 0); [lia|].
    destruct (Z.eqb_spec (lastApplied n) base); [lia|].
    apply (sh_dense _ _ _ _ Hs). by destruct (log_entries t !! lastApplied n). }
  eapply (HQ _ c n3); [right; by exists tm|exact Hc|]. etrans; [|exact Hq3].
  rewrite E2. split; [done|]. cbn. reflexivity.
Qed.

(** [t'] has the log of [t] above the snapshot it has taken, and knows the terms
    from there on. *)
Record log_kept (base bterm last : Z) (t : tables) (base' bterm' : Z) (t' : tables) : Prop := {
  lk_shape : shape t' base' bterm' last;
  lk_base : base <= base';
  lk_rows i : base' < i → log_entries t' !! i = log_entries t !! i;
  lk_terms i : base' <= i → term_at t' base' bterm' i = term_at t base bterm i;
  lk_same : base' = base → bterm' = bterm
}.

Lemma log_kept_refl base bterm last t t' :
  shape t' base bterm last → log_entries t' = log_entries t →
  log_kept base bterm last t base bterm t'.
Proof. intros Hs El. split; [done|lia|by rewrite El| |done]. intros i _. unfold term_at. by rewrite El. Qed.

Lemma log_kept_put base bterm last t a tm d :
  shape t base bterm last → base < a <= last → term_at t base bterm a = Some tm →
  log_kept base bterm last t a tm (put_snapshot (mkSnapshot a tm d) t).
Proof.
  intros Hs Ha Ht. pose proof (sh_base _ _ _ _ Hs). pose proof (sh_last _ _ _ _ Hs).
  assert (is_idx a) as Hi by (unfold is_idx in *; lia).
  assert (is_u64 tm) as Hu.
  { unfold term_at in Ht. destruct (Z.eqb_spec a 0); [lia|]. destruct (Z.eqb_spec a base); [lia|].
    destruct (log_entries t !! a); simplify_eq/=. apply uint64_range. }
  assert (∀ i, a < i → log_entries (put_snapshot (mkSnapshot a tm d) t) !! i = log_entries t !! i)
    as Hrows.
  { intros i Hai. cbn. rewrite (int64_id a Hi). destruct (log_entries t !! i) eqn:E.
    - apply map_lookup_filter_Some. by cbn.
    - apply map_lookup_filter_None. by left. }
  split; [|lia|done| |lia].
  - replace last with (Z.max last a) at 1 by lia.
    apply (shape_put_snapshot (mkSnapshot a tm d) t base bterm last); [done|cbn; lia|done..].
  - intros i Hai. unfold term_at in *. destruct (Z.eqb_spec i 0); [done|].
    destruct (Z.eqb_spec i a) as [->|Hne].
    + destruct (Z.eqb_spec a 0); [lia|]. by rewrite Ht.
    + destruct (Z.eqb_spec i base); [lia|]. by rewrite Hrows by lia.
Qed.

(** The snapshot is the one there was, or that of the table at [a]. *)
Definition stored_at (base : Z) (t : tables) (base' bterm' a : Z) (t' : tables) : Prop :=
  (base' = base ∧ snapshot t' = snapshot t)
  ∨ (base < base' ∧ base' = a ∧ spec_LoadSnapshot t' = mkSnapshot a bterm' (MarshalMap (kv_values t'))).

Lemma compacted_kept base bterm last a t t' :
  shape t base bterm last → compacted base bterm last a t t' →
  ∃ base' bterm', log_kept base bterm last t base' bterm' t' ∧ kv t' = kv t
    ∧ stored_at base t base' bterm' a t'.
Proof.
  intros Hs [->|(tm & Ha & Ht & ->)].
  - exists base, bterm. split; [by apply log_kept_refl|]. split; [done|by left].
  - exists a, tm. pose proof (log_kept_put _ _ _ _ _ _ (MarshalMap (kv_values t)) Hs Ha Ht) as Hk.
    split; [done|]. split; [done|right]. split; [lia|]. split; [done|].
    pose proof (shape_snapshot_index _ _ _ _ (lk_shape _ _ _ _ _ _ _ Hk)) as [Hu1 Hu2].
    unfold spec_LoadSnapshot, put_snapshot. cbn. by rewrite !uint64_int64_id.
Qed.

(** ** The whole of [applyCommittedLocked] *)

Record apply_post n (t : tables) (base bterm last : Z) (n' : Node)
    (t1 t' : tables) (a' : Z) (c : conn) : Prop := {
  ap_turns : rtc (turn base (commitIndex n)) (t, lastApplied n) (t1, a');
  ap_compacted : compacted base bterm last a' t1 t';
  ap_view : view c = Idle t';
  ap_quiet : quiet (set_lastApplied a' (set_store c n)) n';
  ap_stuck : sound (store n) → a' < commitIndex n → apply_step base (t1, a') = None
}.

Lemma wp_applyCommitted n t base bterm last :
  view (store n) = Idle t → shape t base bterm last →
  is_u64 (lastApplied n) → is_u64 (commitIndex n) →
  wp applyCommittedLocked (λ _ n', ∃ t1 t' a' c, apply_post n t base bterm last n' t1 t' a' c) n.
Proof.
  intros Hv Hs Hu Hc. unfold applyCommittedLocked. wp_pure.
  eapply wp_mono; [apply (wp_apply_loop _ n t base bterm last); try done; unfold apply_fuel; lia|].
  intros exit n1 (t1 & a' & c & [H1 H2 H3 H4 H5 H6 H7]).
  assert (exit ≠ Completed → wp (mret tt) (λ _ n', ∃ t1 t' a' c,
    apply_post n t base bterm last n' t1 t' a' c) n1) as Hret.
  { intros Hex. wp_pure. exists t1, t1, a', c. split; [done|by left|done|done|].
    intros Hso _. apply H7; [done|]. by destruct exit. }
  destruct exit; [|by apply Hret|by apply Hret]. wp_pure.
  destruct (turns_facts _ _ _ _ _ _ _ _ Hs Hu Hc H1) as (Hs1 & _ & _ & Hua).
  pose proof (quiet_view _ _ _ H3 H2) as Hv1. pose proof H3 as [E1 _].
  assert (lastApplied n1 = a') as El by (rewrite E1; done).
  eapply (wp_compact n1 t1); [done..|by rewrite El|]. intros t' c' n2 Hco Hc' Hq2.
  apply wp_quiet; [apply quiet_refreshMetricsLocked|]. intros _ n3 Hq3.
  exists t1, t', a', c'. split; [done|by rewrite <- El|done| |].
  - etrans; [|etrans; [exact Hq2|exact Hq3]]. rewrite E1. split; [done|]. cbn. reflexivity.
  - intros _ Hlt. assert (commitIndex n <= a') by (by apply H5). lia.
Qed.
End apply.
