(* ===== verification/Follower.v ===== *)
(** * Following: [AppendEntries] against the log

    Whatever the driver does, an accepted request leaves the log merged with the
    entries of the request, a refused one leaves it alone, and an error never
    touches the rows up to the previous index. *)

From Stdlib Require Import Ascii String.
From stdpp Require Import strings relations.
From S2P Require Import Prelude GoStd Json Wire Logging Metrics Sql Storage StoreSpec LogSpec LogStore.
From S2P Require Import Config Types Node Rpc NodeFrame Apply.
#[local] Open Scope Z_scope.

Definition entry_of_wire (e : option LogEntry) : Entry :=
  mkEntry (LogEntry_GetIndex e) (LogEntry_GetTerm e) (LogEntry_GetCommand e).

(** The entries of a request, as the log holds them. *)
Abbreviation entries_of req := (entry_of_wire <$> AppendEntriesRequest_Entries req).

(** A request as a leader sends it: its entries follow the previous index. *)
Record ok_append (req : AppendEntriesRequest) : Prop := {
  oa_term : is_u64 (AppendEntriesRequest_Term req);
  oa_prev : is_u64 (AppendEntriesRequest_PrevLogIndex req);
  oa_commit : is_u64 (AppendEntriesRequest_LeaderCommit req);
  oa_chunk : chunk (AppendEntriesRequest_PrevLogIndex req)
               (entry_of_wire <$> AppendEntriesRequest_Entries req);
  oa_room : is_idx (AppendEntriesRequest_PrevLogIndex req
                    + Z.of_nat (length (AppendEntriesRequest_Entries req)))
}.

(** Nothing of such a request is below the snapshot, and the last index it covers is
    the match index. *)
Lemma collect_incoming_chunk base p es :
  chunk p (entry_of_wire <$> es) → base <= p →
  collect_incoming base p es = (p + Z.of_nat (length es), entry_of_wire <$> es).
Proof.
  revert p. induction es as [|e es IH]; intros p; cbn [collect_incoming fmap list_fmap chunk length].
  - intros. by rewrite Z.add_0_r.
  - intros (He & _ & Hes) Hb. cbn in He. destruct (Z.leb_spec (LogEntry_GetIndex e) base); [lia|].
    destruct (Z.ltb_spec p (LogEntry_GetIndex e)); [|lia]. rewrite He.
    rewrite (IH (p + 1)) by (done || lia). unfold entry_of_wire. rewrite He. f_equal. lia.
Qed.

(** A member between two operations. *)
Definition at_rest `{D : !SqlDriver} `{L : !SqlLaws D} (n : Node) (t : tables)
    (base bterm last : Z) : Prop :=
  view (store n) = Idle t ∧ shape t base bterm last
  ∧ is_u64 (lastApplied n) ∧ is_u64 (commitIndex n).

Section follower.
Context `{D : !SqlDriver} `{L : !SqlLaws D} `{R : !GoRuntime}.
Implicit Types (n : Node).

(** ** Reconciling *)

(** What is left of the log when the appending starts. *)
Record trimmed (t : tables) (base bterm last p : Z) (t1 : tables) (last1 : Z) : Prop := {
  tr_eq : t1 = set_log (λ _, log_entries t1) t;
  tr_shape : shape t1 base bterm last1;
  tr_range : p <= last1 <= last;
  tr_rows i : i <= last1 → log_entries t1 !! i = log_entries t !! i
}.

Lemma trimmed_refl t base bterm last p :
  shape t base bterm last → p <= last → trimmed t base bterm last p t last.
Proof. intros. split; [by destruct t|done|lia|done]. Qed.

Lemma trimmed_cut t base bterm last p j :
  shape t base bterm last → base < j <= last → p < j →
  trimmed t base bterm last p (spec_DeleteFrom j t) (j - 1).
Proof.
  intros Hs Hj Hp. pose proof (sh_last _ _ _ _ Hs). pose proof (sh_base _ _ _ _ Hs).
  assert (int64 j = j) as Ej by (apply int64_id; unfold is_idx in *; lia).
  unfold spec_DeleteFrom. split; [done| |lia|].
  - apply (shape_set_log _ t base bterm last); [done| |lia|unfold is_idx in *; lia].
    rewrite Ej. intros i. split.
    + intros [r Hr]. apply map_lookup_filter_Some in Hr as [Hr Hi]. cbn in Hi.
      assert (base < i <= last) by (apply (sh_dense _ _ _ _ Hs); eauto). lia.
    + intros Hi. assert (is_Some (log_entries t !! i)) as [r Hr] by (apply (sh_dense _ _ _ _ Hs); lia).
      exists r. apply map_lookup_filter_Some. cbn. split; [done|lia].
  - intros i Hi. cbn. rewrite Ej. destruct (log_entries t !! i) eqn:E.
    + apply map_lookup_filter_Some. cbn. split; [done|lia].
    + apply map_lookup_filter_None. by left.
Qed.

(** What an unfinished merge leaves: all of the log, or the part before an entry that
    conflicts with the chunk. *)
Definition cut_short (l : rows) (es : list Entry) (l1 : rows) : Prop :=
  l1 = l ∨ ∃ e, e ∈ es ∧ is_Some (l !! Entry_Index e) ∧ ¬ has_entry l e
    ∧ ∀ i, l1 !! i = if decide (i < Entry_Index e) then l !! i else None.

Lemma cut_short_cons l e es l1 : cut_short l es l1 → cut_short l (e :: es) l1.
Proof. intros [->|(e' & He & H)]; [by left|]. right. exists e'. split; [by right|done]. Qed.

Lemma cut_short_delete t e es tm c :
  is_idx (Entry_Index e) → log_entries t !! Entry_Index e = Some (tm, c) →
  uint64 tm ≠ Entry_Term e → cut_short (log_entries t) (e :: es) (log_entries (spec_DeleteFrom (Entry_Index e) t)).
Proof.
  intros Hi Hl Hne. right. exists e. split_and!; [by left|by exists (tm, c)| |].
  - intros (tm' & c' & Hl' & Et). congruence.
  - intros i. cbn. rewrite int64_id by (unfold is_idx, two63 in *; lia). destruct (decide _) as [Hlt|Hge].
    + destruct (log_entries t !! i) as [r|] eqn:E.
      * by apply map_lookup_filter_Some.
      * apply map_lookup_filter_None. by left.
    + apply map_lookup_filter_None. right. intros r _. cbn. lia.
Qed.

Lemma wp_reconcile es p n t base bterm last (Q : result (list Entry) → Node → Prop) :
  view (store n) = Idle t → shape t base bterm last → chunk p es → base <= p <= last →
  is_idx (p + Z.of_nat (length es)) →
  (∀ ta t1 last1 n' c, trimmed t base bterm last p t1 last1 →
     cut_short (log_entries t) es (log_entries t1) →
     foldl upsert_row (log_entries t1) ta = merge (log_entries t) es → sublist ta es →
     view c = Idle t1 → (sound (store n) → sound c) → quiet (set_store c n) n' → Q (Ok ta) n') →
  (∀ e n', ¬ sound (store n) → quiet n n' → Q (Err e) n') →
  wp (reconcile es) Q n.
Proof.
  intros Hv Hs. pose proof (sh_base _ _ _ _ Hs) as Hb0. revert p n Hv Q.
  induction es as [|e es IH]; intros p n Hv Q Hc Hp Hi HQ Herr; cbn [reconcile].
  - wp_pure. apply (HQ [] t last n (store n)); [apply trimmed_refl; [done|lia]|by left|done|done|done|done|].
    by replace (set_store (store n) n) with n by (by destruct n).
  - cbn [chunk length] in Hc, Hi. destruct Hc as (He & Ht & Hc).
    assert (is_idx (p + 1)) as Hi1 by (unfold is_idx in *; lia).
    wp_pure. rewrite He.
    eapply wp_reads; [apply reads_Term|apply wf_Term|exact Hv| |by auto].
    intros [lt b] n1 Ha Hq1. rewrite (spec_Term_shape t base bterm last Hs) in Ha by by apply is_idx_u64.
    pose proof (quiet_view _ _ _ Hq1 Hv) as Hv1. pose proof Hq1 as [E1 _].
    unfold term_at in Ha. destruct (Z.eqb_spec (p + 1) 0); [lia|].
    destruct (Z.eqb_spec (p + 1) base); [lia|].
    destruct (log_entries t !! (p + 1)) as [[tm c0]|] eqn:El; simplify_eq/=.
    2: { wp_pure. eapply (HQ (e :: es) t last n1 (store n1));
           [apply trimmed_refl; [done|lia]|by left| |done|done| |by apply quiet_set_store].
         - cbn [merge]. by rewrite He, El.
         - by apply quiet_sound. }
    destruct (Z.eqb_spec (uint64 tm) (Entry_Term e)) as [Heq|Hne]; cbn.
    + assert (base < p + 1 <= last) as Hp1 by (apply (sh_dense _ _ _ _ Hs); eauto).
      apply (IH (p + 1) n1 Hv1); [done|lia|unfold is_idx in *; lia| |].
      * intros ta t1 last1 n' c Htr Hcut Hm Hsub Hvc Hso Hq.
        apply (HQ ta t1 last1 n' c); [|by apply cut_short_cons|by rewrite <- Hm; cbn [merge]; rewrite He, El, (proj2 (Z.eqb_eq _ _) Heq)|by apply sublist_cons|done| |].
        -- destruct Htr as [H1 H2 H3 H4]. split; [done|done|lia|done].
        -- intros H. by apply Hso, (quiet_sound n).
        -- etrans; [|exact Hq]. by apply quiet_with_store.
      * intros e' n' Hns Hq. apply Herr; [|by etrans]. intros H. by apply Hns, (quiet_sound n).
    + wp_pure. eapply wp_refines; [apply refines_DeleteFrom|done|exact Hv1| |].
      * intros [] t' c [= <-] Hvc Hh. wp_pure.
        assert (base < p + 1 <= last) as Hp1 by (apply (sh_dense _ _ _ _ Hs); eauto).
        eapply (HQ (e :: es) _ (p + 1 - 1) _ c); [by apply trimmed_cut; [|lia|lia]| | |done|exact Hvc| |].
        -- rewrite <- He in El |- *. rewrite <- He in Hi1. by apply (cut_short_delete t e es tm c0).
        -- cbn [merge]. rewrite He, El. destruct (Z.eqb_spec (uint64 tm) (Entry_Term e)); [done|].
           by cbn [spec_DeleteFrom set_log log_entries].
        -- intros Hso. destruct (quiet_sound _ _ Hq1 Hso) as (t2 & Ht2 & Hw & Hh2).
           assert (t2 = t) as -> by congruence. eexists. split_and!; [exact Hvc| |by apply Hh].
           done.
        -- by apply quiet_with_store.
      * intros e' c Hns Hvc. wp_pure.
        assert (¬ sound (store n)) as Hns0.
        { intros H. destruct Hns. split; [done|]. by apply (quiet_sound n). }
        apply Herr; [done|]. by apply (quiet_unsound _ _ _ t).
Qed.

(** ** Appending *)

Definition merged (es : list Entry) (t : tables) : tables := set_log (λ l, merge l es) t.

Lemma wp_append_all ta n t1 (Q : result unit → Node → Prop) :
  view (store n) = Idle t1 →
  (∀ n' c, view c = Idle (set_log (λ l, foldl upsert_row l ta) t1) →
     (nonempty_commands ta → sound (store n) → sound c) → quiet (set_store c n) n' → Q (Ok tt) n') →
  (∀ e n' c, ¬ (nonempty_commands ta ∧ sound (store n)) → view c = Idle t1 →
     quiet (set_store c n) n' → Q (Err e) n') →
  wp (append_all ta) Q n.
Proof.
  intros Hv HQ Herr. destruct ta as [|e ta]; cbn [append_all].
  { wp_pure. apply (HQ n (store n)); [rewrite Hv; by destruct t1|done|].
    by replace (set_store (store n) n) with n by (by destruct n). }
  eapply wp_refines; [apply refines_AppendEntries|done|exact Hv| |].
  - intros [] t' c [= <-] Hc Hh. apply (HQ _ c); [exact Hc| |reflexivity].
    intros Hne (t0 & Ht0 & Hw & Hh0). assert (t0 = t1) as -> by congruence.
    eexists. split_and!; [exact Hc|done|by apply Hh].
  - intros e' c Hns Hc. by apply (Herr _ _ c).
Qed.

(** The two loops of [AppendEntries] on the log: merged, or an error that has not
    touched the rows up to [p]. *)
Lemma wp_merge es p n t base bterm last (Q : result unit → Node → Prop) :
  view (store n) = Idle t → shape t base bterm last → chunk p es → base <= p <= last →
  is_idx (p + Z.of_nat (length es)) →
  (∀ n' c, view c = Idle (merged es t) → (nonempty_commands es → sound (store n) → sound c) →
     quiet (set_store c n) n' → Q (Ok tt) n') →
  (∀ e n' c t' last', ¬ (nonempty_commands es ∧ sound (store n)) →
     trimmed t base bterm last p t' last' →
     cut_short (log_entries t) es (log_entries t') → view c = Idle t' →
     quiet (set_store c n) n' → Q (Err e) n') →
  wp (try ta := reconcile es in append_all ta) Q n.
Proof.
  intros Hv Hs Hc Hp Hi HQ Herr. rewrite wp_try.
  eapply (wp_reconcile es p n t base bterm last); [done..| |].
  - intros ta t1 last1 n1 c Htr Hcut Hm Hsub Hvc Hso Hq. pose proof Hq as [E1 _].
    assert (nonempty_commands es → nonempty_commands ta) as Hne.
    { intros Hne. unfold nonempty_commands in *. rewrite Forall_forall in Hne |- *.
      intros e He. apply Hne. by eapply elem_of_sublist. }
    assert (sound (store n) → sound (store n1)) as Hso1.
    { intros H. apply (quiet_sound _ _ Hq). by apply Hso. }
    eapply (wp_append_all ta n1 t1); [by apply (quiet_view _ _ _ Hq)| |].
    + intros n' c' Hc' Hso' Hq'. apply (HQ n' c').
      * rewrite Hc'. f_equal. destruct Htr as [Et _ _ _]. rewrite Et. unfold merged, set_log. cbn.
        by rewrite Hm.
      * intros Hn H. apply Hso'; auto.
      * etrans; [exact (quiet_with_store c' _ _ Hq)|exact Hq'].
    + intros e n' c' Hns Hc' Hq'. apply (Herr e n' c' t1 last1); [|done|done|done|].
      * intros [Hn H]. apply Hns. auto.
      * etrans; [exact (quiet_with_store c' _ _ Hq)|exact Hq'].
  - intros e n' Hns Hq. apply (Herr e n' (store n') t last); [tauto|apply trimmed_refl; [done|lia]|by left| |].
    + by apply (quiet_view n).
    + by apply quiet_set_store.
Qed.

Lemma shape_merged es p t base bterm last :
  shape t base bterm last → chunk p es → base <= p <= last → is_idx (p + Z.of_nat (length es)) →
  ∃ last', shape (merged es t) base bterm last'
    ∧ p + Z.of_nat (length es) <= last' <= Z.max last (p + Z.of_nat (length es))
    ∧ (¬ agrees (log_entries t) es → last' = p + Z.of_nat (length es))
    ∧ (agrees (log_entries t) es → last' = Z.max last (p + Z.of_nat (length es))).
Proof.
  intros Hs Hc Hp Hi. pose proof (sh_base _ _ _ _ Hs). pose proof (sh_last _ _ _ _ Hs).
  destruct (merge_dense base last (log_entries t) p es) as (last' & Hd & Hr & Hn & Ha);
    [apply Hs|done|done|lia|done|].
  exists last'. split; [|done]. apply (shape_set_log _ t base bterm last); [done|done|lia|].
  unfold is_idx in *. lia.
Qed.

(** ** Committing what the leader has committed *)

Record followed n (t : tables) (base bterm last commit : Z) (n' : Node)
    (t' : tables) (base' bterm' : Z) : Prop := {
  fo_view : view (store n') = Idle t';
  fo_kept : log_kept base bterm last t base' bterm' t';
  fo_commit : commitIndex n' = commit;
  fo_applied : lastApplied n <= lastApplied n' ∧ (is_u64 (lastApplied n) → is_u64 (lastApplied n'));
  fo_replay : base <= lastApplied n →
    replay (log_entries t) (kv t) (lastApplied n) (Z.to_nat (lastApplied n' - lastApplied n))
      = Some (kv t');
  fo_same : role n' = role n ∧ currentTerm n' = currentTerm n ∧ votedFor n' = votedFor n
    ∧ leaderID n' = leaderID n;
  fo_bound : base <= lastApplied n → is_u64 (lastApplied n) →
    lastApplied n' <= Z.max (lastApplied n) commit
    ∧ (meta_uint "last_applied" t = Some (lastApplied n) →
       meta_uint "last_applied" t' = Some (lastApplied n'));
  fo_stored : base <= lastApplied n → stored_at base t base' bterm' (lastApplied n') t'
}.

Lemma apply_followed n t base bterm last n' t1 t' a' c :
  shape t base bterm last → is_u64 (lastApplied n) → is_u64 (commitIndex n) →
  apply_post n t base bterm last n' t1 t' a' c →
  ∃ base' bterm', followed n t base bterm last (commitIndex n) n' t' base' bterm'.
Proof.
  intros Hs Hu Hc [H1 H2 H3 H4 _].
  destruct (turns_facts _ _ _ _ _ _ _ _ Hs Hu Hc H1) as (Hs1 & El & Ha & Hua).
  destruct (compacted_kept _ _ _ _ _ _ Hs1 H2) as (base' & bterm' & Hk & Hkv & Hst).
  destruct Hk as [Hk1 Hk2 Hk3 Hk4 Hk5].
  pose proof H4 as [E _]. exists base', bterm'. split.
  - by apply (quiet_view _ _ _ H4).
  - split; [done|done| | |done].
    + intros i Hi. by rewrite Hk3, El.
    + intros i Hi. rewrite Hk4 by done. unfold term_at. by rewrite El.
  - by rewrite E.
  - rewrite E. cbn. by split.
  - intros Hb. rewrite Hkv. rewrite E at 1. cbn.
    by destruct (turns_replay _ _ _ _ _ _ _ _ Hs Hb Hu Hc H1) as (_ & _ & _ & _ & ?).
  - by rewrite E.
  - intros Hb _. assert (lastApplied n' = a') as -> by (rewrite E; done).
    destruct (turns_replay _ _ _ _ _ _ _ _ Hs Hb Hu Hc H1) as (_ & _ & _ & Hr & _). split; [lia|].
    intros Hm. eapply compacted_last_applied; [done|exact H2|].
    by apply (turns_last_applied base bterm last (commitIndex n) t (lastApplied n)).
  - intros Hb. destruct (turns_replay _ _ _ _ _ _ _ _ Hs Hb Hu Hc H1) as (_ & _ & Es & _).
    rewrite E. cbn. unfold stored_at in *. by rewrite <- Es.
Qed.

Lemma followed_quiet n t base bterm last commit n1 t' base' bterm' n' :
  followed n t base bterm last commit n1 t' base' bterm' → quiet n1 n' →
  followed n t base bterm last commit n' t' base' bterm'.
Proof.
  intros [H1 H2 H3 H4 H5 H6 H7 H8] Hq. pose proof Hq as [E _]. split; try done.
  - by apply (quiet_view n1).
  - by rewrite E.
  - by rewrite E.
  - rewrite E. exact H5.
  - by rewrite E.
  - rewrite E. exact H7.
  - rewrite E. exact H8.
Qed.

Definition new_commit (n : Node) (leaderCommit last : Z) : Z :=
  if commitIndex n <? leaderCommit then minUint64 leaderCommit last else commitIndex n.

(** Setting the commit index and applying, as [AppendEntries] does. *)
Lemma wp_follow_commit n t base bterm last leaderCommit :
  view (store n) = Idle t → shape t base bterm last →
  is_u64 (lastApplied n) → is_u64 (commitIndex n) → is_u64 leaderCommit →
  wp (if commitIndex n <? leaderCommit
      then _ ← modify (set_commitIndex (minUint64 leaderCommit last)); applyCommittedLocked
      else mret tt)
    (λ _ n', ∃ t' base' bterm',
       followed n t base bterm last (new_commit n leaderCommit last) n' t' base' bterm') n.
Proof.
  intros Hv Hs Hu Hc Hlc. unfold new_commit. destruct (commitIndex n <? leaderCommit).
  - wp_pure. set (n1 := set_commitIndex _ n).
    assert (is_u64 (minUint64 leaderCommit last)) as Hu1.
    { pose proof (sh_last _ _ _ _ Hs). pose proof (sh_base _ _ _ _ Hs).
      unfold minUint64. destruct (leaderCommit <? last); [done|by apply is_idx_u64]. }
    eapply wp_mono; [by apply (wp_applyCommitted n1 t base bterm last)|].
    intros _ n' (t1 & t' & a' & c & Hap). exists t'.
    destruct (apply_followed n1 t base bterm last n' t1 t' a' c) as (base' & bterm' & Hfo);
      [done..|]. exists base', bterm'. destruct Hfo. by split.
  - wp_pure. exists t, base, bterm. split; [done|by apply log_kept_refl|done|by split| |done| |by left].
    + intros _. by rewrite Z.sub_diag.
    + intros _ _. split; [lia|done].
Qed.

(** ** The accepting branch *)

Lemma length_entries_of req : length (entries_of req) = length (AppendEntriesRequest_Entries req).
Proof. apply length_fmap. Qed.

Definition match_index (req : AppendEntriesRequest) : Z :=
  AppendEntriesRequest_PrevLogIndex req + Z.of_nat (length (AppendEntriesRequest_Entries req)).

(** What an error leaves: the rows up to the previous index, and everything else. *)
Definition unfinished (l : rows) (es : list Entry) (l' : rows) : Prop :=
  cut_short l es l' ∨ l' = merge l es.

Definition append_failed n (t : tables) (p : Z) (es : list Entry) (n' : Node) : Prop :=
  ∃ t', view (store n') = Idle t' ∧ t' = set_log (λ _, log_entries t') t
    ∧ (∀ i, i <= p → log_entries t' !! i = log_entries t !! i)
    ∧ unfinished (log_entries t) es (log_entries t')
    ∧ role n' = role n ∧ currentTerm n' = currentTerm n
    ∧ commitIndex n' = commitIndex n ∧ lastApplied n' = lastApplied n.

Definition accept_post n t base bterm (req : AppendEntriesRequest)
    (r : result AppendEntriesResponse) (n' : Node) : Prop :=
  match r with
  | Ok resp =>
      resp = mkAppendEntriesResponse (currentTerm n) true (match_index req) ∧
      ∃ last2 t' base' bterm',
        shape (merged (entries_of req) t) base bterm last2 ∧ match_index req <= last2 ∧
        followed n (merged (entries_of req) t) base bterm last2
          (new_commit n (AppendEntriesRequest_LeaderCommit req) last2) n' t' base' bterm'
  | Err _ => ¬ (nonempty_commands (entries_of req) ∧ sound (store n))
      ∧ append_failed n t (AppendEntriesRequest_PrevLogIndex req) (entries_of req) n'
  end.

Lemma quiet_set_fields n c n' :
  quiet (set_store c n) n' → commitIndex n' = commitIndex n ∧ lastApplied n' = lastApplied n
  ∧ role n' = role n ∧ currentTerm n' = currentTerm n ∧ votedFor n' = votedFor n
  ∧ leaderID n' = leaderID n.
Proof. intros [E _]. by rewrite E. Qed.

Lemma wp_rpc_error {A} m e n (Q : result A → Node → Prop) :
  (∀ n', quiet n n' → Q (Err (wrapInternal e)) n') → wp (rpc_error m e) Q n.
Proof. intros H. unfold rpc_error. wp_skip as n' Hq. wp_pure. by apply H. Qed.

Lemma append_failed_quiet n t p es c t' n' :
  quiet (set_store c n) n' → view c = Idle t' → t' = set_log (λ _, log_entries t') t →
  (∀ i, i <= p → log_entries t' !! i = log_entries t !! i) →
  unfinished (log_entries t) es (log_entries t') → append_failed n t p es n'.
Proof.
  intros Hq Hc E H Hun. exists t'. destruct (quiet_set_fields _ _ _ Hq) as (-> & -> & -> & -> & _).
  split; [by apply (quiet_view _ _ _ Hq)|done].
Qed.

Lemma wp_accept_entries n t base bterm last req :
  view (store n) = Idle t → shape t base bterm last → ok_append req →
  base <= AppendEntriesRequest_PrevLogIndex req <= last →
  is_u64 (lastApplied n) → is_u64 (commitIndex n) →
  wp (accept_entries (Some req) base) (accept_post n t base bterm req) n.
Proof.
  intros Hv Hs [Ht Hpu Hcu Hc Hr] Hp Hu Hcm. unfold accept_entries.
  cbn [AppendEntriesRequest_GetPrevLogIndex AppendEntriesRequest_GetEntries
    AppendEntriesRequest_GetLeaderCommit].
  rewrite collect_incoming_chunk by (done || lia). set (es := entries_of req).
  fold (match_index req). set (p := AppendEntriesRequest_PrevLogIndex req) in *.
  assert (Z.of_nat (length es) = Z.of_nat (length (AppendEntriesRequest_Entries req))) as Elen
    by (unfold es; by rewrite length_fmap).
  assert (is_idx (p + Z.of_nat (length es))) as Hr' by (by rewrite Elen).
  apply wp_try_match.
  apply (wp_merge es p n t base bterm last); [done..| |].
  2: { intros e n1 c t' last' Hns Htr Hcut Hvc Hq. apply wp_rpc_error. intros n2 Hq2.
       split; [done|]. apply (append_failed_quiet _ _ _ _ c t'); [by etrans|done|by destruct Htr| |by left].
       destruct Htr as [_ _ Hrg Hrows]. intros i Hi. apply Hrows. lia. }
  intros n1 c Hvc Hso Hq. destruct (shape_merged es p t base bterm last) as (last2 & Hs2 & Hl2 & _);
    [done..|]. pose proof (quiet_view _ _ _ Hq Hvc) as Hv1.
  destruct (quiet_set_fields _ _ _ Hq) as (Ecm & Ela & Ero & Ect & Evo & Eld).
  wp_pure. eapply wp_reads; [apply reads_LastIndexAndTerm|apply wf_LastIndexAndTerm|exact Hv1| |].
  2: { intros e n2 Hns Hq2. apply wp_rpc_error. intros n3 Hq3. split.
       - intros [Hne H]. apply Hns, (quiet_sound _ _ Hq). by apply Hso.
       - apply (append_failed_quiet _ _ _ _ c (merged es t)); [etrans; [exact Hq|by etrans]|done|done| |by right].
         intros i Hi. cbn. pose proof (sh_base _ _ _ _ Hs). 
         apply (merge_prefix base last _ p); [apply Hs|done|done|lia|done|done]. }
  intros [li lt] n2 Ha Hq2. rewrite (spec_LastIndexAndTerm_shape _ _ _ _ Hs2) in Ha.
  injection Ha as <- _. pose proof Hq2 as [E2 _]. wp_pure.
  assert (quiet (set_store c n) n2) as Hq02 by (by etrans).
  destruct (quiet_set_fields _ _ _ Hq02) as (Ecm2 & Ela2 & Ero2 & Ect2 & Evo2 & Eld2).
  eapply wp_mono; [apply (wp_follow_commit n2 (merged es t) base bterm last2)|].
  - by apply (quiet_view _ _ _ Hq2).
  - done.
  - by rewrite Ela2.
  - by rewrite Ecm2.
  - done.
  - intros _ n3 (t' & base' & bterm' & Hfo). unfold append_reply. wp_skip as n4 Hq4.
    wp_skip as n5 Hq5. wp_pure.
    apply (followed_quiet _ _ _ _ _ _ _ _ _ _ n5) in Hfo; [|by etrans].
    destruct Hfo as [H1 H2 H3 H4 H5 (H6 & H7 & H8 & H9) H10 H11]. split; [by rewrite H7, Ect2|].
    exists last2, t', base', bterm'. split_and!; [done|unfold match_index; lia|].
    unfold new_commit in *. rewrite Ecm2, ?Ela2 in *.
    split; try done. by rewrite H6, H7, H8, H9.
Qed.

(** ** [AppendEntries] *)

(** When a request is to be accepted. *)
Definition accepts n (t : tables) (base bterm : Z) (req : AppendEntriesRequest) : Prop :=
  currentTerm n <= AppendEntriesRequest_Term req
  ∧ base <= AppendEntriesRequest_PrevLogIndex req
  ∧ term_at t base bterm (AppendEntriesRequest_PrevLogIndex req)
    = Some (AppendEntriesRequest_PrevLogTerm req).

(** The tables with the term adopted, if it was. *)
Definition adopted n (T : Z) (t t0 : tables) : Prop :=
  t0 = t ∨ t0 = step_down_tables T (currentTerm n) t.

Definition append_post n t base bterm (req : AppendEntriesRequest)
    (r : result AppendEntriesResponse) (n' : Node) : Prop :=
  let T := AppendEntriesRequest_Term req in
  let es := entries_of req in
  match r with
  | Ok (mkAppendEntriesResponse rt true m) =>
      accepts n t base bterm req ∧ rt = T ∧ m = match_index req ∧
      ∃ c t0 last2 t' base' bterm', adopted n T t t0
        ∧ shape (merged es t0) base bterm last2 ∧ match_index req <= last2
        ∧ followed (stepped_down T (AppendEntriesRequest_LeaderId req) c n) (merged es t0)
            base bterm last2 (new_commit n (AppendEntriesRequest_LeaderCommit req) last2)
            n' t' base' bterm'
  | Ok (mkAppendEntriesResponse rt false _) =>
      ¬ (accepts n t base bterm req ∧ sound (store n)) ∧ rt = Z.max (currentTerm n) T
      ∧ (∃ t0, adopted n T t t0 ∧ view (store n') = Idle t0)
      ∧ commitIndex n' = commitIndex n ∧ lastApplied n' = lastApplied n
  | Err _ =>
      ¬ (nonempty_commands es ∧ sound (store n)) ∧
      ∃ t0 t', adopted n T t t0 ∧ view (store n') = Idle t' ∧ t' = set_log (λ _, log_entries t') t0
        ∧ (∀ i, i <= AppendEntriesRequest_PrevLogIndex req →
             log_entries t' !! i = log_entries t !! i)
        ∧ (log_entries t' = log_entries t
           ∨ accepts n t base bterm req ∧ unfinished (log_entries t) es (log_entries t')
             ∧ role n' = RoleFollower ∧ currentTerm n' = T)
        ∧ commitIndex n' = commitIndex n ∧ lastApplied n' = lastApplied n
  end.

Lemma shape_adopted n T t t0 base bterm last :
  shape t base bterm last → adopted n T t t0 →
  shape t0 base bterm last ∧ log_entries t0 = log_entries t ∧ kv t0 = kv t
  ∧ term_at t0 base bterm = term_at t base bterm.
Proof.
  intros Hs [->| ->]; [done|]. unfold step_down_tables.
  destruct (currentTerm n <? T); [|done]. split; [by apply shape_SaveTermVote|done].
Qed.

Lemma quiet_stepped_down T leader c n n' :
  quiet (stepped_down T leader c n) n' →
  commitIndex n' = commitIndex n ∧ lastApplied n' = lastApplied n
  ∧ currentTerm n' = Z.max (currentTerm n) T ∧ store (stepped_down T leader c n) = c.
Proof.
  intros [-> _]. unfold stepped_down. cbn.
  destruct (Z.ltb_spec (currentTerm n) T); cbn; split_and!; done || lia.
Qed.

Lemma term_at_range t base bterm last i tm :
  shape t base bterm last → base <= i → term_at t base bterm i = Some tm → i <= last.
Proof.
  intros Hs Hb. pose proof (sh_base _ _ _ _ Hs). unfold term_at.
  destruct (Z.eqb_spec i 0); [lia|]. destruct (Z.eqb_spec i base); [lia|].
  destruct (log_entries t !! i) eqn:E; [|done]. intros _.
  assert (is_Some (log_entries t !! i)) as Hi by eauto. apply (sh_dense _ _ _ _ Hs) in Hi. lia.
Qed.

Lemma wp_AppendEntries n t base bterm last req :
  view (store n) = Idle t → shape t base bterm last → ok_append req →
  is_u64 (lastApplied n) → is_u64 (commitIndex n) →
  wp (AppendEntries (Some req)) (append_post n t base bterm req) n.
Proof.
  intros Hv Hs Hok Hu Hcm. unfold AppendEntries. wp_pure.
  cbn [AppendEntriesRequest_GetTerm AppendEntriesRequest_GetLeaderId
    AppendEntriesRequest_GetPrevLogIndex AppendEntriesRequest_GetPrevLogTerm].
  set (T := AppendEntriesRequest_Term req). set (p := AppendEntriesRequest_PrevLogIndex req).
  destruct (Z.ltb_spec T (currentTerm n)) as [Hlt|Hge].
  { wp_skip as n1 Hq1. unfold lastIndex_or_zero, append_reply. wp_pure. wp_skip as n2 Hq2. wp_pure.
    assert (quiet n n2) as Hq by (by etrans). pose proof Hq as [E _]. fold T.
    split_and!; [intros [[? _] _]; unfold T in *; lia| | | |].
    - rewrite E. cbn. lia.
    - exists t. split; [by left|by apply (quiet_view n)].
    - by rewrite E.
    - by rewrite E. }
  wp_pure. eapply wp_follow_leader; [exact Hv|apply Hok|done|].
  intros c t0 n1 Hvc Hta Hso Hq1.
  destruct (shape_adopted n T t t0 base bterm last Hs Hta) as (Hs0 & El0 & Ek0 & Et0).
  destruct (quiet_stepped_down _ _ _ _ _ Hq1) as (Ecm & Ela & Ect & Est).
  assert (role n1 = RoleFollower) as Er1 by (destruct Hq1 as [-> _]; done).
  assert (view (store n1) = Idle t0) as Hv1 by (apply (quiet_view _ _ _ Hq1); by rewrite Est).
  assert (sound (store n) → sound (store n1)) as Hso1.
  { intros H. apply (quiet_sound _ _ Hq1). rewrite Est. by apply Hso. }
  (* the replies that refuse, and the errors *)
  assert (∀ n2 x, quiet n1 n2 → ¬ (accepts n t base bterm req ∧ sound (store n)) →
    append_post n t base bterm req (Ok (mkAppendEntriesResponse (currentTerm n2) false x)) n2) as Hrefuse.
  { intros n2 x Hq2 Hna. pose proof Hq2 as [E _]. split_and!; [done| | | |].
    - by rewrite E.
    - exists t0. split; [done|by apply (quiet_view n1)].
    - by rewrite E.
    - by rewrite E. }
  assert (∀ e n2, quiet n1 n2 → ¬ sound (store n1) →
    append_post n t base bterm req (Err (wrapInternal e)) n2) as Herr.
  { intros e n2 Hq2 Hns. pose proof Hq2 as [E _]. split; [tauto|]. exists t0, t0.
    split_and!; [done|by apply (quiet_view n1)|by destruct t0|by rewrite El0|by left|by rewrite E|by rewrite E]. }
  wp_pure. eapply wp_reads; [apply reads_SnapshotIndexTerm|apply wf_SnapshotIndexTerm|exact Hv1| |].
  2: { intros e n2 Hns Hq2. apply wp_rpc_error. intros n3 Hq3. apply Herr; [by etrans|done]. }
  intros [si st] n2 Ha Hq2. rewrite (sh_meta _ _ _ _ Hs0) in Ha. injection Ha as <- <-.
  fold p. destruct (Z.ltb_spec p base) as [Hpb|Hpb].
  { wp_skip as n3 Hq3. unfold append_reply. wp_pure. apply Hrefuse; [by etrans|].
    intros [(_ & ? & _) _]. unfold p in *. lia. }
  wp_pure. pose proof (quiet_view _ _ _ Hq2 Hv1) as Hv2.
  eapply wp_reads; [apply reads_Term|apply wf_Term|exact Hv2| |].
  2: { intros e n3 Hns Hq3. apply wp_rpc_error. intros n4 Hq4. apply Herr.
       - etrans; [exact Hq2|]. by etrans.
       - intros H. by apply Hns, (quiet_sound n1). }
  intros [pt b] n3 Ha Hq3. rewrite (spec_Term_shape _ _ _ _ Hs0) in Ha by apply Hok.
  rewrite Et0 in Ha. assert (quiet n1 n3) as Hq13 by (by etrans).
  destruct (negb b || negb (pt =? AppendEntriesRequest_PrevLogTerm req)) eqn:Em.
  { wp_skip as n4 Hq4. unfold lastIndex_or_zero, append_reply. wp_pure. wp_skip as n5 Hq5. wp_pure.
    apply Hrefuse; [etrans; [exact Hq13|by etrans]|]. intros [(_ & _ & Ht) _]. fold p in Ht.
    rewrite Ht in Ha. injection Ha as <- <-. cbn in Em.
    by rewrite (proj2 (Z.eqb_eq _ _) eq_refl) in Em. }
  apply orb_false_iff in Em as [Eb Ept]. rewrite negb_false_iff in Eb, Ept. apply Z.eqb_eq in Ept.
  assert (term_at t base bterm p = Some (AppendEntriesRequest_PrevLogTerm req)) as Hterm.
  { destruct (term_at t base bterm p); simplify_eq/=; done. }
  pose proof Hq13 as [E3 _].
  eapply wp_mono; [apply (wp_accept_entries n3 t0 base bterm last req)|].
  - by apply (quiet_view n1).
  - done.
  - done.
  - fold p. split; [done|]. exact (term_at_range t base bterm last p _ Hs Hpb Hterm).
  - rewrite E3. cbn. by rewrite Ela.
  - rewrite E3. cbn. by rewrite Ecm.
  - intros [resp|e] n' Hpost; cbn in Hpost |- *.
    + destruct Hpost as (-> & last2 & t' & base' & bterm' & Hs2 & Hm & Hfo).
      split_and!; [done|rewrite E3; cbn; lia|done|].
      exists c, t0, last2, t', base', bterm'. split_and!; [done|done|done|].
      unfold new_commit in *. destruct Hq1 as [E1 _].
      assert (commitIndex n3 = commitIndex n ∧ lastApplied n3 = lastApplied n) as [Ec3 El3]
        by (rewrite E3; done).
      destruct Hfo as [H1 H2 H3 H4 H5 H6 H7 H8]. rewrite Ec3 in H3.
      assert (lastApplied (stepped_down T (AppendEntriesRequest_LeaderId req) c n) = lastApplied n)
        as Els by (unfold stepped_down; cbn; by destruct (currentTerm n <? T)).
      unfold T in Els.
      split; [done|done|by rewrite H3|by rewrite Els, <- El3|by rewrite Els, <- El3| | |].
      * destruct H6 as (-> & -> & -> & ->). by rewrite E3, E1.
      * rewrite Els, <- El3. by rewrite Ec3 in H7.
      * rewrite Els, <- El3. exact H8.
    + destruct Hpost as (Hns & t' & H1 & H2 & H3 & Hun & Hro & Hte & H4 & H5). split.
      * intros [Hne H]. apply Hns. split; [done|]. apply (quiet_sound n1); [done|auto].
      * exists t0, t'. split_and!; [done|done|done| | | |].
        -- intros i Hi. by rewrite H3, El0.
        -- right. rewrite El0 in Hun. split; [|split; [done|split]].
           ++ done.
           ++ rewrite Hro, E3. exact Er1.
           ++ rewrite Hte, E3. cbn. unfold T in *. lia.
        -- rewrite H4, E3. cbn. done.
        -- rewrite H5, E3. cbn. done.
Qed.
End follower.
