(* ===== verification/Leader.v ===== *)
(** * Leading: the commit rule and the requests of the leader

    [advanceCommitLocked] commits only entries of the current term that a majority
    holds, and the greatest such; the requests [replicatePeer] sends are cut from
    the leader's log. *)

From Stdlib Require Import Ascii String.
From stdpp Require Import strings relations.
From S2P Require Import Prelude GoStd Json Wire Logging Metrics Sql Storage StoreSpec LogSpec LogStore.
From S2P Require Import Config Types Node Rpc NodeFrame Apply Follower.
#[local] Open Scope Z_scope.

Section leader.
Context `{D : !SqlDriver} `{L : !SqlLaws D} `{R : !GoRuntime}.
Implicit Types (n : Node).

(** ** The commit index *)

(** An index that may be committed: an entry of the current term that a majority
    holds. *)
Definition committable n (t : tables) (base bterm i : Z) : Prop :=
  term_at t base bterm i = Some (currentTerm n) ∧ majorityLocked n <= replicas n i.

#[global] Instance committable_dec n t base bterm i : Decision (committable n t base bterm i).
Proof. unfold committable. apply _. Defined.

(** [c] is the greatest committable index in (from, upto], if there is one. *)
Definition best_commit n t base bterm from upto c : Prop :=
  (c = commitIndex n ∨ from < c <= upto ∧ committable n t base bterm c)
  ∧ ∀ j, from < j <= upto → committable n t base bterm j → j <= c.

Lemma wp_advance_one n t base bterm last idx (Q : bool → Node → Prop) :
  view (store n) = Idle t → shape t base bterm last → is_u64 idx →
  (∀ n' c, view c = Idle t → (sound (store n) → sound c) →
     quiet (set_store c (if decide (committable n t base bterm idx)
                         then set_commitIndex idx n else n)) n' → Q true n') →
  (∀ n', ¬ sound (store n) → quiet n n' → Q false n') →
  wp (advance_one (majorityLocked n) idx) Q n.
Proof.
  intros Hv Hs Hu HQ Hstop. unfold advance_one. wp_pure.
  eapply wp_reads; [apply reads_Term|apply wf_Term|exact Hv| |].
  2: { intros e n1 Hns Hq1. wp_skip as n2 Hq2. wp_pure. apply Hstop; [done|by etrans]. }
  intros [tm b] n1 Ha Hq1. rewrite (spec_Term_shape _ _ _ _ Hs) in Ha by done.
  pose proof Hq1 as [E1 _]. wp_pure.
  assert ((sound (store n) → sound (store n1)) ∧ view (store n1) = Idle t) as Hc.
  { split; [by apply quiet_sound|by apply (quiet_view n)]. }
  assert (currentTerm n1 = currentTerm n ∧ replicas n1 idx = replicas n idx) as [Ec Er]
    by (rewrite E1; done).
  rewrite Ec. destruct (negb b || negb (tm =? currentTerm n)) eqn:Eb.
  { wp_pure. apply (HQ n1 (store n1)); [by apply Hc|by apply Hc|].
    rewrite decide_False; [by apply quiet_set_store|].
    intros [Ht _]. rewrite Ht in Ha. injection Ha as <- <-. cbn in Eb. by rewrite Z.eqb_refl in Eb. }
  apply orb_false_iff in Eb as [Hb Ht]. rewrite negb_false_iff in Hb, Ht. apply Z.eqb_eq in Ht.
  assert (term_at t base bterm idx = Some (currentTerm n)) as Hterm
    by (destruct (term_at t base bterm idx); simplify_eq/=; done).
  wp_pure. rewrite Er. destruct (Z.leb_spec (majorityLocked n) (replicas n idx)) as [Hm|Hm].
  - wp_pure. apply (HQ _ (store n1)); [by apply Hc|by apply Hc|].
    rewrite decide_True by done. split; [by rewrite E1 at 1|]. cbn. reflexivity.
  - wp_pure. apply (HQ _ (store n1)); [by apply Hc|by apply Hc|].
    rewrite decide_False by (intros [_ ?]; lia). by apply quiet_set_store.
Qed.

Lemma committable_ext n n' t base bterm i :
  peers n' = peers n → matchIndex n' = matchIndex n → currentTerm n' = currentTerm n →
  committable n' t base bterm i ↔ committable n t base bterm i.
Proof. unfold committable, majorityLocked, replicas. by intros -> -> ->. Qed.

(** The loop stops at the end of the log, or where the database fails. *)
Lemma wp_advance_loop fuel n t base bterm last idx :
  view (store n) = Idle t → shape t base bterm last → 0 < idx →
  last - idx + 1 <= Z.of_nat fuel →
  wp (advance_loop fuel (majorityLocked n) last idx) (λ exit n', ∃ c upto store',
    best_commit n t base bterm (idx - 1) upto c ∧ upto <= Z.max last (idx - 1)
    ∧ view store' = Idle t ∧ (sound (store n) → sound store')
    ∧ quiet (set_store store' (set_commitIndex c n)) n' ∧ exit ≠ OutOfFuel
    ∧ (exit = Completed → last <= upto) ∧ (sound (store n) → exit = Completed)) n.
Proof.
  revert n idx. induction fuel as [|fuel IH]; intros n idx Hv Hs Hi Hf; cbn [advance_loop];
    destruct (Z.leb_spec idx last) as [Hle|Hgt]; try lia.
  1,3: wp_pure; exists (commitIndex n), (idx - 1), (store n); split_and!; try done; try lia;
    [split; [by left|intros j Hj; lia]|split; [by destruct n|reflexivity]].
  assert (is_u64 idx) as Hu.
  { pose proof (sh_last _ _ _ _ Hs). apply is_idx_u64. unfold is_idx in *. lia. }
  wp_pure. eapply (wp_advance_one n t base bterm last idx); [done..| |].
  - intros n1 c1 Hc1 Hso1 Hq1. pose proof Hq1 as [E1 _].
    assert (idx +64 1 = idx + 1) as ->.
    { apply u64_succ; [|lia]. pose proof (sh_last _ _ _ _ Hs). unfold is_idx, is_u64, two63, two64 in *. lia. }
    assert (majorityLocked n1 = majorityLocked n ∧ peers n1 = peers n ∧ matchIndex n1 = matchIndex n
      ∧ currentTerm n1 = currentTerm n ∧ commitIndex n1 = (if decide (committable n t base bterm idx)
          then idx else commitIndex n)) as (Em & Ep & Emi & Ect & Eci).
    { rewrite E1. by destruct (decide _). }
    rewrite <- Em. eapply wp_mono; [apply (IH n1 (idx + 1)); [|done|lia|lia]|].
    + apply (quiet_view _ _ _ Hq1). by destruct (decide _).
    + intros exit n' (c & upto & c' & [Hbest Hmax] & Hup & Hvc & Hso & Hq & Hex & Hcomp & Hsc).
      replace (idx + 1 - 1) with idx in * by lia.
      assert (sound (store n) → sound (store n1)) as Hson.
      { intros H. apply (quiet_sound _ _ Hq1). destruct (decide _); by apply Hso1. }
      setoid_rewrite (committable_ext n n1 t base bterm) in Hbest; [|done..].
      assert (∀ j, committable n1 t base bterm j ↔ committable n t base bterm j) as Hext
        by (intros j; by apply committable_ext).
      exists c, (Z.max upto idx), c'. split_and!; [|lia|done|auto| |done|intros; specialize (Hcomp H); lia|auto].
      * rewrite Eci in Hbest. split.
        -- destruct Hbest as [->|[? ?]]; [|right; split; [lia|done]].
           destruct (decide (committable n t base bterm idx)); [right; split; [lia|done]|by left].
        -- intros j Hj Hcj. destruct (decide (j = idx)) as [->|Hne].
           ++ destruct Hbest as [->|[? _]]; [|lia]. by rewrite decide_True.
           ++ apply Hmax; [lia|by apply Hext].
      * etrans; [|exact Hq]. split.
        -- rewrite E1. by destruct (decide _).
        -- cbn. reflexivity.
  - intros n' Hns Hq. wp_pure. exists (commitIndex n), (idx - 1), (store n').
    split_and!; try done; try lia.
    + split; [by left|]. intros j Hj. lia.
    + by apply (quiet_view n).
    + split; [destruct Hq as [E _]; by rewrite E at 1|]. cbn. reflexivity.
Qed.

(** A node that has only moved its commit index, and then applied. *)
Lemma followed_commit n n1 t base bterm last c commit n' t' base' bterm' :
  quiet (set_store c (set_commitIndex commit n)) n1 →
  followed n1 t base bterm last commit n' t' base' bterm' →
  followed n t base bterm last commit n' t' base' bterm'.
Proof.
  intros [E _] [H1 H2 H3 H4 H5 H6 H7 H8].
  assert (lastApplied n1 = lastApplied n ∧ role n1 = role n ∧ currentTerm n1 = currentTerm n
    ∧ votedFor n1 = votedFor n ∧ leaderID n1 = leaderID n) as (E1 & E2 & E3 & E4 & E5)
    by (rewrite E; done).
  rewrite E1, ?E2, ?E3, ?E4, ?E5 in *. by split.
Qed.

Lemma followed_idle n t base bterm last :
  view (store n) = Idle t → shape t base bterm last →
  followed n t base bterm last (commitIndex n) n t base bterm.
Proof.
  intros Hv Hs. split; [done|by apply log_kept_refl|done|by split| |done| |by left].
  - intros _. by rewrite Z.sub_diag.
  - intros _ _. split; [lia|done].
Qed.

Definition advance_post n t base bterm last (n' : Node) : Prop :=
  ∃ c t' base' bterm',
    (c = commitIndex n ∨ commitIndex n < c <= last ∧ committable n t base bterm c)
    ∧ (sound (store n) → ∀ j, commitIndex n < j <= last → committable n t base bterm j → j <= c)
    ∧ followed n t base bterm last c n' t' base' bterm'.

Lemma wp_advanceCommit n t base bterm last :
  view (store n) = Idle t → shape t base bterm last →
  is_u64 (lastApplied n) → is_u64 (commitIndex n) → is_u64 (commitIndex n + 1) →
  wp advanceCommitLocked (λ _ n', advance_post n t base bterm last n') n.
Proof.
  intros Hv Hs Hu Hc Hc1. unfold advanceCommitLocked. wp_pure.
  eapply wp_reads; [apply reads_LastIndexAndTerm|apply wf_LastIndexAndTerm|exact Hv| |].
  2: { intros e n1 Hns Hq1. apply wp_quiet; [apply quiet_logError|]. intros _ n2 Hq2.
       exists (commitIndex n), t, base, bterm. split_and!; [by left|done|].
       eapply followed_quiet; [by apply followed_idle|by etrans]. }
  intros [li lt] n1 Ha Hq1. rewrite (spec_LastIndexAndTerm_shape _ _ _ _ Hs) in Ha.
  injection Ha as <- _. pose proof Hq1 as [E1 _]. wp_pure.
  assert (commitIndex n1 = commitIndex n ∧ lastApplied n1 = lastApplied n) as [Ec El]
    by (rewrite E1; done).
  rewrite Ec. assert (commitIndex n +64 1 = commitIndex n + 1) as ->
    by (apply u64_succ; [done|unfold is_u64 in *; lia]).
  eapply wp_mono; [apply (wp_advance_loop _ n1 t base bterm last); [by apply (quiet_view n)|done| |lia]|].
  { unfold is_u64 in *. lia. }
  intros exit n2 (c & upto & c' & [Hbest Hmax] & Hup & Hvc & Hso & Hq2 & Hex & Hcomp & Hsc).
  replace (commitIndex n + 1 - 1) with (commitIndex n) in * by lia. rewrite Ec in *.
  assert (∀ j, committable n1 t base bterm j ↔ committable n t base bterm j) as Hext
    by (intros j; apply committable_ext; rewrite E1; done).
  assert (c = commitIndex n ∨ commitIndex n < c <= last ∧ committable n t base bterm c) as Hcase.
  { destruct Hbest as [->|[? ?]]; [by left|]. right. split; [lia|by apply Hext]. }
  assert (exit = Completed → ∀ j, commitIndex n < j <= last → committable n t base bterm j → j <= c)
    as Hgreatest.
  { intros Hex' j Hj Hcj. specialize (Hcomp Hex'). apply Hmax; [lia|by apply Hext]. }
  assert (quiet (set_store c' (set_commitIndex c n)) n2) as Hq.
  { etrans; [|exact Hq2]. rewrite E1. split; [done|]. cbn. reflexivity. }
  assert (view (store n2) = Idle t) as Hv2 by (by apply (quiet_view _ _ _ Hq2)).
  assert (commitIndex n2 = c ∧ lastApplied n2 = lastApplied n) as [Ec2 El2]
    by (destruct Hq as [-> _]; done).
  assert (sound (store n) → exit = Completed) as Hsound
    by (intros H; apply Hsc, (quiet_sound _ _ Hq1), H).
  assert (exit ≠ Completed → advance_post n t base bterm last n2) as Hstop.
  { intros Hne. exists c, t, base, bterm. split_and!; [done|intros H; by destruct Hne; apply Hsound|].
    eapply followed_commit; [exact Hq|]. rewrite <- Ec2. by apply followed_idle. }
  destruct exit; [|by apply Hstop|by apply Hstop].
  assert (is_u64 c) as Huc.
  { destruct Hcase as [->|[? _]]; [done|]. pose proof (sh_last _ _ _ _ Hs).
    unfold is_u64, is_idx, two63, two64 in *. lia. }
  eapply wp_mono; [apply (wp_applyCommitted n2 t base bterm last); [done|done|by rewrite El2|by rewrite Ec2]|].
  intros _ n3 (t1 & t' & a' & c2 & Hap).
  destruct (apply_followed n2 t base bterm last n3 t1 t' a' c2) as (base' & bterm' & Hfo);
    [done|by rewrite El2|by rewrite Ec2|done|].
  exists c, t', base', bterm'. split_and!; [done|auto|].
  eapply followed_commit; [exact Hq|]. by rewrite <- Ec2.
Qed.

(** ** The request for a peer *)

Definition next_of n (peer : string) : Z :=
  if map_get (nextIndex n) peer =? 0 then 1 else map_get (nextIndex n) peer.

(** The entries of a request are rows of the log. *)
Definition rows_of_log (t : tables) (es : list Entry) : Prop :=
  ∀ e, e ∈ es → ∃ r, log_entries t !! Entry_Index e = Some r
    ∧ Entry_Term e = uint64 r.1 ∧ Entry_Command e = r.2.

(** A request cut from the log: up to 128 entries after the previous index. *)
Record cut_from n (t : tables) (base bterm last : Z) (req : AppendEntriesRequest) : Prop := {
  cf_term : AppendEntriesRequest_Term req = currentTerm n;
  cf_leader : AppendEntriesRequest_LeaderId req = node_id n;
  cf_commit : AppendEntriesRequest_LeaderCommit req = commitIndex n;
  cf_prev : base <= AppendEntriesRequest_PrevLogIndex req <= last;
  cf_prevterm : term_at t base bterm (AppendEntriesRequest_PrevLogIndex req)
    = Some (AppendEntriesRequest_PrevLogTerm req);
  cf_chunk : chunk (AppendEntriesRequest_PrevLogIndex req) (entries_of req);
  cf_rows : rows_of_log t (entries_of req);
  cf_match : match_index req
    = Z.min (AppendEntriesRequest_PrevLogIndex req + appendBatchSize) last
}.

Definition prepare_post n t base bterm last (peer : string) (a : attempt) (n' : Node) : Prop :=
  (∃ nx, quiet (set_nextIndex nx n) n') ∧
  match a with
  | SendAppend term lastSent req =>
      role n = RoleLeader ∧ term = currentTerm n ∧ lastSent = match_index req
      ∧ AppendEntriesRequest_PrevLogIndex req + 1 = next_of n peer
      ∧ cut_from n t base bterm last req
  | SendSnapshot snap req =>
      role n = RoleLeader ∧ next_of n peer <= base ∧ snap = spec_LoadSnapshot t
      ∧ req = mkInstallSnapshotRequest (currentTerm n) (node_id n)
          (LastIncludedIndex snap) (LastIncludedTerm snap) (Data snap)
  | AttemptContinue =>
      role n = RoleLeader ∧ last + 1 < next_of n peer
      ∧ map_get (nextIndex n') peer = next_of n peer - 1
  | AttemptReturn b => b = false ∧ (role n ≠ RoleLeader ∨ ¬ sound (store n))
  end.

Lemma chunk_last p es :
  chunk p es → default p (Entry_Index <$> list.last es) = p + Z.of_nat (length es).
Proof.
  destruct es as [|e es _] using rev_ind; cbn; [lia|].
  rewrite chunk_app. intros [_ [He _]]. rewrite last_snoc. cbn. rewrite He, length_app. cbn. lia.
Qed.

Lemma entries_wire (es : list Entry) : entry_of_wire <$> (wire_entry <$> es) = es.
Proof. rewrite <- list_fmap_compose. rewrite <- (list_fmap_id es) at 2. apply list_fmap_ext. by intros ? []. Qed.

Lemma wp_peer_error msg peer e n (Q : attempt → Node → Prop) :
  (∀ n', quiet n n' → Q (AttemptReturn false) n') → wp (peer_error msg peer e) Q n.
Proof. intros H. unfold peer_error. wp_skip as n' Hq. wp_pure. by apply H. Qed.

Lemma wp_replicatePeer_prepare n t base bterm last peer :
  view (store n) = Idle t → shape t base bterm last → is_idx (last + 1) →
  is_u64 (map_get (nextIndex n) peer) →
  wp (replicatePeer_prepare peer) (prepare_post n t base bterm last peer) n.
Proof.
  intros Hv Hs Hroom Hu. pose proof (sh_base _ _ _ _ Hs) as Hb.
  unfold replicatePeer_prepare. wp_pure.
  destruct (bool_decide_reflect (role n = RoleLeader)) as [Hlead|Hnl]; cbn [negb].
  2: { wp_pure. split; [exists (nextIndex n)|by split; [|left]].
       by replace (set_nextIndex (nextIndex n) n) with n by (by destruct n). }
  wp_pure. eapply (wp_mono _ (λ next n1, next = next_of n peer ∧ ∃ nx, n1 = set_nextIndex nx n
    ∧ map_get nx peer = next_of n peer)).
  { unfold next_of. destruct (Z.eqb_spec (map_get (nextIndex n) peer) 0) as [E0|Hne]; wp_pure.
    - split; [done|]. eexists. split; [reflexivity|]. apply map_get_insert_eq.
    - split; [done|]. exists (nextIndex n). split; [by destruct n|done]. }
  intros next n1 (-> & nx & -> & Hnx). set (next := next_of n peer) in *.
  assert (0 < next ∧ is_u64 next) as [Hpos Hun].
  { subst next. unfold next_of, is_u64 in *. destruct (Z.eqb_spec (map_get (nextIndex n) peer) 0); [|lia].
    unfold two64. lia. }
  set (n1 := set_nextIndex nx n). wp_pure.
  assert (∀ n', quiet n1 n' → ¬ sound (store n) →
    prepare_post n t base bterm last peer (AttemptReturn false) n') as Herr.
  { intros n' Hq Hns. split; [by exists nx|]. split; [done|by right]. }
  eapply wp_reads; [apply reads_SnapshotIndexTerm|apply wf_SnapshotIndexTerm|exact Hv| |].
  2: { intros e n2 Hns Hq2. apply wp_peer_error. intros n3 Hq3. apply Herr; [by etrans|done]. }
  intros [si st] n2 Ha Hq2. rewrite (sh_meta _ _ _ _ Hs) in Ha. injection Ha as <- <-.
  assert (view (store n2) = Idle t) as Hv2 by (by apply (quiet_view n1)).
  destruct (Z.leb_spec next base) as [Hnb|Hnb].
  { wp_pure. eapply wp_reads; [apply reads_LoadSnapshot|done|exact Hv2| |].
    - intros snap n3 Ha Hq3. injection Ha as <-. wp_pure. split; [exists nx; by etrans|].
      by split_and!.
    - intros e n3 Hns Hq3. apply wp_peer_error. intros n4 Hq4. apply Herr.
      + etrans; [exact Hq2|]. by etrans.
      + intros H. apply Hns, (quiet_sound _ _ Hq2), H. }
  assert (next -64 1 = next - 1) as -> by (apply u64_sub_id; [done|lia]).
  wp_pure. eapply wp_reads; [apply reads_Term|apply wf_Term|exact Hv2| |].
  2: { intros e n3 Hns Hq3. apply wp_peer_error. intros n4 Hq4. apply Herr.
       - etrans; [exact Hq2|]. by etrans.
       - intros H. apply Hns, (quiet_sound _ _ Hq2), H. }
  intros [pt b] n3 Ha Hq3. assert (is_u64 (next - 1)) as Hup by (unfold is_u64 in *; lia).
  rewrite (spec_Term_shape _ _ _ _ Hs) in Ha by done.
  assert (quiet n1 n3) as Hq13 by (by etrans).
  destruct (term_at t base bterm (next - 1)) as [pt'|] eqn:Et; cbn in Ha; injection Ha as <- <-;
    cbn [negb andb orb].
  2: { assert (last < next - 1) as Hgt.
       { unfold term_at in Et. destruct (Z.eqb_spec (next - 1) 0); [done|].
         destruct (Z.eqb_spec (next - 1) base); [done|].
         destruct (decide (next - 1 <= last)); [|lia].
         assert (is_Some (log_entries t !! (next - 1))) as [r Hr] by (apply (sh_dense _ _ _ _ Hs); lia).
         by rewrite Hr in Et. }
       destruct (Z.leb_spec (next - 1) base); [lia|]. cbn [negb andb orb]. wp_pure. pose proof Hq13 as [E3 _].
       split; [|split_and!; [done|lia|]].
       - exists (<[peer := maxUint64 1 (next - 1)]> nx). rewrite E3. split; [done|]. cbn.
         intros t0 Ht0. by apply Hq13.
       - cbn. rewrite map_get_insert_eq. unfold maxUint64.
         by destruct (Z.ltb_spec (next - 1) 1); [lia|]. }
  wp_pure.
  assert (base <= next - 1 <= last) as Hp.
  { split; [lia|]. eapply (term_at_range t base bterm last); [done|lia|done]. }
  assert (is_idx next) as Hin by (unfold is_idx in *; lia).
  destruct (spec_EntriesFrom_shape t base bterm last Hs next appendBatchSize)
    as (es & Ees & Hch & Hlen & Hrows); [lia|done|unfold appendBatchSize; lia|].
  assert (view (store n3) = Idle t) as Hv3 by (by apply (quiet_view n1)).
  eapply wp_reads; [apply reads_EntriesFrom|apply wf_EntriesFrom|exact Hv3| |].
  2: { intros e n4 Hns Hq4. apply wp_peer_error. intros n5 Hq5. apply Herr.
       - etrans; [exact Hq13|]. by etrans.
       - intros H. apply Hns, (quiet_sound _ _ Hq13), H. }
  intros es' n4 Ha Hq4. rewrite Ees in Ha. injection Ha as <-. wp_pure.
  split; [exists nx; by etrans|]. cbn. split_and!; [done|done| |lia|].
  - unfold match_index. cbn. rewrite length_fmap. by apply chunk_last.
  - split; cbn; rewrite ?entries_wire; try done.
    unfold match_index. cbn. rewrite length_fmap. lia.
Qed.
End leader.
