(* ===== verification/VoteLedger.v ===== *)
(** * The vote ledger: an abstract specification of voting

    What the consensus protocol needs of a node: its role, the term and vote it
    holds in memory, and the term and vote on its disk.  The operations of the
    node refine the steps below, and the facts about promises that election
    safety needs are facts about these steps alone. *)

From stdpp Require Import strings relations.
From S2P Require Import Prelude Types.
#[local] Open Scope Z_scope.

Record ledger := Ledger {
  l_role : Role;
  l_term : Z;
  l_vote : string;
  d_term : Z;
  d_vote : string
}.

Definition mem_vote (L : ledger) : Z * string := (l_term L, l_vote L).
Definition disk_vote (L : ledger) : Z * string := (d_term L, d_vote L).

(** Adopting a higher term, voting, writing the vote to disk, stepping down. *)
Inductive lstep : ledger → ledger → Prop :=
| step_raise t r m v d dv :
    m < t → is_u64 t → lstep (Ledger r m v d dv) (Ledger RoleFollower t "" d dv)
| step_vote c r m v d dv :
    v = "" ∨ v = c → lstep (Ledger r m v d dv) (Ledger r m c d dv)
| step_save r m v d dv :
    lstep (Ledger r m v d dv) (Ledger r m v m v)
| step_follow r m v d dv :
    lstep (Ledger r m v d dv) (Ledger RoleFollower m v d dv).

Definition lsteps : relation ledger := rtc lstep.

(** A vote record [(t, c)] has been given and will not be contradicted: the term
    has passed, or the vote of that term is for [c]. *)
Definition holds (t : Z) (c : string) (v : Z * string) : Prop :=
  t < v.1 ∨ (t = v.1 ∧ v.2 = c).

Definition promised (t : Z) (c : string) (L : ledger) : Prop :=
  holds t c (mem_vote L) ∧ holds t c (disk_vote L).

(** Starting an election at the next term, voting for oneself. *)
Definition elect (self : string) (L : ledger) : ledger :=
  Ledger RoleCandidate (l_term L + 1) self (d_term L) (d_vote L).

(** The ledger of a candidate whose vote for itself is on disk. *)
Definition candidacy (self : string) (L : ledger) : ledger :=
  Ledger RoleCandidate (l_term L + 1) self (l_term L + 1) self.

Definition self_voted (self : string) (L : ledger) : Prop :=
  l_role L ≠ RoleFollower → l_vote L = self.

(** Two promises of one voter for one term are for the same candidate. *)
Lemma promised_unique t c c' L : promised t c L → promised t c' L → d_term L ≤ t → c = c'.
Proof.
  unfold promised, holds. cbn. intros [_ [?|[_ <-]]] [_ [?|[_ <-]]] ?; [lia..|done].
Qed.

Section step_invariants.
Context (t : Z) (c self : string).

Lemma lstep_promised L L' : c ≠ "" → lstep L L' → promised t c L → promised t c L'.
Proof.
  intros Hc Hs. unfold promised, holds.
  destruct Hs as [t' r m v d dv Hlt _|c' r m v d dv Hv| |]; cbn;
    intros [Hm Hd]; split; try done.
  - left. destruct Hm as [?|[-> _]]; lia.
  - destruct Hm as [?|[-> Hvc]]; [by left|]. right. split; [done|].
    destruct Hv as [->| ->]; congruence.
Qed.

Lemma lsteps_promised L L' : c ≠ "" → lsteps L L' → promised t c L → promised t c L'.
Proof. intros Hc. induction 1; eauto using lstep_promised. Qed.

Lemma elect_promised L : promised t c L → promised t c (elect self L).
Proof. unfold promised, holds. cbn. intros [[?|[-> _]] Hd]; (split; [left; lia|done]). Qed.

Lemma candidacy_promised L :
  promised t c L → promised t c (candidacy self L).
Proof. unfold promised, holds. cbn. intros [[?|[-> _]] Hd]; (split; left; lia). Qed.

Lemma lstep_self_voted L L' : self ≠ "" → lstep L L' → self_voted self L → self_voted self L'.
Proof.
  intros Hs Hst. unfold self_voted.
  destruct Hst as [|c' r m v d dv Hv| |]; cbn; try done.
  intros Hself Hr. specialize (Hself Hr). destruct Hv as [->| ->]; congruence.
Qed.

Lemma lsteps_self_voted L L' : self ≠ "" → lsteps L L' → self_voted self L → self_voted self L'.
Proof. intros Hs. induction 1; eauto using lstep_self_voted. Qed.
End step_invariants.

(** No step promotes a node, and a node that keeps a role other than follower
    keeps its term. *)
Lemma lstep_role L L' :
  lstep L L' → l_role L' ≠ RoleFollower → l_role L = l_role L' ∧ l_term L = l_term L'.
Proof. destruct 1; by cbn. Qed.

Lemma lsteps_role L L' :
  lsteps L L' → l_role L' ≠ RoleFollower → l_role L = l_role L' ∧ l_term L = l_term L'.
Proof.
  induction 1 as [|L1 L2 L3 H12 _ IH]; [done|]. intros Hr.
  destruct (IH Hr) as [Hr2 <-]. rewrite <- Hr2 in *. by apply lstep_role.
Qed.

(** Terms in memory and on disk never decrease, as long as the disk is not ahead. *)
Definition disk_behind (L : ledger) : Prop := d_term L <= l_term L.

Lemma lstep_mono L L' :
  lstep L L' → disk_behind L → l_term L <= l_term L' ∧ d_term L <= d_term L' ∧ disk_behind L'.
Proof. unfold disk_behind. destruct 1; cbn; lia. Qed.

Lemma lsteps_mono L L' :
  lsteps L L' → disk_behind L → l_term L <= l_term L' ∧ d_term L <= d_term L' ∧ disk_behind L'.
Proof.
  induction 1 as [|L1 L2 L3 H12 _ IH]; [done|]. intros Hb.
  destruct (lstep_mono _ _ H12 Hb) as (? & ? & Hb2). destruct (IH Hb2) as (? & ? & ?).
  split_and!; [lia..|done].
Qed.

Lemma lstep_u64 L L' : lstep L L' → is_u64 (l_term L) → is_u64 (l_term L').
Proof. destruct 1; by cbn. Qed.
