(* ===== verification/NodeVote.v ===== *)
(** * The node refines the vote ledger

    Every operation of [Node] and [Rpc] that runs with the lock held takes the
    ledger of the node through a sequence of steps of [VoteLedger], whatever the
    driver does; starting an election is [elect], and only [becomeLeaderLocked]
    makes a leader. *)

From Stdlib Require Import Ascii String.
From stdpp Require Import strings relations.
From S2P Require Import Prelude GoStd Json Wire Logging Metrics Sql Storage StoreSpec.
From S2P Require Import Config Types Node Rpc VoteLedger.
#[local] Open Scope Z_scope.

Create HintDb vote discriminated.

Section node_vote.
Context `{D : !SqlDriver} `{L : !SqlLaws D} `{R : !GoRuntime}.

(** The ledger of a node whose store is between statements. *)
Definition has_ledger (n : Node) (l : ledger) : Prop :=
  ∃ t, view (store n) = Idle t ∧ spec_CurrentTermVote t = Some (disk_vote l)
    ∧ role n = l_role l ∧ currentTerm n = l_term l ∧ votedFor n = l_vote l
    ∧ is_u64 (l_term l).

(** The identity of the node, its peers and its compaction threshold never change. *)
Definition same_identity (n n' : Node) : Prop :=
  node_id n' = node_id n ∧ peers n' = peers n ∧ snapshotThreshold n' = snapshotThreshold n.

Definition vote_refines (n n' : Node) : Prop :=
  same_identity n n' ∧ ∀ l, has_ledger n l → ∃ l', has_ledger n' l' ∧ lsteps l l'.

#[global] Instance vote_refines_preorder : PreOrder vote_refines.
Proof.
  split.
  - intros n. split; [done|]. intros l Hl. exists l. split; [done|]. apply rtc_refl.
  - intros n1 n2 n3 [(Hi1 & Hp1 & Ht1) H12] [(Hi2 & Hp2 & Ht2) H23]. split; [split_and!; congruence|].
    intros l Hl. destruct (H12 l Hl) as (l' & Hl' & Hs).
    destruct (H23 l' Hl') as (l'' & Hl'' & Hs'). exists l''. split; [done|].
    by etrans.
Qed.

(** ** Building blocks *)

Lemma vote_modify (f : Node → Node) :
  (∀ n, node_id (f n) = node_id n ∧ peers (f n) = peers n
    ∧ snapshotThreshold (f n) = snapshotThreshold n ∧ store (f n) = store n
    ∧ role (f n) = role n ∧ currentTerm (f n) = currentTerm n ∧ votedFor (f n) = votedFor n) →
  preserves vote_refines (modify f).
Proof.
  intros H. apply preserves_modify. intros n. destruct (H n) as (Hi & Hp & Hth & Hst & Hr & Ht & Hv).
  split; [done|]. intros l (t & Hl). exists l. split; [|apply rtc_refl].
  exists t. by rewrite Hst, Hr, Ht, Hv.
Qed.

Lemma vote_store_idle (n : Node) c t t' :
  view (store n) = Idle t → view c = Idle t' →
  spec_CurrentTermVote t' = spec_CurrentTermVote t →
  vote_refines n (set_store c n).
Proof.
  intros Hv Hc He. split; [done|]. intros l (t0 & Hl). exists l. split; [|apply rtc_refl].
  destruct Hl as (Hv0 & Hl). rewrite Hv in Hv0. simplify_eq.
  exists t'. split; [done|]. by rewrite He.
Qed.

(** A connection that is not idle has no ledger: nothing to show. *)
Lemma vote_refines_idle (n n' : Node) :
  same_identity n n' → (∀ t, view (store n) = Idle t → vote_refines n n') → vote_refines n n'.
Proof.
  intros Hi H. split; [done|]. intros l Hl. pose proof Hl as (t & Hv & _).
  by apply (H t Hv).
Qed.

Lemma vote_reads {A} (m : ST conn (result A)) f :
  reads m f → preserves vote_refines (with_store m).
Proof.
  intros Hm n. unfold with_store. apply vote_refines_idle; [by destruct (m (store n))|].
  intros t Hv. pose proof (Hm (store n) t Hv) as [Hv' _].
  destruct (m (store n)) as [r c]. by eapply vote_store_idle.
Qed.

Lemma vote_refines_store {A} pre (m : ST conn (result A)) f :
  refines pre m f →
  (∀ t a t', f t = Some (a, t') → spec_CurrentTermVote t' = spec_CurrentTermVote t) →
  preserves vote_refines (with_store m).
Proof.
  intros Hm Hf n. unfold with_store. apply vote_refines_idle; [by destruct (m (store n))|].
  intros t Hv. pose proof (Hm (store n) t Hv) as [Hr _].
  destruct (m (store n)) as [[a|e] c]; cbn in Hr.
  - destruct Hr as (t' & Ef & Hc). eapply vote_store_idle; [done..|]. by eapply Hf.
  - by eapply vote_store_idle.
Qed.

(** ** The vote on disk is two metadata rows *)

Definition same_vote_rows (t t' : tables) : Prop :=
  metadata t' !! "current_term" = metadata t !! "current_term"
  ∧ metadata t' !! "voted_for" = metadata t !! "voted_for".

Lemma spec_CurrentTermVote_rows t t' :
  same_vote_rows t t' → spec_CurrentTermVote t' = spec_CurrentTermVote t.
Proof. intros [H1 H2]. unfold spec_CurrentTermVote, meta_uint. by rewrite H1, H2. Qed.

Lemma put_meta_rows k v t :
  k ≠ "current_term" → k ≠ "voted_for" → same_vote_rows t (put_meta k v t).
Proof. intros. split; cbn; by rewrite lookup_insert_ne. Qed.

Lemma put_snapshot_rows snap t : same_vote_rows t (put_snapshot snap t).
Proof. split; cbn; by rewrite !lookup_insert_ne. Qed.

Lemma spec_CurrentTermVote_save term v t :
  is_u64 term → spec_CurrentTermVote (spec_SaveTermVote term v t) = Some (term, v).
Proof.
  intros Ht. unfold spec_CurrentTermVote, meta_uint, spec_SaveTermVote, put_meta. cbn.
  rewrite (lookup_insert_ne _ "voted_for" "current_term") by done.
  rewrite !lookup_insert_eq. cbn. by rewrite ParseUint_FormatUint.
Qed.

Lemma vote_LastIndexAndTerm : preserves vote_refines (with_store LastIndexAndTerm).
Proof. eapply vote_reads, reads_LastIndexAndTerm. Qed.
Lemma vote_SnapshotIndexTerm : preserves vote_refines (with_store SnapshotIndexTerm).
Proof. eapply vote_reads, reads_SnapshotIndexTerm. Qed.
Lemma vote_Term i : preserves vote_refines (with_store (Term i)).
Proof. eapply vote_reads, reads_Term. Qed.
Lemma vote_Entry i : preserves vote_refines (with_store (get_Entry i)).
Proof. eapply vote_reads, reads_Entry. Qed.
Lemma vote_EntriesFrom i k : preserves vote_refines (with_store (EntriesFrom i k)).
Proof. eapply vote_reads, reads_EntriesFrom. Qed.
Lemma vote_LoadSnapshot : preserves vote_refines (with_store LoadSnapshot).
Proof. eapply vote_reads, reads_LoadSnapshot. Qed.
Lemma vote_Get k : preserves vote_refines (with_store (Get k)).
Proof. eapply vote_reads, reads_Get. Qed.

Lemma vote_store_AppendEntries es : preserves vote_refines (with_store (store_AppendEntries es)).
Proof. eapply vote_refines_store; [apply refines_AppendEntries|]. by intros t a t' [= _ <-]. Qed.
Lemma vote_DeleteFrom i : preserves vote_refines (with_store (DeleteFrom i)).
Proof. eapply vote_refines_store; [apply refines_DeleteFrom|]. by intros t a t' [= _ <-]. Qed.
Lemma vote_ApplySet i k v : preserves vote_refines (with_store (ApplySet i k v)).
Proof.
  eapply vote_refines_store; [apply refines_ApplySet|]. intros t a t' [= _ <-].
  apply spec_CurrentTermVote_rows. unfold spec_ApplySet.
  by apply (put_meta_rows _ _ (set_kv _ t)).
Qed.
Lemma vote_CreateSnapshot i tm : preserves vote_refines (with_store (CreateSnapshot i tm)).
Proof.
  eapply vote_refines_store; [apply refines_CreateSnapshot|]. intros t a t' [= _ <-].
  apply spec_CurrentTermVote_rows, put_snapshot_rows.
Qed.
Lemma vote_store_InstallSnapshot snap :
  preserves vote_refines (with_store (store_InstallSnapshot snap)).
Proof.
  eapply vote_refines_store; [apply refines_InstallSnapshot|]. intros t a t' Hf.
  unfold spec_InstallSnapshot in Hf. destruct (decode_snapshot _); simplify_eq/=.
  apply spec_CurrentTermVote_rows. split; cbn; by rewrite !lookup_insert_ne.
Qed.
End node_vote.

#[export] Hint Resolve vote_LastIndexAndTerm vote_SnapshotIndexTerm vote_Term vote_Entry
  vote_EntriesFrom vote_LoadSnapshot vote_Get vote_store_AppendEntries vote_DeleteFrom
  vote_ApplySet vote_CreateSnapshot vote_store_InstallSnapshot : vote.
#[export] Hint Extern 5 (preserves vote_refines (modify _)) =>
  apply vote_modify; intros ?; by split_and! : vote.

(** Discharge [preserves vote_refines] of a computation. *)
Ltac solve_vote := preserve ltac:(first [solve [eauto with vote] | idtac]).

Section node_operations.
Context `{D : !SqlDriver} `{L : !SqlLaws D} `{R : !GoRuntime}.

(** ** Operations that do not vote *)

Lemma vote_call_env {A} (f : Env → A) : preserves vote_refines (call_env f).
Proof. unfold call_env. solve_vote. Qed.
#[local] Hint Resolve vote_call_env : vote.

Lemma vote_log level msg fields : preserves vote_refines (log level msg fields).
Proof. unfold log, time_Now. solve_vote. Qed.
#[local] Hint Resolve vote_log : vote.

Lemma vote_logError msg e : preserves vote_refines (logError msg e).
Proof. unfold logError. solve_vote. Qed.

Lemma vote_on_metrics f : preserves vote_refines (on_metrics f).
Proof. unfold on_metrics. solve_vote. Qed.

Lemma vote_go t : preserves vote_refines (go t).
Proof. unfold go. solve_vote. Qed.
#[local] Hint Resolve vote_logError vote_on_metrics vote_go : vote.

Lemma vote_resetElectionDeadlineLocked : preserves vote_refines resetElectionDeadlineLocked.
Proof. unfold resetElectionDeadlineLocked, Int63n, time_Now. solve_vote. Qed.

Lemma vote_refreshMetricsLocked : preserves vote_refines refreshMetricsLocked.
Proof. unfold refreshMetricsLocked. solve_vote. Qed.
#[local] Hint Resolve vote_resetElectionDeadlineLocked vote_refreshMetricsLocked : vote.

Lemma vote_compactIfNeededLocked : preserves vote_refines compactIfNeededLocked.
Proof. unfold compactIfNeededLocked. solve_vote. Qed.

Lemma vote_apply_one : preserves vote_refines apply_one.
Proof. unfold apply_one. solve_vote. Qed.
#[local] Hint Resolve vote_compactIfNeededLocked vote_apply_one : vote.

Lemma vote_apply_loop fuel : preserves vote_refines (apply_loop fuel).
Proof. induction fuel as [|fuel IH]; cbn [apply_loop]; solve_vote. Qed.
#[local] Hint Resolve vote_apply_loop : vote.

Lemma vote_applyCommittedLocked : preserves vote_refines applyCommittedLocked.
Proof. unfold applyCommittedLocked. solve_vote. Qed.

Lemma vote_advance_one m i : preserves vote_refines (advance_one m i).
Proof. unfold advance_one. solve_vote. Qed.
#[local] Hint Resolve vote_applyCommittedLocked vote_advance_one : vote.

Lemma vote_advance_loop fuel m la i : preserves vote_refines (advance_loop fuel m la i).
Proof. revert i. induction fuel as [|fuel IH]; intros i; cbn [advance_loop]; solve_vote. Qed.
#[local] Hint Resolve vote_advance_loop : vote.

Lemma vote_advanceCommitLocked : preserves vote_refines advanceCommitLocked.
Proof. unfold advanceCommitLocked. solve_vote. Qed.
#[local] Hint Resolve vote_advanceCommitLocked : vote.

Lemma vote_replicatePeer_prepare p : preserves vote_refines (replicatePeer_prepare p).
Proof. unfold replicatePeer_prepare, peer_error. solve_vote. Qed.
#[local] Hint Resolve vote_replicatePeer_prepare : vote.

Lemma vote_replicateAllOnce_begin : preserves vote_refines replicateAllOnce_begin.
Proof. unfold replicateAllOnce_begin. solve_vote. Qed.

Lemma vote_run_tick h : preserves vote_refines (run_tick h).
Proof. unfold run_tick, time_Now. solve_vote. Qed.

Lemma vote_Write_begin req : preserves vote_refines (Write_begin req).
Proof. unfold Write_begin. solve_vote. Qed.

Lemma vote_Write_round k i t d : preserves vote_refines (Write_round k i t d).
Proof. unfold Write_round. solve_vote. Qed.

Lemma vote_Read_begin req : preserves vote_refines (Read_begin req).
Proof. unfold Read_begin. solve_vote. Qed.

Lemma vote_Read_check k : preserves vote_refines (Read_check k).
Proof. unfold Read_check. solve_vote. Qed.

Lemma vote_Read_get req : preserves vote_refines (Read_get req).
Proof. unfold Read_get. solve_vote. Qed.

Lemma vote_Status : preserves vote_refines Status.
Proof. unfold Status. solve_vote. Qed.

(** ** Stepping down *)

(** Writing the vote held in memory: done on disk, or not at all. *)
Lemma save_ledger n l :
  has_ledger n l →
  let '(r, n') := with_store (SaveTermVote (currentTerm n) (votedFor n)) n in
  n' = set_store (store n') n ∧
  has_ledger n' (if is_ok r then Ledger (l_role l) (l_term l) (l_vote l) (l_term l) (l_vote l)
                 else l).
Proof.
  intros (t & Hv & Hd & Hr & Ht & Hvo & Hu). unfold with_store.
  pose proof (refines_SaveTermVote (currentTerm n) (votedFor n) (store n) t Hv) as [Hs _].
  destruct (SaveTermVote _ _ _) as [[[]|e] c]; cbn in *; (split; [done|]).
  - destruct Hs as (t' & [= <-] & Hc). exists (spec_SaveTermVote (currentTerm n) (votedFor n) t).
    split_and!; try done. rewrite spec_CurrentTermVote_save by congruence.
    unfold disk_vote. cbn. by rewrite Ht, Hvo.
  - exists t. split_and!; done.
Qed.

Lemma log_frame level msg fields n :
  (log level msg fields n).2 = set_logger (logger (log level msg fields n).2)
    (set_world (world (log level msg fields n).2) n).
Proof. by destruct n. Qed.

(** What a ledger depends on. *)
Lemma has_ledger_frame n n' l :
  store n' = store n → role n' = role n → currentTerm n' = currentTerm n →
  votedFor n' = votedFor n → has_ledger n l → has_ledger n' l.
Proof. intros Hs Hr Ht Hv (t & Hl). exists t. by rewrite Hs, Hr, Ht, Hv. Qed.

Lemma vote_stepDownLocked term leader :
  is_u64 term → preserves vote_refines (stepDownLocked term leader).
Proof.
  intros Hu. unfold stepDownLocked. apply preserves_gets_bind. intros n.
  rewrite !bind_unfold. etrans; [|apply vote_refreshMetricsLocked].
  etrans; [|apply vote_resetElectionDeadlineLocked].
  etrans; [|by apply vote_modify; intros; split_and!]. cbn [modify fst snd].
  destruct (Z.ltb_spec (currentTerm n) term) as [Hlt|Hge].
  - set (n1 := set_votedFor "" (set_currentTerm term n)).
    rewrite !bind_unfold. cbn [modify gets fst snd]. fold n1.
    assert (∀ l, has_ledger n l →
      has_ledger n1 (Ledger (l_role l) term "" (d_term l) (d_vote l))) as Hn1.
    { intros l (t & Hv & Hd & Hr & Ht & Hvo & _). by exists t. }
    pose proof (λ l H, save_ledger n1 _ (Hn1 l H)) as Hsave.
    destruct (with_store _ n1) as [r n2] eqn:E2.
    assert (same_identity n n2) as Hid.
    { unfold with_store in E2. destruct (SaveTermVote _ _ _). by simplify_eq. }
    cbn [fst snd].
    set (n3 := (match r with Ok _ => mret tt | Err e => logError "failed to persist higher term" e end n2).2).
    assert (same_identity n n3 ∧ store n3 = store n2 ∧ currentTerm n3 = currentTerm n2
      ∧ votedFor n3 = votedFor n2) as (Hid3 & Hs3 & Ht3 & Hv3).
    { subst n3. by destruct r as [[]|e]; cbn. }
    split; [done|]. intros l Hl. destruct (Hsave l Hl) as [_ (t & Hv & Hd & Hr & Ht & Hvo & _)].
    exists (Ledger RoleFollower term ""
      (if is_ok r then term else d_term l) (if is_ok r then "" else d_vote l)).
    split.
    + exists t. cbn. rewrite Hs3, Ht3, Hv3. split_and!; try done.
      * rewrite Hd. by destruct r.
      * rewrite Ht. by destruct r.
      * rewrite Hvo. by destruct r.
    + destruct Hl as (t0 & _ & _ & _ & Ht0 & _). destruct l as [lr lt lv ldt ldv]. cbn in *.
      subst lt. eapply rtc_l; [by apply step_raise|].
      destruct r; cbn; [eapply rtc_once, step_save|apply rtc_refl].
  - split; [done|]. intros l (t & Hv & Hd & Hr & Ht & Hvo & Hu').
    exists (Ledger RoleFollower (l_term l) (l_vote l) (d_term l) (d_vote l)). split.
    + by exists t.
    + destruct l. eapply rtc_once, step_follow.
Qed.
#[local] Hint Resolve vote_stepDownLocked : vote.

Lemma vote_follow_leader term leader :
  is_u64 term → preserves vote_refines (follow_leader term leader).
Proof. intros Hu. unfold follow_leader. solve_vote. Qed.
#[local] Hint Resolve vote_follow_leader : vote.

(** ** The RPCs that follow a leader *)

Lemma vote_count_rpc m r : preserves vote_refines (count_rpc m r).
Proof. apply vote_on_metrics. Qed.
#[local] Hint Resolve vote_count_rpc : vote.

Lemma vote_rpc_error {A} m e : preserves vote_refines (rpc_error (A := A) m e).
Proof. unfold rpc_error. solve_vote. Qed.
#[local] Hint Resolve vote_rpc_error : vote.

Lemma vote_reconcile es : preserves vote_refines (reconcile es).
Proof. induction es as [|e es IH]; cbn [reconcile]; solve_vote. Qed.
#[local] Hint Resolve vote_reconcile : vote.

Lemma vote_append_all es : preserves vote_refines (append_all es).
Proof. unfold append_all. solve_vote. Qed.
#[local] Hint Resolve vote_append_all : vote.

Lemma vote_accept_entries req i : preserves vote_refines (accept_entries req i).
Proof. unfold accept_entries, append_reply. solve_vote. Qed.
#[local] Hint Resolve vote_accept_entries : vote.

Lemma vote_AppendEntries req :
  wf_AppendEntriesRequest req → preserves vote_refines (AppendEntries req).
Proof. intros [Hu _]. unfold AppendEntries, append_reply, lastIndex_or_zero. solve_vote. Qed.

Lemma vote_InstallSnapshot req :
  wf_InstallSnapshotRequest req → preserves vote_refines (InstallSnapshot req).
Proof. intros [Hu _]. unfold InstallSnapshot, snapshot_reply. solve_vote. Qed.

Lemma vote_append_reply p t la resp :
  is_u64 (AppendEntriesResponse_GetTerm resp) →
  preserves vote_refines (replicatePeer_append_reply p t la resp).
Proof. intros Hu. unfold replicatePeer_append_reply. solve_vote. Qed.

Lemma vote_snapshot_reply p snap resp :
  is_u64 (InstallSnapshotResponse_GetTerm resp) →
  preserves vote_refines (replicatePeer_snapshot_reply p snap resp).
Proof. intros Hu. unfold replicatePeer_snapshot_reply. solve_vote. Qed.
End node_operations.
