(* ===== verification/Voting.v ===== *)
(** * Voting: the operations that give and collect votes

    [RequestVote], [startElection], the vote goroutines, [becomeLeaderLocked] and
    a restart, each against the vote ledger: what they promise, and that the
    promise is on disk before it is told. *)

From Stdlib Require Import Ascii String.
From stdpp Require Import strings relations.
From S2P Require Import Prelude GoStd Json Wire Logging Metrics Sql Storage StoreSpec.
From S2P Require Import Config Types Node Rpc NodeFrame VoteLedger NodeVote.
#[local] Open Scope Z_scope.

Section voting.
Context `{D : !SqlDriver} `{L : !SqlLaws D} `{R : !GoRuntime}.
Implicit Types (n : Node) (l : ledger).

Lemma quiet_ledger n n' l : quiet n n' → has_ledger n l → has_ledger n' l.
Proof.
  intros [E Hs] (t & Hv & Hd & Hr & Ht & Hvo & Hu). exists t. destruct (Hs t Hv) as [Hv' _].
  split; [done|]. rewrite E. by destruct n.
Qed.

Lemma quiet_identity n n' : quiet n n' → same_identity n n'.
Proof. intros [-> _]. done. Qed.

Lemma quiet_term n n' : quiet n n' → currentTerm n' = currentTerm n.
Proof. intros [E _]. by rewrite E. Qed.

(** The ledger is a function of the node. *)
Lemma has_ledger_inj n l l' : has_ledger n l → has_ledger n l' → l = l'.
Proof.
  intros (t & Hv & Hd & Hr & Ht & Hvo & _) (t' & Hv' & Hd' & Hr' & Ht' & Hvo' & _).
  assert (t' = t) as -> by congruence. rewrite Hd in Hd'. injection Hd' as Hd1 Hd2.
  destruct l, l'; cbn in *; congruence.
Qed.

Lemma same_identity_trans n1 n2 n3 :
  same_identity n1 n2 → same_identity n2 n3 → same_identity n1 n3.
Proof. intros (? & ? & ?) (? & ? & ?). split_and!; congruence. Qed.

(** A computation refining votes, run from a node with a ledger. *)
Lemma wp_vote {A} (m : ST Node A) n l (Q : A → Node → Prop) :
  preserves vote_refines m → has_ledger n l →
  (∀ a n' l', m n = (a, n') → same_identity n n' → has_ledger n' l' → lsteps l l' → Q a n') →
  wp m Q n.
Proof.
  intros Hm Hl HQ. destruct (Hm n) as [Hid Hs]. destruct (Hs l Hl) as (l' & Hl' & Hst).
  eapply HQ; [by destruct (m n)|done..].
Qed.

(** ** Stepping down leaves the node in the greater term *)

Lemma stepDown_term term leader n :
  wp (stepDownLocked term leader) (λ _ n', currentTerm n' = Z.max (currentTerm n) term
    ∧ role n' = RoleFollower) n.
Proof.
  unfold stepDownLocked. wp_pure.
  set (k := λ n1 : Node, currentTerm n1 = Z.max (currentTerm n) term).
  eapply (wp_mono _ (λ _, k)).
  - destruct (Z.ltb_spec (currentTerm n) term) as [Hlt|Hge].
    + wp_pure. unfold wp, with_store. cbn.
      destruct (SaveTermVote _ _ _) as [[[]|e] c]; unfold k; [cbn; lia|].
      etrans; [apply quiet_term, quiet_logError|]. cbn. lia.
    + wp_pure. unfold k. lia.
  - intros _ n1 Hk. wp_pure.
    apply wp_quiet; [apply quiet_resetElectionDeadlineLocked|]. intros _ n2 [E2 _].
    apply wp_quiet; [apply quiet_refreshMetricsLocked|]. intros _ n3 [E3 _].
    by rewrite E3, E2.
Qed.

(** ** RequestVote *)

Definition granted (r : result RequestVoteResponse) : bool :=
  match r with Ok resp => RequestVoteResponse_VoteGranted resp | Err _ => false end.

(** A vote for [c] at [t] that is in memory and on disk. *)
Definition voted (t : Z) (c : string) (l : ledger) : Prop :=
  mem_vote l = (t, c) ∧ disk_vote l = (t, c).

Lemma voted_promised t c l : voted t c l → promised t c l.
Proof. intros [Hm Hd]. unfold promised, holds. rewrite Hm, Hd. auto. Qed.


Lemma ledger_u64 n l : has_ledger n l → is_u64 (currentTerm n).
Proof. by intros (t & _ & _ & _ & -> & _ & Hu). Qed.

(** What a reply promises: a granted vote is for the sender, in its term, and is
    on disk. *)
Definition reply_ok (req : option RequestVoteRequest) (l0 l : ledger)
    (r : result RequestVoteResponse) : Prop :=
  lsteps l0 l ∧
  (∀ resp, r = Ok resp → is_u64 (RequestVoteResponse_Term resp)) ∧
  (granted r = true →
   voted (RequestVoteRequest_GetTerm req) (RequestVoteRequest_GetCandidateId req) l).

Definition reply_post req l0 n r n' : Prop :=
  same_identity n n' ∧ ∃ l, has_ledger n' l ∧ reply_ok req l0 l r.

(** The rejecting branches. *)
Lemma reject_ledger req n0 n l0 l m r' :
  same_identity n0 n → lsteps l0 l → has_ledger n l →
  wp (_ ← count_rpc m r'; vote_reply false) (reply_post req l0 n0) n.
Proof.
  intros Hi Hs Hl. unfold vote_reply. wp_pure.
  apply wp_quiet; [apply quiet_count_rpc|]. intros _ n' Hq. wp_pure.
  split; [by eapply same_identity_trans, quiet_identity|].
  pose proof (quiet_ledger _ _ _ Hq Hl) as Hl'.
  exists l. split; [done|]. split_and!; [done| |done]. intros ? [= <-]. by eapply ledger_u64.
Qed.

Lemma rpc_error_ledger req n0 n l0 l m e :
  same_identity n0 n → lsteps l0 l → has_ledger n l →
  wp (rpc_error m e) (reply_post req l0 n0) n.
Proof.
  intros Hi Hs Hl. unfold rpc_error. wp_pure.
  apply wp_quiet; [apply quiet_count_rpc|]. intros _ n' Hq. wp_pure.
  split; [by eapply same_identity_trans, quiet_identity|].
  exists l. split; [by eapply quiet_ledger|]. by split.
Qed.

(** Voting for [c] in memory, when the vote is free or already for [c]. *)
Lemma ledger_vote n l c :
  has_ledger n l → votedFor n = "" ∨ votedFor n = c →
  let l' := Ledger (l_role l) (l_term l) c (d_term l) (d_vote l) in
  has_ledger (set_votedFor c n) l' ∧ lsteps l l'.
Proof.
  intros (t & Hv & Hd & Hr & Ht & Hvo & Hu) Hc. split.
  - by exists t.
  - destruct l as [lr lt lv dt dv]; cbn in *. subst lv. by apply rtc_once, step_vote.
Qed.

Lemma RequestVote_ledger req n l :
  is_u64 (RequestVoteRequest_GetTerm req) → has_ledger n l →
  wp (RequestVote req) (reply_post req l n) n.
Proof.
  intros Hu Hl. unfold RequestVote. rewrite wp_bind, wp_gets.
  destruct (Z.ltb_spec (RequestVoteRequest_GetTerm req) (currentTerm n)) as [Hlt|Hge].
  { by eapply reject_ledger; [|apply rtc_refl|]. }
  rewrite wp_bind.
  set (T := RequestVoteRequest_GetTerm req) in *. set (C := RequestVoteRequest_GetCandidateId req).
  eapply (wp_mono _ (λ _ n1, same_identity n n1 ∧ currentTerm n1 = T
    ∧ ∃ l1, has_ledger n1 l1 ∧ lsteps l l1)).
  { destruct (Z.ltb_spec (currentTerm n) T) as [Hlt|Hle].
    - eapply wp_mono; [apply wp_and; [|apply (stepDown_term T "" n)]|].
      + apply (wp_vote _ _ l (λ _ n1, same_identity n n1 ∧ ∃ l1, has_ledger n1 l1 ∧ lsteps l l1));
          [by apply vote_stepDownLocked|done|]. eauto.
      + cbn. intros _ n1 [[Hi Hl1] [Ht _]]. split_and!; [by apply Hi..|lia|done].
    - wp_pure. split_and!; [done..|lia|]. exists l. split; [done|apply rtc_refl]. }
  intros _ n1 (Hi & Ht & l1 & Hl1 & Hs). wp_pure.
  apply wp_quiet; [apply quiet_LastIndexAndTerm|]. intros r n2 Hq2.
  assert (same_identity n n2) as Hi2 by (eapply same_identity_trans, quiet_identity; done).
  pose proof (quiet_ledger _ _ _ Hq2 Hl1) as Hl2.
  destruct r as [[li lt]|e]; [|by eapply rpc_error_ledger].
  wp_pure. destruct (_ && _) eqn:Ecan; [|by eapply reject_ledger].
  apply andb_true_iff in Ecan as [Ecan _].
  rewrite orb_true_iff, !bool_decide_eq_true in Ecan.
  wp_pure. destruct (ledger_vote n2 l1 C Hl2 Ecan) as [Hl3 Hs3].
  pose proof (save_ledger _ _ Hl3) as Hsave. unfold wp.
  destruct (with_store _ _) as [rs n4]. destruct Hsave as [-> Hl4]. cbn.
  assert (same_identity n (set_store (store n4) (set_votedFor C n2))) as Hi4 by done.
  destruct rs as [[]|e]; cbn in Hl4.
  2: { eapply rpc_error_ledger; [done| |done]. by etrans. }
  change (wp (_ ← resetElectionDeadlineLocked; _ ← refreshMetricsLocked;
    _ ← count_rpc "RequestVote" "granted"; vote_reply true) (reply_post req l n)
    (set_store (store n4) (set_votedFor C n2))).
  unfold vote_reply. wp_skip as n5 Hq5. wp_skip as n6 Hq6. wp_skip as n7 Hq7. wp_pure.
  assert (quiet (set_store (store n4) (set_votedFor C n2)) n7) as Hq by (do 2 (etrans; [done|]); done).
  split; [by eapply same_identity_trans, quiet_identity|].
  eexists. split; [by eapply quiet_ledger|]. split_and!.
  2: { intros ? [= <-]. eapply ledger_u64, quiet_ledger; done. }
  - etrans; [exact Hs|]. etrans; [exact Hs3|]. apply rtc_once, step_save.
  - intros _. assert (l_term l1 = T) as Ht1.
    { destruct Hl2 as (? & _ & _ & _ & <- & _). destruct Hq2 as [-> _]. done. }
    unfold voted, mem_vote, disk_vote. cbn. by rewrite Ht1.
Qed.

(** ** Starting an election *)

Definition election_of (n : Node) (e : Election) : Prop :=
  el_term e = currentTerm n + 1 ∧ el_majority e = majorityLocked n ∧ el_peers e = peers n.

(** [None] leaves the node the leader it was, or a candidate nobody is asked to
    vote for; an election that goes on is on disk. *)
Definition election_post n l (r : option Election) n' : Prop :=
  same_identity n n' ∧
  match r with
  | Some e => has_ledger n' (candidacy (node_id n) l) ∧ election_of n e
  | None => n' = n ∨ has_ledger n' (elect (node_id n) l) ∨ has_ledger n' (candidacy (node_id n) l)
  end.

Lemma startElection_begin_ledger n l :
  has_ledger n l → l_term l + 1 < two64 →
  wp startElection_begin (election_post n l) n.
Proof.
  intros Hl Hb. unfold startElection_begin. rewrite wp_bind, wp_gets.
  destruct (bool_decide (role n = RoleLeader)); [by split; [|left]|].
  wp_pure. cbn [currentTerm node_id votedFor set_role set_currentTerm set_votedFor set_leaderID].
  set (n1 := set_leaderID _ _).
  assert (has_ledger n1 (elect (node_id n) l) ∧ currentTerm n +64 1 = currentTerm n + 1)
    as [Hl1 Ht1].
  { destruct Hl as (t & Hv & Hd & Hr & Ht & Hvo & Hu). unfold is_u64 in Hu.
    assert (currentTerm n +64 1 = currentTerm n + 1) as E.
    { rewrite Ht. apply u64_succ; [unfold is_u64|]; lia. }
    split; [|done]. exists t. subst n1. unfold is_u64. cbn. rewrite E, Ht.
    split_and!; done || lia. }
  pose proof (save_ledger _ _ Hl1) as Hsave. unfold wp at 1.
  destruct (with_store (SaveTermVote _ _) n1) as [rs n2]. destruct Hsave as [E2 Hl2]. cbn [fst snd].
  assert (same_identity n n2 ∧ majorityLocked n2 = majorityLocked n) as [Hi2 Hm2] by (rewrite E2; done).
  assert (∀ n3, quiet n2 n3 → same_identity n n3 ∧ majorityLocked n3 = majorityLocked n
    ∧ peers n3 = peers n) as Hq.
  { intros n3 [-> _]. split_and!; [by apply Hi2..|done|by apply Hi2]. }
  assert (∀ n3 l3, quiet n2 n3 → has_ledger n2 l3 →
    l3 = elect (node_id n) l ∨ l3 = candidacy (node_id n) l → election_post n l None n3) as Hnone.
  { intros n3 l3 Hq3 Hl3 Hor. split; [by apply Hq|]. right. 
    pose proof (quiet_ledger _ _ _ Hq3 Hl3). destruct Hor as [-> | ->]; eauto. }
  destruct rs as [[]|e]; cbn [is_ok] in Hl2.
  2: { wp_skip as n3 Hq3. wp_skip as n4 Hq4. wp_pure. eapply Hnone; [by etrans|done|by left]. }
  wp_skip as n3 Hq3. destruct a as [[li lt]|e].
  2: { wp_skip as n4 Hq4. wp_skip as n5 Hq5. wp_pure.
       eapply Hnone; [do 2 (etrans; [done|]); done|done|by right]. }
  wp_skip as n4 Hq4. wp_skip as n5 Hq5. wp_skip as n6 Hq6. wp_pure. wp_skip as n7 Hq7. wp_pure.
  assert (quiet n2 n6) as Hq26 by (do 3 (etrans; [done|]); done).
  assert (quiet n2 n7) as Hq27 by (by etrans).
  destruct (Hq n6 Hq26) as (_ & Hm6 & Hp6). destruct (Hq n7 Hq27) as (Hi7 & _ & _).
  split; [done|]. split; [by eapply quiet_ledger|]. by split_and!.
Qed.

(** ** Becoming the leader *)

Lemma preserves_for_peers (f : Peer → ST Node unit) (P : Node → Node → Prop) `{!PreOrder P} ps :
  (∀ p, preserves P (f p)) → preserves P (for_peers f ps).
Proof. intros Hf. induction ps as [|p ps IH]; cbn; preserve ltac:(auto). Qed.

(** Everything but the role is unchanged, or the role is the leader's. *)
Lemma becomeLeaderLocked_ledger n l :
  has_ledger n l → l_vote l = node_id n →
  wp becomeLeaderLocked (λ _ n', same_identity n n' ∧
    (has_ledger n' l ∨ has_ledger n' (Ledger RoleLeader (l_term l) (l_vote l) (d_term l) (d_vote l)))) n.
Proof.
  intros Hl Hvote. unfold becomeLeaderLocked. wp_skip as n1 Hq1.
  pose proof (quiet_identity _ _ Hq1) as Hi1. pose proof (quiet_ledger _ _ _ Hq1 Hl) as Hl1.
  destruct a as [[li lt]|e].
  2: { apply wp_quiet; [apply quiet_logError|]. intros _ n2 Hq2.
       split; [by eapply same_identity_trans, quiet_identity|]. left. by eapply quiet_ledger. }
  wp_pure. set (n2 := set_votedFor _ _).
  set (l2 := Ledger RoleLeader (l_term l) (l_vote l) (d_term l) (d_vote l)).
  assert (has_ledger n2 l2) as Hl2.
  { destruct Hl1 as (t & Hv & Hd & Hr & Ht & Hvo & Hu). exists t. cbn.
    split_and!; try done. destruct Hi1 as [-> _]. done. }
  set (P := λ n2 n3 : Node, same_identity n2 n3 ∧ (∀ l, has_ledger n2 l → has_ledger n3 l)).
  assert (PreOrder P) as HP.
  { split; [by intros ?|]. intros ? ? ? [? ?] [? ?]. split; [|by auto].
    by eapply same_identity_trans. }
  assert (∀ n2 n3, quiet n2 n3 → P n2 n3) as HqP.
  { intros ?? Hq. split; [by apply quiet_identity|]. intros. by eapply quiet_ledger. }
  assert (∀ f : Node → Node, (∀ n, P n (f n)) → preserves P (modify f)) as HmP by (by intros f Hf n').
  rewrite <- wp_bind. match goal with |- wp ?m _ _ => assert (preserves P m) as Hrest end.
  { preserve ltac:(idtac).
    - apply preserves_for_peers; [done|]; intros p. unfold init_peer_progress.
      preserve ltac:(first [by apply HmP | intros ?; apply HqP; apply quiet_on_metrics]).
    - by apply HmP.
    - intros ?. apply HqP, quiet_refreshMetricsLocked.
    - intros ?. apply HqP, quiet_log.
    - unfold go. by apply HmP. }
  destruct (Hrest n2) as [Hi3 Hl3]. split; [by eapply same_identity_trans|]. right. by apply Hl3.
Qed.

Definition leading (l : ledger) : ledger :=
  Ledger RoleLeader (l_term l) (l_vote l) (d_term l) (d_vote l).

(** A vote goroutine: either the answer changes nothing but, perhaps, the term; or
    it is counted, and a majority of counted votes makes the leader. *)
Lemma handleVote_ledger e resp ty n l :
  has_ledger n l → self_voted (node_id n) l → is_u64 (RequestVoteResponse_GetTerm resp) →
  wp (handleVote e resp ty) (λ ty' n', same_identity n n' ∧ ∃ l', has_ledger n' l' ∧
    ((lsteps l l' ∧ ty' = ty) ∨
     (RequestVoteResponse_GetVoteGranted resp = true ∧ votes ty' = votes ty + 1
      ∧ (l' = l ∨ l' = leading l ∧ l_vote l = node_id n ∧ l_term l = el_term e
         ∧ el_majority e <= votes ty')))) n.
Proof.
  intros Hl Hself Hu. unfold handleVote. rewrite wp_bind, wp_gets.
  destruct (Z.ltb_spec (currentTerm n) (RequestVoteResponse_GetTerm resp)) as [Hlt|Hge].
  { rewrite wp_bind. eapply wp_vote; [by apply vote_stepDownLocked|done|].
    intros _ n' l' _ Hi Hl' Hs. wp_pure. split; [done|]. eauto. }
  destruct (negb _ || _ || _) eqn:Eg.
  { wp_pure. split; [done|]. exists l. split; [done|]. left. split; [apply rtc_refl|done]. }
  rewrite !orb_false_iff, !negb_false_iff, bool_decide_eq_true, Z.eqb_eq in Eg.
  destruct Eg as [[Hrole Hterm] Hg].
  pose proof Hl as (t & _ & _ & Hr & Ht & _).
  assert (l_vote l = node_id n) as Hvote by (apply Hself; congruence).
  destruct (Z.leb_spec (el_majority e) (votes ty + 1)) as [Hm|Hm]; cbn [andb].
  2: { wp_pure. split; [done|]. exists l. split; [done|]. right. split_and!; [done..|by left]. }
  destruct (negb (won ty)).
  2: { wp_pure. split; [done|]. exists l. split; [done|]. right. split_and!; [done..|by left]. }
  rewrite wp_bind. eapply wp_mono; [by apply (becomeLeaderLocked_ledger n l)|].
  intros _ n' [Hi Hl']. wp_pure. split; [done|].
  destruct Hl' as [Hl'|Hl']; eexists; (split; [done|]); right; (split_and!; [done..|]).
  - by left.
  - right. split_and!; [done|done|congruence|done].
Qed.

Lemma startElection_single_ledger e n l :
  has_ledger n l → self_voted (node_id n) l →
  wp (startElection_single e) (λ _ n', same_identity n n' ∧ ∃ l', has_ledger n' l' ∧
    (l' = l ∨ l' = leading l ∧ l_vote l = node_id n ∧ l_term l = el_term e
       ∧ el_majority e = 1)) n.
Proof.
  intros Hl Hself. unfold startElection_single.
  assert (∃ l', has_ledger n l' ∧ (l' = l ∨ l' = leading l ∧ l_vote l = node_id n
    ∧ l_term l = el_term e ∧ el_majority e = 1)) as Hsame by eauto.
  destruct (Z.eqb_spec (el_majority e) 1) as [Hm|Hm]; [|by split].
  rewrite wp_bind, wp_gets. destruct (_ && _) eqn:Eg; [|by split].
  rewrite andb_true_iff, bool_decide_eq_true, Z.eqb_eq in Eg. destruct Eg as [Hrole Hterm].
  pose proof Hl as (t & _ & _ & Hr & Ht & _).
  assert (l_vote l = node_id n) as Hvote by (apply Hself; congruence).
  eapply wp_mono; [by apply (becomeLeaderLocked_ledger n l)|].
  intros _ n' [Hi [Hl'|Hl']]; (split; [done|]); eexists; (split; [done|]); [by left|].
  right. split_and!; [done|done|congruence|done].
Qed.

(** ** Restarting *)

(** The term and vote a process that opens the file will read. *)
Definition file_vote (file : tables) : option (Z * string) :=
  spec_CurrentTermVote (spec_init file).

Lemma spec_init_between t t' : init_between t t' → metadata (spec_init t') = metadata (spec_init t).
Proof.
  intros (H1 & H2 & _). cbn. apply map_eq. intros k. rewrite !lookup_union.
  destruct (metadata t !! k) as [v|] eqn:E.
  - rewrite (lookup_weaken _ _ _ _ E H1). by destruct (defaults !! k).
  - destruct (metadata t' !! k) as [v'|] eqn:E'; [|done].
    pose proof (lookup_weaken _ _ _ _ E' H2) as E2.
    rewrite lookup_union, E in E2. destruct (defaults !! k); by simplify_eq/=.
Qed.

Lemma file_vote_metadata t t' :
  metadata (spec_init t') = metadata (spec_init t) → file_vote t' = file_vote t.
Proof. intros H. unfold file_vote, spec_CurrentTermVote, meta_uint. by rewrite H. Qed.

Lemma spec_CurrentTermVote_u64 t v : spec_CurrentTermVote t = Some v → is_u64 v.1.
Proof.
  unfold spec_CurrentTermVote, meta_uint. intros H.
  destruct (metadata t !! "current_term") as [s|]; [|done]. cbn in H.
  destruct (ParseUint s) as [z|] eqn:E; [|done]. cbn in H.
  destruct (metadata t !! "voted_for"); [|done]. simplify_eq/=. by eapply ParseUint_range.
Qed.

Definition restarted (t : Z) (v : string) : ledger := Ledger RoleFollower t v t v.

(** A restart takes the term and the vote from the file, or fails and leaves them
    in it. *)
Lemma New_ledger opts mkdir path file env :
  let '(r, file') := New opts mkdir path file env in
  file_vote file' = file_vote file ∧
  ∀ n, r = Ok n →
    node_id n = opt_NodeID opts ∧ peers n = opt_Peers opts
    ∧ snapshotThreshold n = opt_SnapshotThreshold opts ∧ opt_NodeID opts ≠ ""
    ∧ ∃ t v, file_vote file = Some (t, v) ∧ has_ledger n (restarted t v).
Proof.
  unfold New. repeat case_bool_decide; try done.
  pose proof (Open_spec mkdir path file) as Ho.
  destruct (Open mkdir path file) as [[c|e] file1]; destruct Ho as [Hb Hc].
  2: { split; [|done]. apply file_vote_metadata. by apply spec_init_between. }
  destruct Hc as [Hv ->].
  assert (∀ c', view c' = Idle (spec_init file) → file_vote (drv_file c') = file_vote file) as Hfile.
  { intros c' Hv'. rewrite file_law, Hv'. cbn. apply file_vote_metadata, spec_init_between, Hb. }
  pose proof (reads_CurrentTermVote c _ Hv) as (Hv1 & Hr1 & _).
  destruct (CurrentTermVote c) as [[[term v]|e] c1]; cbn in Hv1, Hr1; [|by split; [apply Hfile|]].
  pose proof (reads_LastApplied c1 _ Hv1) as (Hv2 & Hr2 & _).
  destruct (LastApplied c1) as [[applied|e] c2]; cbn in Hv2, Hr2; [|by split; [apply Hfile|]].
  set (n0 := mkNode _ _ _ _ _ _ _ _ _ _ _ _ _ _ _ _ _ _ _ _ _ _ _).
  assert (preserves quiet (_ ← resetElectionDeadlineLocked; refreshMetricsLocked)) as Hq
    by solve_quiet.
  specialize (Hq n0). set (n' := (_ n0).2) in *.
  split; [apply Hfile, (quiet_view n0); done|]. intros n [= <-].
  destruct (quiet_identity _ _ Hq) as (-> & -> & ->). split_and!; [done..|].
  specialize (Hr1 _ eq_refl). exists term, v. split; [done|].
  eapply quiet_ledger; [done|]. exists (spec_init file). split_and!; try done.
  by apply (spec_CurrentTermVote_u64 _ _ Hr1).
Qed.

Lemma init_between_spec t t' : init_between t t' → spec_init t' = spec_init t.
Proof.
  intros Hb. pose proof (spec_init_between t t' Hb) as Em. destruct Hb as (_ & _ & El & Ek & Es).
  unfold spec_init, set_metadata in *. cbn in Em. by rewrite Em, El, Ek, Es.
Qed.

(** A process that starts sees the rows of the file and resumes at what it has applied. *)
Lemma New_started opts mkdir path file env :
  let '(r, file') := New opts mkdir path file env in
  spec_init file' = spec_init file ∧
  ∀ n, r = Ok n →
    view (store n) = Idle (spec_init file)
    ∧ meta_uint "last_applied" (spec_init file) = Some (lastApplied n)
    ∧ commitIndex n = lastApplied n ∧ nextIndex n = ∅ ∧ role n = RoleFollower.
Proof.
  unfold New. repeat case_bool_decide; try done.
  pose proof (Open_spec mkdir path file) as Ho.
  destruct (Open mkdir path file) as [[c|e] file1]; destruct Ho as [Hb Hc].
  2: { split; [|done]. by apply init_between_spec. }
  destruct Hc as [Hv ->].
  assert (∀ c', view c' = Idle (spec_init file) → spec_init (drv_file c') = spec_init file) as Hfile.
  { intros c' Hv'. rewrite file_law, Hv'. by apply init_between_spec. }
  pose proof (reads_CurrentTermVote c _ Hv) as (Hv1 & _ & _).
  destruct (CurrentTermVote c) as [[[term v]|e] c1]; cbn in Hv1; [|by split; [apply Hfile|]].
  pose proof (reads_LastApplied c1 _ Hv1) as (Hv2 & Hr2 & _).
  destruct (LastApplied c1) as [[applied|e] c2]; cbn in Hv2, Hr2; [|by split; [apply Hfile|]].
  set (n0 := mkNode _ _ _ _ _ _ _ _ _ _ _ _ _ _ _ _ _ _ _ _ _ _ _).
  assert (preserves quiet (_ ← resetElectionDeadlineLocked; refreshMetricsLocked)) as Hq
    by solve_quiet.
  specialize (Hq n0). set (n' := (_ n0).2) in *.
  assert (view (store n') = Idle (spec_init file)) as Hv' by (by apply (quiet_view n0)).
  split; [by apply Hfile|]. intros n [= <-]. split; [done|]. destruct Hq as [-> _]. cbn.
  split_and!; try done. by apply Hr2.
Qed.
End voting.
