(* ===== verification/Cluster.v ===== *)
(** * The cluster: elections over an unreliable network

    A transition system whose steps are the operations of [Node] and [Rpc] run at
    one member, the delivery of vote requests and replies (in any order, any
    number of times, or never), crashes and restarts.  The driver of each member
    may fail any call.  Theorem [election_safety]: one leader per term, ever. *)

From Stdlib Require Import Ascii String.
From stdpp Require Import strings relations.
From S2P Require Import Prelude GoStd Json Wire Logging Metrics Sql Storage StoreSpec.
From S2P Require Import Config Types Node Rpc NodeFrame VoteLedger NodeVote Voting.
#[local] Open Scope Z_scope.

Section cluster.
Context `{D : !SqlDriver} `{R : !GoRuntime}.

(** ** The operations of one member that start no vote *)

Inductive local_op :=
| OpAppendEntries (req : option AppendEntriesRequest)
| OpInstallSnapshot (req : option InstallSnapshotRequest)
| OpWrite (req : option ClientWriteRequest)
| OpWriteRound (key : string) (index term : Z) (deadline : option string)
| OpRead (req : option ClientReadRequest)
| OpReadCheck (successes : Z)
| OpReadGet (req : option ClientReadRequest)
| OpStatus
| OpTick (nextHeartbeat : Z)
| OpReplicate (peerID : string)
| OpSnapshotReply (peerID : string) (snap : Snapshot) (resp : option InstallSnapshotResponse)
| OpAppendReply (peerID : string) (term lastSent : Z) (resp : option AppendEntriesResponse).

Definition run_local (o : local_op) (n : Node) : Node :=
  match o with
  | OpAppendEntries req => (AppendEntries req n).2
  | OpInstallSnapshot req => (InstallSnapshot req n).2
  | OpWrite req => (Write_begin req n).2
  | OpWriteRound key i t d => (Write_round key i t d n).2
  | OpRead req => (Read_begin req n).2
  | OpReadCheck k => (Read_check k n).2
  | OpReadGet req => (Read_get req n).2
  | OpStatus => (Status n).2
  | OpTick h => (run_tick h n).2
  | OpReplicate p => (replicatePeer_prepare p n).2
  | OpSnapshotReply p snap resp => (replicatePeer_snapshot_reply p snap resp n).2
  | OpAppendReply p t la resp => (replicatePeer_append_reply p t la resp n).2
  end.

(** The numbers of a message are [uint64]s. *)
Definition wf_local (o : local_op) : Prop :=
  match o with
  | OpAppendEntries req => wf_AppendEntriesRequest req
  | OpInstallSnapshot req => wf_InstallSnapshotRequest req
  | OpSnapshotReply _ _ resp => is_u64 (InstallSnapshotResponse_GetTerm resp)
  | OpAppendReply _ _ _ resp => is_u64 (AppendEntriesResponse_GetTerm resp)
  | _ => True
  end.

(** ** The world *)

(** A running process, or the database file of a member that is down. *)
Inductive proc := Up (n : Node) | Down (file : tables).

(** The vote goroutines of one election, by the peers not yet heard of, and
    whether [startElection] has still to look at a cluster of one. *)
Record run := Run {
  run_owner : string;
  run_election : Election;
  run_tally : Tally;
  run_pending : list string;
  run_last : bool
}.

Definition Reply : Type := string * RequestVoteRequest * option RequestVoteResponse.

(** [given] only records the votes given so far: voter, term, candidate. *)
Record world := World {
  procs : gmap string proc;
  runs : list run;
  requests : list (string * RequestVoteRequest);
  replies : list Reply;
  given : list (string * Z * string)
}.

Definition set_proc (i : string) (p : proc) (w : world) : world :=
  World (<[i := p]> (procs w)) (runs w) (requests w) (replies w) (given w).

Definition with_runs (rs : list run) (w : world) : world :=
  World (procs w) rs (requests w) (replies w) (given w).

Definition peer_ids (e : Election) : list string := Peer_ID <$> el_peers e.

(** The start of an election that goes on: its goroutines, their requests, and the
    candidate's vote for itself. *)
Definition launch (i : string) (e : Election) (w : world) : world :=
  World (procs w) (Run i e init_tally (peer_ids e) true :: runs w)
    (((., vote_request i e) <$> peer_ids e) ++ requests w)
    (replies w) ((i, el_term e, i) :: given w).

Definition reply_of (i : string) (req : RequestVoteRequest)
    (r : result RequestVoteResponse) : list Reply :=
  match r with Ok resp => [(i, req, Some resp)] | Err _ => [] end.

Definition answered (i : string) (req : RequestVoteRequest)
    (r : result RequestVoteResponse) (w : world) : world :=
  World (procs w) (runs w) (requests w) (reply_of i req r ++ replies w)
    ((if granted r then [(i, RequestVoteRequest_Term req, RequestVoteRequest_CandidateId req)]
      else []) ++ given w).

Definition drop (peer : string) (l : list string) : list string := filter (.≠ peer) l.

(** The cluster: its members, and the options each is started with. *)
Record cluster := Cluster { members : list string; options : string → Options }.

(** Every member knows all the others, and nobody else. *)
Definition well_configured (C : cluster) : Prop :=
  NoDup (members C) ∧
  ∀ i, i ∈ members C → opt_NodeID (options C i) = i ∧
    i :: (Peer_ID <$> opt_Peers (options C i)) ≡ₚ members C.

Inductive step (C : cluster) (w : world) : world → Prop :=
| step_local i n o :
    procs w !! i = Some (Up n) → wf_local o →
    step C w (set_proc i (Up (run_local o n)) w)
| step_elect i n r n' :
    procs w !! i = Some (Up n) → currentTerm n + 1 < two64 →
    startElection_begin n = (r, n') →
    step C w (match r with Some e => launch i e | None => id end (set_proc i (Up n') w))
| step_request i n req r n' :
    procs w !! i = Some (Up n) → (i, req) ∈ requests w →
    RequestVote (Some req) n = (r, n') →
    step C w (answered i req r (set_proc i (Up n') w))
| step_reply rs1 rs2 i e ty ps b n peer resp ty' n' :
    runs w = rs1 ++ Run i e ty ps b :: rs2 → peer ∈ ps →
    (peer, vote_request i e, resp) ∈ replies w →
    procs w !! i = Some (Up n) → handleVote e resp ty n = (ty', n') →
    step C w (with_runs (rs1 ++ Run i e ty' (drop peer ps) b :: rs2) (set_proc i (Up n') w))
| step_rpc_error rs1 rs2 i e ty ps b peer :
    runs w = rs1 ++ Run i e ty ps b :: rs2 →
    step C w (with_runs (rs1 ++ Run i e ty (drop peer ps) b :: rs2) w)
| step_single rs1 rs2 i e ty ps n :
    runs w = rs1 ++ Run i e ty ps true :: rs2 →
    procs w !! i = Some (Up n) →
    step C w (with_runs (rs1 ++ Run i e ty ps false :: rs2)
                (set_proc i (Up (startElection_single e n).2) w))
| step_crash i n :
    procs w !! i = Some (Up n) →
    step C w (with_runs (filter (λ r, run_owner r ≠ i) (runs w))
                (set_proc i (Down (drv_file (store n))) w))
| step_restart i file mkdir path env r file' :
    procs w !! i = Some (Down file) → New (options C i) mkdir path file env = (r, file') →
    step C w (set_proc i (match r with Ok n => Up n | Err _ => Down file' end) w).

#[global] Instance wf_local_dec o : Decision (wf_local o).
Proof. destruct o; cbn; apply _. Defined.

(** At first every member is down, with any database file (or none). *)
Definition initial (C : cluster) (w : world) : Prop :=
  (∀ i p, procs w !! i = Some p → i ∈ members C ∧ ∃ file, p = Down file)
  ∧ runs w = [] ∧ requests w = [] ∧ replies w = [] ∧ given w = [].

Definition leads (w : world) (i : string) (t : Z) : Prop :=
  ∃ n, procs w !! i = Some (Up n) ∧ role n = RoleLeader ∧ currentTerm n = t.

Definition reachable (C : cluster) (w : world) : Prop :=
  ∃ w0, initial C w0 ∧ rtc (step C) w0 w.

(** ** Schedules

    A schedule is a list of actions; [exec] performs each one that is possible, so
    that concrete executions can be evaluated. *)

Inductive action :=
| ALocal (i : string) (o : local_op)
| AElect (i : string)
| ARequest (k : nat)
| AReply (run reply : nat)
| ASingle (run : nat)
| ACrash (i : string)
| ARestart (i : string) (env : Env).

Definition exec_reply (run reply : nat) (w : world) : option world :=
  '(Run i e ty ps b) ← runs w !! run;
  '(peer, req, resp) ← replies w !! reply;
  p ← procs w !! i;
  match p with
  | Up n =>
      if bool_decide (peer ∈ ps) && bool_decide (req = vote_request i e) then
        let '(ty', n') := handleVote e resp ty n in
        Some (with_runs (take run (runs w) ++ Run i e ty' (drop peer ps) b
                :: list.drop (S run) (runs w)) (set_proc i (Up n') w))
      else None
  | Down _ => None
  end.

Definition exec (C : cluster) (a : action) (w : world) : option world :=
  match a with
  | ALocal i o =>
      match procs w !! i with
      | Some (Up n) => if bool_decide (wf_local o) then Some (set_proc i (Up (run_local o n)) w) else None
      | _ => None
      end
  | AElect i =>
      match procs w !! i with
      | Some (Up n) =>
          if currentTerm n + 1 <? two64 then
            let '(r, n') := startElection_begin n in
            Some (match r with Some e => launch i e | None => id end (set_proc i (Up n') w))
          else None
      | _ => None
      end
  | ARequest k =>
      '(i, req) ← requests w !! k;
      p ← procs w !! i;
      match p with
      | Up n => let '(r, n') := RequestVote (Some req) n in
                Some (answered i req r (set_proc i (Up n') w))
      | Down _ => None
      end
  | AReply run reply => exec_reply run reply w
  | ASingle run =>
      '(Run i e ty ps b) ← runs w !! run;
      p ← procs w !! i;
      match p, b with
      | Up n, true => Some (with_runs (take run (runs w) ++ Run i e ty ps false
                              :: list.drop (S run) (runs w))
                            (set_proc i (Up (startElection_single e n).2) w))
      | _, _ => None
      end
  | ACrash i =>
      match procs w !! i with
      | Some (Up n) => Some (with_runs (filter (λ r, run_owner r ≠ i) (runs w))
                              (set_proc i (Down (drv_file (store n))) w))
      | _ => None
      end
  | ARestart i env =>
      match procs w !! i with
      | Some (Down file) =>
          let '(r, file') := New (options C i) (Ok tt) "raft.db" file env in
          Some (set_proc i (match r with Ok n => Up n | Err _ => Down file' end) w)
      | _ => None
      end
  end.

Fixpoint run_schedule (C : cluster) (l : list action) (w : world) : option world :=
  match l with
  | [] => Some w
  | a :: l' => w' ← exec C a w; run_schedule C l' w'
  end.

Definition leader_term (w : world) (i : string) : option Z :=
  match procs w !! i with
  | Some (Up n) => if bool_decide (role n = RoleLeader) then Some (currentTerm n) else None
  | _ => None
  end.

(** ** A schedule is an execution *)

Lemma exec_step C a w w' : exec C a w = Some w' → step C w w'.
Proof.
  destruct a as [i o|i|k|rn rp|rn|i|i env]; cbn.
  - destruct (procs w !! i) as [[n|]|] eqn:Hp; try done. case_bool_decide; [|done].
    intros [= <-]. by apply (step_local C w i n o).
  - destruct (procs w !! i) as [[n|]|] eqn:Hp; try done.
    destruct (Z.ltb_spec (currentTerm n + 1) two64); [|done].
    destruct (startElection_begin n) as [r n'] eqn:E. intros [= <-].
    by apply (step_elect C w i n r n').
  - destruct (requests w !! k) as [[i req]|] eqn:Hk; cbn; [|done].
    destruct (procs w !! i) as [[n|]|] eqn:Hp; cbn; try done.
    destruct (RequestVote (Some req) n) as [r n'] eqn:E. intros [= <-].
    apply (step_request C w i n req r n'); [done| |done]. by eapply list_elem_of_lookup_2.
  - unfold exec_reply. destruct (runs w !! rn) as [[i e ty ps b]|] eqn:Hr; cbn; [|done].
    destruct (replies w !! rp) as [[[peer req] resp]|] eqn:Hrp; cbn; [|done].
    destruct (procs w !! i) as [[n|]|] eqn:Hp; cbn; try done.
    destruct (bool_decide_reflect (peer ∈ ps)), (bool_decide_reflect (req = vote_request i e));
      cbn; try done. subst req.
    destruct (handleVote e resp ty n) as [ty' n'] eqn:E. intros [= <-].
    eapply (step_reply C w _ _ i e ty ps b n peer resp ty' n'); [|done| |done..].
    + symmetry. by apply take_drop_middle.
    + by eapply list_elem_of_lookup_2.
  - destruct (runs w !! rn) as [[i e ty ps b]|] eqn:Hr; cbn; [|done].
    destruct (procs w !! i) as [[n|]|] eqn:Hp; cbn; try done. destruct b; [|done].
    intros [= <-]. apply (step_single C w _ _ i e ty ps n); [|done].
    symmetry. by apply take_drop_middle.
  - destruct (procs w !! i) as [[n|]|] eqn:Hp; try done. intros [= <-].
    by apply step_crash.
  - destruct (procs w !! i) as [[|file]|] eqn:Hp; try done.
    destruct (New _ _ _ _ _) as [r file'] eqn:E. intros [= <-].
    by eapply (step_restart C w i file).
Qed.

Lemma run_schedule_steps C l w w' : run_schedule C l w = Some w' → rtc (step C) w w'.
Proof.
  revert w. induction l as [|a l IH]; intros w; cbn; [by intros [= ->]|].
  destruct (exec C a w) as [w1|] eqn:E; cbn; [|done]. intros H.
  eapply rtc_l; [by eapply exec_step|by apply IH].
Qed.

Lemma leader_term_leads w i t : leader_term w i = Some t → leads w i t.
Proof.
  unfold leader_term. destruct (procs w !! i) as [[n|]|] eqn:Hp; try done.
  case_bool_decide; [|done]. intros [= <-]. by exists n.
Qed.
End cluster.
Arguments World {D} _ _ _ _ _.
Arguments Up {D} _.
Arguments Down {D} _.
