(* ===== verification/ClusterSafety.v ===== *)
(** * Election safety

    The invariant of the cluster - every vote given is kept by its voter, in
    memory and on disk; every counted vote was given; every leader has a majority
    of the votes of its term - and what follows from it. *)

From Stdlib Require Import Ascii String.
From stdpp Require Import strings relations.
From S2P Require Import Prelude GoStd Json Wire Logging Metrics Sql Storage StoreSpec.
From S2P Require Import Config Types Node Rpc NodeFrame VoteLedger NodeVote Voting Cluster.
#[local] Open Scope Z_scope.

Section safety.
Context `{D : !SqlDriver} `{L : !SqlLaws D} `{R : !GoRuntime}.
Context (C : cluster) (HC : well_configured C).

(** ** The configuration *)

Definition majority_of (C : cluster) : Z := Z.of_nat (length (members C)) / 2 + 1.

Definition configured (i : string) (n : Node) : Prop :=
  node_id n = i ∧ peers n = opt_Peers (options C i)
  ∧ snapshotThreshold n = opt_SnapshotThreshold (options C i).

Lemma peers_permutation i n :
  i ∈ members C → configured i n → (i :: (Peer_ID <$> peers n)) ≡ₚ members C.
Proof. intros Hi (_ & -> & _). by apply HC. Qed.

Lemma majority_configured i n :
  i ∈ members C → configured i n → majorityLocked n = majority_of C.
Proof.
  intros Hi Hc. pose proof (Permutation_length (peers_permutation i n Hi Hc)) as Hl.
  cbn in Hl. rewrite length_fmap in Hl. unfold majorityLocked, majority_of. rewrite <- Hl. f_equal.
  f_equal. lia.
Qed.

Lemma peer_member i n : i ∈ members C → configured i n →
  NoDup (Peer_ID <$> peers n) ∧ i ∉ (Peer_ID <$> peers n)
  ∧ ∀ j, j ∈ (Peer_ID <$> peers n) → j ∈ members C.
Proof.
  intros Hi Hc. pose proof (peers_permutation i n Hi Hc) as Hp.
  assert (NoDup (i :: (Peer_ID <$> peers n))) as Hn by (rewrite Hp; apply HC).
  apply NoDup_cons in Hn as [? ?]. split_and!; [done..|].
  intros j Hj. rewrite <- Hp. by right.
Qed.

Lemma configured_identity i n n' : same_identity n n' → configured i n → configured i n'.
Proof. unfold configured. intros (-> & -> & ->). done. Qed.

(** ** The invariant *)

(** The voter keeps a vote it has given. *)
Definition keeps (t : Z) (c : string) (p : proc) : Prop :=
  match p with
  | Up n => ∀ l, has_ledger n l → promised t c l
  | Down file => ∀ v, file_vote file = Some v → holds t c v
  end.

(** A majority of the members voted for [i] at [t]. *)
Definition chosen (g : list (string * Z * string)) (t : Z) (i : string) : Prop :=
  ∃ q, NoDup q ∧ majority_of C <= Z.of_nat (length q)
    ∧ ∀ v, v ∈ q → v ∈ members C ∧ (v, t, i) ∈ g.

Definition sound_node (g : list (string * Z * string)) (i : string) (n : Node) : Prop :=
  configured i n ∧ i ≠ "" ∧ ∃ l, has_ledger n l ∧ disk_behind l ∧ self_voted i l
    ∧ (l_role l = RoleLeader → chosen g (l_term l) i).

Record safe_votes (ps : gmap string proc) (g : list (string * Z * string)) : Prop := {
  sv_member i p : ps !! i = Some p → i ∈ members C;
  sv_node i n : ps !! i = Some (Up n) → sound_node g i n;
  sv_kept v t c : (v, t, c) ∈ g → c ≠ "" ∧ ∃ p, ps !! v = Some p ∧ keeps t c p;
  sv_once v t c c' : (v, t, c) ∈ g → (v, t, c') ∈ g → c = c'
}.

(** The votes an election has counted were given, by distinct members that are
    not asked again. *)
Definition sound_run (g : list (string * Z * string)) (r : run) : Prop :=
  (el_majority (run_election r) = majority_of C ∧ 1 <= votes (run_tally r)) ∧ NoDup (run_pending r) ∧
  (∀ p, p ∈ run_pending r → p ∈ members C) ∧
  ∃ q, NoDup q ∧ Z.of_nat (length q) = votes (run_tally r)
    ∧ (∀ v, v ∈ q → v ∈ members C ∧ (v, el_term (run_election r), run_owner r) ∈ g)
    ∧ (∀ v, v ∈ q → v ∉ run_pending r).

Definition sound_request (rq : string * RequestVoteRequest) : Prop :=
  RequestVoteRequest_CandidateId rq.2 ≠ "" ∧ is_u64 (RequestVoteRequest_Term rq.2).

Definition sound_reply (g : list (string * Z * string)) (rp : Reply) : Prop :=
  let '(v, req, resp) := rp in
  is_u64 (RequestVoteResponse_GetTerm resp) ∧
  (RequestVoteResponse_GetVoteGranted resp = true →
   (v, RequestVoteRequest_Term req, RequestVoteRequest_CandidateId req) ∈ g).

Record invariant (w : world) : Prop := {
  inv_votes : safe_votes (procs w) (given w);
  inv_runs : Forall (sound_run (given w)) (runs w);
  inv_requests : Forall sound_request (requests w);
  inv_replies : Forall (sound_reply (given w)) (replies w)
}.

(** More votes make no run, reply or leader unsound. *)
Lemma chosen_mono g g' t i : g ⊆ g' → chosen g t i → chosen g' t i.
Proof. intros Hg (q & ? & ? & Hq). exists q. split_and!; [done..|]. naive_solver. Qed.

Lemma sound_run_mono g g' r : g ⊆ g' → sound_run g r → sound_run g' r.
Proof.
  intros Hg (Hm & Hn & Hp & q & ? & ? & Hq & ?). split; [done|]. split_and!; [done..|].
  exists q. split_and!; [done..| |done]. naive_solver.
Qed.

Lemma sound_reply_mono g g' rp : g ⊆ g' → sound_reply g rp → sound_reply g' rp.
Proof. intros Hg. destruct rp as [[v req] resp]. cbn. naive_solver. Qed.

(** Two majorities of one term share a voter. *)
Lemma chosen_unique ps g t i j :
  safe_votes ps g → chosen g t i → chosen g t j → i = j.
Proof.
  intros Hs (q1 & Hn1 & Hl1 & Hq1) (q2 & Hn2 & Hl2 & Hq2).
  destruct (quorum_intersection (members C) q1 q2) as (v & Hv1 & Hv2); [done..|naive_solver|naive_solver| |].
  { unfold majority_of in *.
    pose proof (Z.div_mod (Z.of_nat (length (members C))) 2 ltac:(lia)).
    pose proof (Z.mod_pos_bound (Z.of_nat (length (members C))) 2 ltac:(lia)). lia. }
  eapply (sv_once ps g Hs v t); naive_solver.
Qed.

(** ** One member moves *)

Lemma safe_update ps g i n l n' l' new :
  safe_votes ps g → ps !! i = Some (Up n) → has_ledger n l →
  same_identity n n' → has_ledger n' l' →
  (∀ t c, c ≠ "" → promised t c l → promised t c l') →
  disk_behind l' → self_voted i l' →
  (l_role l' = RoleLeader → chosen (new ++ g) (l_term l') i) →
  (∀ v t c, (v, t, c) ∈ new → v = i ∧ c ≠ "" ∧ voted t c l') →
  safe_votes (<[i := Up n']> ps) (new ++ g).
Proof.
  intros Hs Hn Hl Hid Hl' Hkeep Hb Hself Hlead Hnew.
  destruct (sv_node ps g Hs i n Hn) as (Hc & Hi & _).
  assert (∀ t c, (i, t, c) ∈ g → c ≠ "" ∧ promised t c l') as Hold.
  { intros t c Hg. destruct (sv_kept ps g Hs _ _ _ Hg) as (Hne & p & Hp & Hk).
    rewrite Hn in Hp. injection Hp as <-. auto. }
  split.
  - intros j p. rewrite lookup_insert_Some. intros [[<- _]|[_ ?]]; by eapply (sv_member ps g Hs).
  - intros j m. rewrite lookup_insert_Some. intros [[<- [= <-]]|[_ Hj]].
    + split; [by eapply configured_identity|]. split; [done|]. eauto 10.
    + destruct (sv_node ps g Hs j m Hj) as (? & ? & lj & ? & ? & ? & Hch).
      split_and!; [done..|]. exists lj. split_and!; [done..|].
      intros Hr. eapply chosen_mono; [|by apply Hch]. set_solver.
  - intros v t c. rewrite elem_of_app. intros [Hin|Hin].
    + destruct (Hnew v t c Hin) as (-> & ? & Hv). split; [done|].
      exists (Up n'). rewrite lookup_insert_eq. split; [done|]. intros l2 Hl2.
      rewrite (has_ledger_inj _ _ _ Hl2 Hl'). by apply voted_promised.
    + destruct (decide (v = i)) as [->|Hne].
      * destruct (Hold t c Hin) as [? Hp]. split; [done|].
        exists (Up n'). rewrite lookup_insert_eq. split; [done|]. intros l2 Hl2.
        by rewrite (has_ledger_inj _ _ _ Hl2 Hl').
      * destruct (sv_kept ps g Hs _ _ _ Hin) as (? & p & Hp & ?). split; [done|].
        exists p. by rewrite lookup_insert_ne.
  - intros v t c c'. rewrite !elem_of_app.
    assert (∀ t c c', (v, t, c) ∈ new → (v, t, c') ∈ g → c = c') as Hcross.
    { intros t1 c1 c2 H1 H2. destruct (Hnew _ _ _ H1) as (-> & _ & Hv).
      destruct (Hold t1 c2 H2) as [_ Hp2].
      eapply promised_unique; [by apply voted_promised|exact Hp2|].
      destruct Hv as [_ Hd]. unfold disk_vote in Hd. injection Hd as -> _. lia. }
    intros [H1|H1] [H2|H2].
    + destruct (Hnew _ _ _ H1) as (_ & _ & [Hm1 _]), (Hnew _ _ _ H2) as (_ & _ & [Hm2 _]).
      congruence.
    + by eapply Hcross.
    + symmetry. by eapply Hcross.
    + by eapply (sv_once ps g Hs).
Qed.

(** The usual case: the ledger takes steps. *)
Lemma safe_lsteps ps g i n l n' l' new :
  safe_votes ps g → ps !! i = Some (Up n) → has_ledger n l →
  same_identity n n' → has_ledger n' l' → lsteps l l' →
  (∀ v t c, (v, t, c) ∈ new → v = i ∧ c ≠ "" ∧ voted t c l') →
  safe_votes (<[i := Up n']> ps) (new ++ g).
Proof.
  intros Hs Hn Hl Hid Hl' Hst Hnew.
  destruct (sv_node ps g Hs i n Hn) as (Hc & Hi & l0 & Hl0 & Hb & Hself & Hlead).
  assert (l0 = l) as -> by (by eapply has_ledger_inj). eapply safe_update; try done.
  - intros t c ??. by apply (lsteps_promised t c l).
  - by apply (lsteps_mono l).
  - by apply (lsteps_self_voted i l).
  - intros Hr. destruct (lsteps_role l l' Hst) as [Hr0 Ht0]; [congruence|].
    rewrite <- Ht0. eapply chosen_mono; [|apply Hlead; congruence]. set_solver.
Qed.

(** A node up has a ledger. *)
Lemma safe_ledger ps g i n :
  safe_votes ps g → ps !! i = Some (Up n) →
  ∃ l, has_ledger n l ∧ disk_behind l ∧ self_voted (node_id n) l ∧ node_id n = i.
Proof.
  intros Hs Hn. destruct (sv_node ps g Hs i n Hn) as ([Hi _] & _ & l & ? & ? & ? & _).
  exists l. by rewrite Hi.
Qed.

(** ** Every step keeps the invariant *)

Lemma run_local_refines o n : wf_local o → vote_refines n (run_local o n).
Proof.
  intros Hw. destruct o; cbn in *.
  - by apply vote_AppendEntries.
  - by apply vote_InstallSnapshot.
  - apply vote_Write_begin.
  - apply vote_Write_round.
  - apply vote_Read_begin.
  - apply vote_Read_check.
  - apply vote_Read_get.
  - apply vote_Status.
  - apply vote_run_tick.
  - apply vote_replicatePeer_prepare.
  - by apply vote_snapshot_reply.
  - by apply vote_append_reply.
Qed.

Lemma keep_local w i n o :
  procs w !! i = Some (Up n) → wf_local o → invariant w →
  invariant (set_proc i (Up (run_local o n)) w).
Proof.
  intros Hn Ho [Hv Hr Hq Hp]. split; [|done..].
  destruct (safe_ledger _ _ _ _ Hv Hn) as (l & Hl & _).
  destruct (run_local_refines o n Ho) as [Hid Hst]. destruct (Hst l Hl) as (l' & Hl' & Hs).
  apply (safe_lsteps _ _ i n l _ l' []); try done. set_solver.
Qed.

Lemma keep_request w i n req r n' :
  procs w !! i = Some (Up n) → (i, req) ∈ requests w → RequestVote (Some req) n = (r, n') →
  invariant w → invariant (answered i req r (set_proc i (Up n') w)).
Proof.
  intros Hn Hin E [Hv Hr Hq Hp].
  destruct (safe_ledger _ _ _ _ Hv Hn) as (l & Hl & _).
  rewrite Forall_forall in Hq. destruct (Hq _ Hin) as [Hne Hu]. cbn in Hne, Hu.
  pose proof (RequestVote_ledger (Some req) n l Hu Hl) as Hpost. unfold wp in Hpost.
  rewrite E in Hpost. destruct Hpost as (Hid & l' & Hl' & Hs & Hu' & Hg). cbn in Hg.
  set (new := if granted r
    then [(i, RequestVoteRequest_Term req, RequestVoteRequest_CandidateId req)] else []).
  assert (given w ⊆ new ++ given w) as Hsub by set_solver.
  split; cbn; fold new.
  - apply (safe_lsteps _ _ i n l n' l' new); try done. intros v t c. subst new.
    destruct (granted r); [|set_solver].
    intros [= -> -> ->]%list_elem_of_singleton. by auto.
  - eapply Forall_impl; [done|]. intros. by eapply sound_run_mono.
  - by rewrite Forall_forall.
  - apply Forall_app. split.
    + destruct r as [resp|e]; cbn; [|constructor]. apply Forall_singleton. cbn.
      split.
      * by apply Hu'.
      * intros Hgr. subst new. unfold granted. rewrite Hgr. by left.
    + eapply Forall_impl; [done|]. intros. by eapply sound_reply_mono.
Qed.

Lemma keep_none ps g i n l n' l' :
  safe_votes ps g → ps !! i = Some (Up n) → has_ledger n l →
  same_identity n n' → has_ledger n' l' → l' = elect i l ∨ l' = candidacy i l →
  safe_votes (<[i := Up n']> ps) g.
Proof.
  intros Hs Hn Hl Hid Hl' Hor.
  destruct (sv_node ps g Hs i n Hn) as (Hc & Hi & l0 & Hl0 & Hb & Hself & Hlead).
  assert (l0 = l) as -> by (by eapply has_ledger_inj).
  apply (safe_update _ _ i n l n' l' []); try done.
  - intros t c _. destruct Hor as [-> | ->]; [apply elect_promised|apply candidacy_promised].
  - unfold disk_behind in *. destruct Hor as [-> | ->]; cbn; lia.
  - by destruct Hor as [-> | ->].
  - by destruct Hor as [-> | ->].
  - set_solver.
Qed.

Lemma keep_elect w i n r n' :
  procs w !! i = Some (Up n) → currentTerm n + 1 < two64 → startElection_begin n = (r, n') →
  invariant w →
  invariant (match r with Some e => launch i e | None => id end (set_proc i (Up n') w)).
Proof.
  intros Hn Hb E [Hv Hr Hq Hp].
  destruct (safe_ledger _ _ _ _ Hv Hn) as (l & Hl & _ & _ & Hi).
  pose proof Hl as (_ & _ & _ & _ & Hterm & _ & Hu).
  assert (l_term l + 1 < two64) as Hb' by congruence.
  pose proof (startElection_begin_ledger n l Hl Hb') as [Hid Hpost].
  rewrite E, Hi in Hpost. rewrite E in Hid. cbn in Hpost, Hid.
  destruct r as [e|].
  2: { split; [cbn|done..]. destruct Hpost as [->|[Hl'|Hl']].
       - by rewrite insert_id.
       - eapply keep_none; eauto.
       - eapply keep_none; eauto. }
  destruct Hpost as [Hl' (Het & Hem & Hep)].
  destruct (sv_node _ _ Hv i n Hn) as (Hc & Hne & l0 & Hl0 & Hbeh & _).
  assert (l0 = l) as -> by (by eapply has_ledger_inj).
  pose proof (sv_member _ _ Hv i _ Hn) as Him.
  destruct (peer_member i n Him Hc) as (Hnd & Hni & Hpm).
  assert (given w ⊆ (i, el_term e, i) :: given w) as Hsub by set_solver.
  split; cbn.
  - apply (safe_update _ _ i n l n' (candidacy i l) [(i, el_term e, i)]); try done.
    + intros t c _. apply candidacy_promised.
    + unfold disk_behind. cbn. lia.
    + intros v t c [= -> -> ->]%list_elem_of_singleton. split_and!; [done..|].
      unfold voted, mem_vote, disk_vote. cbn. by rewrite Het, Hterm.
  - constructor; [|eapply Forall_impl; [done|]; intros; by eapply sound_run_mono].
    unfold sound_run, peer_ids. cbn. rewrite Hep. split_and!; [|done..|].
    { by rewrite Hem, (majority_configured i). }
    exists [i]. split_and!; [apply NoDup_singleton|done| |].
    + intros v ->%list_elem_of_singleton. split; [done|]. by left.
    + by intros v ->%list_elem_of_singleton.
  - apply Forall_app. split; [|done]. apply Forall_forall. intros rq.
    intros (p & -> & _)%list_elem_of_fmap. unfold sound_request. cbn. split; [done|].
    unfold is_u64 in *. rewrite Het. lia.
  - eapply Forall_impl; [done|]. intros. by eapply sound_reply_mono.
Qed.

(** Dropping a peer that is no longer waited for. *)
Lemma sound_run_drop g r peer ty :
  sound_run g r → ty = run_tally r →
  sound_run g (Run (run_owner r) (run_election r) ty (drop peer (run_pending r)) (run_last r)).
Proof.
  intros (Hm & Hn & Hp & q & Hq1 & Hq2 & Hq3 & Hq4) ->. unfold sound_run, drop. cbn.
  split; [done|]. split_and!; [by apply NoDup_filter|..].
  - intros p [_ ?]%list_elem_of_filter. auto.
  - exists q. split_and!; [done..|]. intros v Hv [_ Hv']%list_elem_of_filter. by eapply Hq4.
Qed.

(** Counting a vote that was given. *)
Lemma sound_run_count g r peer ty :
  sound_run g r → peer ∈ run_pending r → (peer, el_term (run_election r), run_owner r) ∈ g →
  votes ty = votes (run_tally r) + 1 →
  sound_run g (Run (run_owner r) (run_election r) ty (drop peer (run_pending r)) (run_last r)).
Proof.
  intros (Hm & Hn & Hp & q & Hq1 & Hq2 & Hq3 & Hq4) Hin Hg Hty. unfold sound_run, drop. cbn.
  split_and!; [apply Hm|lia|by apply NoDup_filter|..].
  - intros p [_ ?]%list_elem_of_filter. auto.
  - exists (peer :: q). split_and!.
    + apply NoDup_cons. split; [|done]. intros Hv. by apply (Hq4 peer).
    + rewrite Hty. cbn. lia.
    + intros v [->|Hv]%elem_of_cons; [by auto|by apply Hq3].
    + intros v [->|Hv]%elem_of_cons [Hne Hv']%list_elem_of_filter; [done|by eapply Hq4].
Qed.

(** A run with enough votes has a majority. *)
Lemma sound_run_chosen g r :
  sound_run g r → el_majority (run_election r) <= votes (run_tally r) →
  chosen g (el_term (run_election r)) (run_owner r).
Proof.
  intros ([Hm _] & _ & _ & q & Hq1 & Hq2 & Hq3 & _) Hle. exists q. rewrite <- Hm, Hq2. by split_and!.
Qed.

(** Becoming the leader of a term one has been chosen for. *)
Lemma keep_leading ps g i n l n' :
  safe_votes ps g → ps !! i = Some (Up n) → has_ledger n l →
  same_identity n n' → has_ledger n' (leading l) → l_vote l = i → chosen g (l_term l) i →
  safe_votes (<[i := Up n']> ps) g.
Proof.
  intros Hs Hn Hl Hid Hl' Hvote Hch.
  destruct (sv_node ps g Hs i n Hn) as (Hc & Hi & l0 & Hl0 & Hb & Hself & Hlead).
  assert (l0 = l) as -> by (by eapply has_ledger_inj).
  apply (safe_update _ _ i n l n' (leading l) []); try done.
  - by intros _.
  - set_solver.
Qed.

(** The runs around the one that moves. *)
Lemma runs_replace (P : run → Prop) rs1 r r' rs2 :
  Forall P (rs1 ++ r :: rs2) → (P r → P r') → Forall P (rs1 ++ r' :: rs2).
Proof. rewrite !Forall_app, !Forall_cons. naive_solver. Qed.

Lemma runs_at (P : run → Prop) rs1 r rs2 : Forall P (rs1 ++ r :: rs2) → P r.
Proof. rewrite Forall_app, Forall_cons. naive_solver. Qed.

Lemma keep_reply w rs1 rs2 i e ty ps b n peer resp ty' n' :
  runs w = rs1 ++ Run i e ty ps b :: rs2 → peer ∈ ps →
  (peer, vote_request i e, resp) ∈ replies w →
  procs w !! i = Some (Up n) → handleVote e resp ty n = (ty', n') →
  invariant w →
  invariant (with_runs (rs1 ++ Run i e ty' (drop peer ps) b :: rs2) (set_proc i (Up n') w)).
Proof.
  intros Er Hpeer Hin Hn E [Hv Hr Hq Hp]. rewrite Er in Hr.
  destruct (safe_ledger _ _ _ _ Hv Hn) as (l & Hl & Hb & Hself & Hi).
  rewrite Forall_forall in Hp. destruct (Hp _ Hin) as [Hu Hgr]. cbn in Hgr.
  pose proof (handleVote_ledger e resp ty n l Hl Hself Hu) as Hpost. unfold wp in Hpost.
  rewrite E in Hpost. cbn in Hpost. destruct Hpost as (Hid & l' & Hl' & Hcase).
  rewrite Hi in Hcase.
  assert (sound_run (given w) (Run i e ty' (drop peer ps) b)) as Hrun.
  { pose proof (runs_at _ _ _ _ Hr) as Hr0. destruct Hcase as [[_ ->]|(Hg & Hty & _)].
    - by apply (sound_run_drop _ (Run i e ty ps b)).
    - apply (sound_run_count _ (Run i e ty ps b)); [done..| |done]. by apply Hgr. }
  split; [cbn| |done|by rewrite Forall_forall].
  - destruct Hcase as [[Hs _]|(_ & _ & [->|(-> & Hvote & Ht & Hm)])].
    + apply (safe_lsteps _ _ i n l n' l' []); try done. set_solver.
    + apply (safe_lsteps _ _ i n l n' l []); try done. set_solver.
    + eapply keep_leading; try done. rewrite Ht. by apply (sound_run_chosen _ _ Hrun).
  - cbn. eapply runs_replace; [done|]. done.
Qed.

Lemma keep_rpc_error w rs1 rs2 i e ty ps b peer :
  runs w = rs1 ++ Run i e ty ps b :: rs2 → invariant w →
  invariant (with_runs (rs1 ++ Run i e ty (drop peer ps) b :: rs2) w).
Proof.
  intros Er [Hv Hr Hq Hp]. rewrite Er in Hr. split; [done| |done..]. cbn.
  eapply runs_replace; [done|]. intros H. by apply (sound_run_drop _ (Run i e ty ps b)).
Qed.

Lemma keep_single w rs1 rs2 i e ty ps n :
  runs w = rs1 ++ Run i e ty ps true :: rs2 → procs w !! i = Some (Up n) → invariant w →
  invariant (with_runs (rs1 ++ Run i e ty ps false :: rs2)
    (set_proc i (Up (startElection_single e n).2) w)).
Proof.
  intros Er Hn [Hv Hr Hq Hp]. rewrite Er in Hr.
  destruct (safe_ledger _ _ _ _ Hv Hn) as (l & Hl & Hb & Hself & Hi).
  destruct (startElection_single_ledger e n l Hl Hself) as (Hid & l' & Hl' & Hcase).
  pose proof (runs_at _ _ _ _ Hr) as Hr0. rewrite Hi in Hcase.
  split; [cbn| |done..].
  - destruct Hcase as [->|(-> & Hvote & Ht & Hm)].
    + apply (safe_lsteps _ _ i n l _ l []); try done. set_solver.
    + eapply keep_leading; try done. rewrite Ht.
      apply (sound_run_chosen _ _ Hr0). cbn.
      destruct Hr0 as ([_ Hone] & _). cbn in *. lia.
  - cbn. eapply runs_replace; [done|]. done.
Qed.

(** ** Crashes and restarts *)

Lemma safe_replace ps g i p p' :
  safe_votes ps g → ps !! i = Some p →
  (∀ t c, keeps t c p → keeps t c p') → (∀ n, p' = Up n → sound_node g i n) →
  safe_votes (<[i := p']> ps) g.
Proof.
  intros Hs Hp Hk Hn. split.
  - intros j q. rewrite lookup_insert_Some. intros [[<- _]|[_ ?]]; by eapply (sv_member ps g Hs).
  - intros j m. rewrite lookup_insert_Some. intros [[<- ->]|[_ Hj]]; [by apply Hn|].
    by apply (sv_node ps g Hs).
  - intros v t c Hg. destruct (sv_kept ps g Hs _ _ _ Hg) as (Hne & q & Hq & Hkq).
    split; [done|]. destruct (decide (v = i)) as [->|Hvi].
    + exists p'. rewrite lookup_insert_eq. split; [done|]. apply Hk. by simplify_eq.
    + exists q. by rewrite lookup_insert_ne.
  - apply (sv_once ps g Hs).
Qed.

Lemma file_vote_idle t v : spec_CurrentTermVote t = Some v → file_vote t = Some v.
Proof.
  unfold file_vote, spec_CurrentTermVote, meta_uint, spec_init. cbn. rewrite !lookup_union.
  intros H. destruct (metadata t !! "current_term") as [s|] eqn:E; [|done].
  rewrite union_Some_l. cbn in *. destruct (ParseUint s); [|done]. cbn in *.
  destruct (metadata t !! "voted_for") as [s'|] eqn:E'; [|done]. by rewrite union_Some_l.
Qed.

Lemma keep_crash w i n :
  procs w !! i = Some (Up n) → invariant w →
  invariant (with_runs (filter (λ r, run_owner r ≠ i) (runs w))
    (set_proc i (Down (drv_file (store n))) w)).
Proof.
  intros Hn [Hv Hr Hq Hp]. split; [cbn| |done..].
  - destruct (safe_ledger _ _ _ _ Hv Hn) as (l & Hl & _).
    eapply safe_replace; [done..| |done]. intros t c Hk v Hfile.
    destruct (Hk l Hl) as [_ Hd]. destruct Hl as (tb & Hview & Hdisk & _).
    rewrite file_law, Hview in Hfile. apply file_vote_idle in Hdisk. cbn in Hfile.
    rewrite Hdisk in Hfile. by simplify_eq.
  - cbn. rewrite Forall_forall in Hr |- *. intros r [_ ?]%list_elem_of_filter. auto.
Qed.

Lemma keep_restart w i file mkdir path env r file' :
  procs w !! i = Some (Down file) → New (options C i) mkdir path file env = (r, file') →
  invariant w → invariant (set_proc i (match r with Ok n => Up n | Err _ => Down file' end) w).
Proof.
  intros Hi E [Hv Hr Hq Hp]. split; [cbn|done..].
  pose proof (New_ledger (options C i) mkdir path file env) as Hnew. rewrite E in Hnew.
  destruct Hnew as [Hfile Hok].
  pose proof (sv_member _ _ Hv i _ Hi) as Him. destruct HC as [_ Hconf].
  destruct (Hconf i Him) as [Hid _].
  eapply safe_replace; [done..| |].
  - intros t c Hk. destruct r as [n|e]; cbn in *.
    + destruct (Hok n eq_refl) as (_ & _ & _ & _ & t0 & v0 & Hf & Hl). intros l Hl'.
      assert (l = restarted t0 v0) as -> by (by eapply has_ledger_inj).
      pose proof (Hk _ Hf). done.
    + intros v Hf. apply Hk. by rewrite <- Hfile.
  - intros n Hup. destruct r as [n'|e]; [|done]. injection Hup as <-.
    destruct (Hok n' eq_refl) as (Hni & Hnp & Hnt & Hne & t0 & v0 & Hf & Hl).
    split; [by split_and!; [rewrite Hni|..]|]. split; [by rewrite <- Hid|].
    exists (restarted t0 v0). split_and!; [done| |by intros []|done].
    unfold disk_behind. cbn. lia.
Qed.

Lemma step_invariant w w' : step C w w' → invariant w → invariant w'.
Proof.
  destruct 1 as [i n o|i n r n'|i n req r n'|rs1 rs2 i e ty ps b n peer resp ty' n'
    |rs1 rs2 i e ty ps b peer|rs1 rs2 i e ty ps n|i n|i file mkdir path env r file'].
  - by apply keep_local.
  - by apply (keep_elect _ _ n).
  - by apply (keep_request _ _ n).
  - by eapply keep_reply.
  - by eapply keep_rpc_error.
  - by eapply keep_single.
  - by apply keep_crash.
  - by eapply keep_restart.
Qed.

Lemma steps_invariant w w' : rtc (step C) w w' → invariant w → invariant w'.
Proof. induction 1; eauto using step_invariant. Qed.

Lemma initial_invariant w : initial C w → invariant w.
Proof.
  intros (Hp & Hr & Hq & Hs & Hg). split; rewrite ?Hr, ?Hq, ?Hs, ?Hg; try constructor.
  - intros i p Hi. by destruct (Hp i p Hi).
  - intros i n Hi. by destruct (Hp i _ Hi) as [_ [? ?]].
  - set_solver.
  - set_solver.
Qed.

Lemma reachable_invariant w : reachable C w → invariant w.
Proof. intros (w0 & H0 & Hs). eapply steps_invariant; [done|by apply initial_invariant]. Qed.

(** Votes are never withdrawn from the record. *)
Lemma step_given w w' : step C w w' → given w ⊆ given w'.
Proof. destruct 1; cbn; try done; [destruct r|]; cbn; set_solver. Qed.

Lemma steps_given w w' : rtc (step C) w w' → given w ⊆ given w'.
Proof. induction 1 as [|w1 w2 w3 H12 _ IH]; [done|]. etrans; [by apply step_given|done]. Qed.

(** A leader was chosen by a majority. *)
Lemma leads_chosen w i t : invariant w → leads w i t → chosen (given w) t i.
Proof.
  intros [Hv _ _ _] (n & Hn & Hr & <-).
  destruct (sv_node _ _ Hv i n Hn) as (_ & _ & l & Hl & _ & _ & Hlead).
  pose proof Hl as (_ & _ & _ & Hrole & Hterm & _). rewrite Hterm. apply Hlead. congruence.
Qed.

(** One leader per term, over the whole life of the cluster. *)
Lemma one_leader w w' i j t :
  invariant w → rtc (step C) w w' → leads w i t → leads w' j t → i = j.
Proof.
  intros Hinv Hst Hi Hj. pose proof (steps_invariant _ _ Hst Hinv) as Hinv'.
  eapply (chosen_unique (procs w') (given w') t); [by apply Hinv'| |by apply leads_chosen].
  eapply chosen_mono; [by apply steps_given|]. by apply leads_chosen.
Qed.
End safety.
