(* ===== verification/Instances.v ===== *)
(** * Concrete instances

    The parameters of the model given values, so that the theorems can be
    evaluated: the fault-injecting driver of [Sql] with an empty script, maps
    visited in their canonical order, a clock that advances by one millisecond at
    each reading, and a cluster of three members. *)

From Stdlib Require Import Ascii String.
From stdpp Require Import strings.
From S2P Require Import Prelude GoStd Json Wire Logging Metrics Sql Storage StoreSpec LogSpec LogStore.
From S2P Require Import Config Types Node Rpc NodeFrame Apply Follower Cluster.
#[local] Open Scope Z_scope.

#[global] Instance list_runtime : GoRuntime :=
  {| map_range V m := map_to_list m; map_range_perm V m := reflexivity _ |}.

Definition steady_env : Env :=
  mkEnv (λ k, Z.of_nat k * Millisecond) (λ _, 7) 0.

Definition trio : list string := ["a"; "b"; "c"].

Definition trio_peer (i : string) : Peer := mkPeer i (i +:+ ":9001").

Definition trio_options (i : string) : Options :=
  mkOptions i ":9001" ":8001" ("data/" +:+ i) (trio_peer <$> filter (.≠ i) trio)
    (500 * Millisecond) (900 * Millisecond) (100 * Millisecond) 0.

Definition trio_cluster : cluster := Cluster trio trio_options.

(** All members down, with no database yet. *)
Definition trio_down : world :=
  World (<["a" := Down empty_tables]> (<["b" := Down empty_tables]>
    {["c" := Down empty_tables]})) [] [] [] [].

Definition trio_boot : list action :=
  [ARestart "a" steady_env; ARestart "b" steady_env; ARestart "c" steady_env].

(** [a] is elected with the vote of [b]. *)
Definition elect_a : list action := [AElect "a"; ARequest 0; AReply 0 0].

Definition world_after (l : list action) : world := default trio_down (run_schedule trio_cluster l trio_down).

Lemma trio_well_configured : well_configured trio_cluster.
Proof.
  split; [by vm_compute; repeat constructor; set_solver|].
  intros i Hi. cbn in Hi. 
  repeat (apply elem_of_cons in Hi as [->|Hi]; [split; [done|]|]); [..|by apply elem_of_nil in Hi].
  - reflexivity.
  - cbn. apply Permutation_swap.
  - cbn. etrans; [apply Permutation_swap|]. apply perm_skip, Permutation_swap.
Qed.

Lemma trio_initial : initial trio_cluster trio_down.
Proof.
  split; [|done]. intros i p. unfold trio_down. cbn [procs].
  rewrite !lookup_insert_Some, lookup_singleton_Some.
  intros H. assert (i ∈ trio ∧ p = Down empty_tables) as [? ->].
  { unfold trio. destruct H as [[<- <-]|[_ [[<- <-]|[_ [<- <-]]]]]; (split; [set_solver|done]). }
  split; [done|]. by eexists.
Qed.

(** A schedule that can be carried out is an execution. *)
Lemma schedule_reachable l :
  bool_decide (is_Some (run_schedule trio_cluster l trio_down)) = true →
  reachable trio_cluster (world_after l).
Proof.
  intros [w Hw]%bool_decide_eq_true. exists trio_down. split; [apply trio_initial|].
  unfold world_after. rewrite Hw. by apply run_schedule_steps in Hw.
Qed.

Lemma run_schedule_app C l1 l2 (w : world) :
  run_schedule C (l1 ++ l2) w = (w' ← run_schedule C l1 w; run_schedule C l2 w').
Proof.
  revert w. induction l1 as [|a l1 IH]; intros w; cbn; [done|].
  destruct (exec C a w); cbn; [apply IH|done].
Qed.

Lemma schedule_extends l1 l2 :
  bool_decide (is_Some (run_schedule trio_cluster (l1 ++ l2) trio_down)) = true →
  rtc (step trio_cluster) (world_after l1) (world_after (l1 ++ l2)).
Proof.
  intros [w Hw]%bool_decide_eq_true. unfold world_after. rewrite Hw.
  rewrite run_schedule_app in Hw. destruct (run_schedule _ l1 _) as [w1|]; cbn in *; [|done].
  by apply run_schedule_steps in Hw.
Qed.

(** The process of a member, for a member that is known to be there. *)
Definition proc_of (w : world) (i : string) : proc := default (Down empty_tables) (procs w !! i).

Lemma proc_of_some w i :
  bool_decide (is_Some (procs w !! i)) = true → procs w !! i = Some (proc_of w i).
Proof. intros [p Hp]%bool_decide_eq_true. unfold proc_of. by rewrite Hp. Qed.

Example a_is_elected : leader_term (world_after (trio_boot ++ elect_a)) "a" = Some 1.
Proof. vm_compute. reflexivity. Qed.

(** A member just started on an empty database. *)
Definition fresh_store : conn := FaultConn (Idle (spec_init empty_tables)) [].

Definition fresh_node (i : string) : Node :=
  mkNode i ":9001" ":8001" (trio_peer <$> filter (.≠ i) trio) fresh_store (NewLogger i)
    (NewMetrics i) RoleFollower 0 "" "" 0 0 ∅ ∅ (500 * Millisecond) (900 * Millisecond)
    (100 * Millisecond) 0 0 ∅ [] steady_env.

Definition fresh_tables : tables := spec_init empty_tables.

Lemma fresh_view i : view (store (fresh_node i)) = Idle fresh_tables.
Proof. reflexivity. Qed.

Lemma fresh_wf : wf_tables fresh_tables.
Proof. split_and!; vm_compute; eexists; reflexivity. Qed.

Lemma fresh_sound i : sound (store (fresh_node i)).
Proof. exists fresh_tables. split_and!; [reflexivity|apply fresh_wf|reflexivity]. Qed.

(** ** A leader and a follower with logs *)

Definition with_log (l : rows) : tables := set_log (λ _, l) fresh_tables.

(** Three entries, the last of term 2; the follower has another third entry. *)
Definition leader_tables : tables :=
  with_log (<[1 := (1, command_json "x" "1")]> (<[2 := (1, command_json "y" "2")]>
    {[3 := (2, command_json "x" "3")]})).

Definition follower_tables : tables :=
  with_log (<[1 := (1, command_json "x" "1")]> (<[2 := (1, command_json "y" "2")]>
    {[3 := (1, command_json "z" "9")]})).

Definition on_tables (t : tables) (n : Node) : Node := set_store (FaultConn (Idle t) []) n.

Definition leader_a : Node :=
  set_role RoleLeader (set_currentTerm 2 (set_commitIndex 2
    (set_nextIndex {["b" := 3]} (on_tables leader_tables (fresh_node "a"))))).

Definition follower_b : Node := set_currentTerm 1 (on_tables follower_tables (fresh_node "b")).

Lemma leader_shape : shape leader_tables 0 0 3.
Proof.
  split; [vm_compute; reflexivity|apply dense_of_keys; vm_compute; reflexivity|lia|].
  unfold is_idx, two63. lia.
Qed.

Lemma follower_shape : shape follower_tables 0 0 3.
Proof.
  split; [vm_compute; reflexivity|apply dense_of_keys; vm_compute; reflexivity|lia|].
  unfold is_idx, two63. lia.
Qed.

Lemma fresh_shape : shape fresh_tables 0 0 0.
Proof.
  split; [vm_compute; reflexivity|apply dense_of_keys; vm_compute; reflexivity|lia|].
  unfold is_idx, two63. lia.
Qed.

Lemma with_log_sound l i f :
  wf_tables (with_log l) → store f = store (on_tables (with_log l) (fresh_node i)) →
  sound (store f).
Proof. intros Hw ->. exists (with_log l). split_and!; [reflexivity|done|reflexivity]. Qed.

Lemma u64_small z : 0 <= z <= 100 → is_u64 z.
Proof. unfold is_u64, two64. lia. Qed.

Lemma leader_rest : at_rest leader_a leader_tables 0 0 3.
Proof. split; [reflexivity|]. split; [apply leader_shape|]. split; apply u64_small; cbn; lia. Qed.

Lemma follower_rest : at_rest follower_b follower_tables 0 0 3.
Proof. split; [reflexivity|]. split; [apply follower_shape|]. split; apply u64_small; cbn; lia. Qed.

Lemma leader_sound : sound (store leader_a).
Proof. exists leader_tables. split_and!; [reflexivity|split_and!; vm_compute; eexists; reflexivity|reflexivity]. Qed.

Lemma follower_sound : sound (store follower_b).
Proof. exists follower_tables. split_and!; [reflexivity|split_and!; vm_compute; eexists; reflexivity|reflexivity]. Qed.

(** What a run returns, from its result. *)
Lemma pair_of_fst {A B} (p : A * B) a : p.1 = a → p = (a, p.2).
Proof. destruct p. cbn. by intros ->. Qed.

Definition the_ok {A} (d : A) (r : result A) : A := match r with Ok a => a | Err _ => d end.

Lemma pair_of_ok {A B} (d : A) (p : result A * B) : is_ok p.1 = true → p = (Ok (the_ok d p.1), p.2).
Proof. by destruct p as [[a|e] b]. Qed.

(** A leader that has applied two entries and compacts after every one. *)
Definition compacting : Node :=
  mkNode "a" ":9001" ":8001" (peers leader_a) (store leader_a) (NewLogger "a")
    (NewMetrics "a") RoleLeader 2 "" "" 2 2 ∅ ∅ (500 * Millisecond) (900 * Millisecond)
    (100 * Millisecond) 1 0 ∅ [] steady_env.

Lemma compacting_rest : at_rest compacting leader_tables 0 0 3.
Proof. split; [reflexivity|]. split; [apply leader_shape|]. split; apply u64_small; cbn; lia. Qed.
