(* ===== verification/Elections.v ===== *)
(** * Elections: the theorems

    Election safety and its parts, and the exact decision of [RequestVote]. *)

From Stdlib Require Import Ascii String.
From stdpp Require Import strings relations.
From S2P Require Import Prelude GoStd Json Wire Logging Metrics Sql Storage StoreSpec.
From S2P Require Import Config Types Node Rpc NodeFrame VoteLedger NodeVote Voting.
From S2P Require Import Cluster ClusterSafety Instances.
#[local] Open Scope Z_scope.

Section definitions.
Context `{D : !SqlDriver}.

(** The term and the vote a member would start with if it crashed now. *)
Definition durable_vote (p : proc) : option (Z * string) :=
  match p with
  | Up n => file_vote (drv_file (store n))
  | Down file => file_vote file
  end.

(** Whether [RequestVote] grants: the term is not stale, the vote is free in it, and
    the candidate's log is at least as up to date as the local one. *)
Definition log_up_to_date (req : RequestVoteRequest) (last : Z * Z) : bool :=
  (last.2 <? RequestVoteRequest_LastLogTerm req)
  || ((RequestVoteRequest_LastLogTerm req =? last.2)
      && (last.1 <=? RequestVoteRequest_LastLogIndex req)).

Definition vote_free (n : Node) (req : RequestVoteRequest) : bool :=
  (currentTerm n <? RequestVoteRequest_Term req)
  || bool_decide (votedFor n = "")
  || bool_decide (votedFor n = RequestVoteRequest_CandidateId req).

Definition grants (n : Node) (last : Z * Z) (req : RequestVoteRequest) : bool :=
  (currentTerm n <=? RequestVoteRequest_Term req) && vote_free n req && log_up_to_date req last.

End definitions.

Section lemmas.
Context `{D : !SqlDriver} `{L : !SqlLaws D} `{R : !GoRuntime}.
Implicit Types (n : Node) (l : ledger).

Lemma ledger_durable n l : has_ledger n l → durable_vote (Up n) = Some (disk_vote l).
Proof.
  intros (t & Hv & Hd & _). cbn. rewrite file_law, Hv. by apply file_vote_idle.
Qed.

(** *** Durable terms never go back *)

Definition durable_le (p p' : proc) : Prop :=
  ∀ v, durable_vote p = Some v → ∃ v', durable_vote p' = Some v' ∧ v.1 <= v'.1.

#[local] Instance durable_le_preorder : PreOrder durable_le.
Proof.
  split.
  - intros p v Hv. exists v. split; [done|lia].
  - intros p1 p2 p3 H12 H23 v Hv. destruct (H12 v Hv) as (v2 & Hv2 & ?).
    destruct (H23 v2 Hv2) as (v3 & Hv3 & ?). exists v3. split; [done|lia].
Qed.

Lemma ledger_durable_le n n' l l' :
  has_ledger n l → has_ledger n' l' → d_term l <= d_term l' → durable_le (Up n) (Up n').
Proof.
  intros Hl Hl' Hle v. rewrite (ledger_durable _ _ Hl), (ledger_durable _ _ Hl').
  intros [= <-]. exists (disk_vote l'). by split.
Qed.

(** A step moves at most one member. *)
Definition moved (ps ps' : gmap string proc) : Prop :=
  ∀ j p, ps !! j = Some p → ∃ p', ps' !! j = Some p' ∧ durable_le p p'.

Lemma moved_insert ps i p p' :
  ps !! i = Some p → durable_le p p' → moved ps (<[i := p']> ps).
Proof.
  intros Hp Hle j q Hq. destruct (decide (j = i)) as [->|Hne].
  - exists p'. rewrite lookup_insert_eq. split; [done|]. by simplify_eq.
  - exists q. by rewrite lookup_insert_ne.
Qed.

Lemma moved_up C w i n n' :
  invariant C w → procs w !! i = Some (Up n) →
  (∀ l, has_ledger n l → disk_behind l → self_voted (node_id n) l →
     ∃ l', has_ledger n' l' ∧ d_term l <= d_term l') →
  moved (procs w) (<[i := Up n']> (procs w)).
Proof.
  intros [Hv _ _ _] Hn H. destruct (safe_ledger C _ _ _ _ Hv Hn) as (l & Hl & Hb & Hself & _).
  destruct (H l Hl Hb Hself) as (l' & Hl' & Hle). eapply moved_insert; [done|].
  by eapply ledger_durable_le.
Qed.

Lemma step_moved C w w' : well_configured C → invariant C w → step C w w' → moved (procs w) (procs w').
Proof.
  intros HC Hinv Hst.
  destruct Hst as [i n o Hn Ho|i n r n' Hn Hb E|i n req r n' Hn Hin E
    |rs1 rs2 i e ty ps b n peer resp ty' n' Er Hpeer Hin Hn E
    |rs1 rs2 i e ty ps b peer Er|rs1 rs2 i e ty ps n Er Hn|i n Hn|i file mkdir path env r file' Hi E].
  - eapply moved_up; [done..|]. intros l Hl Hb _. destruct (run_local_refines o n Ho) as [_ H].
    destruct (H l Hl) as (l' & Hl' & Hs). exists l'. split; [done|]. by apply (lsteps_mono l l' Hs).
  - assert (moved (procs w) (<[i := Up n']> (procs w))) as Hm.
    { eapply moved_up; [done..|]. intros l Hl Hbeh _.
      pose proof Hl as (_ & _ & _ & _ & Ht & _ & _). rewrite Ht in Hb.
      destruct (startElection_begin_ledger n l Hl Hb) as [_ Hp]. rewrite E in Hp. cbn in Hp.
      unfold disk_behind in Hbeh.
      destruct r as [e|]; [destruct Hp as [Hl' _]|destruct Hp as [->|[Hl'|Hl']]];
        eexists; (split; [eassumption|]); cbn; lia. }
    by destruct r.
  - eapply moved_up; [done..|]. intros l Hl Hbeh _.
    pose proof (inv_requests C w Hinv) as Hq. rewrite Forall_forall in Hq.
    destruct (Hq _ Hin) as [_ Hu].
    destruct (RequestVote_ledger (Some req) n l Hu Hl) as (_ & l' & Hl' & Hs & _).
    rewrite E in Hl'. exists l'. split; [done|]. by apply (lsteps_mono l l' Hs).
  - eapply moved_up; [done..|]. intros l Hl Hbeh Hself.
    pose proof (inv_replies C w Hinv) as Hq. rewrite Forall_forall in Hq.
    destruct (Hq _ Hin) as [Hu _].
    destruct (handleVote_ledger e resp ty n l Hl Hself Hu) as (_ & l' & Hl' & Hcase).
    rewrite E in Hl'. exists l'. split; [done|].
    destruct Hcase as [[Hs _]|(_ & _ & [->|[-> _]])]; [by apply (lsteps_mono l l' Hs)|done|done].
  - intros j p Hp. exists p. by split.
  - eapply moved_up; [done..|]. intros l Hl Hbeh Hself.
    destruct (startElection_single_ledger e n l Hl Hself) as (_ & l' & Hl' & Hcase).
    exists l'. split; [done|]. by destruct Hcase as [->|[-> _]].
  - eapply moved_insert; [done|]. intros v Hv. exists v. by split.
  - eapply moved_insert; [done|]. intros v Hv. exists v. split; [|lia].
    pose proof (New_ledger (options C i) mkdir path file env) as Hnew. rewrite E in Hnew.
    destruct Hnew as [Hf Hok]. cbn in Hv. destruct r as [n|e]; [|cbn; by rewrite Hf].
    destruct (Hok n eq_refl) as (_ & _ & _ & _ & t & c & Hfv & Hl).
    rewrite (ledger_durable _ _ Hl). rewrite Hfv in Hv. by simplify_eq.
Qed.

Lemma steps_moved C w w' :
  well_configured C → invariant C w → rtc (step C) w w' → moved (procs w) (procs w').
Proof.
  intros HC Hinv Hst. induction Hst as [|w1 w2 w3 H12 _ IH].
  - intros j p Hp. exists p. by split.
  - intros j p Hp. destruct (step_moved C w1 w2 HC Hinv H12 j p Hp) as (p2 & Hp2 & Hle).
    destruct (IH (step_invariant C HC _ _ H12 Hinv) j p2 Hp2) as (p3 & Hp3 & Hle').
    exists p3. split; [done|]. by etrans.
Qed.

(** *** The decision of [RequestVote], exactly *)

Definition vote_outcome (n : Node) (t : tables) (req : RequestVoteRequest) (g : bool)
    (r : result RequestVoteResponse) (n' : Node) : Prop :=
  let T := RequestVoteRequest_Term req in
  let c := RequestVoteRequest_CandidateId req in
  r = Ok (mkRequestVoteResponse (Z.max (currentTerm n) T) g)
  ∧ currentTerm n' = Z.max (currentTerm n) T
  ∧ votedFor n' = (if g then c else if currentTerm n <? T then "" else votedFor n)
  ∧ role n' = (if currentTerm n <? T then RoleFollower else role n)
  ∧ view (store n') = Idle ((if g then spec_SaveTermVote T c else id)
      (step_down_tables T (currentTerm n) t)).

Lemma sound_view c t : sound c → view c = Idle t → wf_tables t ∧ healthy c.
Proof. intros (t' & Hv & ?) Hv'. by assert (t' = t) as <- by congruence. Qed.

(** The first half: the term of the request is adopted. *)
Lemma adopt_term T n t :
  view (store n) = Idle t → sound (store n) → is_u64 T → currentTerm n <= T →
  wp (if currentTerm n <? T then stepDownLocked T "" else mret tt) (λ _ n1,
    sound (store n1) ∧ view (store n1) = Idle (step_down_tables T (currentTerm n) t)
    ∧ currentTerm n1 = T ∧ votedFor n1 = (if currentTerm n <? T then "" else votedFor n)
    ∧ role n1 = (if currentTerm n <? T then RoleFollower else role n)) n.
Proof.
  intros Hv Hs Hu Hle. destruct (Z.ltb_spec (currentTerm n) T) as [Hlt|Hge].
  - eapply wp_stepDown; [done..|]. intros c t' n' Hc _ Hex Hq.
    destruct (Hex Hs) as [Hsc ->]. pose proof Hq as [E Hst].
    assert (store (stepped_down T "" c n) = c) as Ec
      by (unfold stepped_down; by destruct (currentTerm n <? T)).
    split; [apply (quiet_sound _ _ Hq); by rewrite Ec|].
    split; [apply (quiet_view _ _ _ Hq); by rewrite Ec|].
    rewrite E. cbn. unfold stepped_down.
    destruct (Z.ltb_spec (currentTerm n) T) as [_|?]; [done|lia].
  - wp_pure. unfold step_down_tables.
    destruct (Z.ltb_spec (currentTerm n) T); [lia|]. split_and!; try done. lia.
Qed.

Lemma spec_LastIndexAndTerm_step_down T cur t :
  spec_LastIndexAndTerm (step_down_tables T cur t) = spec_LastIndexAndTerm t.
Proof.
  unfold step_down_tables. destruct (cur <? T); [|done].
  unfold spec_LastIndexAndTerm, spec_SnapshotIndexTerm, meta_uint. cbn.
  by rewrite !(lookup_insert_ne _ "voted_for"), !(lookup_insert_ne _ "current_term") by done.
Qed.

Lemma RequestVote_outcome n t last req :
  view (store n) = Idle t → sound (store n) → spec_LastIndexAndTerm t = Some last →
  is_u64 (RequestVoteRequest_Term req) →
  wp (RequestVote (Some req)) (vote_outcome n t req (grants n last req)) n.
Proof.
  intros Hv Hs Hlast Hu. unfold RequestVote, grants, vote_outcome. wp_pure. cbn [RequestVoteRequest_GetTerm].
  set (T := RequestVoteRequest_Term req) in *. set (c := RequestVoteRequest_CandidateId req).
  destruct (Z.ltb_spec T (currentTerm n)) as [Hlt|Hge].
  { unfold vote_reply. wp_skip as n1 Hq1. wp_pure. pose proof Hq1 as [E1 _].
    apply (quiet_view _ _ t) in Hq1; [|done]. rewrite Hq1, E1. cbn.
    destruct (Z.leb_spec (currentTerm n) T); [lia|]. cbn. unfold step_down_tables.
    destruct (Z.ltb_spec (currentTerm n) T); [lia|]. rewrite Z.max_l by lia. done. }
  rewrite Z.max_r by lia. destruct (Z.leb_spec (currentTerm n) T); [|lia]. cbn [andb].
  wp_pure. eapply wp_mono; [by apply (adopt_term T n t)|].
  intros _ n1 (Hs1 & Hv1 & Ht1 & Hvo1 & Hr1). wp_pure.
  eapply wp_reads; [apply reads_LastIndexAndTerm|apply wf_LastIndexAndTerm|exact Hv1| |].
  2: { intros e n2 Hns _. by destruct Hns. }
  intros [li lt] n2 Ha Hq2. rewrite spec_LastIndexAndTerm_step_down, Hlast in Ha.
  injection Ha as ->. pose proof Hq2 as [E2 _].
  pose proof (quiet_view _ _ _ Hq2 Hv1) as Hv2. pose proof (quiet_sound _ _ Hq2 Hs1) as Hs2.
  assert (vote_free n req = bool_decide (votedFor n2 = "") || bool_decide (votedFor n2 = c)) as Ef.
  { rewrite E2. cbn. rewrite Hvo1. unfold vote_free. fold T c.
    by destruct (currentTerm n <? T). }
  wp_pure. cbn [RequestVoteRequest_GetLastLogTerm RequestVoteRequest_GetLastLogIndex
    RequestVoteRequest_GetCandidateId]. fold c.
  change (_ || _ && _) with (log_up_to_date req (li, lt)).
  rewrite <- Ef. destruct (vote_free n req && log_up_to_date req (li, lt)) eqn:Eg.
  - wp_pure. eapply wp_refines; [apply refines_SaveTermVote|done|exact Hv2| |].
    2: { intros e c' Hns _. by destruct Hns. }
    intros [] t' c' [= <-] Hc' _. unfold vote_reply.
    wp_skip as n3 Hq3. wp_skip as n4 Hq4. wp_skip as n5 Hq5. wp_pure.
    assert (quiet (set_store c' (set_votedFor c n2)) n5) as Hq by (do 2 (etrans; [done|]); done).
    pose proof Hq as [E5 _]. rewrite (quiet_view _ _ _ Hq Hc'), E5. cbn.
    assert (currentTerm n2 = T ∧ role n2 = role n1) as [-> ->] by (rewrite E2; done).
    by rewrite Hr1.
  - unfold vote_reply. wp_skip as n3 Hq3. wp_pure. pose proof Hq3 as [E3 _].
    rewrite (quiet_view _ _ _ Hq3 Hv2), E3, E2. cbn. by rewrite Ht1, Hr1, Hvo1.
Qed.
End lemmas.

Section theorems.
Context `{D : !SqlDriver} `{L : !SqlLaws D} `{R : !GoRuntime}.

(** C2. Election safety: two members that lead in the same term, at any two moments of
    an execution, are the same member - whatever messages are lost, repeated or
    reordered, whichever members crash and restart, and whatever calls of the
    database fail. *)
Theorem election_safety (C : cluster) w w' i j t :
  well_configured C → reachable C w → rtc (step C) w w' →
  leads w i t → leads w' j t → i = j.
Proof. intros HC Hw. by apply one_leader, reachable_invariant. Qed.

(** C10. Two granted replies of one member for one term, at any two moments of an
    execution, answered the same candidate. *)
Theorem one_vote_per_term (C : cluster) w w' v req req' resp resp' :
  well_configured C → reachable C w → rtc (step C) w w' →
  (v, req, Some resp) ∈ replies w → (v, req', Some resp') ∈ replies w' →
  RequestVoteResponse_VoteGranted resp = true → RequestVoteResponse_VoteGranted resp' = true →
  RequestVoteRequest_Term req = RequestVoteRequest_Term req' →
  RequestVoteRequest_CandidateId req = RequestVoteRequest_CandidateId req'.
Proof.
  intros HC Hw Hst Hin Hin' Hg Hg' Ht. pose proof (reachable_invariant C HC w Hw) as Hi.
  pose proof (steps_invariant C HC w w' Hst Hi) as Hi'.
  destruct (proj1 (Forall_forall _ _) (inv_replies C w Hi) _ Hin) as [_ H1].
  destruct (proj1 (Forall_forall _ _) (inv_replies C w' Hi') _ Hin') as [_ H2].
  specialize (H1 Hg). specialize (H2 Hg'). rewrite <- Ht in H2.
  eapply (sv_once C _ _ (inv_votes C w' Hi')); [|exact H2]. by apply (steps_given C HC w).
Qed.

(** C26. A member that leads was voted for, in that term, by more than half of the
    members. *)
Theorem leader_has_majority (C : cluster) w i t :
  well_configured C → reachable C w → leads w i t →
  ∃ q, NoDup q ∧ (length (members C) < 2 * length q)%nat
    ∧ ∀ v, v ∈ q → v ∈ members C ∧ (v, t, i) ∈ given w.
Proof.
  intros HC Hw Hl. destruct (leads_chosen C w i t (reachable_invariant C HC w Hw) Hl)
    as (q & Hn & Hlen & Hq). exists q. split_and!; [done| |done].
  unfold majority_of in Hlen.
  pose proof (Z.div_mod (Z.of_nat (length (members C))) 2 ltac:(lia)).
  pose proof (Z.mod_pos_bound (Z.of_nat (length (members C))) 2 ltac:(lia)). lia.
Qed.

(** C28. The term a member would restart with never goes down, through every step of
    the cluster: failed writes, crashes and failed restarts included. *)
Theorem durable_term_monotone (C : cluster) w w' i p v :
  well_configured C → reachable C w → rtc (step C) w w' →
  procs w !! i = Some p → durable_vote p = Some v →
  ∃ p' v', procs w' !! i = Some p' ∧ durable_vote p' = Some v' ∧ v.1 <= v'.1.
Proof.
  intros HC Hw Hst Hp Hv.
  destruct (steps_moved C w w' HC (reachable_invariant C HC w Hw) Hst i p Hp) as (p' & Hp' & Hle).
  destruct (Hle v Hv) as (v' & ? & ?). eauto.
Qed.

(** A granted vote is on disk before it is answered: a crash right after the
    answer and a restart give back its term and candidate. *)
Theorem granted_vote_survives_crash n l req resp n' opts mkdir path env n2 file' :
  has_ledger n l → is_u64 (RequestVoteRequest_Term req) →
  RequestVote (Some req) n = (Ok resp, n') → RequestVoteResponse_VoteGranted resp = true →
  New opts mkdir path (drv_file (store n')) env = (Ok n2, file') →
  currentTerm n2 = RequestVoteRequest_Term req
  ∧ votedFor n2 = RequestVoteRequest_CandidateId req ∧ role n2 = RoleFollower.
Proof.
  intros Hl Hu E Hg Enew.
  destruct (RequestVote_ledger (Some req) n l Hu Hl) as (_ & l' & Hl' & _ & _ & Hv).
  rewrite E in Hl', Hv. destruct (Hv Hg) as [_ Hd].
  pose proof (ledger_durable n' l' Hl') as Hdur. cbn in Hdur.
  pose proof (New_ledger opts mkdir path (drv_file (store n')) env) as Hn. rewrite Enew in Hn.
  destruct Hn as [_ Hn]. destruct (Hn n2 eq_refl) as (_ & _ & _ & _ & t & c & Hf & Hl2).
  rewrite Hdur, Hd in Hf. injection Hf as <- <-.
  by destruct Hl2 as (_ & _ & _ & -> & -> & -> & _).
Qed.

(** C27. With a database that works, [RequestVote] grants exactly when the term is
    current, the vote is free in it and the candidate's log is up to date; the
    reply, the node and the tables are then as stated. *)
Theorem RequestVote_decides n t last req :
  view (store n) = Idle t → sound (store n) → spec_LastIndexAndTerm t = Some last →
  is_u64 (RequestVoteRequest_Term req) →
  let '(r, n') := RequestVote (Some req) n in
  vote_outcome n t req (grants n last req) r n'.
Proof.
  intros Hv Hs Hl Hu. pose proof (RequestVote_outcome n t last req Hv Hs Hl Hu) as H.
  unfold wp in H. by destruct (RequestVote (Some req) n).
Qed.
End theorems.

(** ** Witnesses *)

Section witnesses.
Abbreviation elected := (world_after (trio_boot ++ elect_a)).

Lemma elected_reachable : reachable trio_cluster elected.
Proof. apply schedule_reachable. vm_compute. reflexivity. Qed.

Lemma elected_leads : leads elected "a" 1.
Proof. apply leader_term_leads. vm_compute. reflexivity. Qed.

Lemma election_safety_witness : leads elected "a" 1 ∧ "a" = "a".
Proof.
  split; [apply elected_leads|].
  apply (election_safety trio_cluster elected elected "a" "a" 1);
    [apply trio_well_configured|apply elected_reachable|apply rtc_refl|apply elected_leads..].
Defined.

Lemma leader_has_majority_witness :
  ∃ q, NoDup q ∧ (3 < 2 * length q)%nat ∧ ∀ v, v ∈ q → v ∈ trio ∧ (v, 1, "a") ∈ given elected.
Proof.
  apply (leader_has_majority trio_cluster elected "a" 1);
    [apply trio_well_configured|apply elected_reachable|apply elected_leads].
Defined.

Definition vote_for_a : RequestVoteRequest := mkRequestVoteRequest 1 "a" 0 0.

Lemma one_vote_per_term_witness :
  ("b", vote_for_a, Some (mkRequestVoteResponse 1 true)) ∈ replies elected ∧ "a" = "a".
Proof.
  assert (("b", vote_for_a, Some (mkRequestVoteResponse 1 true)) ∈ replies elected) as H.
  { vm_compute. apply list_elem_of_here. }
  split; [exact H|].
  apply (one_vote_per_term trio_cluster elected elected "b" vote_for_a vote_for_a
    (mkRequestVoteResponse 1 true) (mkRequestVoteResponse 1 true));
    [apply trio_well_configured|apply elected_reachable|apply rtc_refl|exact H..|
     reflexivity|reflexivity|reflexivity].
Defined.

Lemma fresh_ledger : has_ledger (fresh_node "b") (Ledger RoleFollower 0 "" 0 "").
Proof. exists fresh_tables. split_and!; try reflexivity; unfold is_u64, two64; cbn; lia. Qed.

Lemma granted_vote_survives_crash_witness :
  let '(r, n') := RequestVote (Some vote_for_a) (fresh_node "b") in
  r = Ok (mkRequestVoteResponse 1 true) ∧
  match New (trio_options "b") (Ok tt) "raft.db" (drv_file (store n')) steady_env with
  | (Ok n2, _) => currentTerm n2 = 1 ∧ votedFor n2 = "a" ∧ role n2 = RoleFollower
  | (Err _, _) => False
  end.
Proof.
  destruct (RequestVote (Some vote_for_a) (fresh_node "b")) as [r n'] eqn:E.
  assert (r = Ok (mkRequestVoteResponse 1 true)) as ->
    by (apply (f_equal fst) in E; vm_compute in E; congruence).
  split; [reflexivity|].
  destruct (New (trio_options "b") (Ok tt) "raft.db" (drv_file (store n')) steady_env)
    as [[n2|e] file'] eqn:En.
  - apply (granted_vote_survives_crash (fresh_node "b") _ vote_for_a
      (mkRequestVoteResponse 1 true) n' (trio_options "b") (Ok tt) "raft.db" steady_env n2 file'
      fresh_ledger); [unfold is_u64, two64; cbn; lia|exact E|reflexivity|exact En].
  - assert (store n' = store (RequestVote (Some vote_for_a) (fresh_node "b")).2) as Es
      by (rewrite E; reflexivity).
    rewrite Es in En. apply (f_equal (is_ok ∘ fst)) in En. vm_compute in En. discriminate En.
Defined.

Lemma RequestVote_decides_witness :
  let '(r, n') := RequestVote (Some vote_for_a) (fresh_node "b") in
  vote_outcome (fresh_node "b") fresh_tables vote_for_a true r n'.
Proof.
  assert (grants (fresh_node "b") (0, 0) vote_for_a = true) as Eg by (vm_compute; reflexivity).
  assert (spec_LastIndexAndTerm fresh_tables = Some (0, 0)) as El by (vm_compute; reflexivity).
  assert (is_u64 1) as Hu by (unfold is_u64, two64; lia).
  pose proof (RequestVote_decides (fresh_node "b") fresh_tables (0, 0) vote_for_a
    (fresh_view "b") (fresh_sound "b") El Hu) as H.
  rewrite Eg in H. exact H.
Defined.

(** Through a crash of the voter. *)
Abbreviation crashed := (world_after (trio_boot ++ elect_a ++ [ACrash "b"])).

Lemma elected_b_up : procs elected !! "b" = Some (proc_of elected "b").
Proof. apply proc_of_some. vm_compute. reflexivity. Qed.

Lemma elected_b_vote : durable_vote (proc_of elected "b") = Some (1, "a").
Proof. vm_compute. reflexivity. Qed.

Lemma elected_crashed : rtc (step trio_cluster) elected crashed.
Proof.
  rewrite app_assoc. apply schedule_extends. rewrite <- app_assoc. vm_compute. reflexivity.
Qed.

Lemma durable_term_monotone_witness :
  ∃ p' v', procs crashed !! "b" = Some p' ∧ durable_vote p' = Some v' ∧ (1, "a").1 <= v'.1.
Proof.
  exact (durable_term_monotone trio_cluster elected crashed "b" (proc_of elected "b") (1, "a")
    trio_well_configured elected_reachable elected_crashed elected_b_up elected_b_vote).
Defined.
End witnesses.
