(* ===== verification/Replication.v ===== *)
(** * Replication: the theorems

    What an accepted [AppendEntries] leaves in the follower's log, that repeating
    it changes nothing, and that requests cut from the leader's log bring the
    follower's log into agreement with it. *)

From Stdlib Require Import Ascii String.
From stdpp Require Import strings relations.
From S2P Require Import Prelude GoStd Json Wire Logging Metrics Sql Storage StoreSpec LogSpec LogStore.
From S2P Require Import Config Types Node Rpc NodeFrame Apply Follower Leader Cluster Instances.
#[local] Open Scope Z_scope.

(** ** Log matching *)

(** Two logs that have an entry of the same index and term agree on every row up to
    it, as far as both still have it. *)
Definition log_matching (l1 l2 : rows) : Prop :=
  ∀ i r1 r2, l1 !! i = Some r1 → l2 !! i = Some r2 → uint64 r1.1 = uint64 r2.1 →
  ∀ j x1 x2, j <= i → l1 !! j = Some x1 → l2 !! j = Some x2 → x1 = x2.

(** A stored term is a signed word. *)
Definition word_rows (l : rows) : Prop := ∀ i r, l !! i = Some r → int64 (uint64 r.1) = r.1.

Section matching.
Context (baseL lastL baseF lastF : Z) (lL lF : rows) (p : Z) (es : list Entry).
Hypothesis HdF : dense baseF lastF lF.
Hypothesis Hc : chunk p es.
Hypothesis Hp : baseF <= p <= lastF.
Hypothesis Hb : 0 <= baseF.
Hypothesis Hi : is_idx (p + Z.of_nat (length es)).
Hypothesis HwL : word_rows lL.
Hypothesis Hrows : ∀ e, e ∈ es → ∃ r, lL !! Entry_Index e = Some r
  ∧ Entry_Term e = uint64 r.1 ∧ Entry_Command e = r.2.
Hypothesis Hprev : ∀ rL rF, lL !! p = Some rL → lF !! p = Some rF → uint64 rL.1 = uint64 rF.1.
Hypothesis HdL : dense baseL lastL lL.
Hypothesis HpL : baseL <= p <= lastL.
Hypothesis Hm : log_matching lL lF.

(** A row the leader has cut out is the leader's row. *)
Lemma cut_row e r : e ∈ es → lL !! Entry_Index e = Some r → row_of e = r.
Proof.
  intros Hin Hr. destruct (Hrows e Hin) as (r' & Hr' & Ht & Hcm).
  assert (r' = r) as -> by congruence.
  unfold row_of. rewrite Ht, Hcm. rewrite (HwL _ _ Hr). by destruct r.
Qed.

(** Up to an entry both have, and up to the previous entry, the rows agree. *)
Lemma agree_below q x1 x2 j :
  p <= q → (∀ e, e ∈ es → Entry_Index e <= q → has_entry lF e) → q <= p + Z.of_nat (length es) →
  j <= q → lL !! j = Some x1 → lF !! j = Some x2 → x1 = x2.
Proof.
  intros Hpq Hhas Hq Hj H1 H2. destruct (decide (q = p)) as [->|Hne].
  - assert (baseL < j <= lastL) by (apply HdL; eauto).
    assert (baseF < j <= lastF) by (apply HdF; eauto).
    assert (is_Some (lF !! p)) as [rF EF] by (apply HdF; lia).
    assert (is_Some (lL !! p)) as [rL EL] by (apply HdL; lia).
    exact (Hm p rL rF EL EF (Hprev rL rF EL EF) j x1 x2 Hj H1 H2).
  - destruct (chunk_lookup p es Hc q) as (e & _ & Hin & Hidx); [lia|].
    destruct (Hhas e Hin) as (tm & c & HF & Ht); [lia|].
    destruct (Hrows e Hin) as (rL & HL & HtL & _). rewrite Hidx in HF, HL.
    eapply (Hm q); [exact HL|exact HF| |exact Hj|exact H1|exact H2]. cbn. congruence.
Qed.

(** After the merge the rows agree up to the end of the chunk. *)
Lemma merge_agreement i x1 x2 :
  i <= p + Z.of_nat (length es) → lL !! i = Some x1 → merge lF es !! i = Some x2 → x1 = x2.
Proof.
  intros Hle H1 H2.
  destruct (merge_cases baseF lastF lF p es HdF Hc Hp Hb Hi) as [[Hall E]|(q & Hq & Hqt & Hhas & _ & E)].
  - rewrite E in H2. eapply (agree_below (p + Z.of_nat (length es))); [lia|by auto|lia|done..].
  - rewrite E in H2. destruct (decide (i <= q)).
    + eapply (agree_below q); [lia|done|lia|done..].
    + rewrite decide_True in H2 by lia.
      destruct (chunk_lookup p es Hc i) as (e & He & Hin & Hidx); [lia|].
      rewrite He in H2. cbn in H2. injection H2 as <-. symmetry. apply cut_row; [done|by rewrite Hidx].
Qed.

(** And the logs match. *)
Lemma merge_log_matching : log_matching lL (merge lF es).
Proof.
  intros i r1 r2 H1 H2 Ht j x1 x2 Hj Hx1 Hx2.
  destruct (decide (i <= p + Z.of_nat (length es))) as [Hle|Hgt].
  - apply (merge_agreement j); [lia|done..].
  - destruct (merge_cases baseF lastF lF p es HdF Hc Hp Hb Hi) as [[_ E]|(q & Hq & Hqt & _ & _ & E)].
    + rewrite E in H2, Hx2. by eapply (Hm i).
    + rewrite E, !decide_False in H2 by lia. done.
Qed.
End matching.

Section lemmas.
Context `{D : !SqlDriver} `{L : !SqlLaws D} `{R : !GoRuntime}.
Implicit Types (n : Node).

(** The log an accepted request leaves. *)
Record accepted_log (t : tables) (base : Z) (req : AppendEntriesRequest) (n' : Node)
    (t' : tables) (base' bterm' last' : Z) : Prop := {
  al_rest : at_rest n' t' base' bterm' last';
  al_base : base <= base';
  al_last : match_index req <= last';
  al_rows i : base' < i → log_entries t' !! i = merge (log_entries t) (entries_of req) !! i;
  al_ends : dense base last' (merge (log_entries t) (entries_of req)) ∧ base <= last'
}.

Lemma AppendEntries_accepted n t base bterm last req resp n' :
  at_rest n t base bterm last → ok_append req →
  AppendEntries (Some req) n = (Ok resp, n') → AppendEntriesResponse_Success resp = true →
  accepts n t base bterm req ∧ AppendEntriesResponse_MatchIndex resp = match_index req
  ∧ AppendEntriesResponse_Term resp = AppendEntriesRequest_Term req
  ∧ ∃ t' base' bterm' last', accepted_log t base req n' t' base' bterm' last'.
Proof.
  intros (Hv & Hs & Hu & Hc) Hok E Hsucc.
  pose proof (wp_AppendEntries n t base bterm last req Hv Hs Hok Hu Hc) as Hpost.
  unfold wp in Hpost. rewrite E in Hpost. destruct resp as [rt [] m]; [|done].
  destruct Hpost as (Hacc & -> & -> & c & t0 & last2 & t' & base' & bterm' & Ha & Hs2 & Hm & Hfo).
  split_and!; [done..|].
  destruct (shape_adopted n _ t t0 base bterm last Hs Ha) as (_ & El & _ & _).
  destruct Hfo as [H1 [K1 K2 K3 K4] H3 H4 H5 _]. exists t', base', bterm', last2.
  split; [|done|done| |].
  - split_and!; [done|done| |].
    + destruct H4 as [_ H4]. cbn. apply H4. unfold stepped_down. cbn. by destruct (_ <? _).
    + cbn in H3. rewrite H3. unfold new_commit. destruct (_ <? _); [|done].
      pose proof (sh_last _ _ _ _ Hs2). pose proof (sh_base _ _ _ _ Hs2).
      unfold minUint64. destruct (_ <? _); [apply Hok|by apply is_idx_u64].
  - intros i Hi. rewrite (K3 i Hi). unfold merged. cbn. by rewrite El.
  - split; [|pose proof (sh_base _ _ _ _ Hs2); lia]. pose proof (sh_dense _ _ _ _ Hs2) as Hd. unfold merged in Hd. cbn in Hd. by rewrite El in Hd.
Qed.

Lemma cut_ok n t base bterm last req :
  cut_from n t base bterm last req → shape t base bterm last →
  is_u64 (currentTerm n) → is_u64 (commitIndex n) → ok_append req.
Proof.
  intros [H1 H2 H3 H4 H5 H6 H7 H8] Hs Hu Hc.
  pose proof (sh_last _ _ _ _ Hs). pose proof (sh_base _ _ _ _ Hs). unfold match_index in H8.
  split; [by rewrite H1| |by rewrite H3|done|].
  - apply is_idx_u64. unfold is_idx in *. lia.
  - unfold is_idx in *. lia.
Qed.

(** Rows at the previous index have its term. *)
Lemma term_at_row t base bterm last i r tm :
  shape t base bterm last → log_entries t !! i = Some r → term_at t base bterm i = Some tm →
  uint64 r.1 = tm.
Proof.
  intros Hs Hr. assert (base < i <= last) by (apply (sh_dense _ _ _ _ Hs); eauto).
  pose proof (sh_base _ _ _ _ Hs). unfold term_at.
  destruct (Z.eqb_spec i 0); [lia|]. destruct (Z.eqb_spec i base); [lia|].
  rewrite Hr. cbn. congruence.
Qed.

Lemma accepted_agreement nL tL baseL btermL lastL nF tF baseF btermF lastF req nF' tF' baseF' btermF' lastF' :
  shape tL baseL btermL lastL → word_rows (log_entries tL) →
  at_rest nF tF baseF btermF lastF → log_matching (log_entries tL) (log_entries tF) →
  cut_from nL tL baseL btermL lastL req → accepts nF tF baseF btermF req →
  accepted_log tF baseF req nF' tF' baseF' btermF' lastF' →
  log_matching (log_entries tL) (log_entries tF')
  ∧ ∀ i, Z.max baseL baseF' < i <= match_index req → log_entries tF' !! i = log_entries tL !! i.
Proof.
  intros HsL Hw (_ & HsF & _) Hm Hcut (_ & Hpb & Hpt) [Hr Hbase Hlast Hrows _].
  pose proof Hcut as [_ _ _ Hp Hpt' Hch Hlog Hmi].
  pose proof (term_at_range _ _ _ _ _ _ HsF Hpb Hpt) as Hpl.
  pose proof (sh_base _ _ _ _ HsF) as HbF. pose proof (sh_last _ _ _ _ HsL) as HlL.
  set (p := AppendEntriesRequest_PrevLogIndex req) in *. set (es := entries_of req) in *.
  assert (match_index req = p + Z.of_nat (length es)) as Emi
    by (unfold match_index, es; by rewrite length_fmap).
  assert (is_idx (p + Z.of_nat (length es))) as Hi by (rewrite <- Emi; unfold is_idx in *; lia).
  assert (∀ rL rF, log_entries tL !! p = Some rL → log_entries tF !! p = Some rF →
    uint64 rL.1 = uint64 rF.1) as Hprev.
  { intros rL rF H1 H2. rewrite (term_at_row _ _ _ _ _ _ _ HsL H1 Hpt').
    by rewrite (term_at_row _ _ _ _ _ _ _ HsF H2 Hpt). }
  assert (log_matching (log_entries tL) (merge (log_entries tF) es)) as Hmm.
  { apply (merge_log_matching baseL lastL baseF lastF _ _ p es); try done; [apply HsF|lia|apply HsL]. }
  split.
  - intros i r1 r2 H1 H2 Ht j x1 x2 Hj Hx1 Hx2.
    assert (∀ k x, log_entries tF' !! k = Some x → merge (log_entries tF) es !! k = Some x) as Hsub.
    { intros k x Hx. rewrite <- Hrows; [done|]. destruct Hr as (_ & Hs' & _).
      assert (baseF' < k <= lastF') by (apply (sh_dense _ _ _ _ Hs'); eauto). lia. }
    apply (Hmm i r1 r2 H1 (Hsub _ _ H2) Ht j x1 x2 Hj Hx1 (Hsub _ _ Hx2)).
  - intros i Hir. destruct Hr as (_ & Hs' & _).
    assert (is_Some (log_entries tF' !! i)) as [x Hx] by (apply (sh_dense _ _ _ _ Hs'); lia).
    assert (is_Some (log_entries tL !! i)) as [y Hy] by (apply (sh_dense _ _ _ _ HsL); lia).
    rewrite Hx, Hy. f_equal. symmetry. rewrite Hrows in Hx by lia.
    eapply (merge_agreement baseL lastL baseF lastF (log_entries tL) (log_entries tF) p es) with i;
      try done; [apply HsF|lia|apply HsL|lia].
Qed.
End lemmas.

Section theorems.
Context `{D : !SqlDriver} `{L : !SqlLaws D} `{R : !GoRuntime}.
Implicit Types (n : Node).

(** C11. An accepted [AppendEntries], whatever the database does on the way: every entry
    of the request is in the log with its term and its command, except where the log had an
    entry of that index and term already, which then stays as it was; what the log had up
    to the previous index is still there, a log the request does not contradict loses
    nothing, and one it contradicts ends with the request (indexes at or below the
    snapshot apart). *)
Theorem AppendEntries_log n t base bterm last req resp n' :
  at_rest n t base bterm last → ok_append req →
  AppendEntries (Some req) n = (Ok resp, n') → AppendEntriesResponse_Success resp = true →
  ∃ t' base' bterm' last', at_rest n' t' base' bterm' last' ∧ base <= base'
    ∧ AppendEntriesResponse_MatchIndex resp = match_index req ∧ match_index req <= last'
    ∧ (∀ e, e ∈ entries_of req → base' < Entry_Index e →
         log_entries t' !! Entry_Index e = Some (int64 (Entry_Term e), Entry_Command e)
         ∨ has_entry (log_entries t) e ∧ log_entries t' !! Entry_Index e = log_entries t !! Entry_Index e)
    ∧ (∀ i, base' < i <= AppendEntriesRequest_PrevLogIndex req →
         log_entries t' !! i = log_entries t !! i)
    ∧ (agrees (log_entries t) (entries_of req) →
         ∀ i r, base' < i → log_entries t !! i = Some r → log_entries t' !! i = Some r)
    ∧ (¬ agrees (log_entries t) (entries_of req) →
         ∀ i, match_index req < i → log_entries t' !! i = None).
Proof.
  intros Hr Hok E Hsucc.
  destruct (AppendEntries_accepted n t base bterm last req resp n' Hr Hok E Hsucc)
    as (Hacc & Hmi & _ & t' & base' & bterm' & last' & Hal). destruct Hal as [H1 H2 H3 H4 _].
  exists t', base', bterm', last'. destruct Hr as (_ & Hs & _), Hacc as (_ & Hpb & Hpt).
  pose proof (term_at_range _ _ _ _ _ _ Hs Hpb Hpt) as Hpl. pose proof (sh_base _ _ _ _ Hs) as Hb.
  destruct Hok as [_ _ _ Hch Hroom].
  assert (is_idx (AppendEntriesRequest_PrevLogIndex req + Z.of_nat (length (entries_of req)))) as Hi
    by (by rewrite length_fmap).
  assert (dense base last (log_entries t)) as Hd by apply Hs.
  split_and!; try done.
  - intros e He Hbe. rewrite H4 by done.
    exact (merge_present base last _ _ _ Hd Hch (conj Hpb Hpl) (proj1 Hb) Hi e He).
  - intros i [Hbi Hip]. rewrite H4 by done.
    exact (merge_prefix base last _ _ _ Hd Hch (conj Hpb Hpl) (proj1 Hb) Hi i Hip).
  - intros Ha i r Hbi Hir. rewrite H4 by done.
    eapply lookup_weaken; [exact Hir|].
    exact (merge_agrees base last _ _ _ Hd Hch (conj Hpb Hpl) (proj1 Hb) Hi Ha).
  - intros Ha i Hgt.
    destruct (merge_dense base last _ _ _ Hd Hch (conj Hpb Hpl) (proj1 Hb) Hi)
      as (lm & Hdm & _ & Hna & _). rewrite length_fmap in Hna. fold (match_index req) in Hna.
    destruct (log_entries t' !! i) as [x|] eqn:Ex; [|done]. exfalso.
    destruct H1 as (_ & Hs' & _).
    assert (base' < i <= last') by (apply (sh_dense _ _ _ _ Hs'); eauto).
    rewrite H4 in Ex by lia. assert (is_Some (merge (log_entries t) (entries_of req) !! i)) as Hx by eauto.
    apply Hdm in Hx. specialize (Hna Ha). lia.
Qed.

(** C29. With a database that works and commands that are not empty, [AppendEntries]
    succeeds exactly when the request's term is current, its previous index is not
    below the snapshot and the log has the previous term there. *)
Theorem AppendEntries_decides n t base bterm last req :
  at_rest n t base bterm last → ok_append req →
  nonempty_commands (entries_of req) → sound (store n) →
  ∃ resp n', AppendEntries (Some req) n = (Ok resp, n')
    ∧ (AppendEntriesResponse_Success resp = true ↔ accepts n t base bterm req)
    ∧ AppendEntriesResponse_Term resp = Z.max (currentTerm n) (AppendEntriesRequest_Term req).
Proof.
  intros (Hv & Hs & Hu & Hc) Hok Hne Hso.
  pose proof (wp_AppendEntries n t base bterm last req Hv Hs Hok Hu Hc) as Hpost.
  unfold wp in Hpost. destruct (AppendEntries (Some req) n) as [[[rt [] m]|e] n'] eqn:E; cbn in Hpost.
  - destruct Hpost as (Hacc & -> & _). eexists _, n'. split; [done|]. cbn. split; [done|].
    destruct Hacc as [? _]. lia.
  - destruct Hpost as (Hna & -> & _). eexists _, n'. split; [done|]. cbn. split; [|done].
    split; [done|]. intros Hacc. by destruct Hna.
  - destruct Hpost as [Hns _]. by destruct Hns.
Qed.

(** C30. A refusal leaves the log, the snapshot and the key-value table as they were,
    and an error leaves every row up to the previous index. *)
Theorem AppendEntries_refused n t base bterm last req r n' :
  at_rest n t base bterm last → ok_append req → AppendEntries (Some req) n = (r, n') →
  (match r with Ok resp => AppendEntriesResponse_Success resp = false | Err _ => True end) →
  ∃ t', view (store n') = Idle t' ∧ kv t' = kv t ∧ snapshot t' = snapshot t
    ∧ commitIndex n' = commitIndex n ∧ lastApplied n' = lastApplied n
    ∧ ∀ i, is_ok r = true ∨ i <= AppendEntriesRequest_PrevLogIndex req →
        log_entries t' !! i = log_entries t !! i.
Proof.
  intros (Hv & Hs & Hu & Hc) Hok E Hr.
  pose proof (wp_AppendEntries n t base bterm last req Hv Hs Hok Hu Hc) as Hpost.
  unfold wp in Hpost. rewrite E in Hpost. cbn in Hpost.
  assert (∀ T t0, adopted n T t t0 →
    log_entries t0 = log_entries t ∧ kv t0 = kv t ∧ snapshot t0 = snapshot t) as Had.
  { intros T t0 [->| ->]; [done|]. unfold step_down_tables. by destruct (_ <? _). }
  destruct r as [[rt [] m]|e]; [done| |].
  - destruct Hpost as (_ & _ & (t0 & Ha & Hv') & H1 & H2). apply Had in Ha as (El & Ek & Es).
    exists t0. split_and!; [done..|]. intros i _. by rewrite El.
  - destruct Hpost as (_ & t0 & t' & Ha & Hv' & Et & H3 & _ & H1 & H2). apply Had in Ha as (El & Ek & Es).
    exists t'. split_and!; try done; [by rewrite Et|by rewrite Et|].
    intros i [?|Hi]; [done|by apply H3].
Qed.

(** C31. Delivering an accepted request again, if it is accepted, gives the same match
    index and leaves the log as it was: it ends at the same index, and above the snapshot
    the member has then, every row is the one of before. *)
Theorem AppendEntries_idempotent n t base bterm last req resp n1 resp2 n2 :
  at_rest n t base bterm last → ok_append req →
  AppendEntries (Some req) n = (Ok resp, n1) → AppendEntriesResponse_Success resp = true →
  AppendEntries (Some req) n1 = (Ok resp2, n2) → AppendEntriesResponse_Success resp2 = true →
  AppendEntriesResponse_MatchIndex resp2 = AppendEntriesResponse_MatchIndex resp
  ∧ ∃ t1 base1 bterm1 t2 base2 bterm2 last', at_rest n1 t1 base1 bterm1 last'
    ∧ at_rest n2 t2 base2 bterm2 last' ∧ base1 <= base2
    ∧ ∀ i, base2 < i → log_entries t2 !! i = log_entries t1 !! i.
Proof.
  intros Hr Hok E1 Hs1 E2 Hs2.
  destruct (AppendEntries_accepted n t base bterm last req resp n1 Hr Hok E1 Hs1)
    as (Hacc & Hm1 & _ & t1 & base1 & bterm1 & last1 & [A1 A2 A3 A4 _]).
  destruct (AppendEntries_accepted n1 t1 base1 bterm1 last1 req resp2 n2 A1 Hok E2 Hs2)
    as (Hacc2 & Hm2 & _ & t2 & base2 & bterm2 & last2 & [B1 B2 B3 B4 [B5 B6]]).
  split; [congruence|].
  assert (merge (log_entries t1) (entries_of req) = log_entries t1) as Hno.
  2: { exists t1, base1, bterm1, t2, base2, bterm2, last1. rewrite Hno in B5, B4. destruct A1 as (A1 & Hs1' & A1').
       assert (last2 = last1) as ->.
       { symmetry. apply (dense_last base1 last1 last2 (log_entries t1)); [apply Hs1'|done| |done].
         pose proof (sh_base _ _ _ _ Hs1'). lia. }
       split_and!; [done..|exact B4]. }
  apply merge_present_noop.
  destruct Hr as (_ & Hs & _), Hacc as (_ & Hpb & Hpt), Hacc2 as (_ & Hpb2 & _).
  pose proof (term_at_range _ _ _ _ _ _ Hs Hpb Hpt) as Hpl. pose proof (sh_base _ _ _ _ Hs) as Hb.
  intros e He. destruct Hok as [_ _ _ Hch Hroom].
  destruct (chunk_elem _ _ _ Hch He) as [Hrange _].
  destruct (merge_has_entry base last (log_entries t) (AppendEntriesRequest_PrevLogIndex req)
    (entries_of req)) with e as (tm & c & Hl & Ht); [apply Hs|done|lia|lia|by rewrite length_fmap|done|].
  exists tm, c. by rewrite A4 by lia.
Qed.

(** C12. The leader's request, accepted by a follower: if their logs matched, they still
    do, and the follower's log is the leader's up to the last entry sent (above both
    snapshots). *)
Theorem replication_agreement nL tL baseL btermL lastL peer term lastSent req nL'
    nF tF baseF btermF lastF resp nF' :
  at_rest nL tL baseL btermL lastL → is_idx (lastL + 1) → is_u64 (map_get (nextIndex nL) peer) →
  is_u64 (currentTerm nL) → word_rows (log_entries tL) →
  at_rest nF tF baseF btermF lastF → log_matching (log_entries tL) (log_entries tF) →
  replicatePeer_prepare peer nL = (SendAppend term lastSent req, nL') →
  AppendEntries (Some req) nF = (Ok resp, nF') → AppendEntriesResponse_Success resp = true →
  ∃ tF' baseF' btermF' lastF', at_rest nF' tF' baseF' btermF' lastF' ∧ lastSent <= lastF'
    ∧ log_matching (log_entries tL) (log_entries tF')
    ∧ ∀ i, Z.max baseL baseF' < i <= lastSent → log_entries tF' !! i = log_entries tL !! i.
Proof.
  intros HrL Hroom Hnext Hu Hw HrF Hm EL EF Hsucc.
  pose proof HrL as (HvL & HsL & HuL & HcL).
  pose proof (wp_replicatePeer_prepare nL tL baseL btermL lastL peer HvL HsL Hroom Hnext) as Hp.
  unfold wp in Hp. rewrite EL in Hp. destruct Hp as (_ & _ & _ & -> & _ & Hcut).
  pose proof (cut_ok _ _ _ _ _ _ Hcut HsL Hu HcL) as Hok.
  destruct (AppendEntries_accepted nF tF baseF btermF lastF req resp nF' HrF Hok EF Hsucc)
    as (Hacc & _ & _ & tF' & baseF' & btermF' & lastF' & Hal).
  exists tF', baseF', btermF', lastF'.
  split; [apply Hal|]. split; [exact (al_last _ _ _ _ _ _ _ _ Hal)|].
  exact (accepted_agreement nL tL baseL btermL lastL nF tF baseF btermF lastF req nF' tF' baseF'
    btermF' lastF' HsL Hw HrF Hm Hcut Hacc Hal).
Qed.
End theorems.

(** ** Witnesses *)

Section witnesses.

(** The leader's third entry, sent to the follower whose third entry differs. *)
Definition third_entry : AppendEntriesRequest :=
  mkAppendEntriesRequest 2 "a" 2 1 [Some (mkLogEntry 3 2 (command_json "x" "3"))] 2.

(** The same after an index the follower does not have. *)
Definition gap_request : AppendEntriesRequest := mkAppendEntriesRequest 2 "a" 7 2 [] 2.

Definition after_third : Node := (AppendEntries (Some third_entry) follower_b).2.

Lemma third_entry_ok : ok_append third_entry.
Proof.
  split; [apply u64_small; cbn; lia|apply u64_small; cbn; lia|apply u64_small; cbn; lia| |].
  - split_and!; [reflexivity|apply u64_small; cbn; lia|exact I].
  - unfold is_idx, two63. cbn. lia.
Qed.

Lemma gap_request_ok : ok_append gap_request.
Proof.
  split; [apply u64_small; cbn; lia|apply u64_small; cbn; lia|apply u64_small; cbn; lia|exact I|].
  unfold is_idx, two63. cbn. lia.
Qed.

Lemma third_accepted :
  AppendEntries (Some third_entry) follower_b = (Ok (mkAppendEntriesResponse 2 true 3), after_third).
Proof.
  assert ((AppendEntries (Some third_entry) follower_b).1 = Ok (mkAppendEntriesResponse 2 true 3)) as H by (vm_compute; reflexivity).
  exact (pair_of_fst _ _ H).
Qed.

Lemma AppendEntries_log_witness :
  ∃ t' base' bterm' last', at_rest after_third t' base' bterm' last' ∧ 0 <= base'
    ∧ 3 = match_index third_entry ∧ match_index third_entry <= last'
    ∧ (∀ e, e ∈ entries_of third_entry → base' < Entry_Index e →
         log_entries t' !! Entry_Index e = Some (int64 (Entry_Term e), Entry_Command e)
         ∨ has_entry (log_entries follower_tables) e
           ∧ log_entries t' !! Entry_Index e = log_entries follower_tables !! Entry_Index e)
    ∧ (∀ i, base' < i <= 2 → log_entries t' !! i = log_entries follower_tables !! i)
    ∧ (agrees (log_entries follower_tables) (entries_of third_entry) →
         ∀ i r, base' < i → log_entries follower_tables !! i = Some r → log_entries t' !! i = Some r)
    ∧ (¬ agrees (log_entries follower_tables) (entries_of third_entry) →
         ∀ i, match_index third_entry < i → log_entries t' !! i = None).
Proof.
  exact (AppendEntries_log follower_b follower_tables 0 0 3 third_entry _ after_third
    follower_rest third_entry_ok third_accepted eq_refl).
Defined.

Lemma third_nonempty : nonempty_commands (entries_of third_entry).
Proof. constructor; [done|constructor]. Qed.

Lemma AppendEntries_decides_witness :
  ∃ resp n', AppendEntries (Some third_entry) follower_b = (Ok resp, n')
    ∧ (AppendEntriesResponse_Success resp = true ↔ accepts follower_b follower_tables 0 0 third_entry)
    ∧ AppendEntriesResponse_Term resp = Z.max (currentTerm follower_b) 2.
Proof.
  exact (AppendEntries_decides follower_b follower_tables 0 0 3 third_entry
    follower_rest third_entry_ok third_nonempty follower_sound).
Defined.

Definition after_gap : Node := (AppendEntries (Some gap_request) follower_b).2.

Lemma gap_refused :
  AppendEntries (Some gap_request) follower_b = (Ok (mkAppendEntriesResponse 2 false 3), after_gap).
Proof.
  assert ((AppendEntries (Some gap_request) follower_b).1 = Ok (mkAppendEntriesResponse 2 false 3)) as H by (vm_compute; reflexivity).
  exact (pair_of_fst _ _ H).
Qed.

Lemma AppendEntries_refused_witness :
  ∃ t', view (store after_gap) = Idle t' ∧ kv t' = kv follower_tables
    ∧ snapshot t' = snapshot follower_tables ∧ commitIndex after_gap = commitIndex follower_b
    ∧ lastApplied after_gap = lastApplied follower_b
    ∧ ∀ i, true = true ∨ i <= 7 → log_entries t' !! i = log_entries follower_tables !! i.
Proof.
  exact (AppendEntries_refused follower_b follower_tables 0 0 3 gap_request _ after_gap
    follower_rest gap_request_ok gap_refused eq_refl).
Defined.

Definition after_twice : Node := (AppendEntries (Some third_entry) after_third).2.

Lemma third_accepted_again :
  AppendEntries (Some third_entry) after_third = (Ok (mkAppendEntriesResponse 2 true 3), after_twice).
Proof.
  assert ((AppendEntries (Some third_entry) after_third).1 = Ok (mkAppendEntriesResponse 2 true 3)) as H by (vm_compute; reflexivity).
  exact (pair_of_fst _ _ H).
Qed.

Lemma AppendEntries_idempotent_witness :
  3 = 3 ∧ ∃ t1 base1 bterm1 t2 base2 bterm2 last', at_rest after_third t1 base1 bterm1 last'
    ∧ at_rest after_twice t2 base2 bterm2 last' ∧ base1 <= base2
    ∧ ∀ i, base2 < i → log_entries t2 !! i = log_entries t1 !! i.
Proof.
  exact (AppendEntries_idempotent follower_b follower_tables 0 0 3 third_entry _ after_third _
    after_twice follower_rest third_entry_ok third_accepted eq_refl third_accepted_again eq_refl).
Defined.

Lemma leader_sends :
  replicatePeer_prepare "b" leader_a = (SendAppend 2 3 third_entry, (replicatePeer_prepare "b" leader_a).2).
Proof.
  assert ((replicatePeer_prepare "b" leader_a).1 = SendAppend 2 3 third_entry) as H by (vm_compute; reflexivity).
  exact (pair_of_fst _ _ H).
Qed.

Lemma leader_words : word_rows (log_entries leader_tables).
Proof.
  intros i r. unfold leader_tables. cbn [log_entries with_log set_log].
  rewrite !lookup_insert_Some, lookup_singleton_Some.
  intros [[_ <-]|[_ [[_ <-]|[_ [_ <-]]]]]; reflexivity.
Qed.

Lemma demo_matching : log_matching (log_entries leader_tables) (log_entries follower_tables).
Proof.
  intros i r1 r2. unfold leader_tables, follower_tables. cbn [log_entries with_log set_log].
  rewrite !lookup_insert_Some, !lookup_singleton_Some.
  intros H1 H2 Ht j x1 x2 Hj. rewrite !lookup_insert_Some, !lookup_singleton_Some.
  assert (i < 3) as Hi.
  { destruct H1 as [[<- <-]|[_ [[<- <-]|[_ [<- <-]]]]]; try lia.
    destruct H2 as [[? <-]|[_ [[? <-]|[_ [_ <-]]]]]; try lia; by vm_compute in Ht. }
  intros [[<- <-]|[_ [[<- <-]|[_ [<- <-]]]]] [[? <-]|[_ [[? <-]|[? [? <-]]]]]; try done; lia.
Qed.

Lemma replication_agreement_witness :
  ∃ tF' baseF' btermF' lastF', at_rest after_third tF' baseF' btermF' lastF' ∧ 3 <= lastF'
    ∧ log_matching (log_entries leader_tables) (log_entries tF')
    ∧ ∀ i, Z.max 0 baseF' < i <= 3 → log_entries tF' !! i = log_entries leader_tables !! i.
Proof.
  assert (is_idx (3 + 1)) as H1 by (unfold is_idx, two63; lia).
  assert (is_u64 (map_get (nextIndex leader_a) "b")) as H2 by (vm_compute; split; [discriminate|reflexivity]).
  assert (is_u64 (currentTerm leader_a)) as H3 by (apply u64_small; cbn; lia).
  exact (replication_agreement leader_a leader_tables 0 0 3 "b" 2 3 third_entry _
    follower_b follower_tables 0 0 3 _ after_third leader_rest H1 H2 H3 leader_words
    follower_rest demo_matching leader_sends third_accepted eq_refl).
Defined.
End witnesses.
