(* ===== verification/Commit.v ===== *)
(** * Committing, applying, compacting: the theorems *)

From Stdlib Require Import Ascii String.
From stdpp Require Import strings relations.
From S2P Require Import Prelude GoStd Json Wire Logging Metrics Sql Storage StoreSpec LogSpec LogStore.
From S2P Require Import Config Types Node Rpc NodeFrame Apply Follower Leader Voting Instances.
#[local] Open Scope Z_scope.

(** A database whose metadata agrees with what the node has applied. *)
Definition in_step `{!SqlDriver} (n : Node) (t : tables) : Prop :=
  meta_uint "last_applied" t = Some (lastApplied n).

Section theorems.
Context `{D : !SqlDriver} `{L : !SqlLaws D} `{R : !GoRuntime}.
Implicit Types (n : Node).

(** Every entry of (a, b] is in the log and decodes. *)
Definition applicable (l : rows) (a b : Z) : Prop :=
  ∀ i, a < i <= b → ∃ r cmd, l !! i = Some r ∧ decodeCommand r.2 = Ok cmd.

Lemma applyCommitted_facts n t base bterm last :
  at_rest n t base bterm last → base <= lastApplied n →
  wp applyCommittedLocked (λ _ n', ∃ t' base' bterm',
    at_rest n' t' base' bterm' last
    ∧ log_kept base bterm last t base' bterm' t'
    ∧ commitIndex n' = commitIndex n
    ∧ lastApplied n <= lastApplied n' <= Z.max (lastApplied n) (commitIndex n)
    ∧ replay (log_entries t) (kv t) (lastApplied n) (Z.to_nat (lastApplied n' - lastApplied n))
      = Some (kv t')
    ∧ (in_step n t → in_step n' t')
    ∧ (sound (store n) → lastApplied n <= commitIndex n →
       applicable (log_entries t) (lastApplied n) (commitIndex n) →
       lastApplied n' = commitIndex n)) n.
Proof.
  intros (Hv & Hs & Hu & Hc) Hb.
  eapply wp_mono; [by apply (wp_applyCommitted n t base bterm last)|].
  intros _ n' (t1 & t' & a' & c & Hap).
  destruct (apply_followed n t base bterm last n' t1 t' a' c Hs Hu Hc Hap)
    as (base' & bterm' & [F1 F2 F3 F4 F5 F6 _ _]).
  destruct Hap as [A1 A2 A3 A4 A5].
  destruct (turns_replay _ _ _ _ _ _ _ _ Hs Hb Hu Hc A1) as (Hs1 & El1 & _ & Hr & _).
  destruct (turns_facts _ _ _ _ _ _ _ _ Hs Hu Hc A1) as (_ & _ & _ & Hua).
  assert (lastApplied n' = a') as El by (destruct A4 as [-> _]; done).
  exists t', base', bterm'. split_and!; try done.
  - split; [done|]. split; [apply F2|]. split; [by rewrite El|]. by rewrite F3.
  - lia.
  - lia.
  - by apply F5.
  - unfold in_step. rewrite El. intros Hin. eapply compacted_last_applied; [done|exact A2|].
    by apply (turns_last_applied base bterm last (commitIndex n) t (lastApplied n)).
  - intros Hso Hle Happ. rewrite El. destruct (decide (a' < commitIndex n)) as [Hlt|]; [|lia].
    specialize (A5 Hso Hlt). unfold apply_step in A5.
    destruct (Happ (a' + 1)) as (r & cmd & Hr1 & Hcmd); [lia|].
    by rewrite El1, Hr1, Hcmd in A5.
Qed.

(** C14. Applying: the key-value table becomes the replay, in order, of the entries
    between the old and the new applied index, and of nothing else; the commit index
    is not touched and the applied index does not pass it. *)
Theorem applied_is_replay n t base bterm last :
  at_rest n t base bterm last → base <= lastApplied n →
  let n' := (applyCommittedLocked n).2 in
  ∃ t' base' bterm', at_rest n' t' base' bterm' last
    ∧ commitIndex n' = commitIndex n
    ∧ lastApplied n <= lastApplied n' <= Z.max (lastApplied n) (commitIndex n)
    ∧ replay (log_entries t) (kv t) (lastApplied n) (Z.to_nat (lastApplied n' - lastApplied n))
      = Some (kv t')
    ∧ (∀ i, base' < i → log_entries t' !! i = log_entries t !! i).
Proof.
  intros Hr Hb. destruct (applyCommitted_facts n t base bterm last Hr Hb)
    as (t' & base' & bterm' & H1 & H2 & H3 & H4 & H5 & _).
  exists t', base', bterm'. split_and!; try done; [lia|lia|apply H2].
Qed.

(** C15. Progress: with a database that works and entries that are there and decode,
    everything that is committed gets applied. *)
Theorem committed_is_applied n t base bterm last :
  at_rest n t base bterm last → base <= lastApplied n <= commitIndex n → sound (store n) →
  applicable (log_entries t) (lastApplied n) (commitIndex n) →
  lastApplied (applyCommittedLocked n).2 = commitIndex n.
Proof.
  intros Hr Hb Hso Ha. destruct (applyCommitted_facts n t base bterm last Hr)
    as (t' & base' & bterm' & _ & _ & _ & _ & _ & _ & H); [lia|]. apply H; [done|lia|done].
Qed.

(** State machines agree: two members that have applied the same prefix to the same
    table, and whose logs agree up to a common index they both apply, end with the
    same table. *)
Theorem replicas_apply_alike n1 t1 base1 bterm1 last1 n2 t2 base2 bterm2 last2 :
  at_rest n1 t1 base1 bterm1 last1 → at_rest n2 t2 base2 bterm2 last2 →
  base1 <= lastApplied n1 → base2 <= lastApplied n2 →
  lastApplied n1 = lastApplied n2 → kv t1 = kv t2 →
  let n1' := (applyCommittedLocked n1).2 in
  let n2' := (applyCommittedLocked n2).2 in
  lastApplied n1' = lastApplied n2' →
  (∀ i, lastApplied n1 < i <= lastApplied n1' → log_entries t1 !! i = log_entries t2 !! i) →
  ∃ t1' t2', view (store n1') = Idle t1' ∧ view (store n2') = Idle t2' ∧ kv t1' = kv t2'.
Proof.
  intros Hr1 Hr2 Hb1 Hb2 Ha Hkv n1' n2' Ha' Hlog.
  destruct (applyCommitted_facts n1 t1 base1 bterm1 last1 Hr1 Hb1)
    as (t1' & b1' & bt1' & R1 & _ & _ & I1 & P1 & _).
  destruct (applyCommitted_facts n2 t2 base2 bterm2 last2 Hr2 Hb2)
    as (t2' & b2' & bt2' & R2 & _ & _ & I2 & P2 & _).
  exists t1', t2'. split_and!; [apply R1|apply R2|].
  fold n1' in P1, I1. fold n2' in P2. rewrite <- Ha, <- Ha', <- Hkv in P2.
  rewrite (replay_ext _ (log_entries t2)) in P1; [congruence|].
  intros i Hi. apply Hlog. lia.
Qed.

(** C16. What has been applied survives a crash: after applying, a restart resumes at
    the same applied index, with the same table. *)
Theorem applied_survives_crash n t base bterm last opts mkdir path env n2 file' :
  at_rest n t base bterm last → base <= lastApplied n → in_step n t →
  let n' := (applyCommittedLocked n).2 in
  New opts mkdir path (drv_file (store n')) env = (Ok n2, file') →
  lastApplied n2 = lastApplied n' ∧ commitIndex n2 = lastApplied n'
  ∧ kv file' = kv (drv_file (store n')) ∧ log_entries file' = log_entries (drv_file (store n')).
Proof.
  intros Hr Hb Hin n' Enew.
  destruct (applyCommitted_facts n t base bterm last Hr Hb)
    as (t' & base' & bterm' & (Hv' & _) & _ & _ & _ & _ & Hin' & _).
  fold n' in Hv', Hin'. specialize (Hin' Hin). unfold in_step in Hin'.
  assert (drv_file (store n') = t') as Ef by (by rewrite file_law, Hv').
  rewrite Ef in *.
  pose proof (New_started opts mkdir path t' env) as Hst. rewrite Enew in Hst.
  destruct Hst as [Ef2 Hst]. destruct (Hst n2 eq_refl) as (_ & Ha & Ec & _).
  assert (meta_uint "last_applied" (spec_init t') = Some (lastApplied n')) as Hm.
  { clear -Hin'. unfold meta_uint, spec_init in *. cbn. rewrite lookup_union.
    destruct (metadata t' !! "last_applied"); [|done]. by rewrite union_Some_l. }
  assert (kv file' = kv (spec_init file') ∧ log_entries file' = log_entries (spec_init file'))
    as [-> ->] by done.
  rewrite Ef2, Ec. split_and!; [congruence|congruence|done|done].
Qed.

Lemma compacted_last_term base bterm last a t t' base' bterm' :
  shape t base bterm last → compacted base bterm last a t t' → log_kept base bterm last t base' bterm' t' →
  last_term t' base' bterm' last = last_term t base bterm last.
Proof.
  intros Hs Hco [K1 K2 K3 K4 _]. destruct (decide (last = 0)) as [E0|Hne].
  - destruct Hco as [->|(tm & Ha & _)]; [|pose proof (sh_base _ _ _ _ Hs); lia].
    pose proof (sh_meta _ _ _ _ K1) as E. rewrite (sh_meta _ _ _ _ Hs) in E. by injection E as -> ->.
  - pose proof (K4 last) as H. pose proof (sh_base _ _ _ _ K1).
    rewrite (last_term_at t' base' bterm'), (last_term_at t base bterm) in H by done.
    specialize (H ltac:(lia)). congruence.
Qed.

(** C17. Compaction takes a snapshot of the applied prefix or does nothing: the last
    index and its term, every term from the snapshot on, the rows above it and the
    key-value table are as before. *)
Theorem compaction_keeps_log n t base bterm last :
  at_rest n t base bterm last →
  let n' := (compactIfNeededLocked n).2 in
  ∃ t' base' bterm', view (store n') = Idle t' ∧ shape t' base' bterm' last
    ∧ base <= base' ∧ kv t' = kv t
    ∧ (∀ i, base' < i → log_entries t' !! i = log_entries t !! i)
    ∧ (∀ i, base' <= i → is_u64 i → spec_Term i t' = spec_Term i t)
    ∧ spec_LastIndexAndTerm t' = spec_LastIndexAndTerm t
    ∧ lastApplied n' = lastApplied n ∧ commitIndex n' = commitIndex n.
Proof.
  intros (Hv & Hs & Hu & Hc) n'.
  assert (wp compactIfNeededLocked (λ _ n', ∃ t' c, compacted base bterm last (lastApplied n) t t'
    ∧ view c = Idle t' ∧ quiet (set_store c n) n') n) as (t' & c & Hco & Hvc & Hq).
  { eapply wp_compact; [done..|]. eauto. }
  destruct (compacted_kept base bterm last _ t t' Hs Hco) as (base' & bterm' & Hk & Hkv & _).
  pose proof Hk as [K1 K2 K3 K4 _].
  fold n' in Hq. pose proof Hq as [E _]. exists t', base', bterm'.
  split_and!; try done; [by apply (quiet_view _ _ _ Hq)| | |by rewrite E|by rewrite E].
  - intros i Hi Hiu. rewrite (spec_Term_shape _ _ _ _ K1), (spec_Term_shape _ _ _ _ Hs) by done.
    by rewrite K4.
  - rewrite (spec_LastIndexAndTerm_shape _ _ _ _ K1), (spec_LastIndexAndTerm_shape _ _ _ _ Hs).
    do 2 f_equal. by eapply compacted_last_term.
Qed.
(** C13. The commit rule: the commit index moves, if it moves, to an entry of the
    leader's current term that a majority is known to hold, inside the log; and with
    a database that works it moves to the greatest such. *)
Theorem commit_rule n t base bterm last :
  at_rest n t base bterm last → is_u64 (commitIndex n + 1) →
  let c := commitIndex (advanceCommitLocked n).2 in
  (c = commitIndex n ∨ commitIndex n < c <= last
     ∧ term_at t base bterm c = Some (currentTerm n) ∧ majorityLocked n <= replicas n c)
  ∧ (sound (store n) → ∀ j, commitIndex n < j <= last →
       term_at t base bterm j = Some (currentTerm n) → majorityLocked n <= replicas n j → j <= c).
Proof.
  intros (Hv & Hs & Hu & Hc) Hc1.
  destruct (wp_advanceCommit n t base bterm last Hv Hs Hu Hc Hc1)
    as (c & t' & base' & bterm' & H1 & H2 & [_ _ Ec _ _ _]).
  cbn zeta. rewrite Ec. split; [exact H1|].
  intros Hso j Hj Ht Hm. apply H2; [done..|by split].
Qed.

(** C18. Termination: the loop that applies stops within as many turns as there are
    committed entries to apply, and the loop that advances the commit index within as
    many as there are entries above it; neither runs out. *)
Theorem loops_terminate n t base bterm last :
  at_rest n t base bterm last →
  (apply_loop (apply_fuel n) n).1 ≠ OutOfFuel
  ∧ ∀ idx, 0 < idx →
      (advance_loop (Z.to_nat (last - idx + 1)) (majorityLocked n) last idx n).1 ≠ OutOfFuel.
Proof.
  intros (Hv & Hs & Hu & Hc). split.
  - destruct (wp_apply_loop (apply_fuel n) n t base bterm last Hv Hs Hu Hc) as (? & ? & ? & H).
    + unfold apply_fuel. lia.
    + apply H.
  - intros idx Hi.
    destruct (wp_advance_loop (Z.to_nat (last - idx + 1)) n t base bterm last idx Hv Hs Hi)
      as (? & ? & ? & _ & _ & _ & _ & _ & H & _); [lia|done].
Qed.
End theorems.

(** ** Witnesses *)

Section witnesses.

(** The entry of a row decodes, as a test. *)
Definition decodes (l : rows) (i : Z) : bool :=
  match l !! i with
  | Some r => match decodeCommand r.2 with Ok _ => true | Err _ => false end
  | None => false
  end.

Lemma decodes_row l i : decodes l i = true → ∃ r cmd, l !! i = Some r ∧ decodeCommand r.2 = Ok cmd.
Proof.
  unfold decodes. destruct (l !! i) as [r|]; [|done]. destruct (decodeCommand r.2) as [cmd|] eqn:E; [|done].
  intros _. by exists r, cmd.
Qed.

(** The follower with the log of the leader's first term committed. *)
Definition follower_commits : Node := set_commitIndex 2 follower_b.

(** A leader whose third entry both other members hold. *)
Definition replicated : Node := set_matchIndex {["b" := 3; "c" := 3]} leader_a.

Lemma follower_commits_rest : at_rest follower_commits follower_tables 0 0 3.
Proof. split; [reflexivity|]. split; [apply follower_shape|]. split; apply u64_small; cbn; lia. Qed.

Lemma replicated_rest : at_rest replicated leader_tables 0 0 3.
Proof. split; [reflexivity|]. split; [apply leader_shape|]. split; apply u64_small; cbn; lia. Qed.

Lemma leader_in_step : in_step leader_a leader_tables.
Proof. vm_compute. reflexivity. Qed.

Lemma leader_applicable : applicable (log_entries leader_tables) 0 2.
Proof.
  intros i Hi. apply decodes_row. assert (i = 1 ∨ i = 2) as [-> | ->] by lia; vm_compute; reflexivity.
Qed.

Abbreviation leader_applied := (applyCommittedLocked leader_a).2.
Abbreviation follower_applied := (applyCommittedLocked follower_commits).2.

Lemma applied_is_replay_witness :
  ∃ t' base' bterm', at_rest leader_applied t' base' bterm' 3
    ∧ commitIndex leader_applied = 2
    ∧ 0 <= lastApplied leader_applied <= Z.max 0 2
    ∧ replay (log_entries leader_tables) (kv leader_tables) 0
        (Z.to_nat (lastApplied leader_applied - 0)) = Some (kv t')
    ∧ (∀ i, base' < i → log_entries t' !! i = log_entries leader_tables !! i).
Proof. exact (applied_is_replay leader_a leader_tables 0 0 3 leader_rest (Z.le_refl 0)). Defined.

Lemma committed_is_applied_witness : lastApplied leader_applied = 2.
Proof.
  exact (committed_is_applied leader_a leader_tables 0 0 3 leader_rest
    (conj (Z.le_refl 0) (Z.le_0_2)) leader_sound leader_applicable).
Defined.

Lemma replicas_apply_alike_witness :
  ∃ t1' t2', view (store leader_applied) = Idle t1' ∧ view (store follower_applied) = Idle t2'
    ∧ kv t1' = kv t2'.
Proof.
  assert (lastApplied leader_applied = lastApplied follower_applied) as H1 by (vm_compute; reflexivity).
  assert (∀ i, 0 < i <= lastApplied leader_applied →
    log_entries leader_tables !! i = log_entries follower_tables !! i) as H2.
  { assert (lastApplied leader_applied = 2) as -> by (vm_compute; reflexivity).
    intros i Hi. assert (i = 1 ∨ i = 2) as [-> | ->] by lia; vm_compute; reflexivity. }
  exact (replicas_apply_alike leader_a leader_tables 0 0 3 follower_commits follower_tables 0 0 3
    leader_rest follower_commits_rest (Z.le_refl 0) (Z.le_refl 0) eq_refl eq_refl H1 H2).
Defined.

Definition reopened : result Node * tables :=
  New (trio_options "a") (Ok tt) "data/a/state.db" (drv_file (store leader_applied)) steady_env.

Definition reopened_node : Node := the_ok leader_a reopened.1.

Lemma applied_survives_crash_witness :
  lastApplied reopened_node = lastApplied leader_applied
  ∧ commitIndex reopened_node = lastApplied leader_applied
  ∧ kv reopened.2 = kv (drv_file (store leader_applied))
  ∧ log_entries reopened.2 = log_entries (drv_file (store leader_applied)).
Proof.
  assert (is_ok reopened.1 = true) as H by (vm_compute; reflexivity).
  exact (applied_survives_crash leader_a leader_tables 0 0 3 (trio_options "a") (Ok tt)
    "data/a/state.db" steady_env reopened_node reopened.2 leader_rest (Z.le_refl 0) leader_in_step
    (pair_of_ok _ _ H)).
Defined.

Abbreviation after_compacting := (compactIfNeededLocked compacting).2.

Lemma compaction_keeps_log_witness :
  ∃ t' base' bterm', view (store after_compacting) = Idle t' ∧ shape t' base' bterm' 3
    ∧ 0 <= base' ∧ kv t' = kv leader_tables
    ∧ (∀ i, base' < i → log_entries t' !! i = log_entries leader_tables !! i)
    ∧ (∀ i, base' <= i → is_u64 i → spec_Term i t' = spec_Term i leader_tables)
    ∧ spec_LastIndexAndTerm t' = spec_LastIndexAndTerm leader_tables
    ∧ lastApplied after_compacting = 2 ∧ commitIndex after_compacting = commitIndex compacting.
Proof. exact (compaction_keeps_log compacting leader_tables 0 0 3 compacting_rest). Defined.

Example compacting_cuts : spec_SnapshotIndexTerm (drv_file (store after_compacting)) = Some (2, 1).
Proof. vm_compute. reflexivity. Qed.

Abbreviation advanced := (advanceCommitLocked replicated).2.

Lemma commit_rule_witness :
  (commitIndex advanced = 2 ∨ 2 < commitIndex advanced <= 3
     ∧ term_at leader_tables 0 0 (commitIndex advanced) = Some 2
     ∧ majorityLocked replicated <= replicas replicated (commitIndex advanced))
  ∧ (sound (store replicated) → ∀ j, 2 < j <= 3 → term_at leader_tables 0 0 j = Some 2 →
       majorityLocked replicated <= replicas replicated j → j <= commitIndex advanced).
Proof. exact (commit_rule replicated leader_tables 0 0 3 replicated_rest (u64_small 3 ltac:(lia))). Defined.

Example advanced_to_three : (commitIndex advanced, lastApplied advanced) = (3, 3).
Proof. vm_compute. reflexivity. Qed.

Lemma loops_terminate_witness :
  (apply_loop (apply_fuel replicated) replicated).1 ≠ OutOfFuel
  ∧ ∀ idx, 0 < idx →
      (advance_loop (Z.to_nat (3 - idx + 1)) (majorityLocked replicated) 3 idx replicated).1
        ≠ OutOfFuel.
Proof. exact (loops_terminate replicated leader_tables 0 0 3 replicated_rest). Defined.
End witnesses.
