(* ===== verification/Snapshots.v ===== *)
(** * Snapshots: taking, sending, installing

    [Store.CreateSnapshot], [LoadSnapshot] and [InstallSnapshot] as a round trip of
    the key-value table, and the handler [InstallSnapshot] on every branch. *)

From Stdlib Require Import Ascii String.
From stdpp Require Import strings relations.
From S2P Require Import Prelude GoStd Json Wire Logging Metrics Sql Storage StoreSpec LogSpec LogStore.
From S2P Require Import Config Types Node Rpc NodeFrame Apply Follower Leader Instances.
#[local] Open Scope Z_scope.

(** A request as a leader sends it. *)
Record ok_install (req : InstallSnapshotRequest) : Prop := {
  oi_term : is_u64 (InstallSnapshotRequest_Term req);
  oi_index : is_idx (InstallSnapshotRequest_LastIncludedIndex req);
  oi_sterm : is_u64 (InstallSnapshotRequest_LastIncludedTerm req)
}.

Definition snapshot_of (req : InstallSnapshotRequest) : Snapshot :=
  mkSnapshot (InstallSnapshotRequest_LastIncludedIndex req)
    (InstallSnapshotRequest_LastIncludedTerm req) (InstallSnapshotRequest_Data req).

(** The key-value table of a snapshot, all its rows marked with its index. *)
Definition kv_of_snapshot (index : Z) (values : gmap string string) : kv_rows :=
  (λ v, (v, int64 index)) <$> values.

Lemma kv_values_of_snapshot index values t :
  kv t = kv_of_snapshot index values → kv_values t = values.
Proof.
  unfold kv_values, kv_of_snapshot. intros ->. rewrite <- map_fmap_compose.
  rewrite <- (map_fmap_id values) at 2. by apply map_fmap_ext.
Qed.

(** A handler takes the request: its term is current and it goes beyond the
    snapshot. *)
Definition installs `{!SqlDriver} (n : Node) (base : Z) (req : InstallSnapshotRequest) : Prop :=
  currentTerm n <= InstallSnapshotRequest_Term req
  ∧ base < InstallSnapshotRequest_LastIncludedIndex req.

Section snapshots.
Context `{D : !SqlDriver} `{L : !SqlLaws D} `{R : !GoRuntime}.
Implicit Types (n : Node).

Definition install_post n t base (req : InstallSnapshotRequest)
    (r : result InstallSnapshotResponse) (n' : Node) : Prop :=
  let T := InstallSnapshotRequest_Term req in
  let i := InstallSnapshotRequest_LastIncludedIndex req in
  ∃ t0, adopted n T t t0 ∧ currentTerm n' = Z.max (currentTerm n) T ∧
  match r with
  | Ok resp =>
      InstallSnapshotResponse_Term resp = Z.max (currentTerm n) T
      ∧ (currentTerm n <= T → role n' = RoleFollower ∧ currentTerm n' = T) ∧
      ((¬ installs n base req ∧ view (store n') = Idle t0
          ∧ commitIndex n' = commitIndex n ∧ lastApplied n' = lastApplied n)
       ∨ ∃ values, installs n base req
          ∧ decode_snapshot (InstallSnapshotRequest_Data req) = Ok values
          ∧ view (store n') = Idle (put_snapshot (snapshot_of req)
              (set_kv (λ _, kv_of_snapshot i values) t0))
          ∧ commitIndex n' = Z.max (commitIndex n) i ∧ lastApplied n' = Z.max (lastApplied n) i)
  | Err _ =>
      ¬ (sound (store n) ∧ InstallSnapshotRequest_Data req ≠ ""
         ∧ is_ok (decode_snapshot (InstallSnapshotRequest_Data req)) = true)
      ∧ view (store n') = Idle t0
      ∧ commitIndex n' = commitIndex n ∧ lastApplied n' = lastApplied n
  end.

Lemma maxUint64_max a b : maxUint64 a b = Z.max a b.
Proof. unfold maxUint64. destruct (Z.ltb_spec b a); lia. Qed.

Lemma wp_InstallSnapshot n t base bterm last req :
  view (store n) = Idle t → shape t base bterm last → ok_install req →
  wp (InstallSnapshot (Some req)) (install_post n t base req) n.
Proof.
  intros Hv Hs [HT Hi Hst]. unfold InstallSnapshot. wp_pure.
  cbn [InstallSnapshotRequest_GetTerm InstallSnapshotRequest_GetLeaderId
    InstallSnapshotRequest_GetLastIncludedIndex InstallSnapshotRequest_GetLastIncludedTerm
    InstallSnapshotRequest_GetData].
  set (T := InstallSnapshotRequest_Term req) in *.
  set (i := InstallSnapshotRequest_LastIncludedIndex req) in *.
  destruct (Z.ltb_spec T (currentTerm n)) as [Hlt|Hge].
  { wp_skip as n1 Hq1. unfold snapshot_reply. wp_pure. pose proof Hq1 as [E _].
    exists t. split; [by left|]. split; [rewrite E; cbn; fold T; lia|]. rewrite E. split; [cbn; fold T; lia|].
    split; [intros ?; fold T in H; lia|]. left. rewrite <- E. split_and!; [|by apply (quiet_view n)|by rewrite E|by rewrite E].
    intros [? _]. fold T in H. lia. }
  wp_pure. eapply wp_follow_leader; [exact Hv|done|done|].
  intros c t0 n1 Hvc Hta Hso Hq1.
  destruct (shape_adopted n T t t0 base bterm last Hs Hta) as (Hs0 & _).
  destruct (quiet_stepped_down _ _ _ _ _ Hq1) as (Ecm & Ela & Ect & Est).
  assert (currentTerm n <= T → role n1 = RoleFollower ∧ currentTerm n1 = T) as Hfol.
  { intros _. split; [|rewrite Ect; lia]. pose proof Hq1 as [-> _]. cbn. unfold stepped_down.
    by destruct (currentTerm n <? T). }
  assert (view (store n1) = Idle t0) as Hv1 by (apply (quiet_view _ _ _ Hq1); by rewrite Est).
  assert (sound (store n) → sound (store n1)) as Hso1.
  { intros H. apply (quiet_sound _ _ Hq1). rewrite Est. by apply Hso. }
  wp_pure. eapply wp_reads; [apply reads_SnapshotIndexTerm|apply wf_SnapshotIndexTerm|exact Hv1| |].
  2: { intros e n2 Hns Hq2. apply wp_rpc_error. intros n3 Hq3.
       assert (quiet n1 n3) as Hq by (by etrans). pose proof Hq as [E _].
       exists t0. split; [done|]. split; [rewrite E; cbn; by rewrite Ect|]. split; [tauto|].
       split_and!; [by apply (quiet_view n1)|by rewrite E|by rewrite E]. }
  intros [si st] n2 Ha Hq2. rewrite (sh_meta _ _ _ _ Hs0) in Ha. injection Ha as <- <-.
  destruct (Z.leb_spec i base) as [Hib|Hib].
  { wp_skip as n3 Hq3. unfold snapshot_reply. wp_pure.
    assert (quiet n1 n3) as Hq by (by etrans). pose proof Hq as [E _].
    exists t0. split; [done|]. split; [rewrite E; cbn; by rewrite Ect|].
    split; [rewrite E; cbn; by rewrite Ect|]. split; [by rewrite E|].
    left. split_and!; [|by apply (quiet_view n1)|by rewrite E|by rewrite E].
    intros [_ ?]. fold i in H. lia. }
  wp_pure. pose proof (quiet_view _ _ _ Hq2 Hv1) as Hv2. pose proof Hq2 as [E2 _].
  assert (∀ c', view c' = Idle t0 →
    ¬ ((InstallSnapshotRequest_Data req ≠ "" ∧ is_ok (decode_snapshot (InstallSnapshotRequest_Data req)) = true)
       ∧ sound (store n2)) → ∀ n', quiet (set_store c' n2) n' →
    ∀ e, install_post n t base req (Err e) n') as Herr.
  { intros c' Hc' Hns n' Hq e. destruct (quiet_set_fields _ _ _ Hq) as (Ec & El & _).
    exists t0. split; [done|].
    split; [pose proof Hq as [-> _]; cbn; rewrite E2; cbn; by rewrite Ect|]. rewrite Ec, El.
    assert (commitIndex n2 = commitIndex n ∧ lastApplied n2 = lastApplied n) as [-> ->]
      by (rewrite E2; by split).
    split; [|split; [by apply (quiet_view _ _ _ Hq)|by split]].
    intros (Hsn & Hne & Hok). apply Hns. split; [done|]. apply (quiet_sound _ _ Hq2). by apply Hso1. }
  eapply (wp_refines (InstallSnapshotRequest_Data req ≠ ""
      ∧ is_ok (decode_snapshot (InstallSnapshotRequest_Data req)) = true));
    [eapply refines_pre; [|apply refines_InstallSnapshot]| |exact Hv2| |].
  - intros [Hne _]. exact Hne.
  - intros [_ Hok] _. unfold spec_InstallSnapshot. cbn. by destruct (decode_snapshot _).
  - intros [] t' c' Hf Hc' _. unfold spec_InstallSnapshot in Hf. cbn in Hf.
    destruct (decode_snapshot (InstallSnapshotRequest_Data req)) as [values|] eqn:Ed; [|done].
    injection Hf as <-. wp_pure. wp_skip as n3 Hq3. unfold snapshot_reply. wp_skip as n4 Hq4. wp_pure.
    assert (quiet (set_lastApplied (maxUint64 (lastApplied n2) i)
      (set_commitIndex (maxUint64 (commitIndex n2) i) (set_store c' n2))) n4) as Hq by (by etrans).
    pose proof Hq as [E _]. exists t0. split; [done|]. split; [rewrite E, E2; cbn; by rewrite Ect|].
    split; [rewrite E, E2; cbn; by rewrite Ect|]. split; [by rewrite E, E2|]. right. exists values.
    split_and!; [done|done|by apply (quiet_view _ _ _ Hq)| |].
    + rewrite E, E2. cbn. by rewrite maxUint64_max, Ecm.
    + rewrite E, E2. cbn. by rewrite maxUint64_max, Ela.
  - intros e c' Hns Hc'. apply wp_rpc_error. intros n' Hq. by eapply Herr.
Qed.

Lemma spec_last_applied_put snap t :
  is_u64 (LastIncludedIndex snap) →
  meta_uint "last_applied" (put_snapshot snap t) = Some (LastIncludedIndex snap).
Proof.
  intros Hi. unfold meta_uint, put_snapshot, put_meta. cbn. rewrite lookup_insert_eq. cbn.
  by rewrite ParseUint_FormatUint.
Qed.

Lemma put_snapshot_rows_above snap t i :
  is_idx (LastIncludedIndex snap) → LastIncludedIndex snap < i →
  log_entries (put_snapshot snap t) !! i = log_entries t !! i.
Proof.
  intros Hi Hlt. cbn. rewrite (int64_id _ Hi). destruct (log_entries t !! i) eqn:E.
  - by apply map_lookup_filter_Some.
  - apply map_lookup_filter_None. by left.
Qed.

(** C19. [InstallSnapshot] answers with its term and either ignores the request - of an
    older term, or not beyond the snapshot it has - or takes it whole: the table is the
    snapshot's, the log starts at its index with its term, the rows above are kept, and
    neither the commit index nor the applied index goes down. *)
Theorem InstallSnapshot_decides n t base bterm last req values :
  at_rest n t base bterm last → ok_install req → sound (store n) →
  InstallSnapshotRequest_Data req ≠ "" →
  decode_snapshot (InstallSnapshotRequest_Data req) = Ok values →
  let i := InstallSnapshotRequest_LastIncludedIndex req in
  ∃ resp n' t', InstallSnapshot (Some req) n = (Ok resp, n')
    ∧ InstallSnapshotResponse_Term resp = Z.max (currentTerm n) (InstallSnapshotRequest_Term req)
    ∧ view (store n') = Idle t'
    ∧ (if decide (currentTerm n <= InstallSnapshotRequest_Term req ∧ base < i)
       then at_rest n' t' i (InstallSnapshotRequest_LastIncludedTerm req) (Z.max last i)
         ∧ kv_values t' = values ∧ (∀ j, i < j → log_entries t' !! j = log_entries t !! j)
         ∧ commitIndex n' = Z.max (commitIndex n) i ∧ lastApplied n' = Z.max (lastApplied n) i
       else at_rest n' t' base bterm last ∧ log_entries t' = log_entries t ∧ kv t' = kv t
         ∧ commitIndex n' = commitIndex n ∧ lastApplied n' = lastApplied n).
Proof.
  intros (Hv & Hs & Hu & Hc) Hok Hso Hne Hd i.
  pose proof (wp_InstallSnapshot n t base bterm last req Hv Hs Hok) as Hw. unfold wp in Hw.
  destruct (InstallSnapshot (Some req) n) as [[resp|e] n']; cbn [fst snd] in Hw;
    destruct Hw as (t0 & Hta & _ & Hw).
  2: { destruct Hw as [Hns _]. destruct Hns. by rewrite Hd. }
  destruct (shape_adopted _ _ _ _ _ _ _ Hs Hta) as (Hs0 & El0 & Ek0 & _).
  destruct Hok as [HT Hi Hst]. pose proof (is_idx_u64 _ Hi) as Hiu.
  destruct Hw as (Hterm & _ & [(Hni & Hv' & Ec & Ea)|(vs & Hin & Hd' & Hv' & Ec & Ea)]).
  - exists resp, n', t0. split_and!; [done..|]. rewrite decide_False by done.
    split_and!; [|done..]. split; [done|]. split; [done|]. by rewrite Ec, Ea.
  - rewrite Hd in Hd'. injection Hd' as <-.
    eexists resp, n', _. split_and!; [done|done|exact Hv'|]. rewrite decide_True by done.
    split_and!; [|by eapply kv_values_of_snapshot| |done|done].
    + split; [exact Hv'|]. split.
      * apply (shape_put_snapshot (snapshot_of req) _ base bterm last); [|cbn; destruct Hin; lia|done|done].
        by apply (shape_frame t0).
      * rewrite Ec, Ea. subst i. unfold is_u64 in *. lia.
    + intros j Hj. rewrite (put_snapshot_rows_above (snapshot_of req)) by done. cbn. by rewrite El0.
Qed.

Lemma adopted_applied n T t t0 :
  adopted n T t t0 → meta_uint "last_applied" t0 = meta_uint "last_applied" t.
Proof.
  intros [->| ->]; [done|]. unfold step_down_tables. destruct (currentTerm n <? T); [|done].
  unfold meta_uint. cbn. by rewrite !lookup_insert_ne.
Qed.

(** C20. On every branch, errors included, the term, and in memory the commit index and the
    applied index, never go down, nor do the index of the snapshot and the end of the log.
    Either nothing of the log, the key-value table and the applied index on disk has changed,
    or the snapshot was taken whole: the table is the snapshot's, and the applied index on
    disk is that of the snapshot, even where the node had applied more. *)
Theorem InstallSnapshot_monotone n t base bterm last req r n' :
  at_rest n t base bterm last → ok_install req → InstallSnapshot (Some req) n = (r, n') →
  currentTerm n <= currentTerm n' ∧ commitIndex n <= commitIndex n' ∧ lastApplied n <= lastApplied n'
  ∧ ∃ t' base' bterm' last', at_rest n' t' base' bterm' last' ∧ base <= base' ∧ last <= last'
    ∧ (base' = base ∧ log_entries t' = log_entries t ∧ kv t' = kv t
         ∧ meta_uint "last_applied" t' = meta_uint "last_applied" t
       ∨ base' = InstallSnapshotRequest_LastIncludedIndex req
         ∧ decode_snapshot (InstallSnapshotRequest_Data req) = Ok (kv_values t')
         ∧ meta_uint "last_applied" t' = Some base').
Proof.
  intros (Hv & Hs & Hu & Hc) Hok E.
  pose proof (wp_InstallSnapshot n t base bterm last req Hv Hs Hok) as Hw. unfold wp in Hw.
  rewrite E in Hw. cbn [fst snd] in Hw. destruct Hw as (t0 & Hta & HT & Hw).
  split; [lia|]. destruct (shape_adopted _ _ _ _ _ _ _ Hs Hta) as (Hs0 & El0 & Ek0 & _).
  assert (view (store n') = Idle t0 ∧ commitIndex n' = commitIndex n ∧ lastApplied n' = lastApplied n →
    commitIndex n <= commitIndex n' ∧ lastApplied n <= lastApplied n'
    ∧ ∃ t' base' bterm' last', at_rest n' t' base' bterm' last' ∧ base <= base' ∧ last <= last'
    ∧ (base' = base ∧ log_entries t' = log_entries t ∧ kv t' = kv t
         ∧ meta_uint "last_applied" t' = meta_uint "last_applied" t
       ∨ base' = InstallSnapshotRequest_LastIncludedIndex req
         ∧ decode_snapshot (InstallSnapshotRequest_Data req) = Ok (kv_values t')
         ∧ meta_uint "last_applied" t' = Some base')) as Hsame.
  { intros (Hv' & Ec & Ea). rewrite Ec, Ea. split_and!; [lia|lia|]. exists t0, base, bterm, last.
    split_and!; [|lia|lia|left; split_and!; [done..|by eapply adopted_applied]].
    split; [done|]. split; [done|]. by rewrite Ec, Ea. }
  destruct r as [resp|e]; [|by apply Hsame, (proj2 Hw)].
  destruct Hw as (_ & _ & [(_ & H)|(vs & Hin & Hd & Hv' & Ec & Ea)]); [by apply Hsame|].
  destruct Hok as [HT' Hi Hst]. pose proof (is_idx_u64 _ Hi) as Hiu. destruct Hin as [_ Hb].
  split_and!; [lia|lia|]. eexists _, _, _, _. split_and!; [| | |right; split_and!; [reflexivity| |]].
  - split; [exact Hv'|]. split.
    + apply (shape_put_snapshot (snapshot_of req) _ base bterm last); [|cbn; lia|done|done].
      by apply (shape_frame t0).
    + rewrite Ec, Ea. unfold is_u64 in *. lia.
  - cbn. lia.
  - cbn. lia.
  - rewrite Hd. f_equal. symmetry. by eapply kv_values_of_snapshot.
  - by rewrite spec_last_applied_put.
Qed.

(** C21. A snapshot carries the state machine: the table a leader compacts, sent to a
    follower that takes the snapshot, is the follower's table, at the leader's applied
    index and its term. *)
Theorem snapshot_transfer nL tL baseL btermL lastL t1 peer snap req n2
    nF tF baseF btermF lastF resp nF' :
  at_rest nL tL baseL btermL lastL → valid_map (kv_values tL) → is_u64 (currentTerm nL) →
  is_idx (lastL + 1) → is_u64 (map_get (nextIndex nL) peer) →
  let n1 := (compactIfNeededLocked nL).2 in
  view (store n1) = Idle t1 → spec_SnapshotIndexTerm t1 ≠ spec_SnapshotIndexTerm tL →
  replicatePeer_prepare peer n1 = (SendSnapshot snap req, n2) →
  at_rest nF tF baseF btermF lastF → installs nF baseF req →
  InstallSnapshot (Some req) nF = (Ok resp, nF') →
  ∃ tF' tm, view (store nF') = Idle tF' ∧ kv_values tF' = kv_values tL
    ∧ term_at tL baseL btermL (lastApplied nL) = Some tm
    ∧ spec_SnapshotIndexTerm tF' = Some (lastApplied nL, tm)
    ∧ meta_uint "last_applied" tF' = Some (lastApplied nL)
    ∧ lastApplied nL <= lastApplied nF' ∧ lastApplied nL <= commitIndex nF'.
Proof.
  intros (HvL & HsL & HuL & HcL) Hvalid Hterm Hroom Hnext n1 Hv1 Hne EL (HvF & HsF & _) Hin EF.
  assert (wp compactIfNeededLocked (λ _ n', ∃ t' c, compacted baseL btermL lastL (lastApplied nL) tL t'
    ∧ view c = Idle t' ∧ quiet (set_store c nL) n') nL) as (t1' & c & Hco & Hvc & Hq).
  { eapply wp_compact; [done..|]. eauto. }
  fold n1 in Hq. pose proof Hq as [E1 _].
  assert (view (store n1) = Idle t1') as Hv1' by (by apply (quiet_view _ _ _ Hq)).
  assert (t1' = t1) as -> by congruence.
  destruct Hco as [->|(tm & Ha & Ht & ->)]; [done|]. set (a := lastApplied nL) in *.
  assert (is_idx a) as Hai by (pose proof (sh_base _ _ _ _ HsL); unfold is_idx in *; lia).
  destruct (log_kept_put _ _ _ _ a tm (MarshalMap (kv_values tL)) HsL Ha Ht) as [Hs1 _ _ _].
  pose proof (shape_snapshot_index _ _ _ _ Hs1) as [_ Htm].
  pose proof (wp_replicatePeer_prepare n1 _ a tm lastL peer Hv1 Hs1 Hroom) as Hp.
  assert (is_u64 (map_get (nextIndex n1) peer)) as Hnx by (by rewrite E1). specialize (Hp Hnx).
  unfold wp in Hp. rewrite EL in Hp. clear EL. destruct Hp as (_ & _ & _ & -> & ->).
  cbn in EF, Hin. rewrite (uint64_int64_id a) in * by by apply is_idx_u64.
  rewrite (uint64_int64_id tm) in * by done.
  assert (currentTerm n1 = currentTerm nL) as Ect by (by rewrite E1).
  set (req := mkInstallSnapshotRequest _ _ _ _ _) in *.
  assert (ok_install req) as Hok by (split; cbn; [by rewrite Ect|done|done]).
  pose proof (wp_InstallSnapshot nF tF baseF btermF lastF req HvF HsF Hok) as Hw. unfold wp in Hw.
  rewrite EF in Hw. cbn [fst snd] in Hw. destruct Hw as (t0 & _ & _ & _ & _ & [[H _]|(vs & _ & Hd & Hv' & Ec & Ea)]); [done|].
  cbn in Hd. unfold decode_snapshot in Hd. cbn in Hd. rewrite UnmarshalMap_MarshalMap in Hd by done.
  injection Hd as <-. eexists _, tm. split_and!; [exact Hv'|by eapply kv_values_of_snapshot|done| | | |].
  - by apply (spec_SnapshotIndexTerm_put (snapshot_of req)); [apply is_idx_u64|].
  - by apply (spec_last_applied_put (snapshot_of req)), is_idx_u64.
  - rewrite Ea. cbn. lia.
  - rewrite Ec. cbn. lia.
Qed.
End snapshots.

(** ** Witnesses *)

Section witnesses.

(** A follower that has nothing yet; the leader's snapshot of its first two entries. *)
Definition late_b : Node := fresh_node "b".

Definition small_table : gmap string string := <["x" := "1"]> {["y" := "2"]}.

Definition two_entries : InstallSnapshotRequest :=
  mkInstallSnapshotRequest 2 "a" 2 1 (MarshalMap small_table).

Abbreviation compacted_a := (compactIfNeededLocked compacting).2.

Definition late_after : Node := (InstallSnapshot (Some two_entries) late_b).2.

Lemma late_rest : at_rest late_b fresh_tables 0 0 0.
Proof. split; [reflexivity|]. split; [apply fresh_shape|]. split; apply u64_small; cbn; lia. Qed.

Lemma small_valid : valid_map small_table.
Proof. refine (bool_decide_unpack _ _). vm_compute. exact I. Qed.

Lemma two_entries_ok : ok_install two_entries.
Proof. split; [apply u64_small; cbn; lia|unfold is_idx, two63; cbn; lia|apply u64_small; cbn; lia]. Qed.

Lemma two_entries_decode : decode_snapshot (InstallSnapshotRequest_Data two_entries) = Ok small_table.
Proof. exact (UnmarshalMap_MarshalMap _ small_valid). Qed.

Lemma InstallSnapshot_decides_witness :
  ∃ resp n' t', InstallSnapshot (Some two_entries) late_b = (Ok resp, n')
    ∧ InstallSnapshotResponse_Term resp = Z.max (currentTerm late_b) 2
    ∧ view (store n') = Idle t'
    ∧ (if decide (currentTerm late_b <= 2 ∧ 0 < 2)
       then at_rest n' t' 2 1 (Z.max 0 2)
         ∧ kv_values t' = small_table ∧ (∀ j, 2 < j → log_entries t' !! j = log_entries fresh_tables !! j)
         ∧ commitIndex n' = Z.max (commitIndex late_b) 2 ∧ lastApplied n' = Z.max (lastApplied late_b) 2
       else at_rest n' t' 0 0 0 ∧ log_entries t' = log_entries fresh_tables ∧ kv t' = kv fresh_tables
         ∧ commitIndex n' = commitIndex late_b ∧ lastApplied n' = lastApplied late_b).
Proof.
  assert (InstallSnapshotRequest_Data two_entries ≠ "") as Hne by discriminate.
  exact (InstallSnapshot_decides late_b fresh_tables 0 0 0 two_entries small_table late_rest
    two_entries_ok (fresh_sound "b") Hne two_entries_decode).
Defined.

Lemma late_installs :
  InstallSnapshot (Some two_entries) late_b = (Ok (mkInstallSnapshotResponse 2), late_after).
Proof.
  assert ((InstallSnapshot (Some two_entries) late_b).1 = Ok (mkInstallSnapshotResponse 2)) as H
    by (vm_compute; reflexivity).
  exact (pair_of_fst _ _ H).
Qed.

Lemma InstallSnapshot_monotone_witness :
  currentTerm late_b <= currentTerm late_after ∧ commitIndex late_b <= commitIndex late_after
  ∧ lastApplied late_b <= lastApplied late_after
  ∧ ∃ t' base' bterm' last', at_rest late_after t' base' bterm' last' ∧ 0 <= base' ∧ 0 <= last'
    ∧ (base' = 0 ∧ log_entries t' = log_entries fresh_tables ∧ kv t' = kv fresh_tables
         ∧ meta_uint "last_applied" t' = meta_uint "last_applied" fresh_tables
       ∨ base' = InstallSnapshotRequest_LastIncludedIndex two_entries
         ∧ decode_snapshot (InstallSnapshotRequest_Data two_entries) = Ok (kv_values t')
         ∧ meta_uint "last_applied" t' = Some base').
Proof.
  exact (InstallSnapshot_monotone late_b fresh_tables 0 0 0 two_entries _ late_after late_rest
    two_entries_ok late_installs).
Defined.

(** The leader with the table of its first two entries compacts them and sends them. *)
Definition table_a : tables := set_kv (λ _, kv_of_snapshot 2 small_table) leader_tables.
Definition full_a : Node := set_store (FaultConn (Idle table_a) []) compacting.
Abbreviation full_after := (compactIfNeededLocked full_a).2.

Definition snap_tables : tables := put_snapshot (mkSnapshot 2 1 (MarshalMap small_table)) table_a.

Lemma full_rest : at_rest full_a table_a 0 0 3.
Proof.
  split; [reflexivity|]. split; [|split; apply u64_small; cbn; lia].
  apply (shape_frame leader_tables); [reflexivity..|apply leader_shape].
Qed.

Lemma full_view : view (store full_after) = Idle snap_tables.
Proof. vm_compute. reflexivity. Qed.

Definition sent_snapshot : Snapshot := mkSnapshot 2 1 (MarshalMap small_table).

Lemma full_sends :
  replicatePeer_prepare "b" full_after
  = (SendSnapshot sent_snapshot two_entries, (replicatePeer_prepare "b" full_after).2).
Proof.
  assert ((replicatePeer_prepare "b" full_after).1 = SendSnapshot sent_snapshot two_entries) as H
    by (vm_compute; reflexivity).
  exact (pair_of_fst _ _ H).
Qed.

Lemma late_takes : installs late_b 0 two_entries.
Proof. split; vm_compute; [discriminate|reflexivity]. Qed.

Lemma snapshot_transfer_witness :
  ∃ tF' tm, view (store late_after) = Idle tF' ∧ kv_values tF' = kv_values table_a
    ∧ term_at table_a 0 0 2 = Some tm
    ∧ spec_SnapshotIndexTerm tF' = Some (2, tm)
    ∧ meta_uint "last_applied" tF' = Some 2
    ∧ 2 <= lastApplied late_after ∧ 2 <= commitIndex late_after.
Proof.
  assert (valid_map (kv_values table_a)) as H1 by (refine (bool_decide_unpack _ _); vm_compute; exact I).
  assert (is_u64 (currentTerm full_a)) as H2 by (apply u64_small; cbn; lia).
  assert (is_idx (3 + 1)) as H3 by (unfold is_idx, two63; lia).
  assert (is_u64 (map_get (nextIndex full_a) "b")) as H4 by (vm_compute; split; [discriminate|reflexivity]).
  assert (spec_SnapshotIndexTerm snap_tables ≠ spec_SnapshotIndexTerm table_a) as H5
    by (vm_compute; discriminate).
  exact (snapshot_transfer full_a table_a 0 0 3 snap_tables "b" sent_snapshot two_entries _
    late_b fresh_tables 0 0 0 _ late_after full_rest H1 H2 H3 H4 full_view H5 full_sends late_rest
    late_takes late_installs).
Defined.
End witnesses.
