(* ===== verification/Clients.v ===== *)
(** * Clients and replies

    What [Write] and [Read] do with the lock held, and what a leader does with the
    answers of [replicatePeer]: the log grows by one entry, the match index of a
    peer only grows, a higher term makes the leader step down. *)

From Stdlib Require Import Ascii String.
From stdpp Require Import strings relations.
From S2P Require Import Prelude GoStd Json Wire Logging Metrics Sql Storage StoreSpec LogSpec LogStore.
From S2P Require Import Config Types Node Rpc NodeFrame Apply Follower Leader Instances.
#[local] Open Scope Z_scope.

Create HintDb progress discriminated.

Section progress.
Context `{D : !SqlDriver} `{L : !SqlLaws D} `{R : !GoRuntime}.
Implicit Types (n : Node).

(** The bookkeeping of replication and the configuration are not touched. *)
Definition same_progress n n' : Prop :=
  matchIndex n' = matchIndex n ∧ nextIndex n' = nextIndex n
  ∧ peers n' = peers n ∧ node_id n' = node_id n ∧ clients n' = clients n.

#[global] Instance same_progress_preorder : PreOrder same_progress.
Proof. split; [by repeat split|]. unfold same_progress. intros x y z. intuition congruence. Qed.

Lemma quiet_progress {A} (m : ST Node A) : preserves quiet m → preserves same_progress m.
Proof. intros H n. destruct (H n) as [-> _]. by repeat split. Qed.

Lemma progress_store {A} (m : ST conn A) : preserves same_progress (with_store m).
Proof. intros n. unfold with_store. by destruct (m (store n)). Qed.

Lemma progress_modify f : (∀ n, same_progress n (f n)) → preserves same_progress (modify f).
Proof. apply preserves_modify. Qed.

Lemma progress_log level msg fields : preserves same_progress (log level msg fields).
Proof. apply quiet_progress, quiet_log. Qed.

Lemma progress_logError msg e : preserves same_progress (logError msg e).
Proof. apply quiet_progress, quiet_logError. Qed.

Lemma progress_refresh : preserves same_progress refreshMetricsLocked.
Proof. apply quiet_progress, quiet_refreshMetricsLocked. Qed.

Lemma progress_deadline : preserves same_progress resetElectionDeadlineLocked.
Proof. apply quiet_progress, quiet_resetElectionDeadlineLocked. Qed.

Lemma progress_metrics f : preserves same_progress (on_metrics f).
Proof. apply quiet_progress, quiet_on_metrics. Qed.

Hint Resolve progress_store progress_log progress_logError progress_refresh progress_deadline
  progress_metrics : progress.

Local Ltac solve_progress :=
  preserve ltac:(first [solve [eauto with progress]
                       |apply progress_modify; intros; by repeat split | idtac]).

Lemma progress_compact : preserves same_progress compactIfNeededLocked.
Proof. unfold compactIfNeededLocked. solve_progress. Qed.

Lemma progress_apply_one : preserves same_progress apply_one.
Proof. unfold apply_one. solve_progress. Qed.

Hint Resolve progress_compact progress_apply_one : progress.

Lemma progress_apply_loop fuel : preserves same_progress (apply_loop fuel).
Proof. induction fuel as [|fuel IH]; cbn [apply_loop]; solve_progress. Qed.

Hint Resolve progress_apply_loop : progress.

Lemma progress_applyCommitted : preserves same_progress applyCommittedLocked.
Proof. unfold applyCommittedLocked. solve_progress. Qed.

Lemma progress_advance_one m i : preserves same_progress (advance_one m i).
Proof. unfold advance_one. solve_progress. Qed.

Hint Resolve progress_applyCommitted progress_advance_one : progress.

Lemma progress_advance_loop fuel m l i : preserves same_progress (advance_loop fuel m l i).
Proof. revert i. induction fuel as [|fuel IH]; intros i; cbn [advance_loop]; solve_progress. Qed.

Hint Resolve progress_advance_loop : progress.

Lemma progress_advanceCommit : preserves same_progress advanceCommitLocked.
Proof. unfold advanceCommitLocked. solve_progress. Qed.

Lemma progress_stepDown term leader : preserves same_progress (stepDownLocked term leader).
Proof. unfold stepDownLocked. solve_progress. Qed.
End progress.

#[export] Hint Resolve progress_store progress_log progress_logError progress_refresh
  progress_deadline progress_metrics progress_advanceCommit progress_stepDown : progress.

Section replies.
Context `{D : !SqlDriver} `{L : !SqlLaws D} `{R : !GoRuntime}.
Implicit Types (n : Node).

(** ** The answer to [AppendEntries] *)

(** The match index of a peer after a success. *)
Definition matched_after n (peer : string) (lastSent m : Z) : Z :=
  Z.max (map_get (matchIndex n) peer) (Z.max m lastSent).

Lemma wp_progress {A} (m : ST Node A) (Q : A → Node → Prop) n :
  preserves same_progress m → wp m (λ a n', same_progress n n' → Q a n') n → wp m Q n.
Proof. intros Hp Hw. unfold wp in *. apply Hw, Hp. Qed.

Definition reply_post n t base bterm last (peer : string) (term lastSent : Z)
    (resp : AppendEntriesResponse) (r : option bool) (n' : Node) : Prop :=
  let m := matched_after n peer lastSent (AppendEntriesResponse_MatchIndex resp) in
  if currentTerm n <? AppendEntriesResponse_Term resp then
    r = Some false ∧ role n' = RoleFollower ∧ currentTerm n' = AppendEntriesResponse_Term resp
    ∧ votedFor n' = "" ∧ matchIndex n' = matchIndex n ∧ nextIndex n' = nextIndex n
  else if decide (role n = RoleLeader ∧ currentTerm n = term) then
    if AppendEntriesResponse_Success resp then
      r = Some true ∧ role n' = RoleLeader ∧ currentTerm n' = term
      ∧ (∀ p, map_get (matchIndex n') p = if decide (p = peer) then m else map_get (matchIndex n) p)
      ∧ (∀ p, map_get (nextIndex n') p = if decide (p = peer) then m + 1 else map_get (nextIndex n) p)
      ∧ advance_post (set_matchIndex (matchIndex n') n) t base bterm last n'
    else
      r = None ∧ role n' = RoleLeader ∧ matchIndex n' = matchIndex n
      ∧ ∀ p, map_get (nextIndex n') p =
          if decide (p = peer ∧ 1 < map_get (nextIndex n) peer) then map_get (nextIndex n) p - 1
          else map_get (nextIndex n) p
  else r = Some false ∧ n' = n.

Lemma advance_post_ext n n1 t base bterm last n' :
  matchIndex n1 = matchIndex n → peers n1 = peers n → currentTerm n1 = currentTerm n →
  commitIndex n1 = commitIndex n → lastApplied n1 = lastApplied n → role n1 = role n →
  votedFor n1 = votedFor n → leaderID n1 = leaderID n →
  (sound (store n) → sound (store n1)) →
  advance_post n1 t base bterm last n' → advance_post n t base bterm last n'.
Proof.
  intros Em Ep Ec Eci El Er Ev Eld Hso (c & t' & base' & bterm' & H1 & H2 & [F1 F2 F3 F4 F5 F6 F7 F8]).
  assert (∀ j, committable n1 t base bterm j ↔ committable n t base bterm j) as Hext
    by (intros j; by apply committable_ext).
  exists c, t', base', bterm'. rewrite Eci in *. split_and!.
  - destruct H1 as [?|[? ?]]; [by left|right; split; [done|by apply Hext]].
  - intros H j Hj Hcj. apply H2; [auto|done|by apply Hext].
  - rewrite El in *. split; try done. rewrite <- Er, <- Ec, <- Ev, <- Eld. done.
Qed.

Lemma advance_post_quiet n t base bterm last n1 n' :
  advance_post n t base bterm last n1 → quiet n1 n' → advance_post n t base bterm last n'.
Proof.
  intros (c & t' & base' & bterm' & H1 & H2 & H3) Hq. exists c, t', base', bterm'.
  split_and!; [done|done|]. by eapply followed_quiet.
Qed.

Lemma advance_post_same n t base bterm last n' :
  advance_post n t base bterm last n' →
  role n' = role n ∧ currentTerm n' = currentTerm n.
Proof. intros (c & t' & base' & bterm' & _ & _ & [_ _ _ _ _ (E1 & E2 & _) _ _]). done. Qed.

Lemma wp_append_reply n t base bterm last peer term lastSent resp :
  view (store n) = Idle t → shape t base bterm last →
  is_u64 (lastApplied n) → is_u64 (commitIndex n) → is_u64 (commitIndex n + 1) →
  is_u64 (AppendEntriesResponse_Term resp) →
  (role n = RoleLeader →
   is_u64 (matched_after n peer lastSent (AppendEntriesResponse_MatchIndex resp) + 1)) →
  0 <= lastSent → is_u64 (map_get (nextIndex n) peer) →
  wp (replicatePeer_append_reply peer term lastSent (Some resp))
    (reply_post n t base bterm last peer term lastSent resp) n.
Proof.
  intros Hv Hs Hu Hc Hc1 Ht Hm0 Hls Hnx. unfold replicatePeer_append_reply, reply_post. wp_pure.
  cbn [AppendEntriesResponse_GetTerm AppendEntriesResponse_GetSuccess AppendEntriesResponse_GetMatchIndex].
  destruct (Z.ltb_spec (currentTerm n) (AppendEntriesResponse_Term resp)) as [Hlt|Hge].
  { wp_pure. apply wp_progress; [apply progress_stepDown|].
    eapply wp_stepDown; [exact Hv|done|]. intros c t' n' _ _ _ [E _] (E1 & E2 & _). wp_pure.
    split; [done|]. rewrite E1, E2. rewrite E. unfold stepped_down. cbn.
    destruct (Z.ltb_spec (currentTerm n) (AppendEntriesResponse_Term resp)); [by cbn|lia]. }
  destruct (bool_decide_reflect (role n = RoleLeader)) as [Hr|Hr]; cbn [negb orb].
  2: { wp_pure. by rewrite decide_False by tauto. }
  destruct (Z.eqb_spec (currentTerm n) term) as [Hterm|Hterm]; cbn [negb orb].
  2: { wp_pure. by rewrite decide_False by tauto. }
  destruct (decide _) as [_|Hn]; [|tauto]. specialize (Hm0 Hr). rename Hm0 into Hm.
  destruct (AppendEntriesResponse_Success resp).
  - set (m := matched_after _ _ _ _) in *. wp_pure.
    eapply (wp_mono _ (λ _ n1, ∃ mi, n1 = set_matchIndex mi n
      ∧ ∀ p, map_get mi p = if decide (p = peer) then m else map_get (matchIndex n) p)).
    { destruct (Z.ltb_spec (map_get (matchIndex n) peer)
        (if AppendEntriesResponse_MatchIndex resp <? lastSent then lastSent
         else AppendEntriesResponse_MatchIndex resp)) as [Hgt|Hle]; wp_pure.
      - eexists. split; [reflexivity|]. intros p. destruct (decide (p = peer)) as [->|Hne].
        + rewrite map_get_insert_eq. subst m. unfold matched_after.
          destruct (Z.ltb_spec (AppendEntriesResponse_MatchIndex resp) lastSent); lia.
        + by rewrite map_get_insert_ne.
      - exists (matchIndex n). split; [by destruct n|]. intros p.
        destruct (decide (p = peer)) as [->|Hne]; [|done]. subst m. unfold matched_after.
        destruct (Z.ltb_spec (AppendEntriesResponse_MatchIndex resp) lastSent); lia. }
    intros _ n1 (mi & -> & Hmi). wp_pure. cbn [matchIndex nextIndex set_matchIndex].
    assert (map_get mi peer = m) as -> by (rewrite Hmi; by rewrite decide_True).
    assert (0 <= m) as Hm0 by (subst m; unfold matched_after; lia).
    assert (m +64 1 = m + 1) as -> by (by apply u64_succ).
    set (n2 := set_nextIndex _ _). assert (view (store n2) = Idle t) as Hv2 by done.
    wp_skip as n3 Hq3. pose proof Hq3 as [E3 _]. wp_pure.
    eapply (wp_mono _ (λ _ n4, quiet n2 n4)).
    { destruct (_ <=? _); [|by wp_pure]. apply wp_quiet; [apply quiet_on_metrics|]. intros _ n4 Hq4.
      by etrans. }
    intros _ n4 Hq4. pose proof Hq4 as [E4 _]. wp_pure.
    apply wp_progress; [apply progress_advanceCommit|].
    eapply wp_mono; [apply (wp_advanceCommit n4 t base bterm last)|].
    { by apply (quiet_view n2). } { done. } { by rewrite E4. } { by rewrite E4. } { by rewrite E4. }
    intros u5 n5 Hadv Hpr. wp_pure. apply wp_quiet; [apply quiet_refreshMetricsLocked|].
    intros _ n6 Hq6. pose proof Hq6 as [E6 _]. wp_pure. split; [done|].
    destruct (advance_post_same _ _ _ _ _ _ Hadv) as [Er5 Ec5].
    assert (matchIndex n6 = mi) as Emi by (rewrite E6; cbn; destruct Hpr as (-> & _); by rewrite E4).
    assert (nextIndex n6 = nextIndex n2) as Enx
      by (rewrite E6; cbn; destruct Hpr as (_ & -> & _); by rewrite E4).
    rewrite Emi, Enx. split_and!.
    + rewrite E6. cbn. rewrite Er5, E4. done.
    + rewrite E6. cbn. rewrite Ec5, E4. done.
    + done.
    + intros p. cbn. destruct (decide (p = peer)) as [->|Hne].
      * by rewrite map_get_insert_eq.
      * by rewrite map_get_insert_ne.
    + eapply advance_post_quiet; [|exact Hq6]. eapply advance_post_ext; [..|exact Hadv];
        try (by rewrite E4). intros H. by apply (quiet_sound n2).
  - wp_pure. destruct (Z.ltb_spec 1 (map_get (nextIndex n) peer)) as [Hgt|Hle]; wp_pure.
    + split_and!; [done|done|done|]. intros p. cbn. rewrite u64_sub_id by (done || lia).
      destruct (decide (p = peer)) as [->|Hne].
      * by rewrite map_get_insert_eq, decide_True.
      * rewrite map_get_insert_ne by done. by rewrite decide_False by tauto.
    + split_and!; [done|done|done|]. intros p. by rewrite decide_False by lia.
Qed.

(** ** The answer to [InstallSnapshot] *)

(** No question is asked but that of the term. *)
Definition receipt_post n t base bterm last (peer : string) (snap : Snapshot)
    (resp : InstallSnapshotResponse) (r : bool) (n' : Node) : Prop :=
  if currentTerm n <? InstallSnapshotResponse_Term resp then
    r = false ∧ role n' = RoleFollower ∧ currentTerm n' = InstallSnapshotResponse_Term resp
    ∧ matchIndex n' = matchIndex n ∧ nextIndex n' = nextIndex n
  else
    r = true ∧ role n' = role n ∧ currentTerm n' = currentTerm n
    ∧ matchIndex n' = <[peer := LastIncludedIndex snap]> (matchIndex n)
    ∧ nextIndex n' = <[peer := LastIncludedIndex snap + 1]> (nextIndex n)
    ∧ advance_post (set_matchIndex (matchIndex n') n) t base bterm last n'.

Lemma wp_snapshot_reply n t base bterm last peer snap resp :
  view (store n) = Idle t → shape t base bterm last →
  is_u64 (lastApplied n) → is_u64 (commitIndex n) → is_u64 (commitIndex n + 1) →
  is_u64 (InstallSnapshotResponse_Term resp) → is_idx (LastIncludedIndex snap) →
  wp (replicatePeer_snapshot_reply peer snap (Some resp))
    (receipt_post n t base bterm last peer snap resp) n.
Proof.
  intros Hv Hs Hu Hc Hc1 Ht Hi. unfold replicatePeer_snapshot_reply, receipt_post. wp_pure.
  cbn [InstallSnapshotResponse_GetTerm].
  destruct (Z.ltb_spec (currentTerm n) (InstallSnapshotResponse_Term resp)) as [Hlt|Hge].
  { wp_pure. apply wp_progress; [apply progress_stepDown|].
    eapply wp_stepDown; [exact Hv|done|]. intros c t' n' _ _ _ [E _] (E1 & E2 & _). wp_pure.
    split; [done|]. rewrite E1, E2. rewrite E. unfold stepped_down. cbn.
    destruct (Z.ltb_spec (currentTerm n) (InstallSnapshotResponse_Term resp)); [by cbn|lia]. }
  wp_pure. assert (LastIncludedIndex snap +64 1 = LastIncludedIndex snap + 1) as ->
    by (apply u64_succ; unfold is_idx, is_u64, two63, two64 in *; lia).
  set (n2 := set_nextIndex _ _). apply wp_progress; [apply progress_advanceCommit|].
  eapply wp_mono; [by apply (wp_advanceCommit n2 t base bterm last)|].
  intros u3 n3 Hadv (Em & En & _). wp_pure. apply wp_quiet; [apply quiet_refreshMetricsLocked|].
  intros _ n4 Hq4. pose proof Hq4 as [E4 _]. wp_pure. split; [done|].
  destruct (advance_post_same _ _ _ _ _ _ Hadv) as [Er3 Ec3].
  assert (matchIndex n4 = matchIndex n2 ∧ nextIndex n4 = nextIndex n2 ∧ role n4 = role n2
    ∧ currentTerm n4 = currentTerm n2) as (E5 & E6 & E7 & E8).
  { rewrite E4. cbn. by rewrite Em, En, Er3, Ec3. }
  rewrite E5, E6, E7, E8. split_and!; try done. eapply advance_post_quiet; [|exact Hq4]. by eapply advance_post_ext; [..|exact Hadv].
Qed.

(** C22. The leader's bookkeeping: a reply of a higher term makes it step down to that
    term; a reply to an old request changes nothing; a success raises the peer's match
    index to what was sent or acknowledged, never lowering it, sets the next index
    right behind it and runs the commit rule with the new match index; a refusal lowers
    the next index by one, not below one. *)
Theorem append_reply_outcome n t base bterm last peer term lastSent resp r n' :
  at_rest n t base bterm last → is_u64 (commitIndex n + 1) →
  is_u64 (AppendEntriesResponse_Term resp) →
  (role n = RoleLeader →
   is_u64 (matched_after n peer lastSent (AppendEntriesResponse_MatchIndex resp) + 1)) →
  0 <= lastSent → is_u64 (map_get (nextIndex n) peer) →
  replicatePeer_append_reply peer term lastSent (Some resp) n = (r, n') →
  reply_post n t base bterm last peer term lastSent resp r n'.
Proof.
  intros (Hv & Hs & Hu & Hc) Hc1 Ht Hm Hl Hn E.
  pose proof (wp_append_reply n t base bterm last peer term lastSent resp Hv Hs Hu Hc Hc1 Ht Hm Hl Hn)
    as Hw. unfold wp in Hw. by rewrite E in Hw.
Qed.

(** ** Writes *)

Definition appended (i term : Z) (raw : string) (t : tables) : tables :=
  set_log (<[i := (int64 term, raw)]>) t.

Lemma shape_appended t base bterm last term raw :
  shape t base bterm last → is_idx (last + 1) →
  shape (appended (last + 1) term raw t) base bterm (last + 1).
Proof.
  intros Hs Hi. pose proof (sh_base _ _ _ _ Hs).
  apply (shape_set_log _ t base bterm last); [done| |lia|done].
  intros i. destruct (decide (i = last + 1)) as [->|Hne].
  - rewrite lookup_insert_eq. split; [lia|by eauto].
  - rewrite lookup_insert_ne by done. pose proof (sh_dense _ _ _ _ Hs i) as ->. lia.
Qed.

Lemma command_json_nonempty k v : command_json k v ≠ "".
Proof. discriminate. Qed.

(** The node after a successful append: its own match index, and the commit index and
    what it entails in a cluster of one. *)
Definition write_post n t base bterm last (req : ClientWriteRequest) (w : write_start) (n' : Node) : Prop :=
  let key := ClientWriteRequest_Key req in
  let raw := command_json key (ClientWriteRequest_Value req) in
  match w with
  | WriteWait index term =>
      key ≠ "" ∧ role n = RoleLeader ∧ index = last + 1 ∧ term = currentTerm n
      ∧ role n' = RoleLeader ∧ currentTerm n' = currentTerm n
      ∧ matchIndex n' = <[node_id n := last + 1]> (matchIndex n) ∧ nextIndex n' = nextIndex n
      ∧ ∃ t' base' bterm', followed n (appended (last + 1) (currentTerm n) raw t) base bterm (last + 1)
          (commitIndex n') n' t' base' bterm'
        ∧ (commitIndex n' = commitIndex n ∨ commitIndex n < commitIndex n' <= last + 1
           ∧ term_at (appended (last + 1) (currentTerm n) raw t) base bterm (commitIndex n')
             = Some (currentTerm n))
        ∧ (majorityLocked n ≠ 1 → commitIndex n' = commitIndex n ∧ t' = appended (last + 1) (currentTerm n) raw t
           ∧ ∃ c, quiet (set_matchIndex (<[node_id n := last + 1]> (matchIndex n)) (set_store c n)) n')
  | WriteForward leader => key ≠ "" ∧ role n ≠ RoleLeader ∧ leader = leaderID n ∧ leader ∈ clients n ∧ n' = n
  | WriteReply (Ok resp) =>
      ClientWriteResponse_Success resp = false ∧ n' = n
      ∧ (key = "" ∨ role n ≠ RoleLeader ∧ leaderID n ∉ clients n
          ∧ ClientWriteResponse_LeaderId resp = leaderID n)
  | WriteReply (Err _) => ¬ sound (store n) ∧ ∃ c, view c = Idle t ∧ quiet (set_store c n) n'
  end.

Lemma quiet_matched n n1 c m :
  quiet n n1 → quiet (set_matchIndex m (set_store c n)) (set_matchIndex m (set_store c n1)).
Proof. intros [E _]. split; [by rewrite E|]. intros t Hv. by split. Qed.

Lemma wp_Write_begin n t base bterm last req :
  view (store n) = Idle t → shape t base bterm last →
  is_u64 (lastApplied n) → is_u64 (commitIndex n) → is_u64 (commitIndex n + 1) → is_idx (last + 1) →
  wp (Write_begin (Some req)) (write_post n t base bterm last req) n.
Proof.
  intros Hv Hs Hu Hc Hc1 Hi. unfold Write_begin. cbn [ClientWriteRequest_GetKey ClientWriteRequest_GetValue].
  destruct (bool_decide_reflect (ClientWriteRequest_Key req = "")) as [Hk|Hk].
  { wp_pure. split_and!; [done|done|by left]. }
  wp_pure. destruct (bool_decide_reflect (role n = RoleLeader)) as [Hr|Hr]; cbn [negb].
  2: { wp_pure. destruct (bool_decide_reflect (leaderID n ∈ clients n)); [done|].
       split_and!; [done|done|by right]. }
  cbn [encodeSetCommand]. set (raw := command_json _ _). wp_pure.
  eapply wp_reads; [apply reads_LastIndexAndTerm|apply wf_LastIndexAndTerm|exact Hv| |].
  2: { intros e n1 Hns Hq1. wp_pure. split; [done|]. exists (store n1).
       split; [by apply (quiet_view n)|by apply quiet_set_store]. }
  intros [i tm] n1 Ha Hq1. rewrite (spec_LastIndexAndTerm_shape _ _ _ _ Hs) in Ha. injection Ha as <- _.
  pose proof Hq1 as [E1 _]. pose proof (quiet_view _ _ _ Hq1 Hv) as Hv1.
  assert (last +64 1 = last + 1) as ->.
  { pose proof (sh_base _ _ _ _ Hs). apply u64_succ; [by apply is_idx_u64|lia]. }
  assert (nonempty_commands [mkEntry (last + 1) (currentTerm n) raw]) as Hne.
  { constructor; [|done]. apply command_json_nonempty. }
  wp_pure. eapply wp_refines; [apply refines_AppendEntries|done|exact Hv1| |].
  2: { intros e c Hns Hvc. wp_pure. split.
       - intros H. apply Hns. split; [done|]. by apply (quiet_sound n).
       - exists c. split; [done|]. exact (quiet_with_store c _ _ Hq1). }
  intros [] t' c [= <-] Hvc Hh. wp_pure. cbn [Entry_Index].
  set (t1 := appended (last + 1) (currentTerm n) raw t).
  assert (spec_AppendEntries [mkEntry (last + 1) (currentTerm n) raw] t = t1) as Et.
  { unfold spec_AppendEntries, t1, appended. cbn. unfold upsert_row. cbn. by rewrite int64_id. }
  rewrite Et in Hvc. set (n2 := set_matchIndex _ _).
  assert (shape t1 base bterm (last + 1)) as Hs1 by by apply shape_appended.
  assert (node_id n1 = node_id n ∧ matchIndex n1 = matchIndex n ∧ role n1 = role n
    ∧ currentTerm n1 = currentTerm n ∧ votedFor n1 = votedFor n ∧ leaderID n1 = leaderID n
    ∧ commitIndex n1 = commitIndex n ∧ lastApplied n1 = lastApplied n ∧ majorityLocked n1 = majorityLocked n)
    as (Eid & Emi & Er & Ec & Evf & Eld & Eci & Ela & Emaj) by (rewrite E1; done).
  assert (majorityLocked n2 = majorityLocked n) as -> by (unfold n2; by rewrite <- Emaj).
  eapply (wp_mono _ (λ _ n3, same_progress n2 n3 ∧ ∃ t' base' bterm',
    followed n t1 base bterm (last + 1) (commitIndex n3) n3 t' base' bterm'
    ∧ (commitIndex n3 = commitIndex n ∨ commitIndex n < commitIndex n3 <= last + 1
       ∧ term_at t1 base bterm (commitIndex n3) = Some (currentTerm n))
    ∧ (majorityLocked n ≠ 1 → commitIndex n3 = commitIndex n ∧ t' = t1 ∧ n3 = n2))).

  - destruct (Z.eqb_spec (majorityLocked n) 1) as [Hm|Hm].
    + apply wp_progress; [apply progress_advanceCommit|].
      eapply wp_mono; [apply (wp_advanceCommit n2 t1 base bterm (last + 1))|].
      { exact Hvc. } { done. } { cbn. by rewrite Ela. } { cbn. by rewrite Eci. } { cbn. by rewrite Eci. }
      intros u n3 (c3 & t' & base' & bterm' & Hc3 & _ & [F1 F2 F3 F4 F5 F6 F7 F8]) Hp. split; [done|].
      cbn in F4, F5, F6, F7, F8, Hc3. rewrite Ela in F4, F5, F7, F8. rewrite Er, Ec, Evf, Eld in F6.
      rewrite Eci in Hc3. subst c3.
      exists t', base', bterm'. split; [by split|]. split; [|intros []; done].
      destruct Hc3 as [?|[? [Htm _]]]; [by left|right]. split; [done|]. cbn in Htm. by rewrite Ec in Htm.
    + wp_pure. split; [reflexivity|]. exists t1, base, bterm. cbn. rewrite Eci.
      split; [|split; [by left|by split]]. split; cbn; [done|by apply log_kept_refl|done| | | | |by left].
      * rewrite Ela. by split.
      * intros _. by rewrite Ela, Z.sub_diag.
      * by rewrite Er, Ec, Evf, Eld.
      * intros _ _. rewrite Ela. split; [lia|done].
  - intros u n3 (Hp & t' & base' & bterm' & Hf & Hcc & Hm). wp_skip as n4 Hq4. wp_pure.
    pose proof Hq4 as [E4 _]. pose proof (fo_same _ _ _ _ _ _ _ _ _ _ Hf) as (Sr & Sc & _).
    assert (currentTerm n4 = currentTerm n ∧ role n4 = role n ∧ commitIndex n4 = commitIndex n3
      ∧ matchIndex n4 = matchIndex n3) as (C4 & R4 & I4 & M4) by (rewrite E4; done).
    assert (nextIndex n4 = nextIndex n3 ∧ nextIndex n1 = nextIndex n) as (N4 & N1) by (split; [by rewrite E4|by rewrite E1]).
    split_and!; [done|done|done|done|by rewrite R4|done| | |].
    + rewrite M4. destruct Hp as (-> & _). cbn. by rewrite Eid, Emi.
    + rewrite N4. destruct Hp as (_ & -> & _). exact N1.
    + exists t', base', bterm'. rewrite I4. split; [by eapply followed_quiet|]. split; [done|].
      intros H1. destruct (Hm H1) as (? & ? & ->). split_and!; [done|done|]. exists c. etrans; [|exact Hq4].
      unfold n2. cbn [node_id matchIndex set_store]. rewrite Eid, Emi. by apply quiet_matched.
Qed.

(** C23. A leader only appends: a [Write] that goes on to wait has put one entry, of the
    leader's term and with the encoded command, right behind the log, and has touched
    no other entry above the snapshot; role, term, vote, known leader and the progress of
    the peers are the same.  In a cluster of more than one member that is all: the rest of
    the database, table, snapshot and metadata, is the same, and of the node only its own
    match index, the log output, the metrics and the timer may differ.  A cluster of one may
    also commit the entry or one before it in its term, apply what is committed, in order,
    and compact. *)
Theorem write_appends n t base bterm last req index term n' :
  at_rest n t base bterm last → is_u64 (commitIndex n + 1) → is_idx (last + 1) →
  Write_begin (Some req) n = (WriteWait index term, n') →
  let row := (int64 term, command_json (ClientWriteRequest_Key req) (ClientWriteRequest_Value req)) in
  let t1 := set_log (<[index := row]>) t in
  let matched := <[node_id n := index]> (matchIndex n) in
  role n = RoleLeader ∧ index = last + 1 ∧ term = currentTerm n
  ∧ (role n' = role n ∧ currentTerm n' = currentTerm n ∧ votedFor n' = votedFor n ∧ leaderID n' = leaderID n)
  ∧ matchIndex n' = matched ∧ nextIndex n' = nextIndex n
  ∧ ∃ t' base' bterm', view (store n') = Idle t' ∧ shape t' base' bterm' index
    ∧ (∀ i, base' < i → log_entries t' !! i = if decide (i = index) then Some row else log_entries t !! i)
    ∧ (majorityLocked n ≠ 1 → t' = t1 ∧ ∃ c, quiet (set_matchIndex matched (set_store c n)) n')
    ∧ (commitIndex n' = commitIndex n ∨ commitIndex n < commitIndex n' <= index
       ∧ term_at t1 base bterm (commitIndex n') = Some term)
    ∧ lastApplied n <= lastApplied n'
    ∧ (base <= lastApplied n → lastApplied n' <= Z.max (lastApplied n) (commitIndex n')
       ∧ replay (log_entries t1) (kv t) (lastApplied n) (Z.to_nat (lastApplied n' - lastApplied n)) = Some (kv t')).
Proof.
  intros (Hv & Hs & Hu & Hc) Hc1 Hi E row t1 matched.
  pose proof (wp_Write_begin n t base bterm last req Hv Hs Hu Hc Hc1 Hi) as Hw. unfold wp in Hw.
  rewrite E in Hw. cbn [fst snd] in Hw.
  destruct Hw as (_ & Hr & -> & -> & _ & _ & Em & En & t' & base' & bterm' & [F1 F2 F3 F4 F5 F6 F7 _] & Hcc & Hm).
  destruct F2 as [K1 K2 K3 K4].
  split_and!; [done..|apply F6|apply F6|apply F6|apply F6|done|done|].
  exists t', base', bterm'. split_and!; [done|done| | |done|apply F4|].
  - intros i Hbi. rewrite K3 by done. cbn. destruct (decide (i = last + 1)) as [->|Hne].
    + by rewrite lookup_insert_eq.
    + by rewrite lookup_insert_ne.
  - intros H. destruct (Hm H) as (_ & -> & Hq). by split.
  - intros Hb. destruct (F7 Hb Hu) as [? _]. split; [done|by apply F5].
Qed.

(** C24. A [Write] that is answered at once or forwarded has not touched the log, the
    table or the protocol state: the key was empty, or the node was not the leader and
    names the leader it knows, or its database failed. *)
Theorem write_refused n t base bterm last req w n' :
  at_rest n t base bterm last → is_u64 (commitIndex n + 1) → is_idx (last + 1) →
  Write_begin (Some req) n = (w, n') → (∀ i tm, w ≠ WriteWait i tm) →
  view (store n') = Idle t ∧ currentTerm n' = currentTerm n ∧ commitIndex n' = commitIndex n
  ∧ match w with
    | WriteReply (Ok resp) => ClientWriteResponse_Success resp = false
        ∧ (ClientWriteRequest_Key req = "" ∨ ClientWriteResponse_LeaderId resp = leaderID n)
    | WriteReply (Err _) => ¬ sound (store n)
    | WriteForward leader => role n ≠ RoleLeader ∧ leader = leaderID n ∧ leader ∈ clients n
    | WriteWait _ _ => False
    end.
Proof.
  intros (Hv & Hs & Hu & Hc) Hc1 Hi E Hne.
  pose proof (wp_Write_begin n t base bterm last req Hv Hs Hu Hc Hc1 Hi) as Hw. unfold wp in Hw.
  rewrite E in Hw. cbn [fst snd] in Hw.
  destruct w as [[resp|e]|leader|i tm]; [..|by destruct (Hne i tm)].
  - destruct Hw as (Hf & -> & Hcase). split_and!; [done..|]. tauto.
  - destruct Hw as (Hns & c & Hvc & Hq). pose proof Hq as [Eq _].
    split_and!; [by apply (quiet_view _ _ _ Hq)|by rewrite Eq|by rewrite Eq|done].
  - destruct Hw as (_ & Hr & -> & Hin & ->). done.
Qed.

(** A successful answer to a [Write] is given only while the node leads the term of
    the entry and its commit index has reached it; the answer names both. *)
Theorem write_acknowledged key index term deadline n resp n' :
  Write_round key index term deadline n = (Some resp, n') → ClientWriteResponse_Success resp = true →
  role n = RoleLeader ∧ currentTerm n = term ∧ index <= commitIndex n
  ∧ resp = mkClientWriteResponse true (node_id n) "" index term ∧ quiet n n'.
Proof.
  intros E Hs. assert (wp (Write_round key index term deadline) (λ r n', ∀ resp, r = Some resp →
    ClientWriteResponse_Success resp = true → role n = RoleLeader ∧ currentTerm n = term
    ∧ index <= commitIndex n ∧ resp = mkClientWriteResponse true (node_id n) "" index term ∧ quiet n n') n) as Hw.
  { unfold Write_round. wp_pure. destruct (bool_decide_reflect (role n = RoleLeader)); cbn [negb orb].
    2: { wp_pure. by intros ? [= <-]. }
    destruct (Z.eqb_spec (currentTerm n) term); cbn [negb orb].
    2: { wp_pure. by intros ? [= <-]. }
    destruct (Z.leb_spec index (commitIndex n)).
    - wp_skip as n1 Hq. wp_pure. by intros ? [= <-] _.
    - wp_pure. intros r. destruct deadline; [|done]. by intros [= <-]. }
  unfold wp in Hw. rewrite E in Hw. by apply (Hw resp).
Qed.

(** ** Reads *)

Lemma majority_half n c : majorityLocked n <= c → Z.of_nat (length (peers n)) + 1 < 2 * c.
Proof. unfold majorityLocked. intros. set (a := Z.of_nat (length (peers n)) + 1) in *.
  pose proof (Z.div_mod a 2). pose proof (Z.mod_pos_bound a 2). lia. Qed.

(** What [Get] found, as the answer of [Read]. *)
Definition read_answer (n : Node) (found : option (string * Z)) : ClientReadResponse :=
  match found with
  | Some (v, _) => mkClientReadResponse true (node_id n) "" v
  | None => mkClientReadResponse false (node_id n) "key not found" ""
  end.

Lemma wp_Read_get n t req :
  view (store n) = Idle t →
  wp (Read_get (Some req)) (λ r n',
    (r = Ok (read_answer n (kv t !! ClientReadRequest_Key req)) ∨ is_ok r = false ∧ ¬ sound (store n))
    ∧ quiet n n') n.
Proof.
  intros Hv. unfold Read_get. cbn [ClientReadRequest_GetKey]. set (key := ClientReadRequest_Key req).
  wp_pure. eapply wp_reads; [apply reads_Get|done|exact Hv| |].
  2: { intros e n1 Hns Hq. wp_pure. split; [by right|done]. }
  intros [v b] n1 Ha Hq1. unfold spec_Get in Ha.
  destruct (kv t !! key) as [[v0 i0]|]; injection Ha as <- <-.
  - wp_skip as n2 Hq2. wp_pure. split; [by left|by etrans].
  - wp_pure. split; [by left|done].
Qed.

Lemma Read_check_spec successes n :
  Read_check successes n =
    (if decide (role n = RoleLeader ∧ majorityLocked n <= successes) then None
     else Some (if decide (role n = RoleLeader) then read_refused (node_id n) "could not confirm leader quorum"
                else read_refused (leaderID n) "not leader"), n).
Proof.
  unfold Read_check, mbind, ST_bind, gets, mret, ST_ret. f_equal.
  destruct (bool_decide_reflect (role n = RoleLeader)) as [Hr|Hr]; cbn [negb].
  - rewrite (decide_True _ _ Hr). destruct (Z.ltb_spec successes (majorityLocked n)).
    + by rewrite decide_False by lia.
    + by rewrite decide_True.
  - rewrite decide_False by tauto. by rewrite decide_False.
Qed.

(** C25. A [Read] goes on to the database only when, under the lock, the node leads and
    more than half of the members have acknowledged it; otherwise it is refused, with the
    leader that is known or with the node itself.  What it then answers, from a state that
    others may have changed since (the lock is given up before), is what the applied table
    of that state holds for the key, or that there is no such key. *)
Theorem read_served n successes c n1 m t req r m' :
  Read_check successes n = (c, n1) →
  view (store m) = Idle t → sound (store m) → Read_get (Some req) m = (r, m') →
  n1 = n
  ∧ match c with
    | None => role n = RoleLeader ∧ Z.of_nat (length (peers n)) + 1 < 2 * successes
    | Some resp =>
        role n ≠ RoleLeader ∧ resp = mkClientReadResponse false (leaderID n) "not leader" ""
        ∨ role n = RoleLeader ∧ successes < majorityLocked n
          ∧ resp = mkClientReadResponse false (node_id n) "could not confirm leader quorum" ""
    end
  ∧ r = Ok (match kv t !! ClientReadRequest_Key req with
            | Some (v, _) => mkClientReadResponse true (node_id m) "" v
            | None => mkClientReadResponse false (node_id m) "key not found" ""
            end)
  ∧ quiet m m'.
Proof.
  intros Ec Hv Hso E. rewrite Read_check_spec in Ec. injection Ec as <- <-.
  pose proof (wp_Read_get m t req Hv) as Hw. unfold wp in Hw. rewrite E in Hw. cbn [fst snd] in Hw.
  destruct Hw as [[->|[_ ?]] Hq]; [|done]. split_and!; [done| |done|done].
  destruct (decide (role n = RoleLeader ∧ _)) as [[Hr Hm]|Hno].
  - split; [done|by apply majority_half].
  - destruct (decide (role n = RoleLeader)); [right|by left].
    split_and!; [done|apply Z.nle_gt; tauto|done].
Qed.

Lemma read_confirmed successes n n1 :
  Read_check successes n = (None, n1) → role n = RoleLeader ∧ majorityLocked n <= successes.
Proof. rewrite Read_check_spec. by destruct (decide (role n = RoleLeader ∧ _)). Qed.

(** A value is read from the applied table. *)
Lemma read_value n t req resp n' :
  view (store n) = Idle t → Read_get (Some req) n = (Ok resp, n') → ClientReadResponse_Success resp = true →
  kv_values t !! ClientReadRequest_Key req = Some (ClientReadResponse_Value resp).
Proof.
  intros Hv E Hs. pose proof (wp_Read_get n t req Hv) as Hw. unfold wp in Hw.
  rewrite E in Hw. cbn [fst snd] in Hw. destruct Hw as [[[= ->]|[? _]] _]; [|done].
  unfold kv_values. rewrite lookup_fmap. by destruct (kv t !! _) as [[v i]|].
Qed.
End replies.

(** ** Witnesses *)

Section witnesses.

Definition b_has_three : AppendEntriesResponse := mkAppendEntriesResponse 2 true 3.

Abbreviation after_b := (replicatePeer_append_reply "b" 2 3 (Some b_has_three) leader_a).

Lemma small_u64 z : 0 <= z <= 100 → is_u64 z.
Proof. apply u64_small. Qed.

Lemma append_reply_outcome_witness :
  reply_post leader_a leader_tables 0 0 3 "b" 2 3 b_has_three after_b.1 after_b.2.
Proof.
  assert (is_u64 (commitIndex leader_a + 1)) as H1 by (apply u64_small; cbn; lia).
  assert (is_u64 (AppendEntriesResponse_Term b_has_three)) as H2 by (apply u64_small; cbn; lia).
  assert (is_u64 (matched_after leader_a "b" 3 (AppendEntriesResponse_MatchIndex b_has_three) + 1)) as H3
    by (vm_compute; split; [discriminate|reflexivity]).
  assert (is_u64 (map_get (nextIndex leader_a) "b")) as H4 by (vm_compute; split; [discriminate|reflexivity]).
  exact (append_reply_outcome leader_a leader_tables 0 0 3 "b" 2 3 b_has_three _ _ leader_rest H1 H2 (λ _, H3)
    (Zle_bool_imp_le 0 3 eq_refl) H4 (surjective_pairing _)).
Defined.

(** The reply of [b] makes the third entry committed, and applied. *)
Example b_commits : (commitIndex after_b.2, lastApplied after_b.2) = (3, 3).
Proof. vm_compute. reflexivity. Qed.

Definition set_z : ClientWriteRequest := mkClientWriteRequest "z" "9".

Definition after_write : Node := (Write_begin (Some set_z) leader_a).2.

Lemma leader_writes : Write_begin (Some set_z) leader_a = (WriteWait 4 2, after_write).
Proof.
  assert ((Write_begin (Some set_z) leader_a).1 = WriteWait 4 2) as H by (vm_compute; reflexivity).
  exact (pair_of_fst _ _ H).
Qed.

Lemma leader_next : is_u64 (commitIndex leader_a + 1).
Proof. apply u64_small; cbn; lia. Qed.

Lemma leader_room : is_idx (3 + 1).
Proof. unfold is_idx, two63. lia. Qed.

Lemma write_appends_witness :
  let row := (int64 2, command_json "z" "9") in
  let t1 := set_log (<[4 := row]>) leader_tables in
  let matched := <["a" := 4]> (matchIndex leader_a) in
  role leader_a = RoleLeader ∧ 4 = 3 + 1 ∧ 2 = currentTerm leader_a
  ∧ (role after_write = role leader_a ∧ currentTerm after_write = currentTerm leader_a
     ∧ votedFor after_write = votedFor leader_a ∧ leaderID after_write = leaderID leader_a)
  ∧ matchIndex after_write = matched ∧ nextIndex after_write = nextIndex leader_a
  ∧ ∃ t' base' bterm', view (store after_write) = Idle t' ∧ shape t' base' bterm' 4
    ∧ (∀ i, base' < i → log_entries t' !! i = if decide (i = 4) then Some row else log_entries leader_tables !! i)
    ∧ (majorityLocked leader_a ≠ 1 → t' = t1 ∧ ∃ c, quiet (set_matchIndex matched (set_store c leader_a)) after_write)
    ∧ (commitIndex after_write = commitIndex leader_a ∨ commitIndex leader_a < commitIndex after_write <= 4
       ∧ term_at t1 0 0 (commitIndex after_write) = Some 2)
    ∧ lastApplied leader_a <= lastApplied after_write
    ∧ (0 <= lastApplied leader_a → lastApplied after_write <= Z.max (lastApplied leader_a) (commitIndex after_write)
       ∧ replay (log_entries t1) (kv leader_tables) (lastApplied leader_a)
           (Z.to_nat (lastApplied after_write - lastApplied leader_a)) = Some (kv t')).
Proof.
  exact (write_appends leader_a leader_tables 0 0 3 set_z 4 2 after_write leader_rest leader_next
    leader_room leader_writes).
Defined.

Definition refused_write : Node := (Write_begin (Some set_z) follower_b).2.

Lemma follower_refuses :
  Write_begin (Some set_z) follower_b
  = (WriteReply (Ok (newNotLeaderResponse "")), refused_write).
Proof.
  assert ((Write_begin (Some set_z) follower_b).1 = WriteReply (Ok (newNotLeaderResponse ""))) as H
    by (vm_compute; reflexivity).
  exact (pair_of_fst _ _ H).
Qed.

Lemma write_refused_witness :
  view (store refused_write) = Idle follower_tables
  ∧ currentTerm refused_write = currentTerm follower_b
  ∧ commitIndex refused_write = commitIndex follower_b
  ∧ ClientWriteResponse_Success (newNotLeaderResponse "") = false
  ∧ (ClientWriteRequest_Key set_z = "" ∨ ClientWriteResponse_LeaderId (newNotLeaderResponse "") = leaderID follower_b).
Proof.
  assert (is_u64 (commitIndex follower_b + 1)) as H by (apply u64_small; cbn; lia).
  assert (∀ i tm, WriteReply (Ok (newNotLeaderResponse "")) ≠ WriteWait i tm) as Hne by discriminate.
  exact (write_refused follower_b follower_tables 0 0 3 set_z _ refused_write follower_rest H
    leader_room follower_refuses Hne).
Defined.

Definition ack_two : ClientWriteResponse := mkClientWriteResponse true "a" "" 2 2.

Definition after_ack : Node := (Write_round "y" 2 2 None leader_a).2.

Lemma leader_acks : Write_round "y" 2 2 None leader_a = (Some ack_two, after_ack).
Proof.
  assert ((Write_round "y" 2 2 None leader_a).1 = Some ack_two) as H by (vm_compute; reflexivity).
  exact (pair_of_fst _ _ H).
Qed.

Lemma write_acknowledged_witness :
  role leader_a = RoleLeader ∧ currentTerm leader_a = 2 ∧ 2 <= commitIndex leader_a
  ∧ ack_two = mkClientWriteResponse true (node_id leader_a) "" 2 2 ∧ quiet leader_a after_ack.
Proof. exact (write_acknowledged "y" 2 2 None leader_a ack_two after_ack leader_acks eq_refl). Defined.

(** The leader with a table. *)
Definition served_tables : tables := set_kv (λ _, {["x" := ("1", 1)]}) leader_tables.
Definition reading_a : Node := set_store (FaultConn (Idle served_tables) []) leader_a.
Definition get_x : ClientReadRequest := mkClientReadRequest "x".
Definition after_read : Node := (Read_get (Some get_x) reading_a).2.

Lemma reading_sound : sound (store reading_a).
Proof. exists served_tables. split_and!; [reflexivity|split_and!; vm_compute; eexists; reflexivity|reflexivity]. Qed.

Lemma leader_checks : Read_check 2 leader_a = (None, leader_a).
Proof. rewrite Read_check_spec. reflexivity. Qed.

Lemma leader_reads : Read_get (Some get_x) reading_a = (Ok (mkClientReadResponse true "a" "" "1"), after_read).
Proof.
  assert ((Read_get (Some get_x) reading_a).1 = Ok (mkClientReadResponse true "a" "" "1")) as H
    by (vm_compute; reflexivity).
  exact (pair_of_fst _ _ H).
Qed.

Lemma read_served_witness :
  leader_a = leader_a
  ∧ (role leader_a = RoleLeader ∧ Z.of_nat (length (peers leader_a)) + 1 < 2 * 2)
  ∧ Ok (mkClientReadResponse true "a" "" "1") = Ok (match kv served_tables !! "x" with
      | Some (v, _) => mkClientReadResponse true (node_id reading_a) "" v
      | None => mkClientReadResponse false (node_id reading_a) "key not found" ""
      end)
  ∧ quiet reading_a after_read.
Proof.
  exact (read_served leader_a 2 None leader_a reading_a served_tables get_x _ after_read leader_checks eq_refl
    reading_sound leader_reads).
Defined.
End witnesses.
