(* ===== verification/ConfigSpec.v ===== *)
(** * What a configuration guarantees

    [FromEnv] accepts only configurations a node can run with, and [parsePeers]
    reads back a peer list written in its own notation. *)

From Stdlib Require Import Ascii String.
From stdpp Require Import strings.
From S2P Require Import Prelude GoStd Config.
#[local] Open Scope Z_scope.

(** ** Splitting what has been joined *)

Fixpoint free_of (c : ascii) (s : string) : bool :=
  match s with
  | EmptyString => true
  | String c' s' => negb (bool_decide (c' = c)) && free_of c s'
  end.

Fixpoint join (sep : ascii) (l : list string) : string :=
  match l with
  | [] => ""
  | [s] => s
  | s :: l' => s +:+ String sep (join sep l')
  end.

Lemma cut_free sep s t : free_of sep s = true → cut sep (s +:+ String sep t) = (s, Some t).
Proof.
  induction s as [|c s IH]; cbn [free_of].
  { rewrite string_app_nil_l. cbn [cut]. by rewrite bool_decide_true. }
  intros [Hc Hs]%andb_true_iff. apply negb_true_iff in Hc. rewrite string_app_cons. cbn [cut].
  by rewrite Hc, IH.
Qed.

Lemma SplitN2_free sep s t : free_of sep s = true → SplitN2 sep (s +:+ String sep t) = [s; t].
Proof. intros H. unfold SplitN2. by rewrite cut_free. Qed.

Lemma Split_free sep s : free_of sep s = true → Split sep s = [s].
Proof.
  induction s as [|c s IH]; cbn [free_of Split]; [done|].
  intros [Hc Hs]%andb_true_iff. apply negb_true_iff in Hc. by rewrite Hc, IH.
Qed.

Lemma Split_app sep s t : free_of sep s = true → Split sep (s +:+ String sep t) = s :: Split sep t.
Proof.
  induction s as [|c s IH]; cbn [free_of].
  { rewrite string_app_nil_l. cbn [Split]. by rewrite bool_decide_true. }
  intros [Hc Hs]%andb_true_iff. apply negb_true_iff in Hc. rewrite string_app_cons. cbn [Split].
  by rewrite Hc, IH.
Qed.

Lemma Split_join sep l : l ≠ [] → Forall (λ s, free_of sep s = true) l → Split sep (join sep l) = l.
Proof.
  intros Hl Hf. induction Hf as [|s l Hs Hf IH]; [done|]. destruct l as [|s' l].
  - by apply Split_free.
  - change (join sep (s :: s' :: l)) with (s +:+ String sep (join sep (s' :: l))).
    by rewrite Split_app, IH.
Qed.

Lemma free_of_app sep s t : free_of sep (s +:+ t) = free_of sep s && free_of sep t.
Proof.
  induction s as [|c s IH]; [done|]. rewrite string_app_cons. cbn [free_of]. by rewrite IH, andb_assoc.
Qed.

(** ** The loop over the parts *)

Definition good_peer (selfID : string) (seen : gset string) (p : Peer) : Prop :=
  Peer_ID p ≠ "" ∧ Peer_Address p ≠ "" ∧ Peer_ID p ≠ selfID ∧ Peer_ID p ∈ seen.

Lemma split_peer_nonempty part id addr : split_peer part = Some (id, addr) → id ≠ "" ∧ addr ≠ "".
Proof.
  unfold split_peer. destruct (SplitN2 _ _) as [|i [|a [|]]]; try done.
  destruct (bool_decide_reflect (i = "")); [done|]. destruct (bool_decide_reflect (a = "")); [done|].
  cbn. by intros [= <- <-].
Qed.

Lemma parse_parts_inv selfID parts seen ps l :
  parse_parts selfID parts seen ps = Ok l → NoDup (Peer_ID <$> ps) → Forall (good_peer selfID seen) ps →
  NoDup (Peer_ID <$> l) ∧ Forall (λ p, Peer_ID p ≠ "" ∧ Peer_Address p ≠ "" ∧ Peer_ID p ≠ selfID) l.
Proof.
  revert seen ps. induction parts as [|part parts IH]; intros seen ps; cbn [parse_parts].
  - intros [= <-] Hn Hg. split; [done|]. eapply Forall_impl; [exact Hg|]. unfold good_peer. tauto.
  - destruct (split_peer part) as [[id addr]|] eqn:Ep; [|done].
    destruct (split_peer_nonempty _ _ _ Ep) as [Hi Ha].
    case_bool_decide as Hseen; [done|]. intros E Hn Hg.
    assert (Forall (good_peer selfID ({[id]} ∪ seen)) ps) as Hg'.
    { eapply Forall_impl; [exact Hg|]. unfold good_peer. set_solver. }
    case_bool_decide as Hself; (eapply IH; [exact E|..]); [done|done| |].
    + rewrite fmap_app. apply NoDup_app. split_and!; [done| |apply NoDup_singleton].
      intros x Hx. cbn. rewrite list_elem_of_singleton. intros ->. apply Hseen.
      apply list_elem_of_fmap in Hx as (p & -> & Hp). rewrite Forall_forall in Hg. by apply Hg.
    + apply Forall_app. split; [done|]. apply Forall_singleton. split_and!; [done..|]. cbn. set_solver.
Qed.

Lemma parsePeers_inv raw selfID l :
  parsePeers raw selfID = Ok l →
  NoDup (Peer_ID <$> l) ∧ Forall (λ p, Peer_ID p ≠ "" ∧ Peer_Address p ≠ "" ∧ Peer_ID p ≠ selfID) l.
Proof.
  unfold parsePeers. case_bool_decide.
  - intros [= <-]. split; [apply NoDup_nil_2|constructor].
  - intros E. eapply parse_parts_inv; [exact E|apply NoDup_nil_2|constructor].
Qed.

(** ** The notation *)

Definition peer_text (p : Peer) : string := Peer_ID p +:+ String "=" (Peer_Address p).

(** A peer that can be written: neither part is empty or has a comma or outer space,
    and the id has no equals sign. *)
Definition writable (p : Peer) : Prop :=
  Peer_ID p ≠ "" ∧ Peer_Address p ≠ "" ∧ free_of "=" (Peer_ID p) = true
  ∧ free_of "," (peer_text p) = true ∧ TrimSpace (peer_text p) = peer_text p.

#[global] Instance writable_dec p : Decision (writable p).
Proof. unfold writable. apply _. Defined.

Lemma split_peer_text p : writable p → split_peer (peer_text p) = Some (Peer_ID p, Peer_Address p).
Proof.
  intros (Hi & Ha & He & _ & Ht). unfold split_peer. rewrite Ht. unfold peer_text.
  rewrite SplitN2_free by done. by rewrite !bool_decide_false.
Qed.

Lemma parse_parts_text selfID ps seen acc :
  Forall writable ps → NoDup (Peer_ID <$> ps) → Forall (λ p, Peer_ID p ∉ seen) ps →
  parse_parts selfID (peer_text <$> ps) seen acc = Ok (acc ++ filter (λ p, Peer_ID p ≠ selfID) ps).
Proof.
  revert seen acc. induction ps as [|[i a] ps IH]; intros seen acc Hw Hn Hs.
  { cbn. by rewrite app_nil_r. }
  apply Forall_cons in Hw as [Hp Hw]. apply Forall_cons in Hs as [Hi Hs].
  rewrite fmap_cons in Hn |- *. apply NoDup_cons in Hn as [Hni Hn]. cbn [parse_parts].
  rewrite (split_peer_text _ Hp). cbn [Peer_ID Peer_Address] in *. rewrite (bool_decide_false _ Hi).
  assert (Forall (λ p, Peer_ID p ∉ ({[i]} ∪ seen : gset string)) ps) as Hs'.
  { apply Forall_forall. intros p Hp'. rewrite Forall_forall in Hs. specialize (Hs p Hp').
    assert (Peer_ID p ≠ i) by (intros <-; apply Hni; by apply list_elem_of_fmap_2). set_solver. }
  case_bool_decide as Hself; rewrite IH by done.
  - rewrite filter_cons_False; [done|]. cbn. by intros [].
  - by rewrite filter_cons_True, <- app_assoc.
Qed.

(** C35. The peer list round-trips: a list of distinct peers written [id=address] and
    joined with commas parses to those peers, in order, less the node itself. *)
Theorem parsePeers_roundtrip (ps : list Peer) (selfID : string) :
  Forall writable ps → NoDup (Peer_ID <$> ps) →
  TrimSpace (join "," (peer_text <$> ps)) ≠ "" ∨ ps = [] →
  parsePeers (join "," (peer_text <$> ps)) selfID = Ok (filter (λ p, Peer_ID p ≠ selfID) ps).
Proof.
  intros Hw Hn [Ht| ->]; [|done]. unfold parsePeers. rewrite bool_decide_false by done.
  destruct ps as [|p ps]; [done|]. rewrite Split_join; [|done|].
  - rewrite parse_parts_text; [done|done|done|]. apply Forall_forall. set_solver.
  - apply Forall_fmap. eapply Forall_impl; [exact Hw|]. intros q (_ & _ & _ & H & _). done.
Qed.

(** ** Accepted configurations *)

Record valid_config (cfg : Config) : Prop := {
  vc_names : cfg_NodeID cfg ≠ "" ∧ cfg_GRPCAddr cfg ≠ "" ∧ cfg_HTTPAddr cfg ≠ "" ∧ cfg_DataDir cfg ≠ "";
  vc_times : cfg_HeartbeatInterval cfg < cfg_ElectionMin cfg <= cfg_ElectionMax cfg;
  vc_range : - two63 <= cfg_HeartbeatInterval cfg ∧ cfg_ElectionMax cfg < two63;
  vc_threshold : is_u64 (cfg_SnapshotThreshold cfg);
  vc_distinct : NoDup (cfg_NodeID cfg :: (Peer_ID <$> cfg_Peers cfg));
  vc_peers : Forall (λ p, Peer_ID p ≠ "" ∧ Peer_Address p ≠ "") (cfg_Peers cfg)
}.

Lemma env_nonempty getenv key fallback : fallback ≠ "" → env getenv key fallback ≠ "".
Proof. intros H. unfold env. by case_bool_decide. Qed.

Lemma envDurationMS_range getenv key fallback : - two63 <= envDurationMS getenv key fallback < two63.
Proof. unfold envDurationMS. repeat case_match; apply int64_range. Qed.

Lemma envUint64_range getenv key fallback : is_u64 fallback → is_u64 (envUint64 getenv key fallback).
Proof.
  intros H. unfold envUint64. destruct (ParseUint _) eqn:E; [by eapply ParseUint_range|done].
Qed.

Lemma FromEnv_peers (getenv : string → string) cfg :
  FromEnv getenv = Ok cfg → parsePeers (getenv "RAFT_PEERS") (cfg_NodeID cfg) = Ok (cfg_Peers cfg).
Proof.
  unfold FromEnv. cbn [cfg_ElectionMin cfg_ElectionMax cfg_HeartbeatInterval cfg_NodeID].
  do 2 (destruct (_ : bool); [done|]). destruct (parsePeers _ _) eqn:E; [|done]. by intros [= <-].
Qed.

(** C34. A configuration [FromEnv] returns has names, a heartbeat below the election
    timeouts, which are in order, a threshold that is a word, and members that are
    distinct, named, addressed, and none of them the node itself. *)
Theorem FromEnv_valid (getenv : string → string) cfg :
  FromEnv getenv = Ok cfg → valid_config cfg.
Proof.
  unfold FromEnv. cbn [cfg_ElectionMin cfg_ElectionMax cfg_HeartbeatInterval cfg_NodeID].
  destruct (Z.leb_spec (envDurationMS getenv "RAFT_ELECTION_MIN_MS" 500)
    (envDurationMS getenv "RAFT_HEARTBEAT_MS" 100)); [done|].
  destruct (Z.ltb_spec (envDurationMS getenv "RAFT_ELECTION_MAX_MS" 900)
    (envDurationMS getenv "RAFT_ELECTION_MIN_MS" 500)); [done|].
  destruct (parsePeers _ _) as [ps|] eqn:Ep; [|done]. intros [= <-].
  apply parsePeers_inv in Ep as [Hn Hf].
  split; cbn [cfg_NodeID cfg_GRPCAddr cfg_HTTPAddr cfg_DataDir cfg_Peers cfg_ElectionMin cfg_ElectionMax
    cfg_HeartbeatInterval cfg_SnapshotThreshold].
  - split_and!; by apply env_nonempty.
  - lia.
  - pose proof (envDurationMS_range getenv "RAFT_HEARTBEAT_MS" 100).
    pose proof (envDurationMS_range getenv "RAFT_ELECTION_MAX_MS" 900). lia.
  - apply envUint64_range. unfold is_u64, two64. lia.
  - apply NoDup_cons. split; [|done]. intros (p & Ei & Hp)%list_elem_of_fmap.
    rewrite Forall_forall in Hf. by destruct (Hf p Hp) as (_ & _ & []).
  - eapply Forall_impl; [exact Hf|]. intros p (H1 & H2 & _). by split.
Qed.

(** ** Witnesses *)

Section witnesses.

Definition two_peers : list Peer := [mkPeer "b" "host-b:9001"; mkPeer "a" "host-a:9001"].

Lemma parsePeers_roundtrip_witness :
  parsePeers (join "," (peer_text <$> two_peers)) "a" = Ok [mkPeer "b" "host-b:9001"].
Proof.
  assert (Forall writable two_peers) as H1 by (refine (bool_decide_unpack _ _); vm_compute; exact I).
  assert (NoDup (Peer_ID <$> two_peers)) as H2 by (refine (bool_decide_unpack _ _); vm_compute; exact I).
  assert (TrimSpace (join "," (peer_text <$> two_peers)) ≠ "") as H3 by (vm_compute; discriminate).
  exact (parsePeers_roundtrip two_peers "a" H1 H2 (or_introl H3)).
Defined.

Definition no_env : string → string := λ _, "".

Definition default_config : Config :=
  match FromEnv no_env with
  | Ok cfg => cfg
  | Err _ => mkConfig "" "" "" "" [] 0 0 0 0
  end.

Lemma FromEnv_valid_witness : valid_config default_config.
Proof.
  assert (FromEnv no_env = Ok default_config) as H by (vm_compute; reflexivity).
  exact (FromEnv_valid no_env default_config H).
Defined.
End witnesses.
