(* ===== verification/MetricsSpec.v ===== *)
(** * What the exposition text promises

    The text does not depend on the order in which maps are visited, and a label
    value is written without bare quotes, backslashes or line ends, so that it
    can be read back. *)

From Stdlib Require Import Ascii String.
From stdpp Require Import strings sorting.
From S2P Require Import Prelude GoStd Logging Metrics Instances.
#[local] Open Scope Z_scope.

(** ** Order *)

Lemma string_le_antisym (a b : string) : String.le a b → String.le b a → a = b.
Proof. apply (anti_symm String.le). Qed.

Lemma sort_strings_perm l1 l2 : l1 ≡ₚ l2 → sort_strings l1 = sort_strings l2.
Proof.
  intros Hp. unfold sort_strings. apply (StronglySorted_unique String.le).
  - apply (StronglySorted_merge_sort _).
  - apply (StronglySorted_merge_sort _).
  - by rewrite !merge_sort_Permutation.
Qed.

Lemma map_range_keys (R1 R2 : GoRuntime) (m : gmap string Z) :
  sort_strings ((@map_range R1 _ m).*1) = sort_strings ((@map_range R2 _ m).*1).
Proof. apply sort_strings_perm. by rewrite !map_range_perm. Qed.

(** C36. The metrics page is a function of the metrics: whatever order the runtime visits
    its maps in, the header and the text are the same. *)
Theorem ServeHTTP_deterministic (R1 R2 : GoRuntime) (m : Metrics) :
  @ServeHTTP R1 m = @ServeHTTP R2 m.
Proof. unfold ServeHTTP. by rewrite (map_range_keys R1 R2 (m_rpcs m)), (map_range_keys R1 R2 (m_lag m)). Qed.

(** ** Escaping *)

Definition c_bs : ascii := ascii_of_nat 92.
Definition c_dq : ascii := ascii_of_nat 34.
Definition c_nl : ascii := ascii_of_nat 10.

(** A byte of a label value as it is written. *)
Definition escape_byte (c : ascii) : string :=
  if bool_decide (c = c_bs) then bs +:+ bs
  else if bool_decide (c = c_nl) then bs +:+ "n"
  else if bool_decide (c = c_dq) then bs +:+ dq
  else String c "".

(** A reader of the text: the value up to the closing quote and what follows it. *)
Fixpoint read_label (s : string) : option (string * string) :=
  match s with
  | EmptyString => None
  | String c s' =>
      if bool_decide (c = c_dq) then Some ("", s')
      else if bool_decide (c = c_bs) then
        match s' with
        | EmptyString => None
        | String e s'' =>
            let c' := if bool_decide (e = "n"%char) then c_nl else e in
            match read_label s'' with Some (v, r) => Some (String c' v, r) | None => None end
        end
      else match read_label s' with Some (v, r) => Some (String c v, r) | None => None end
  end.

Lemma ReplaceAll_cons s c old new :
  ReplaceAll (String c s) old new
  = (if bool_decide (c = old) then new else String c "") +:+ ReplaceAll s old new.
Proof. cbn [ReplaceAll]. by case_bool_decide. Qed.

Lemma ReplaceAll_app s t old new :
  ReplaceAll (s +:+ t) old new = ReplaceAll s old new +:+ ReplaceAll t old new.
Proof.
  induction s as [|c s IH]; [done|].
  by rewrite string_app_cons, !ReplaceAll_cons, IH, string_app_assoc.
Qed.

Lemma ReplaceAll_one c old new :
  ReplaceAll (String c "") old new = if bool_decide (c = old) then new else String c "".
Proof. rewrite ReplaceAll_cons. cbn [ReplaceAll]. by rewrite string_app_nil_r. Qed.

Lemma escapeLabel_cons c s : escapeLabel (String c s) = escape_byte c +:+ escapeLabel s.
Proof.
  unfold escapeLabel. rewrite (ReplaceAll_cons s c), !ReplaceAll_app. f_equal. unfold escape_byte.
  change (ascii_of_nat 92) with c_bs. change (ascii_of_nat 10) with c_nl.
  change (ascii_of_nat 34) with c_dq.
  destruct (bool_decide_reflect (c = c_bs)) as [->|H1]; [by vm_compute|].
  rewrite ReplaceAll_one. destruct (bool_decide_reflect (c = c_nl)) as [->|H2]; [by vm_compute|].
  by rewrite ReplaceAll_one.
Qed.

Lemma read_label_byte c s :
  read_label (escape_byte c +:+ s)
  = match read_label s with Some (v, r) => Some (String c v, r) | None => None end.
Proof.
  unfold escape_byte. destruct (bool_decide_reflect (c = c_bs)) as [->|H1]; [reflexivity|].
  destruct (bool_decide_reflect (c = c_nl)) as [->|H2]; [reflexivity|].
  destruct (bool_decide_reflect (c = c_dq)) as [->|H3]; [reflexivity|].
  rewrite string_app_cons, string_app_nil_l. cbn [read_label].
  by rewrite !bool_decide_false.
Qed.

(** C37. A label value round-trips: what [escapeLabel] writes between quotes is read back
    as the value, up to the closing quote and not beyond. *)
Theorem escapeLabel_roundtrip (value rest : string) :
  read_label (escapeLabel value +:+ String c_dq rest) = Some (value, rest).
Proof.
  induction value as [|c value IH]; [reflexivity|].
  by rewrite escapeLabel_cons, string_app_assoc, read_label_byte, IH.
Qed.
