(* ===== verification/Durability.v ===== *)
(** * The store as an atomic object

    The updates of the [Store] as one type, with what each does to the tables.
    Whatever the driver does, a sequence of updates leaves the database as the
    updates that reported success, in order, leave it; reopening keeps it. *)

From Stdlib Require Import Ascii String.
From stdpp Require Import strings.
From S2P Require Import Prelude GoStd Json Sql Storage StoreSpec NodeFrame Instances.
#[local] Open Scope Z_scope.

Inductive update :=
| USaveTermVote (term : Z) (votedFor : string)
| UAppendEntries (entries : list Entry)
| UDeleteFrom (index : Z)
| USetLastApplied (index : Z)
| UApplySet (index : Z) (key value : string)
| UCreateSnapshot (index term : Z)
| UInstallSnapshot (snap : Snapshot).

(** The abstract object: what an update means. *)
Definition spec_update (u : update) (t : tables) : option tables :=
  match u with
  | USaveTermVote term v => Some (spec_SaveTermVote term v t)
  | UAppendEntries es => Some (spec_AppendEntries es t)
  | UDeleteFrom i => Some (spec_DeleteFrom i t)
  | USetLastApplied i => Some (put_meta "last_applied" (FormatUint i) t)
  | UApplySet i k v => Some (spec_ApplySet i k v t)
  | UCreateSnapshot i tm => Some (spec_CreateSnapshot i tm t).2
  | UInstallSnapshot snap => spec_InstallSnapshot snap t
  end.

(** What an update asks of its arguments: no empty blob. *)
Definition update_pre (u : update) : Prop :=
  match u with
  | UAppendEntries es => nonempty_commands es
  | UInstallSnapshot snap => Data snap ≠ ""
  | _ => True
  end.

Section store.
Context `{D : !SqlDriver} `{L : !SqlLaws D} `{R : !GoRuntime}.

Definition run_update (u : update) : ST conn (result unit) :=
  match u with
  | USaveTermVote term v => SaveTermVote term v
  | UAppendEntries es => store_AppendEntries es
  | UDeleteFrom i => DeleteFrom i
  | USetLastApplied i => SetLastApplied i
  | UApplySet i k v => ApplySet i k v
  | UCreateSnapshot i tm => try _ := CreateSnapshot i tm in mret (Ok tt)
  | UInstallSnapshot snap => store_InstallSnapshot snap
  end.

Lemma refines_update u : refines (update_pre u) (run_update u) (λ t, (tt,.) <$> spec_update u t).
Proof.
  destruct u; cbn [update_pre run_update spec_update fmap option_fmap option_map].
  - apply refines_SaveTermVote.
  - apply refines_AppendEntries.
  - apply refines_DeleteFrom.
  - apply refines_SetLastApplied.
  - apply refines_ApplySet.
  - intros c t Hc. rewrite wp_try. eapply wp_mono; [by apply refines_CreateSnapshot|].
    intros [snap|e] c' [Hr Hp].
    + destruct Hr as (t' & [= _ <-] & Hc'). rewrite wp_ret. split; [by eexists|].
      intros H Hh _. split; [|done]. by apply Hp.
    + split; [done|]. intros H Hh _. by apply Hp.
  - apply refines_InstallSnapshot.
Qed.

Fixpoint run_updates (us : list update) (c : conn) : list (result unit) * conn :=
  match us with
  | [] => ([], c)
  | u :: us => let '(r, c1) := run_update u c in let '(rs, c2) := run_updates us c1 in (r :: rs, c2)
  end.

(** The updates that reported success, in order. *)
Fixpoint replayed (us : list update) (rs : list (result unit)) (t : tables) : option tables :=
  match us, rs with
  | [], [] => Some t
  | u :: us, r :: rs => if is_ok r then t' ← spec_update u t; replayed us rs t' else replayed us rs t
  | _, _ => None
  end.

(** C32. The store is atomic and durable: whatever faults the driver has, after any
    sequence of updates the database - what the next connection finds included - is the
    result of exactly those that reported success; and without faults, updates with
    proper arguments all succeed. *)
Theorem store_history us c t :
  view c = Idle t →
  let '(rs, c') := run_updates us c in
  ∃ t', view c' = Idle t' ∧ replayed us rs t = Some t'
    ∧ (∀ mkdir path c2 file2, Open mkdir path (drv_file c') = (Ok c2, file2) →
         view c2 = Idle (spec_init t'))
    ∧ (healthy c → Forall update_pre us → Forall (λ u, ∀ t, is_Some (spec_update u t)) us →
       Forall (λ r, is_ok r = true) rs).
Proof.
  revert c t. induction us as [|u us IH]; intros c t Hc; cbn [run_updates replayed].
  - exists t. split_and!; [done|done| |by constructor]. intros mkdir path c2 file2 E.
    pose proof (Open_spec mkdir path (drv_file c)) as Ho. rewrite E in Ho.
    destruct Ho as [_ [Hv _]]. by rewrite Hv, file_law, Hc.
  - pose proof (refines_update u c t Hc) as Hu. unfold wp in Hu.
    destruct (run_update u c) as [r c1]. cbn [fst snd] in Hu. destruct Hu as [Hr Hp].
    assert (∃ t1, view c1 = Idle t1
      ∧ (if is_ok r then spec_update u t = Some t1 else t1 = t)) as (t1 & Hc1 & Ht1).
    { destruct r as [[]|e]; cbn; [|by exists t].
      destruct Hr as (t1 & Hf & ?). exists t1. split; [done|].
      destruct (spec_update u t); cbn in Hf; by simplify_eq. }
    specialize (IH c1 t1 Hc1). destruct (run_updates us c1) as [rs c2].
    destruct IH as (t' & Hc' & Hrep & Hopen & Hall). exists t'. split_and!; [done| |done|].
    + destruct (is_ok r); [by rewrite Ht1|by rewrite <- Ht1].
    + intros Hh Hpre Hdef. apply Forall_cons in Hpre as [Hpu Hpre].
      apply Forall_cons in Hdef as [Hdu Hdef].
      destruct (Hp Hpu Hh) as [Hh1 Hok]; [by apply fmap_is_Some|]. constructor; [done|auto].
Qed.
End store.

(** ** Witnesses *)

Section witnesses.

(** A connection whose fourth call fails: the second update is lost, the others are not. *)
Definition shaky : conn := FaultConn (Idle fresh_tables) [false; false; false; false; false; true].

Definition three_updates : list update :=
  [USaveTermVote 3 "b"; UAppendEntries [mkEntry 1 3 "{}"]; UApplySet 1 "x" "1"].

Example shaky_results : is_ok <$> (run_updates three_updates shaky).1 = [true; false; true].
Proof. vm_compute. reflexivity. Qed.

Lemma store_history_witness :
  let '(rs, c') := run_updates three_updates shaky in
  ∃ t', view c' = Idle t' ∧ replayed three_updates rs fresh_tables = Some t'
    ∧ (∀ mkdir path c2 file2, Open mkdir path (drv_file c') = (Ok c2, file2) →
         view c2 = Idle (spec_init t'))
    ∧ (healthy shaky → Forall update_pre three_updates →
       Forall (λ u, ∀ t, is_Some (spec_update u t)) three_updates → Forall (λ r, is_ok r = true) rs).
Proof. exact (store_history three_updates shaky fresh_tables eq_refl). Defined.
End witnesses.
