(* ===== verification/Timing.v ===== *)
(** * Timers

    The election deadline is drawn from the configured window, and the loop of
    [run] starts an election or a heartbeat exactly when one is due. *)

From Stdlib Require Import Ascii String.
From stdpp Require Import strings.
From S2P Require Import Prelude GoStd Wire Logging Metrics Sql Storage StoreSpec Config Types Node.
From S2P Require Import NodeFrame Instances.
#[local] Open Scope Z_scope.

Section timing.
Context `{D : !SqlDriver} `{R : !GoRuntime}.
Implicit Types (n : Node).

Lemma int64_small z : - two63 < z < two63 → int64 z = z.
Proof.
  intros Hz. unfold int64. unfold two63, two64 in *. destruct (Z.le_gt_cases 0 z).
  - rewrite Z.mod_small by lia. destruct (Z.ltb_spec z (2 ^ 63)); lia.
  - rewrite <- (Z.mod_unique z (2 ^ 64) (-1) (z + 2 ^ 64)) by lia.
    destruct (Z.ltb_spec (z + 2 ^ 64) (2 ^ 63)); lia.
Qed.

(** C40. The election timer, for timeouts that are not negative.  With [min < max] the
    deadline is drawn from [now + min, now + max), where [now] is the clock as this very
    call reads it, after it drew the number; with [max <= min] it is [now + min], of the one
    reading the call makes.  Nothing overflows and nothing else of the node changes. *)
Theorem election_deadline_window n :
  0 <= electionMin n < two63 → 0 <= electionMax n < two63 →
  let n' := (resetElectionDeadlineLocked n).2 in
  let calls := env_calls (world n) in
  (if decide (electionMin n < electionMax n)
   then let now := env_clock (world n) (S calls) in
     now + electionMin n <= electionDeadline n' < now + electionMax n
     ∧ electionDeadline n' = now + electionMin n
         + env_rand (world n) calls mod (electionMax n - electionMin n)
     ∧ env_calls (world n') = S (S calls)
   else electionDeadline n' = env_clock (world n) calls + electionMin n
     ∧ env_calls (world n') = S calls)
  ∧ n' = set_electionDeadline (electionDeadline n') (set_world (world n') n).
Proof.
  intros Hmin Hmax.
  assert (int64 (electionMax n - electionMin n) = electionMax n - electionMin n) as Hw
    by (apply int64_small; lia).
  assert (wp resetElectionDeadlineLocked (λ _ n',
    let calls := env_calls (world n) in
    (if decide (electionMin n < electionMax n)
     then let now := env_clock (world n) (S calls) in
       now + electionMin n <= electionDeadline n' < now + electionMax n
       ∧ electionDeadline n' = now + electionMin n
           + env_rand (world n) calls mod (electionMax n - electionMin n)
       ∧ env_calls (world n') = S (S calls)
     else electionDeadline n' = env_clock (world n) calls + electionMin n
       ∧ env_calls (world n') = S calls)
    ∧ n' = set_electionDeadline (electionDeadline n') (set_world (world n') n)) n); [|done].
  unfold resetElectionDeadlineLocked, time_Now, Int63n, call_env. wp_pure. rewrite Hw.
  set (w := electionMax n - electionMin n) in *.
  destruct (Z.ltb_spec 0 w) as [Hlt|Hge]; wp_pure.
  - rewrite decide_True by lia. set (j := _ mod w). assert (0 <= j < w) as Hj by (apply Z.mod_pos_bound; lia).
    assert (int64 (electionMin n + j) = electionMin n + j) as -> by (apply int64_small; lia).
    cbn [electionDeadline set_electionDeadline world set_world env_clock env_calls].
    split_and!; [lia|lia|lia|done|done].
  - rewrite decide_False by lia. rewrite Z.add_0_r, int64_small by lia.
    cbn [electionDeadline set_electionDeadline world set_world env_clock env_calls].
    split_and!; [lia|done|done].
Qed.

(** One tick: an election is started exactly when a node that does not lead is past
    its deadline, a replication round exactly when a leader's heartbeat is due, never
    both; the next heartbeat moves on only then; the node is otherwise as before. *)
Theorem tick_schedules n next :
  let now := env_clock (world n) (env_calls (world n)) in
  let '(next', n') := run_tick next n in
  n' = set_tasks (tasks n') (set_world (world n') n)
  ∧ tasks n' = tasks n ++
      (if decide (role n ≠ RoleLeader ∧ electionDeadline n < now) then [TStartElection]
       else if decide (role n = RoleLeader ∧ next <= now) then [TReplicateAll] else [])
  ∧ next' = if decide (role n = RoleLeader ∧ next <= now) then now + heartbeatInterval n else next.
Proof.
  intros now. unfold run_tick, time_Now, call_env, go. rewrite !bind_unfold. cbn. fold now.
  destruct (bool_decide_reflect (role n = RoleLeader)) as [Hr|Hr]; cbn [negb andb].
  - destruct (Z.ltb_spec now next); cbn; rewrite ?bind_unfold; cbn.
    + rewrite decide_False by tauto. rewrite !decide_False by lia. by rewrite app_nil_r.
    + rewrite decide_False by tauto. by rewrite !decide_True by tauto.
  - destruct (Z.ltb_spec (electionDeadline n) now); cbn; rewrite ?bind_unfold; cbn.
    + rewrite decide_True by tauto. by rewrite decide_False by tauto.
    + rewrite decide_False by lia. rewrite !decide_False by tauto. by rewrite app_nil_r.
Qed.
End timing.

(** ** Witnesses *)

Definition reset_a : Node := (resetElectionDeadlineLocked (fresh_node "a")).2.

Lemma election_deadline_window_witness :
  let calls := env_calls steady_env in
  (if decide (500 * Millisecond < 900 * Millisecond)
   then let now := env_clock steady_env (S calls) in
     now + 500 * Millisecond <= electionDeadline reset_a < now + 900 * Millisecond
     ∧ electionDeadline reset_a = now + 500 * Millisecond
         + env_rand steady_env calls mod (900 * Millisecond - 500 * Millisecond)
     ∧ env_calls (world reset_a) = S (S calls)
   else electionDeadline reset_a = env_clock steady_env calls + 500 * Millisecond
     ∧ env_calls (world reset_a) = S calls)
  ∧ reset_a = set_electionDeadline (electionDeadline reset_a) (set_world (world reset_a) (fresh_node "a")).
Proof.
  assert (0 <= electionMin (fresh_node "a") < two63) as H1 by (vm_compute; split; [discriminate|reflexivity]).
  assert (0 <= electionMax (fresh_node "a") < two63) as H2 by (vm_compute; split; [discriminate|reflexivity]).
  exact (election_deadline_window (fresh_node "a") H1 H2).
Defined.
