(* ===== verification/Findings.v ===== *)
(** * Where the code departs from the protocol

    Concrete runs of the definitions that show what the model brought out.  None of
    them contradicts the theorems of the other files: each is a case those theorems
    leave open. *)

From Stdlib Require Import Ascii String.
From stdpp Require Import strings.
From S2P Require Import Prelude GoStd Json Wire Logging Metrics Sql Storage StoreSpec LogSpec LogStore.
From S2P Require Import Config Types Node Rpc NodeFrame Apply Follower VoteLedger NodeVote Voting Instances.
#[local] Open Scope Z_scope.

(** A duration in milliseconds that does not fit an [int64] of nanoseconds overflows:
    [FromEnv] accepts a heartbeat of 9223372036855 ms and makes it negative. *)
Theorem heartbeat_overflow :
  ∃ cfg, FromEnv (λ k, if bool_decide (k = "RAFT_HEARTBEAT_MS") then "9223372036855" else "") = Ok cfg
    ∧ cfg_HeartbeatInterval cfg < 0.
Proof. eexists. split; [vm_compute; reflexivity|reflexivity]. Qed.

(** The follower [follower_b] has a third entry of term 1 that the leader does not
    have. *)
Definition second_entry : AppendEntriesRequest :=
  mkAppendEntriesRequest 2 "a" 1 1 [Some (mkLogEntry 2 1 (command_json "y" "2"))] 3.

(** [AppendEntries] bounds the commit index by the last index of its own log, not by
    the last entry the request covers: it commits and applies that third entry, which
    the request has not checked. *)
Theorem commits_unchecked_entry :
  let n' := (AppendEntries (Some second_entry) follower_b).2 in
  match_index second_entry = 2 ∧ commitIndex n' = 3
  ∧ kv (drv_file (store n')) !! "z" = Some ("9", 3).
Proof. vm_compute. by split. Qed.

(** A member that has applied three entries and keeps no snapshot. *)
Definition applied_tables : tables :=
  put_meta "last_applied" "3" (set_kv (λ _, <["x" := ("3", 3)]> {["y" := ("2", 2)]}) leader_tables).
Definition applied_c : Node :=
  set_currentTerm 2 (set_lastApplied 3 (set_commitIndex 3 (on_tables applied_tables (fresh_node "c")))).

Definition first_snapshot : InstallSnapshotRequest :=
  mkInstallSnapshotRequest 2 "a" 1 1 (MarshalMap {["x" := "1"]}).

(** [InstallSnapshot] compares the request with its own snapshot only: one that ends
    below the applied index replaces the table, which then lacks entries that the
    applied index in memory says are in it. *)
Theorem install_loses_applied_entries :
  let n' := (InstallSnapshot (Some first_snapshot) applied_c).2 in
  lastApplied n' = 3 ∧ kv_values (drv_file (store n')) = {["x" := "1"]}
  ∧ meta_uint "last_applied" (drv_file (store n')) = Some 1.
Proof. vm_compute. by split. Qed.

Definition other_snapshot : InstallSnapshotRequest :=
  mkInstallSnapshotRequest 3 "a" 2 3 (MarshalMap {["x" := "1"]}).

(** [InstallSnapshot] keeps the entries above the snapshot without asking whether the
    entry at its index has its term: a log that disagrees with the snapshot keeps its
    conflicting suffix. *)
Theorem install_keeps_conflicting_suffix :
  let n' := (InstallSnapshot (Some other_snapshot) follower_b).2 in
  spec_Term 2 follower_tables = Some (1, true)
  ∧ spec_Term 2 (drv_file (store n')) = Some (3, true)
  ∧ log_entries (drv_file (store n')) !! 3 = log_entries follower_tables !! 3
  ∧ spec_LastIndexAndTerm (drv_file (store n')) = Some (3, 1).
Proof. vm_compute. by split_and!. Qed.

(** The reply to [InstallSnapshot] is taken without asking whether the node still leads
    the term of the request, and lowers the match index. *)
Definition ahead_a : Node := set_matchIndex {["b" := 3]} leader_a.

Theorem snapshot_reply_lowers_match :
  let n' := (replicatePeer_snapshot_reply "b" (mkSnapshot 1 1 "") (Some (mkInstallSnapshotResponse 2)) ahead_a).2 in
  map_get (matchIndex ahead_a) "b" = 3 ∧ map_get (matchIndex n') "b" = 1.
Proof. vm_compute. by split. Qed.

(** A leader of term 2 that has followed the leader of term 3 since, and has its third
    entry; what it knows of [b] is from its own term. *)
Definition deposed_a : Node :=
  set_role RoleFollower (set_currentTerm 3
    (on_tables (set_log (<[3 := (3, command_json "w" "1")]>) leader_tables) ahead_a)).

(** The reply to a snapshot it sent as a leader makes it run the commit rule, which asks
    neither for its role: it commits and applies an entry that no one has told it is on a
    majority. *)
Theorem follower_commits_on_snapshot_reply :
  let n' := (replicatePeer_snapshot_reply "c" (mkSnapshot 1 1 "") (Some (mkInstallSnapshotResponse 2)) deposed_a).2 in
  role n' = RoleFollower ∧ commitIndex deposed_a = 2 ∧ commitIndex n' = 3
  ∧ kv (drv_file (store n')) !! "w" = Some ("1", 3).
Proof. vm_compute. by split_and!. Qed.

(** A leader just elected, whose log holds an entry all members have: it has learned
    nothing about commitment yet, and serves a [Read] with every member's
    acknowledgement from a table without the entry. *)
Definition new_leader : Node :=
  (becomeLeaderLocked (set_role RoleCandidate (set_currentTerm 3 (on_tables leader_tables (fresh_node "a"))))).2.

Theorem new_leader_reads_stale :
  role new_leader = RoleLeader ∧ spec_LastIndexAndTerm (drv_file (store new_leader)) = Some (3, 2)
  ∧ (Read_check 3 new_leader).1 = None
  ∧ (Read_get (Some (mkClientReadRequest "x")) new_leader).1
    = Ok (mkClientReadResponse false "a" "key not found" "").
Proof. vm_compute. by split_and!. Qed.

(** [stepDownLocked] only logs that the new term could not be saved: the follower goes on
    to accept and acknowledge entries in a term its disk does not have, and after a
    restart it would vote in an older one. *)
Definition failing_b : Node := set_store (FaultConn (Idle follower_tables) [true]) follower_b.

Theorem unsaved_term_acknowledged :
  let '(r, n') := AppendEntries (Some second_entry) failing_b in
  r = Ok (mkAppendEntriesResponse 2 true 2) ∧ currentTerm n' = 2
  ∧ fst <$> file_vote (drv_file (store n')) = Some 0.
Proof. vm_compute. by split. Qed.
