(* ===== verification/Lifecycle.v ===== *)
(** * Starting and stopping

    [Start] and [Stop] of [internal/raft/node.go] and [main] of [cmd/raftnode]: the
    libraries' calls in the order they are made, what becomes of their errors, and that
    what was opened is released. *)

From Stdlib Require Import Ascii String.
From stdpp Require Import strings gmap.
From S2P Require Import Prelude GoStd Wire Logging Metrics Sql Storage StoreSpec Config Types Node.
From S2P Require Import NodeFrame VoteLedger NodeVote Voting Instances ConfigSpec.
#[local] Open Scope Z_scope.

(** The calls made to the network and database libraries. *)
Inductive call :=
| CNewClient (target : string)
| CListen (addr : string)
| CServe
| CListenAndServe (addr : string)
| CRun
| CCloseStop
| CGracefulStop
| CHardStop
| CShutdown
| CCloseConn (peer : string)
| CCloseStore.

(** What they answer.  [graceful] tells whether [GracefulStop] returns before the
    context is done. *)
Record outside := Outside {
  dial : string → result unit;
  listen : string → result unit;
  graceful : bool;
  ctx_err : error;
  shutdown : option error;
  close_conn : string → option error;
  close_store : option error
}.

Section lifecycle.
Context `{D : !SqlDriver} `{R : !GoRuntime}.

(** The rest of the [Node] struct: the connections by peer, the servers, and whether
    [stopOnce] has run. *)
Record service := Service {
  sv_node : Node;
  sv_conns : gmap string string;
  sv_grpc : bool;
  sv_http : option string;
  sv_stopped : bool;
  sv_calls : list call
}.

Definition service_of (n : Node) : service := Service n ∅ false None false [].

Definition set_node (n : Node) (s : service) : service :=
  Service n (sv_conns s) (sv_grpc s) (sv_http s) (sv_stopped s) (sv_calls s).
Definition set_conns (c : gmap string string) (s : service) : service :=
  Service (sv_node s) c (sv_grpc s) (sv_http s) (sv_stopped s) (sv_calls s).
Definition set_servers (g : bool) (h : option string) (s : service) : service :=
  Service (sv_node s) (sv_conns s) g h (sv_stopped s) (sv_calls s).
Definition set_stopped (b : bool) (s : service) : service :=
  Service (sv_node s) (sv_conns s) (sv_grpc s) (sv_http s) b (sv_calls s).

Definition emit (c : call) : ST service unit :=
  modify (λ s, Service (sv_node s) (sv_conns s) (sv_grpc s) (sv_http s) (sv_stopped s) (sv_calls s ++ [c])).

(** ** Start *)

(** The first loop of [Start]: a connection and clients for each peer. *)
Fixpoint Start_dial (W : outside) (l : list Peer) : ST service (result unit) :=
  match l with
  | [] => mret (Ok tt)
  | p :: l' =>
      let target := DialTarget (Peer_Address p) in
      _ ← emit (CNewClient target);
      match dial W target with
      | Err e => mret (Err e)
      | Ok _ =>
          _ ← modify (λ s, set_conns (<[Peer_ID p := target]> (sv_conns s)) s);
          _ ← modify (λ s, set_node (set_clients ({[Peer_ID p]} ∪ clients (sv_node s)) (sv_node s)) s);
          Start_dial W l'
      end
  end.

Definition Start (W : outside) : ST service (result unit) :=
  n ← gets sv_node;
  try _ := Start_dial W (peers n) in
  _ ← emit (CListen (grpcAddr n));
  match listen W (grpcAddr n) with
  | Err e => mret (Err e)
  | Ok _ =>
      _ ← modify (λ s, set_servers true (sv_http s) s);
      _ ← emit CServe;
      _ ← (if bool_decide (httpAddr n = "") then mret tt
           else _ ← modify (λ s, set_servers (sv_grpc s) (Some (httpAddr n)) s);
                emit (CListenAndServe (httpAddr n)));
      _ ← emit CRun;
      mret (Ok tt)
  end.

(** The goroutine of the gRPC server, given what [Serve] returns. *)
Definition grpc_goroutine (served : option error) : ST Node unit :=
  n ← gets id;
  _ ← log "info" "grpc server started" {["addr" := FString (grpcAddr n)]};
  match served with
  | Some e => log "warn" "grpc server stopped" {["error" := FError e]}
  | None => mret tt
  end.

(** The goroutine of the HTTP server; [server_closed] is [http.ErrServerClosed]. *)
Definition http_goroutine (server_closed : error → bool) (served : option error) : ST Node unit :=
  n ← gets id;
  _ ← log "info" "http server started" {["addr" := FString (httpAddr n)]};
  match served with
  | Some e =>
      if server_closed e then mret tt else log "warn" "http server stopped" {["error" := FError e]}
  | None => mret tt
  end.

(** ** Stop *)

(** [if newErr != nil && err == nil { err = newErr }]. *)
Definition first_error (err new : option error) : option error :=
  match err with Some _ => err | None => new end.

Fixpoint Stop_conns (W : outside) (l : list (string * string)) (err : option error) :
    ST service (option error) :=
  match l with
  | [] => mret err
  | (peer, _) :: l' =>
      _ ← emit (CCloseConn peer);
      Stop_conns W l' (first_error err (close_conn W peer))
  end.

Definition Stop (W : outside) : ST service (option error) :=
  s ← gets id;
  if sv_stopped s then mret None
  else
    _ ← modify (set_stopped true);
    _ ← emit CCloseStop;
    err ← (if sv_grpc s then
             _ ← emit CGracefulStop;
             if graceful W then mret None else _ ← emit CHardStop; mret (Some (ctx_err W))
           else mret None);
    err ← match sv_http s with
          | Some _ => _ ← emit CShutdown; mret (first_error err (shutdown W))
          | None => mret err
          end;
    err ← Stop_conns W (map_range (sv_conns s)) err;
    _ ← emit CCloseStore;
    mret (first_error err (close_store W)).

(** ** [cmd/raftnode] *)

(** The exit status and what is written to standard error. *)
Record exit := Exit { status : Z; report : option (string * error) }.

Definition failed (what : string) (e : error) : exit := Exit 1 (Some (what, e)).

(** [life] is what the node goes through until a signal arrives. *)
Definition raftnode_main (getenv : string → string) (mkdir : result unit) (path : string)
    (file : tables) (env : Env) (W : outside) (life : Node → Node) : exit * option service :=
  match FromEnv getenv with
  | Err e => (failed "config error" e, None)
  | Ok cfg =>
      match (New (OptionsFromConfig cfg) mkdir path file env).1 with
      | Err e => (failed "node init error" e, None)
      | Ok n =>
          match Start W (service_of n) with
          | (Err e, s) => (failed "node start error" e, Some s)
          | (Ok _, s) =>
              match Stop W (set_node (life (sv_node s)) s) with
              | (Some e, s') => (failed "node stop error" e, Some s')
              | (None, s') => (Exit 0 None, Some s')
              end
          end
      end
  end.

(** ** What they do *)

Implicit Types (W : outside) (s : service) (n : Node).

Definition dialled (p : Peer) : call := CNewClient (DialTarget (Peer_Address p)).

Definition reachable_peer W (p : Peer) : bool := is_ok (dial W (DialTarget (Peer_Address p))).

Definition with_calls s (l : list call) : service :=
  Service (sv_node s) (sv_conns s) (sv_grpc s) (sv_http s) (sv_stopped s) (sv_calls s ++ l).

(** The connections by the peers in their order; a repeated name would replace one. *)
Definition dial_conns (l : list Peer) (c : gmap string string) : gmap string string :=
  foldl (λ c p, <[Peer_ID p := DialTarget (Peer_Address p)]> c) c l.

(** The first peer that cannot be dialled ends the loop. *)
Fixpoint dial_error W (l : list Peer) : option error :=
  match l with
  | [] => None
  | p :: l' => match dial W (DialTarget (Peer_Address p)) with Err e => Some e | Ok _ => dial_error W l' end
  end.

Fixpoint dial_calls W (l : list Peer) : list call :=
  match l with
  | [] => []
  | p :: l' => dialled p :: (if reachable_peer W p then dial_calls W l' else [])
  end.

Definition done_or (e : option error) : result unit := match e with Some e => Err e | None => Ok tt end.

Lemma dial_error_none W l : dial_error W l = None ↔ Forall (λ p, reachable_peer W p = true) l.
Proof.
  unfold reachable_peer. induction l as [|p l IH]; cbn; [by rewrite Forall_nil|].
  rewrite Forall_cons, <- IH. destruct (dial W _); cbn; naive_solver.
Qed.

Lemma dial_calls_all W l : dial_error W l = None → dial_calls W l = dialled <$> l.
Proof.
  induction l as [|p l IH]; cbn; [done|]. unfold reachable_peer.
  destruct (dial W _); cbn; [|done]. intros H. by rewrite IH.
Qed.

Lemma Start_dial_spec W l s r s' :
  Start_dial W l s = (r, s') →
  r = done_or (dial_error W l) ∧ sv_calls s' = sv_calls s ++ dial_calls W l
  ∧ sv_grpc s' = sv_grpc s ∧ sv_http s' = sv_http s ∧ sv_stopped s' = sv_stopped s
  ∧ (dial_error W l = None → sv_conns s' = dial_conns l (sv_conns s)).
Proof.
  revert s. induction l as [|p l IH]; intros s E.
  { injection E as <- <-. split_and!; try done. by rewrite app_nil_r. }
  cbn in E. cbn [dial_error dial_calls]. unfold reachable_peer.
  destruct (dial W (DialTarget (Peer_Address p))) as [[]|e].
  - apply IH in E as (H1 & H2 & H3 & H4 & H5 & H6). cbn in H2, H3, H4, H5, H6. split_and!; try done.
    rewrite H2. by rewrite <- app_assoc.
  - injection E as <- <-. by split_and!.
Qed.

Lemma dial_conns_list l :
  NoDup (Peer_ID <$> l) → map_to_list (dial_conns l ∅) ≡ₚ (λ p, (Peer_ID p, DialTarget (Peer_Address p))) <$> l.
Proof.
  assert (∀ c, NoDup (Peer_ID <$> l) → (∀ p, p ∈ l → c !! Peer_ID p = None) →
    map_to_list (dial_conns l c) ≡ₚ ((λ p, (Peer_ID p, DialTarget (Peer_Address p))) <$> l) ++ map_to_list c)
    as H.
  { induction l as [|p l IH]; intros c Hn Hc; [done|]. cbn in Hn. apply NoDup_cons in Hn as [Hp Hn].
    change (dial_conns (p :: l) c) with (dial_conns l (<[Peer_ID p := DialTarget (Peer_Address p)]> c)).
    rewrite IH; [|done|].
    - rewrite map_to_list_insert by (apply Hc; by left). symmetry. apply Permutation_middle.
    - intros q Hq. rewrite lookup_insert_ne; [apply Hc; by right|].
      intros E. apply Hp. rewrite E. by apply list_elem_of_fmap_2. }
  intros Hn. rewrite H by (done || intros; apply lookup_empty). by rewrite map_to_list_empty, app_nil_r.
Qed.

(** The calls of a [Start] that succeeds. *)
Definition start_calls n : list call :=
  (dialled <$> peers n) ++ CListen (grpcAddr n) :: CServe ::
  (if bool_decide (httpAddr n = "") then [] else [CListenAndServe (httpAddr n)]) ++ [CRun].

(** The error of [Start]: of the first peer that cannot be dialled, or of the port. *)
Definition start_error W n : option error :=
  match dial_error W (peers n) with
  | Some e => Some e
  | None => match listen W (grpcAddr n) with Err e => Some e | Ok _ => None end
  end.

(** The calls of a [Start] that fails. *)
Definition failed_calls W n : list call :=
  dial_calls W (peers n) ++ match dial_error W (peers n) with Some _ => [] | None => [CListen (grpcAddr n)] end.

Lemma Start_spec W n r s :
  Start W (service_of n) = (r, s) →
  r = done_or (start_error W n)
  ∧ match start_error W n with
    | Some _ => sv_calls s = failed_calls W n ∧ sv_stopped s = false
    | None => sv_conns s = dial_conns (peers n) ∅ ∧ sv_grpc s = true ∧ sv_stopped s = false
        ∧ sv_http s = (if bool_decide (httpAddr n = "") then None else Some (httpAddr n))
        ∧ sv_calls s = start_calls n
    end.
Proof.
  unfold Start, try_bind, mbind, ST_bind, gets, mret, ST_ret, start_error, failed_calls. cbn.
  destruct (Start_dial W (peers n) (service_of n)) as [r0 s0] eqn:E.
  apply Start_dial_spec in E as (-> & H2 & H3 & H4 & H5 & H6). cbn in H2, H3, H4, H5, H6.
  destruct (dial_error W (peers n)) as [e|] eqn:Ed; cbn.
  { intros [= <- <-]. by rewrite app_nil_r. }
  rewrite (dial_calls_all _ _ Ed) in *. specialize (H6 eq_refl).
  destruct (listen W (grpcAddr n)) as [[]|e]; cbn.
  2: { intros [= <- <-]. cbn. by rewrite H2, H5. }
  unfold start_calls. case_bool_decide; cbn; intros [= <- <-]; cbn; rewrite H2, H5, H6, ?H4;
    (split; [done|]); split_and!; try done; by rewrite <- !app_assoc.
Qed.

Definition stop_calls W s : list call :=
  CCloseStop :: (if sv_grpc s then CGracefulStop :: (if graceful W then [] else [CHardStop]) else [])
  ++ match sv_http s with Some _ => [CShutdown] | None => [] end
  ++ (CCloseConn <$> (map_range (sv_conns s)).*1) ++ [CCloseStore].

(** The error a call ends with. *)
Definition call_error W (c : call) : option error :=
  match c with
  | CHardStop => Some (ctx_err W)
  | CShutdown => shutdown W
  | CCloseConn p => close_conn W p
  | CCloseStore => close_store W
  | _ => None
  end.

Definition first_failure W (l : list call) : option error := foldl (λ e c, first_error e (call_error W c)) None l.

Lemma Stop_conns_spec W l err s :
  Stop_conns W l err s =
    (foldl (λ e c, first_error e (call_error W c)) err (CCloseConn <$> l.*1), with_calls s (CCloseConn <$> l.*1)).
Proof.
  revert err s. induction l as [|[p c] l IH]; intros err s; cbn [Stop_conns].
  - unfold with_calls. cbn. rewrite app_nil_r. by destruct s.
  - rewrite bind_unfold, IH. unfold with_calls. cbn. by rewrite <- app_assoc.
Qed.

(** A first [Stop] makes all its calls whatever fails, and returns the first failure. *)
Lemma Stop_spec W s :
  sv_stopped s = false →
  Stop W s = (first_failure W (stop_calls W s), with_calls (set_stopped true s) (stop_calls W s)).
Proof.
  destruct s as [n c g h b l]. cbn. intros ->.
  unfold Stop, first_failure, stop_calls, mbind, ST_bind, gets, mret, ST_ret. cbn.
  destruct g, (graceful W), h; cbn; rewrite Stop_conns_spec; cbn;
    unfold with_calls, set_stopped; cbn; rewrite !foldl_app, <- ?app_assoc; done.
Qed.

Lemma Stop_again W s : sv_stopped s = true → Stop W s = (None, s).
Proof. intros Hs. unfold Stop, mbind, ST_bind, gets. cbn. by rewrite Hs. Qed.

Lemma first_failure_none W l : first_failure W l = None ↔ Forall (λ c, call_error W c = None) l.
Proof.
  unfold first_failure. assert (∀ e, foldl (λ e c, first_error e (call_error W c)) e l = None ↔
    e = None ∧ Forall (λ c, call_error W c = None) l) as H; [|rewrite H; tauto].
  induction l as [|c l IH]; intros e; cbn.
  - rewrite Forall_nil. tauto.
  - rewrite IH, Forall_cons. unfold first_error. destruct e; naive_solver.
Qed.
End lifecycle.

(** ** The life of a process *)

Section main.
Context `{D : !SqlDriver} `{L : !SqlLaws D} `{R : !GoRuntime}.
Implicit Types (W : outside) (n : Node).

(** Everything that [main] relies on goes well. *)
Definition all_well W n : Prop :=
  Forall (λ p, reachable_peer W p = true) (peers n) ∧ is_ok (listen W (grpcAddr n)) = true
  ∧ graceful W = true ∧ (httpAddr n ≠ "" → shutdown W = None)
  ∧ Forall (λ p, close_conn W (Peer_ID p) = None) (peers n) ∧ close_store W = None.

Lemma all_well_spec W n :
  all_well W n ↔ start_error W n = None ∧ graceful W = true ∧ (httpAddr n ≠ "" → shutdown W = None)
    ∧ Forall (λ p, close_conn W (Peer_ID p) = None) (peers n) ∧ close_store W = None.
Proof.
  unfold all_well, start_error. rewrite <- dial_error_none.
  destruct (dial_error W (peers n)); [naive_solver|]. destruct (listen W _); naive_solver.
Qed.

(** The calls of a [Stop] after a [Start] that succeeded, with the connections closed in
    some order. *)
Definition shut_calls W n (order : list string) : list call :=
  CCloseStop :: CGracefulStop :: (if graceful W then [] else [CHardStop])
  ++ (if bool_decide (httpAddr n = "") then [] else [CShutdown]) ++ (CCloseConn <$> order) ++ [CCloseStore].

Lemma started_peers getenv mkdir path file env cfg n :
  FromEnv getenv = Ok cfg → (New (OptionsFromConfig cfg) mkdir path file env).1 = Ok n →
  NoDup (Peer_ID <$> peers n).
Proof.
  intros Hc Hn. apply FromEnv_peers, parsePeers_inv in Hc as [Hnd _].
  pose proof (New_ledger (OptionsFromConfig cfg) mkdir path file env) as H.
  destruct (New (OptionsFromConfig cfg) mkdir path file env) as [r file']. cbn in Hn.
  destruct H as [_ H]. destruct (H n Hn) as (_ & -> & _). cbn.
  by rewrite <- list_fmap_compose.
Qed.

Lemma stopped_calls W n s :
  NoDup (Peer_ID <$> peers n) →
  sv_conns s = dial_conns (peers n) ∅ → sv_grpc s = true →
  sv_http s = (if bool_decide (httpAddr n = "") then None else Some (httpAddr n)) →
  ∃ order, order ≡ₚ Peer_ID <$> peers n ∧ stop_calls W s = shut_calls W n order.
Proof.
  intros Hnd Hc Hg Hh. exists (map_range (sv_conns s)).*1. split.
  - rewrite Hc, map_range_perm, (dial_conns_list _ Hnd), <- list_fmap_compose. reflexivity.
  - unfold stop_calls, shut_calls. rewrite Hg, Hh. by case_bool_decide; destruct (graceful W).
Qed.

Lemma shut_calls_well W n order :
  order ≡ₚ Peer_ID <$> peers n →
  Forall (λ c, call_error W c = None) (shut_calls W n order) ↔
  graceful W = true ∧ (httpAddr n ≠ "" → shutdown W = None)
  ∧ Forall (λ p, close_conn W (Peer_ID p) = None) (peers n) ∧ close_store W = None.
Proof.
  intros Ho. unfold shut_calls.
  assert (Forall (λ c, call_error W c = None) (CCloseConn <$> order) ↔
    Forall (λ p, close_conn W (Peer_ID p) = None) (peers n)) as Hconn.
  { by rewrite Ho, <- list_fmap_compose, Forall_fmap. }
  rewrite !Forall_cons, !Forall_app, Hconn, Forall_singleton. cbn.
  destruct (graceful W); case_bool_decide; rewrite ?Forall_cons, ?Forall_nil; cbn; naive_solver.
Qed.

(** C39. [main] of [raftnode], whatever fails.  It exits with 1 and reports the error under
    the name of the phase: that of the configuration, of making the node, of the first peer
    that could not be dialled or else of the port, or the first one of closing down; it
    exits with 0 and reports nothing exactly when there was none of them, that is, when
    [all_well].  A failed start closes nothing: its calls are the dials up to the one that
    failed, or all and the attempt to listen.  Once started, after the signal the servers
    are shut down, the connection of every peer is closed, once, and the database last, each
    whatever failed before it. *)
Theorem raftnode_exits getenv mkdir path file env W life x so :
  raftnode_main getenv mkdir path file env W life = (x, so) →
  match FromEnv getenv with
  | Err e => x = Exit 1 (Some ("config error", e)) ∧ so = None
  | Ok cfg =>
      match (New (OptionsFromConfig cfg) mkdir path file env).1 with
      | Err e => x = Exit 1 (Some ("node init error", e)) ∧ so = None
      | Ok n =>
          (status x = 0 ↔ all_well W n)
          ∧ ∃ s, so = Some s ∧
            match start_error W n with
            | Some e => x = Exit 1 (Some ("node start error", e)) ∧ sv_calls s = failed_calls W n
            | None => ∃ order, order ≡ₚ Peer_ID <$> peers n ∧ sv_stopped s = true
                ∧ sv_calls s = start_calls n ++ shut_calls W n order
                ∧ x = match first_failure W (shut_calls W n order) with
                      | Some e => Exit 1 (Some ("node stop error", e))
                      | None => Exit 0 None
                      end
            end
      end
  end.
Proof.
  unfold raftnode_main. destruct (FromEnv getenv) as [cfg|e] eqn:Hc; [|by intros [= <- <-]].
  destruct (New (OptionsFromConfig cfg) mkdir path file env).1 as [n|e] eqn:Hn; [|by intros [= <- <-]].
  pose proof (started_peers _ _ _ _ _ _ _ Hc Hn) as Hnd.
  destruct (Start W (service_of n)) as [r s] eqn:Es. apply Start_spec in Es as [-> Hok].
  pose proof (all_well_spec W n) as Hwell.
  destruct (start_error W n) as [e|]; cbn [done_or].
  { intros [= <- <-]. split; [split; [done|by intros [? _]%Hwell]|]. destruct Hok. exists s. by split_and!. }
  destruct Hok as (H1 & H2 & H3 & H4 & H5). set (s1 := set_node _ s).
  destruct (stopped_calls W n s1 Hnd H1 H2 H4) as (order & Ho & Ecalls).
  rewrite (Stop_spec W s1) by done. rewrite Ecalls.
  assert (all_well W n ↔ first_failure W (shut_calls W n order) = None) as Hff.
  { rewrite Hwell, first_failure_none, (shut_calls_well W n order Ho). tauto. }
  assert (sv_calls (with_calls (set_stopped true s1) (shut_calls W n order))
    = start_calls n ++ shut_calls W n order) as Efin by (cbn; by rewrite H5).
  rewrite Hff. destruct (first_failure W (shut_calls W n order)) as [e|] eqn:Ef; intros [= <- <-];
    (split; [done|]); (eexists; split; [reflexivity|]); exists order; rewrite Ef; by split_and!.
Qed.
End main.

(** ** A process that starts and stops *)

Section witnesses.

Definition three_env (key : string) : string :=
  if bool_decide (key = "RAFT_PEERS") then "b=host-b:9001,c=host-c:9001" else "".

Definition calm_outside : outside :=
  Outside (λ _, Ok tt) (λ _, Ok tt) true (ErrText "context deadline exceeded") None (λ _, None) None.

Abbreviation three_main :=
  (raftnode_main three_env (Ok tt) "data/node1/state.db" empty_tables steady_env calm_outside id).

(** The same with a peer that cannot be dialled: nothing is started, nothing closed. *)
Definition no_c : outside :=
  Outside (λ t, if bool_decide (t = DialTarget "host-c:9001") then Err (ErrText "no such host") else Ok tt)
    (λ _, Ok tt) true (ErrText "context deadline exceeded") None (λ _, None) None.

Example three_start_fails :
  let '(x, so) := raftnode_main three_env (Ok tt) "data/node1/state.db" empty_tables steady_env no_c id in
  x = Exit 1 (Some ("node start error", ErrText "no such host"))
  ∧ sv_calls <$> so = Some [CNewClient (DialTarget "host-b:9001"); CNewClient (DialTarget "host-c:9001")].
Proof. vm_compute. by split. Qed.

Lemma three_exits : three_main = (Exit 0 None, three_main.2).
Proof.
  assert (three_main.1 = Exit 0 None) as H by (vm_compute; reflexivity). exact (pair_of_fst _ _ H).
Qed.

Lemma raftnode_exits_witness :
  match FromEnv three_env with
  | Err e => Exit 0 None = Exit 1 (Some ("config error", e)) ∧ three_main.2 = None
  | Ok cfg =>
      match (New (OptionsFromConfig cfg) (Ok tt) "data/node1/state.db" empty_tables steady_env).1 with
      | Err e => Exit 0 None = Exit 1 (Some ("node init error", e)) ∧ three_main.2 = None
      | Ok n =>
          (0 = 0 ↔ all_well calm_outside n)
          ∧ ∃ s, three_main.2 = Some s ∧
            match start_error calm_outside n with
            | Some e => Exit 0 None = Exit 1 (Some ("node start error", e)) ∧ sv_calls s = failed_calls calm_outside n
            | None => ∃ order, order ≡ₚ Peer_ID <$> peers n ∧ sv_stopped s = true
                ∧ sv_calls s = start_calls n ++ shut_calls calm_outside n order
                ∧ Exit 0 None = match first_failure calm_outside (shut_calls calm_outside n order) with
                      | Some e => Exit 1 (Some ("node stop error", e))
                      | None => Exit 0 None
                      end
            end
      end
  end.
Proof.
  exact (raftnode_exits three_env (Ok tt) "data/node1/state.db" empty_tables steady_env calm_outside id _ _
    three_exits).
Defined.
End witnesses.
