(* ===== verification/LogFrame.v ===== *)
(** * What leaves the log alone

    The operations of an election, the client sections that do not write, the
    status query and the preparation of a request write no row of the log, apply
    nothing and do not move the commit index: [keeps_log].  Most of them leave the
    bookkeeping of replication alone as well; becoming the leader resets it. *)

From Stdlib Require Import Ascii String.
From stdpp Require Import strings relations.
From S2P Require Import Prelude GoStd Json Wire Logging Metrics Sql Storage StoreSpec LogSpec LogStore.
From S2P Require Import Config Types Node Rpc NodeFrame VoteLedger NodeVote Voting.
From S2P Require Import Apply Follower Leader Clients.
#[local] Open Scope Z_scope.

(** Tables that differ at most in the term and the vote. *)
Record same_log (t t' : tables) : Prop := {
  sl_log : log_entries t' = log_entries t;
  sl_kv : kv t' = kv t;
  sl_snapshot : snapshot t' = snapshot t;
  sl_meta key : key ∈ ["snapshot_index"; "snapshot_term"; "last_applied"] → metadata t' !! key = metadata t !! key
}.

#[global] Instance same_log_preorder : PreOrder same_log.
Proof.
  split; [by split|]. intros x y z [H1 H2 H3 H4] [G1 G2 G3 G4]. split; try congruence.
  intros key Hk. by rewrite G4, H4.
Qed.

Lemma same_log_SaveTermVote term v t : same_log t (spec_SaveTermVote term v t).
Proof.
  split; [done..|]. intros key Hk. rewrite !elem_of_cons in Hk.
  destruct Hk as [->|[->|[->|[]%elem_of_nil]]]; cbn; by rewrite !lookup_insert_ne.
Qed.

Lemma same_log_step_down T cur t : same_log t (step_down_tables T cur t).
Proof. unfold step_down_tables. destruct (cur <? T); [apply same_log_SaveTermVote|reflexivity]. Qed.

Lemma same_log_uint t t' key :
  same_log t t' → key ∈ ["snapshot_index"; "snapshot_term"; "last_applied"] → meta_uint key t' = meta_uint key t.
Proof. intros H Hk. unfold meta_uint. by rewrite (sl_meta _ _ H key Hk). Qed.

Lemma same_log_applied t t' : same_log t t' → meta_uint "last_applied" t' = meta_uint "last_applied" t.
Proof. intros H. apply (same_log_uint _ _ _ H). set_solver. Qed.

Lemma same_log_snapshot t t' : same_log t t' → spec_SnapshotIndexTerm t' = spec_SnapshotIndexTerm t.
Proof. intros H. unfold spec_SnapshotIndexTerm. by rewrite !(same_log_uint _ _ _ H) by set_solver. Qed.

Lemma same_log_shape t t' base bterm last :
  same_log t t' → shape t base bterm last → shape t' base bterm last.
Proof. intros H. apply shape_frame; [apply H|apply H; set_solver..]. Qed.

Lemma same_log_stored t t' : same_log t t' → spec_LoadSnapshot t' = spec_LoadSnapshot t.
Proof. intros H. unfold spec_LoadSnapshot. by rewrite (sl_snapshot _ _ H). Qed.

Lemma same_log_values t t' : same_log t t' → kv_values t' = kv_values t.
Proof. intros H. unfold kv_values. by rewrite (sl_kv _ _ H). Qed.

Create HintDb keeps discriminated.

Section frame.
Context `{D : !SqlDriver} `{L : !SqlLaws D} `{R : !GoRuntime}.
Implicit Types (n : Node).

Definition keeps_log n n' : Prop :=
  commitIndex n' = commitIndex n ∧ lastApplied n' = lastApplied n
  ∧ ∀ t, view (store n) = Idle t → ∃ t', view (store n') = Idle t' ∧ same_log t t'.

#[global] Instance keeps_log_preorder : PreOrder keeps_log.
Proof.
  split.
  - intros n. split_and!; [done..|]. intros t Hv. by exists t.
  - intros n1 n2 n3 (C1 & A1 & H1) (C2 & A2 & H2). split_and!; [congruence..|].
    intros t Hv. destruct (H1 t Hv) as (t2 & Hv2 & S2). destruct (H2 t2 Hv2) as (t3 & Hv3 & S3).
    exists t3. split; [done|by etrans].
Qed.

Lemma keeps_quiet {A} (m : ST Node A) : preserves quiet m → preserves keeps_log m.
Proof.
  intros H n. destruct (H n) as [E Hs]. split_and!; [by rewrite E|by rewrite E|].
  intros t Hv. exists t. split; [|done]. by apply Hs.
Qed.

Lemma keeps_modify f :
  (∀ n, store (f n) = store n ∧ commitIndex (f n) = commitIndex n ∧ lastApplied (f n) = lastApplied n) →
  preserves keeps_log (modify f).
Proof.
  intros H. apply preserves_modify. intros n. destruct (H n) as (Es & Ec & Ea).
  split_and!; [done..|]. rewrite Es. intros t Hv. by exists t.
Qed.

Lemma keeps_SaveTermVote term v : preserves keeps_log (with_store (SaveTermVote term v)).
Proof.
  intros n. assert (∀ t, view (store n) = Idle t →
    ∃ t', view (store (with_store (SaveTermVote term v) n).2) = Idle t' ∧ same_log t t') as H.
  { intros t Hv. pose proof (refines_SaveTermVote term v (store n) t Hv) as [Hr _].
    unfold with_store. destruct (SaveTermVote term v (store n)) as [[[]|e] c]; cbn in *.
    - destruct Hr as (t' & [= <-] & Hv'). exists (spec_SaveTermVote term v t).
      split; [done|apply same_log_SaveTermVote].
    - exists t. by split. }
  split_and!; [unfold with_store; by destruct (SaveTermVote term v (store n))..|done].
Qed.

Lemma keeps_go tk : preserves keeps_log (go tk).
Proof. apply keeps_modify. by intros []. Qed.

Lemma progress_go tk : preserves same_progress (go tk).
Proof. apply progress_modify. by intros []. Qed.
End frame.

#[export] Hint Resolve keeps_SaveTermVote keeps_go : keeps.
#[export] Hint Resolve progress_go : progress.
#[export] Hint Extern 5 (preserves keeps_log (modify _)) =>
  apply keeps_modify; intros ?; by split_and! : keeps.
#[export] Hint Extern 9 (preserves keeps_log _) =>
  apply keeps_quiet; solve [eauto with quiet] : keeps.
#[export] Hint Extern 5 (preserves same_progress (modify _)) =>
  apply progress_modify; intros ?; by repeat split : progress.
#[export] Hint Extern 9 (preserves same_progress _) =>
  apply quiet_progress; solve [eauto with quiet] : progress.

(** Discharge [preserves keeps_log] and [preserves same_progress] of a computation. *)
Ltac solve_keeps := preserve ltac:(first [solve [eauto with keeps] | idtac]).
Ltac solve_progress := preserve ltac:(first [solve [eauto with progress] | idtac]).

Section operations.
Context `{D : !SqlDriver} `{L : !SqlLaws D} `{R : !GoRuntime}.
Implicit Types (n : Node).

Lemma keeps_stepDown term leader : preserves keeps_log (stepDownLocked term leader).
Proof. unfold stepDownLocked. solve_keeps. Qed.
#[local] Hint Resolve keeps_stepDown : keeps.

Lemma keeps_RequestVote req : preserves keeps_log (RequestVote req).
Proof. unfold RequestVote, vote_reply, rpc_error. solve_keeps. Qed.

Lemma progress_RequestVote req : preserves same_progress (RequestVote req).
Proof. unfold RequestVote, vote_reply, rpc_error. solve_progress. Qed.

Lemma keeps_startElection : preserves keeps_log startElection_begin.
Proof. unfold startElection_begin. solve_keeps. Qed.

Lemma progress_startElection : preserves same_progress startElection_begin.
Proof. unfold startElection_begin. solve_progress. Qed.

Lemma keeps_run_tick h : preserves keeps_log (run_tick h).
Proof. unfold run_tick. solve_keeps. Qed.

Lemma progress_run_tick h : preserves same_progress (run_tick h).
Proof. unfold run_tick. solve_progress. Qed.

Lemma keeps_Write_round k i t d : preserves keeps_log (Write_round k i t d).
Proof. unfold Write_round. solve_keeps. Qed.

Lemma progress_Write_round k i t d : preserves same_progress (Write_round k i t d).
Proof. unfold Write_round. solve_progress. Qed.

Lemma keeps_Read_begin req : preserves keeps_log (Read_begin req).
Proof. unfold Read_begin. solve_keeps. Qed.

Lemma progress_Read_begin req : preserves same_progress (Read_begin req).
Proof. unfold Read_begin. solve_progress. Qed.

Lemma keeps_Read_check k : preserves keeps_log (Read_check k).
Proof. unfold Read_check. solve_keeps. Qed.

Lemma progress_Read_check k : preserves same_progress (Read_check k).
Proof. unfold Read_check. solve_progress. Qed.

Lemma keeps_Read_get req : preserves keeps_log (Read_get req).
Proof. unfold Read_get. solve_keeps. Qed.

Lemma progress_Read_get req : preserves same_progress (Read_get req).
Proof. unfold Read_get. solve_progress. Qed.

Lemma keeps_Status : preserves keeps_log Status.
Proof. unfold Status. solve_keeps. Qed.

Lemma progress_Status : preserves same_progress Status.
Proof. unfold Status. solve_progress. Qed.

Lemma progress_follow_leader term leader : preserves same_progress (follow_leader term leader).
Proof. unfold follow_leader. solve_progress. Qed.
#[local] Hint Resolve progress_follow_leader : progress.

Lemma progress_reconcile es : preserves same_progress (reconcile es).
Proof. induction es as [|e es IH]; cbn [reconcile]; solve_progress. Qed.
#[local] Hint Resolve progress_reconcile : progress.

Lemma progress_applyCommittedLocked : preserves same_progress applyCommittedLocked.
Proof. apply progress_applyCommitted. Qed.
#[local] Hint Resolve progress_applyCommittedLocked : progress.

Lemma progress_accept_entries req i : preserves same_progress (accept_entries req i).
Proof. unfold accept_entries, append_all, append_reply, rpc_error. solve_progress. Qed.
#[local] Hint Resolve progress_accept_entries : progress.

Lemma progress_AppendEntries req : preserves same_progress (AppendEntries req).
Proof. unfold AppendEntries, append_reply, rpc_error, lastIndex_or_zero. solve_progress. Qed.

Lemma progress_InstallSnapshot req : preserves same_progress (InstallSnapshot req).
Proof. unfold InstallSnapshot, snapshot_reply, rpc_error. solve_progress. Qed.

(** ** The words of [nextIndex] *)

Definition next_words n n' : Prop :=
  (∀ p, is_u64 (map_get (nextIndex n) p)) → ∀ p, is_u64 (map_get (nextIndex n') p).

#[global] Instance next_words_preorder : PreOrder next_words.
Proof. split; [intros n H; exact H|]. unfold next_words. intros x y z. tauto. Qed.

Lemma next_words_progress {A} (m : ST Node A) : preserves same_progress m → preserves next_words m.
Proof. intros H n. destruct (H n) as (_ & E & _). intros Hn. by rewrite E. Qed.

Lemma next_words_insert peer z n n' :
  is_u64 z → nextIndex n' = <[peer := z]> (nextIndex n) → next_words n n'.
Proof.
  intros Hz E Hn p. rewrite E. destruct (decide (peer = p)) as [->|Hne].
  - by rewrite map_get_insert_eq.
  - by rewrite map_get_insert_ne.
Qed.

Lemma next_words_modify f peer (g : Node → Z) :
  (∀ n, is_u64 (g n)) → (∀ n, nextIndex (f n) = <[peer := g n]> (nextIndex n)) →
  preserves next_words (modify f).
Proof. intros Hg Hf. apply preserves_modify. intros n. by apply (next_words_insert peer (g n)). Qed.

Lemma next_words_same f : (∀ n, nextIndex (f n) = nextIndex n) → preserves next_words (modify f).
Proof. intros H. apply preserves_modify. intros n Hn. by rewrite H. Qed.
End operations.

#[export] Hint Resolve keeps_stepDown : keeps.
#[export] Hint Resolve progress_applyCommittedLocked : progress.

(** Discharge [preserves next_words]: an index written is a word, anything else does
    not write one. *)
Ltac solve_next := preserve ltac:(first
  [ apply next_words_progress; solve [eauto with progress]
  | solve [eapply next_words_modify; [|reflexivity]; intros ?; first [apply uint64_range | done]]
  | solve [apply next_words_same; reflexivity]
  | idtac ]).

Section bookkeeping.
Context `{D : !SqlDriver} `{L : !SqlLaws D} `{R : !GoRuntime}.
Implicit Types (n : Node).

Lemma is_u64_max1 a b : is_u64 (maxUint64 1 (a -64 b)).
Proof. unfold maxUint64. destruct (_ <? _); [done|apply uint64_range]. Qed.

Lemma preserves_peers (P : relation Node) `{!PreOrder P} (f : Peer → ST Node unit) ps :
  (∀ p, preserves P (f p)) → preserves P (for_peers f ps).
Proof. intros H. induction ps as [|p ps IH]; cbn [for_peers]; preserve ltac:(auto). Qed.

Lemma next_words_becomeLeader : preserves next_words becomeLeaderLocked.
Proof.
  unfold becomeLeaderLocked. solve_next.
  apply (preserves_peers _). intros p. unfold init_peer_progress. solve_next.
Qed.

Lemma next_words_handleVote e resp ty : preserves next_words (handleVote e resp ty).
Proof. unfold handleVote. solve_next. all: apply next_words_becomeLeader. Qed.

Lemma next_words_single e : preserves next_words (startElection_single e).
Proof. unfold startElection_single. solve_next. all: apply next_words_becomeLeader. Qed.

Lemma next_words_prepare peer : preserves next_words (replicatePeer_prepare peer).
Proof.
  unfold replicatePeer_prepare, peer_error. solve_next.
  all: eapply next_words_modify; [|reflexivity]; intros; first [done|apply is_u64_max1].
Qed.

Lemma keeps_prepare peer : preserves keeps_log (replicatePeer_prepare peer).
Proof. unfold replicatePeer_prepare, peer_error. solve_keeps. Qed.

Lemma next_words_append_reply peer t la resp :
  preserves next_words (replicatePeer_append_reply peer t la resp).
Proof. unfold replicatePeer_append_reply. solve_next. Qed.

Lemma next_words_snapshot_reply peer snap resp :
  preserves next_words (replicatePeer_snapshot_reply peer snap resp).
Proof. unfold replicatePeer_snapshot_reply. solve_next. Qed.

Lemma next_words_Write req : preserves next_words (Write_begin req).
Proof. unfold Write_begin. solve_next. Qed.

(** ** Becoming the leader *)

Lemma keeps_becomeLeader : preserves keeps_log becomeLeaderLocked.
Proof.
  unfold becomeLeaderLocked. solve_keeps. apply (preserves_peers _). intros p.
  unfold init_peer_progress. solve_keeps.
Qed.

Lemma keeps_handleVote e resp ty : preserves keeps_log (handleVote e resp ty).
Proof. unfold handleVote. solve_keeps. all: apply keeps_becomeLeader. Qed.

Lemma keeps_single e : preserves keeps_log (startElection_single e).
Proof. unfold startElection_single. solve_keeps. all: apply keeps_becomeLeader. Qed.

(** No peer is known to hold anything. *)
Definition unmatched n : Prop :=
  ∀ p, p ∈ Peer_ID <$> peers n → p ≠ node_id n → map_get (matchIndex n) p = 0.

Lemma wp_for_peers lastIndex ps n :
  wp (for_peers (init_peer_progress lastIndex) ps) (λ _ n',
    peers n' = peers n ∧ node_id n' = node_id n ∧ role n' = role n
    ∧ ∀ p, p ∈ Peer_ID <$> ps ∨ map_get (matchIndex n) p = 0 → map_get (matchIndex n') p = 0) n.
Proof.
  revert n. induction ps as [|q ps IH]; intros n; cbn [for_peers]; wp_pure.
  { split_and!; [done..|]. intros p [Hp%elem_of_nil|?]; done. }
  unfold init_peer_progress, on_metrics. wp_pure. eapply wp_mono; [apply IH|].
  intros _ n' (E1 & E2 & E3 & H). split_and!; [done..|]. intros p Hp. apply H. cbn.
  destruct (decide (Peer_ID q = p)) as [<-|Hne].
  - right. apply map_get_insert_eq.
  - rewrite map_get_insert_ne by done. rewrite fmap_cons in Hp. destruct Hp as [Hp|?]; [|by right].
    apply elem_of_cons in Hp as [->|?]; [done|by left].
Qed.

Lemma becomeLeader_progress n t base bterm last :
  view (store n) = Idle t → shape t base bterm last →
  wp becomeLeaderLocked (λ _ n',
    (same_progress n n' ∧ role n' = role n) ∨ (role n' = RoleLeader ∧ unmatched n')) n.
Proof.
  intros Hv Hs. unfold becomeLeaderLocked. wp_pure.
  eapply wp_reads; [apply reads_LastIndexAndTerm|apply wf_LastIndexAndTerm|exact Hv| |].
  2: { intros e n1 _ Hq1. apply wp_quiet; [apply quiet_logError|]. intros _ n2 Hq2. left.
       assert (quiet n n2) as [E _] by (by etrans). rewrite E. by repeat split. }
  intros [li lt] n1 _ Hq1. wp_pure. eapply wp_mono; [apply wp_for_peers|].
  intros _ n2 (E1 & E2 & E3 & H). wp_pure. cbn in E1, E2, E3, H.
  wp_skip as n3 Hq3. wp_pure. wp_skip as n4 Hq4. unfold go. wp_pure. right.
  assert (quiet (set_matchIndex (<[node_id n2:=li]> (matchIndex n2)) n2) n4) as [E4 _] by (by etrans).
  cbn. assert (role n4 = role n2 ∧ peers n4 = peers n2 ∧ node_id n4 = node_id n2
    ∧ matchIndex n4 = <[node_id n2:=li]> (matchIndex n2)) as (Er & Ep & Ei & Em) by (rewrite E4; done).
  split; [by rewrite Er, E3|]. intros p Hp Hne. cbn in Hp, Hne |- *. rewrite Em, Ei in *.
  rewrite map_get_insert_ne by done. apply H. left. rewrite Ep, E1 in Hp. done.
Qed.

Lemma handleVote_progress e resp ty n t base bterm last :
  view (store n) = Idle t → shape t base bterm last →
  wp (handleVote e resp ty) (λ _ n', (same_progress n n' ∧ (role n' = RoleLeader → role n = RoleLeader))
    ∨ (role n = RoleCandidate ∧ role n' = RoleLeader ∧ unmatched n')) n.
Proof.
  intros Hv Hs. unfold handleVote. wp_pure.
  destruct (_ <? _); wp_pure.
  { eapply (wp_mono _ (λ _ n1, same_progress n n1 ∧ role n1 = RoleFollower)).
    - split; [apply progress_stepDown|apply stepDown_term].
    - intros _ n1 [Hp Hr]. wp_pure. left. split; [done|]. by rewrite Hr. }
  destruct (bool_decide_reflect (role n = RoleCandidate)) as [Hr|]; cbn [negb orb]; [|wp_pure; by left].
  destruct (_ || _); [wp_pure; by left|]. destruct (_ && _); wp_pure; [|by left].
  eapply wp_mono; [by apply (becomeLeader_progress n t base bterm last)|].
  intros _ n' [[? Hr']|[? ?]]; wp_pure; [left; by rewrite Hr'|by right].
Qed.

Lemma single_progress e n t base bterm last :
  view (store n) = Idle t → shape t base bterm last →
  wp (startElection_single e) (λ _ n', (same_progress n n' ∧ (role n' = RoleLeader → role n = RoleLeader))
    ∨ (role n = RoleCandidate ∧ role n' = RoleLeader ∧ unmatched n')) n.
Proof.
  intros Hv Hs. unfold startElection_single. destruct (_ =? 1); wp_pure; [|by left].
  destruct (bool_decide_reflect (role n = RoleCandidate)) as [Hr|]; cbn [andb]; [|wp_pure; by left].
  destruct (_ =? _); [|wp_pure; by left].
  eapply wp_mono; [by apply (becomeLeader_progress n t base bterm last)|].
  intros _ n' [[? Hr']|[? ?]]; [left; by rewrite Hr'|by right].
Qed.
End bookkeeping.
