(* ===== verification/Net.v ===== *)
(** * The cluster with its replication messages

    [Cluster] lets a member receive any [AppendEntries] or [InstallSnapshot]; here a
    member receives only requests and snapshots that a leader has sent it, in any order
    and any number of times, and a leader hears only answers that were given.  Every step is a step of [Cluster],
    so what is proved there holds here.  Members compact their logs as their thresholds
    tell; a member may crash between any two operations, and loses the term it works in
    when [stepDownLocked] could not save it.  What has no counterpart in Raft is recorded:
    [astray] (a snapshot installed where it does not fit, a term forgotten) and [overrun]
    (a commit index moved without cause). *)

From Stdlib Require Import Ascii String.
From stdpp Require Import strings relations.
From S2P Require Import Prelude GoStd Json Wire Logging Metrics Sql Storage StoreSpec LogSpec.
From S2P Require Import Config Types Node Rpc NodeFrame VoteLedger NodeVote Voting Cluster Follower.
#[local] Open Scope Z_scope.

Section net.
Context `{D : !SqlDriver} `{R : !GoRuntime}.

(** A call of [replicatePeer] that is under way: its leader and peer, the variables
    [term] and [lastSent] of the goroutine, and the request. *)
Record flight := Flight {
  fl_from : string;
  fl_to : string;
  fl_term : Z;
  fl_lastSent : Z;
  fl_req : AppendEntriesRequest
}.

(** The same with a snapshot: the variable [snapshot] of the goroutine, and the request. *)
Record parcel := Parcel {
  pc_from : string;
  pc_to : string;
  pc_snap : Snapshot;
  pc_req : InstallSnapshotRequest
}.

(** The snapshots on their way, and the answers to them.  [astray] records that a
    snapshot was installed where it does not fit ([misplaced]), or that a member crashed
    in a term its disk did not have ([forgets]). *)
Record post := Post {
  parcels : list parcel;
  receipts : list (parcel * InstallSnapshotResponse);
  astray : bool
}.

(** [overrun] records that some member has moved its commit index past the entries of
    the request it was answering ([overruns]), or on the answer to a snapshot without
    leading ([usurps]). *)
Record net := Net {
  net_world : world;
  sent : list flight;
  acked : list (flight * AppendEntriesResponse);
  overrun : bool;
  mail : post
}.

Definition with_world (w : world) (N : net) : net :=
  Net w (sent N) (acked N) (overrun N) (mail N).

Definition with_mail (m : post) (N : net) : net :=
  Net (net_world N) (sent N) (acked N) (overrun N) m.

Definition flights (i peer : string) (a : attempt) : list flight :=
  match a with SendAppend term lastSent req => [Flight i peer term lastSent req] | _ => [] end.

Definition shipped (i peer : string) (a : attempt) : list parcel :=
  match a with SendSnapshot snap req => [Parcel i peer snap req] | _ => [] end.

Definition ship (ps : list parcel) (m : post) : post := Post (ps ++ parcels m) (receipts m) (astray m).

Definition signed (f : parcel) (r : result InstallSnapshotResponse) (stray : bool) (m : post) : post :=
  Post (parcels m) (match r with Ok resp => [(f, resp)] | Err _ => [] end ++ receipts m)
    (astray m || is_ok r && stray).

Definition answers (f : flight) (r : result AppendEntriesResponse) :
    list (flight * AppendEntriesResponse) :=
  match r with Ok resp => [(f, resp)] | Err _ => [] end.

Definition overruns (n n' : Node) (req : AppendEntriesRequest) : bool :=
  negb (commitIndex n' =? commitIndex n) && (match_index req <? commitIndex n').

(** The operations of a client, of the ticker and of the status query. *)
Definition client_op (o : local_op) : bool :=
  match o with
  | OpWrite _ | OpWriteRound _ _ _ _ | OpRead _ | OpReadCheck _ | OpReadGet _ | OpStatus | OpTick _ => true
  | _ => false
  end.

(** The last index of the log and the index of the snapshot, on the disk. *)
Definition last_index (n : Node) : Z := default 0 (fst <$> spec_LastIndexAndTerm (drv_file (store n))).
Definition snap_index (n : Node) : Z := default 0 (fst <$> spec_SnapshotIndexTerm (drv_file (store n))).

(** A snapshot that will be installed although the member has applied more than it
    holds, or has entries beyond it after one that differs at its index. *)
Definition misplaced (n : Node) (req : InstallSnapshotRequest) : bool :=
  let i := InstallSnapshotRequest_LastIncludedIndex req in
  (currentTerm n <=? InstallSnapshotRequest_Term req) && (snap_index n <? i)
  && ((i <? lastApplied n)
      || (i <? last_index n) && negb (bool_decide
           (spec_Term i (drv_file (store n)) = Some (InstallSnapshotRequest_LastIncludedTerm req, true)))).

(** A commit index moved by a member that does not lead. *)
Definition usurps (n n' : Node) : bool :=
  negb (bool_decide (role n = RoleLeader)) && negb (commitIndex n' =? commitIndex n).

(** Indexes stay below the greatest rowid. *)
Definition has_room (n : Node) : Prop := last_index n + 2 < two63.

#[global] Instance has_room_dec n : Decision (has_room n).
Proof. unfold has_room. apply _. Defined.

Definition term_saved (n : Node) : Prop :=
  fst <$> file_vote (drv_file (store n)) = Some (currentTerm n).

#[global] Instance term_saved_dec n : Decision (term_saved n).
Proof. unfold term_saved. apply _. Defined.

(** A crash now would lose the term. *)
Definition forgets (n : Node) : bool := negb (bool_decide (term_saved n)).

Definition mark (b : bool) (m : post) : post := Post (parcels m) (receipts m) (astray m || b).

(** The crash of a member. *)
Definition crashed (i : string) (n : Node) (N : net) : net :=
  with_world (with_runs (filter (λ r, run_owner r ≠ i) (runs (net_world N)))
    (set_proc i (Down (drv_file (store n))) (net_world N))) (with_mail (mark (forgets n) (mail N)) N).

(** A leader has heard of a snapshot. *)
Definition heard (i : string) (n n' : Node) (N : net) : net :=
  Net (set_proc i (Up n') (net_world N)) (sent N) (acked N) (overrun N || usurps n n') (mail N).

Inductive nstep (C : cluster) (N : net) : net → Prop :=
| n_client i n o :
    procs (net_world N) !! i = Some (Up n) → client_op o = true → has_room n →
    nstep C N (with_world (set_proc i (Up (run_local o n)) (net_world N)) N)
| n_send i n peer a n' :
    procs (net_world N) !! i = Some (Up n) → peer ∈ Peer_ID <$> peers n →
    replicatePeer_prepare peer n = (a, n') →
    nstep C N (Net (set_proc i (Up n') (net_world N)) (flights i peer a ++ sent N)
                 (acked N) (overrun N) (ship (shipped i peer a) (mail N)))
| n_deliver i n f r n' :
    procs (net_world N) !! i = Some (Up n) → f ∈ sent N → fl_to f = i →
    AppendEntries (Some (fl_req f)) n = (r, n') →
    nstep C N (Net (set_proc i (Up n') (net_world N)) (sent N) (answers f r ++ acked N)
                 (overrun N || overruns n n' (fl_req f)) (mail N))
| n_answer i n f resp :
    procs (net_world N) !! i = Some (Up n) → (f, resp) ∈ acked N → fl_from f = i →
    fl_to f ∈ Peer_ID <$> peers n →
    nstep C N (with_world (set_proc i
      (Up (replicatePeer_append_reply (fl_to f) (fl_term f) (fl_lastSent f) (Some resp) n).2)
      (net_world N)) N)
| n_install i n f r n' :
    procs (net_world N) !! i = Some (Up n) → f ∈ parcels (mail N) → pc_to f = i →
    InstallSnapshot (Some (pc_req f)) n = (r, n') →
    nstep C N (with_world (set_proc i (Up n') (net_world N))
                 (with_mail (signed f r (misplaced n (pc_req f)) (mail N)) N))
| n_receipt i n f resp r n' :
    procs (net_world N) !! i = Some (Up n) → (f, resp) ∈ receipts (mail N) → pc_from f = i →
    pc_to f ∈ Peer_ID <$> peers n →
    replicatePeer_snapshot_reply (pc_to f) (pc_snap f) (Some resp) n = (r, n') →
    nstep C N (heard i n n' N)
| n_elect i n r n' :
    procs (net_world N) !! i = Some (Up n) → currentTerm n + 1 < two64 →
    startElection_begin n = (r, n') →
    nstep C N (with_world (match r with Some e => launch i e | None => id end
      (set_proc i (Up n') (net_world N))) N)
| n_request i n req r n' :
    procs (net_world N) !! i = Some (Up n) → (i, req) ∈ requests (net_world N) →
    RequestVote (Some req) n = (r, n') →
    nstep C N (with_world (answered i req r (set_proc i (Up n') (net_world N))) N)
| n_reply rs1 rs2 i e ty ps b n peer resp ty' n' :
    runs (net_world N) = rs1 ++ Run i e ty ps b :: rs2 → peer ∈ ps →
    (peer, vote_request i e, resp) ∈ replies (net_world N) →
    procs (net_world N) !! i = Some (Up n) → handleVote e resp ty n = (ty', n') →
    nstep C N (with_world (with_runs (rs1 ++ Run i e ty' (drop peer ps) b :: rs2)
      (set_proc i (Up n') (net_world N))) N)
| n_rpc_error rs1 rs2 i e ty ps b peer :
    runs (net_world N) = rs1 ++ Run i e ty ps b :: rs2 →
    nstep C N (with_world (with_runs (rs1 ++ Run i e ty (drop peer ps) b :: rs2) (net_world N)) N)
| n_single rs1 rs2 i e ty ps n :
    runs (net_world N) = rs1 ++ Run i e ty ps true :: rs2 →
    procs (net_world N) !! i = Some (Up n) →
    nstep C N (with_world (with_runs (rs1 ++ Run i e ty ps false :: rs2)
      (set_proc i (Up (startElection_single e n).2) (net_world N))) N)
| n_crash i n :
    procs (net_world N) !! i = Some (Up n) →
    nstep C N (crashed i n N)
| n_restart i file mkdir path env r file' :
    procs (net_world N) !! i = Some (Down file) →
    New (options C i) mkdir path file env = (r, file') →
    nstep C N (with_world (set_proc i (match r with Ok n => Up n | Err _ => Down file' end)
      (net_world N)) N).

(** A new cluster: every member is down and has no database yet. *)
Definition ninitial (C : cluster) (N : net) : Prop :=
  (∀ i p, procs (net_world N) !! i = Some p → i ∈ members C ∧ p = Down empty_tables)
  ∧ runs (net_world N) = [] ∧ requests (net_world N) = [] ∧ replies (net_world N) = []
  ∧ given (net_world N) = [] ∧ sent N = [] ∧ acked N = [] ∧ overrun N = false
  ∧ mail N = Post [] [] false.

Definition nreachable (C : cluster) (N : net) : Prop := ∃ N0, ninitial C N0 ∧ rtc (nstep C) N0 N.

(** ** Schedules *)

Inductive naction :=
| NBase (a : action)
| NSend (i peer : string)
| NDeliver (k : nat)
| NAnswer (k : nat)
| NInstall (k : nat)
| NReceipt (k : nat)
| NCrash (i : string).

(** The actions of [Cluster] that are steps here. *)
Definition base_ok (a : action) (w : world) : bool :=
  match a with
  | ALocal i o => client_op o && match procs w !! i with Some (Up n) => bool_decide (has_room n) | _ => false end
  | ACrash i => false
  | _ => true
  end.

Definition nexec (C : cluster) (a : naction) (N : net) : option net :=
  match a with
  | NBase a =>
      if base_ok a (net_world N) then w ← exec C a (net_world N); Some (with_world w N) else None
  | NSend i peer =>
      match procs (net_world N) !! i with
      | Some (Up n) =>
          if bool_decide (peer ∈ Peer_ID <$> peers n) then
            let '(a, n') := replicatePeer_prepare peer n in
            Some (Net (set_proc i (Up n') (net_world N)) (flights i peer a ++ sent N) (acked N)
              (overrun N) (ship (shipped i peer a) (mail N)))
          else None
      | _ => None
      end
  | NDeliver k =>
      f ← sent N !! k;
      match procs (net_world N) !! fl_to f with
      | Some (Up n) =>
          let '(r, n') := AppendEntries (Some (fl_req f)) n in
          Some (Net (set_proc (fl_to f) (Up n') (net_world N)) (sent N) (answers f r ++ acked N)
            (overrun N || overruns n n' (fl_req f)) (mail N))
      | _ => None
      end
  | NAnswer k =>
      '(f, resp) ← acked N !! k;
      match procs (net_world N) !! fl_from f with
      | Some (Up n) =>
          if bool_decide (fl_to f ∈ Peer_ID <$> peers n) then
            Some (with_world (set_proc (fl_from f)
              (Up (replicatePeer_append_reply (fl_to f) (fl_term f) (fl_lastSent f) (Some resp) n).2)
              (net_world N)) N)
          else None
      | _ => None
      end
  | NInstall k =>
      f ← parcels (mail N) !! k;
      match procs (net_world N) !! pc_to f with
      | Some (Up n) =>
          let '(r, n') := InstallSnapshot (Some (pc_req f)) n in
          Some (with_world (set_proc (pc_to f) (Up n') (net_world N))
            (with_mail (signed f r (misplaced n (pc_req f)) (mail N)) N))
      | _ => None
      end
  | NReceipt k =>
      '(f, resp) ← receipts (mail N) !! k;
      match procs (net_world N) !! pc_from f with
      | Some (Up n) =>
          if bool_decide (pc_to f ∈ Peer_ID <$> peers n) then
            let '(r, n') := replicatePeer_snapshot_reply (pc_to f) (pc_snap f) (Some resp) n in
            Some (heard (pc_from f) n n' N)
          else None
      | _ => None
      end
  | NCrash i =>
      match procs (net_world N) !! i with
      | Some (Up n) => Some (crashed i n N)
      | _ => None
      end
  end.

Fixpoint nrun (C : cluster) (l : list naction) (N : net) : option net :=
  match l with
  | [] => Some N
  | a :: l' => N' ← nexec C a N; nrun C l' N'
  end.

Lemma exec_nstep C a (N : net) w' :
  base_ok a (net_world N) = true → exec C a (net_world N) = Some w' → nstep C N (with_world w' N).
Proof.
  destruct a as [i o|i|k|rn rp|rn|i|i env]; cbn.
  - intros [Ho Hb]%andb_prop. destruct (procs (net_world N) !! i) as [[n|]|] eqn:Hp; try done.
    apply bool_decide_eq_true in Hb. destruct (bool_decide (wf_local o)); [|done].
    intros [= <-]. by apply (n_client C N i n o).
  - intros _. destruct (procs (net_world N) !! i) as [[n|]|] eqn:Hp; try done.
    destruct (Z.ltb_spec (currentTerm n + 1) two64); [|done].
    destruct (startElection_begin n) as [r n'] eqn:E. intros [= <-]. by apply (n_elect C N i n r n').
  - intros _. destruct (requests (net_world N) !! k) as [[i req]|] eqn:Hk; cbn; [|done].
    destruct (procs (net_world N) !! i) as [[n|]|] eqn:Hp; cbn; try done.
    destruct (RequestVote (Some req) n) as [r n'] eqn:E. intros [= <-].
    apply (n_request C N i n req r n'); [done| |done]. by eapply list_elem_of_lookup_2.
  - intros _. unfold exec_reply. destruct (runs (net_world N) !! rn) as [[i e ty ps b]|] eqn:Hr; cbn; [|done].
    destruct (replies (net_world N) !! rp) as [[[peer req] resp]|] eqn:Hrp; cbn; [|done].
    destruct (procs (net_world N) !! i) as [[n|]|] eqn:Hp; cbn; try done.
    destruct (bool_decide_reflect (peer ∈ ps)), (bool_decide_reflect (req = vote_request i e));
      cbn; try done. subst req.
    destruct (handleVote e resp ty n) as [ty' n'] eqn:E. intros [= <-].
    eapply (n_reply C N _ _ i e ty ps b n peer resp ty' n'); [|done| |done..].
    + symmetry. by apply take_drop_middle.
    + by eapply list_elem_of_lookup_2.
  - intros _. destruct (runs (net_world N) !! rn) as [[i e ty ps b]|] eqn:Hr; cbn; [|done].
    destruct (procs (net_world N) !! i) as [[n|]|] eqn:Hp; cbn; try done. destruct b; [|done].
    intros [= <-]. apply (n_single C N _ _ i e ty ps n); [|done]. symmetry. by apply take_drop_middle.
  - done.
  - intros _. destruct (procs (net_world N) !! i) as [[|file]|] eqn:Hp; try done.
    destruct (New _ _ _ _ _) as [r file'] eqn:E. intros [= <-]. by eapply (n_restart C N i file).
Qed.

Lemma nexec_nstep C a N N' : nexec C a N = Some N' → nstep C N N'.
Proof.
  destruct a as [a|i peer|k|k|k|k|i]; cbn.
  - destruct (base_ok a (net_world N)) eqn:Hb; [|done].
    destruct (exec C a (net_world N)) as [w'|] eqn:E; cbn; [|done]. intros [= <-]. by eapply exec_nstep.
  - destruct (procs (net_world N) !! i) as [[n|]|] eqn:Hp; try done.
    case_bool_decide; [|done].
    destruct (replicatePeer_prepare peer n) as [a n'] eqn:E. intros [= <-]. by eapply n_send.
  - destruct (sent N !! k) as [f|] eqn:Hf; cbn; [|done].
    destruct (procs (net_world N) !! fl_to f) as [[n|]|] eqn:Hp; try done.
    destruct (AppendEntries (Some (fl_req f)) n) as [r n'] eqn:E. intros [= <-].
    apply (n_deliver C N (fl_to f) n f r n'); try done. by eapply list_elem_of_lookup_2.
  - destruct (acked N !! k) as [[f resp]|] eqn:Hf; cbn; [|done].
    destruct (procs (net_world N) !! fl_from f) as [[n|]|] eqn:Hp; try done.
    case_bool_decide; [|done]. intros [= <-].
    apply (n_answer C N (fl_from f) n f resp); try done. by eapply list_elem_of_lookup_2.
  - destruct (parcels (mail N) !! k) as [f|] eqn:Hf; cbn; [|done].
    destruct (procs (net_world N) !! pc_to f) as [[n|]|] eqn:Hp; try done.
    destruct (InstallSnapshot (Some (pc_req f)) n) as [r n'] eqn:E. intros [= <-].
    apply (n_install C N (pc_to f) n f r n'); try done. by eapply list_elem_of_lookup_2.
  - destruct (receipts (mail N) !! k) as [[f resp]|] eqn:Hf; cbn; [|done].
    destruct (procs (net_world N) !! pc_from f) as [[n|]|] eqn:Hp; try done.
    case_bool_decide; [|done].
    destruct (replicatePeer_snapshot_reply _ _ _ n) as [r n'] eqn:E. intros [= <-].
    apply (n_receipt C N (pc_from f) n f resp r n'); try done. by eapply list_elem_of_lookup_2.
  - destruct (procs (net_world N) !! i) as [[n|]|] eqn:Hp; try done. intros [= <-]. by apply n_crash.
Qed.

Lemma nrun_nsteps C l N N' : nrun C l N = Some N' → rtc (nstep C) N N'.
Proof.
  revert N. induction l as [|a l IH]; intros N; cbn; [by intros [= ->]|].
  destruct (nexec C a N) as [N1|] eqn:E; cbn; [|done]. intros H.
  eapply rtc_l; [by eapply nexec_nstep|by apply IH].
Qed.
End net.
Arguments Net {D} _ _ _ _ _.
