(* ===== verification/VoteLog.v ===== *)
(** * Votes and logs

    Whatever the database does, a granted vote went to a log at least as up to date as
    the voter's, and an election that goes on announces the candidate's own log. *)

From Stdlib Require Import Ascii String.
From stdpp Require Import strings relations.
From S2P Require Import Prelude GoStd Json Wire Logging Metrics Sql Storage StoreSpec LogSpec LogStore.
From S2P Require Import Config Types Node Rpc NodeFrame VoteLedger NodeVote Voting Cluster Elections LogFrame.
#[local] Open Scope Z_scope.

Section vote_log.
Context `{D : !SqlDriver} `{L : !SqlLaws D} `{R : !GoRuntime}.
Implicit Types (n : Node).

Lemma spec_LastIndexAndTerm_same t t' :
  same_log t t' → spec_LastIndexAndTerm t' = spec_LastIndexAndTerm t.
Proof.
  intros H. unfold spec_LastIndexAndTerm. by rewrite (sl_log _ _ H), (same_log_snapshot _ _ H).
Qed.

Lemma rejected_granted m r n X :
  wp (_ ← count_rpc m r; vote_reply false) (λ r _, granted r = true → X) n.
Proof. unfold vote_reply. wp_skip as n1 Hq1. by wp_pure. Qed.

Lemma error_granted m e n X : wp (rpc_error m e) (λ (r : result RequestVoteResponse) _, granted r = true → X) n.
Proof. unfold rpc_error. wp_skip as n1 Hq1. by wp_pure. Qed.

Lemma RequestVote_granted n t last req :
  view (store n) = Idle t → spec_LastIndexAndTerm t = Some last →
  is_u64 (RequestVoteRequest_Term req) →
  wp (RequestVote (Some req)) (λ r _, granted r = true → grants n last req = true) n.
Proof.
  intros Hv Hlast Hu. unfold RequestVote, grants. wp_pure. cbn [RequestVoteRequest_GetTerm].
  set (T := RequestVoteRequest_Term req) in *. set (c := RequestVoteRequest_CandidateId req).
  destruct (Z.ltb_spec T (currentTerm n)) as [Hlt|Hge].
  { apply rejected_granted. }
  destruct (Z.leb_spec (currentTerm n) T); [|lia]. cbn [andb]. wp_pure.
  eapply (wp_mono _ (λ _ n1, (∃ t1, view (store n1) = Idle t1 ∧ same_log t t1)
    ∧ votedFor n1 = if currentTerm n <? T then "" else votedFor n)).
  { destruct (Z.ltb_spec (currentTerm n) T) as [Hlt|_]; [|wp_pure; split; [by exists t|done]].
    eapply wp_stepDown; [exact Hv|done|]. intros c1 t1 n1 Hc Ht _ Hq. split.
    - exists t1. split; [|destruct Ht as [->| ->]; [reflexivity|apply same_log_step_down]].
      apply (quiet_view _ _ _ Hq). unfold stepped_down. by destruct (currentTerm n <? T).
    - destruct Hq as [-> _]. cbn. unfold stepped_down. destruct (Z.ltb_spec (currentTerm n) T); [done|lia]. }
  intros _ n1 ((t1 & Hv1 & Hs1) & Hvo1). wp_pure.
  eapply wp_reads; [apply reads_LastIndexAndTerm|apply wf_LastIndexAndTerm|exact Hv1| |].
  2: { intros e n2 _ _. apply error_granted. }
  intros [li lt] n2 Ha Hq2. rewrite (spec_LastIndexAndTerm_same _ _ Hs1), Hlast in Ha.
  injection Ha as ->. pose proof Hq2 as [E2 _]. wp_pure.
  cbn [RequestVoteRequest_GetLastLogTerm RequestVoteRequest_GetLastLogIndex
    RequestVoteRequest_GetCandidateId]. fold c.
  change (_ || _ && _) with (log_up_to_date req (li, lt)).
  assert (vote_free n req = bool_decide (votedFor n2 = "") || bool_decide (votedFor n2 = c)) as <-.
  { rewrite E2. cbn. rewrite Hvo1. unfold vote_free. fold T c. by destruct (currentTerm n <? T). }
  destruct (vote_free n req && log_up_to_date req (li, lt)) eqn:Eg; [done|apply rejected_granted].
Qed.

(** The index and the term an election announces. *)
Lemma startElection_last n t last :
  view (store n) = Idle t → spec_LastIndexAndTerm t = Some last →
  wp startElection_begin (λ r _, ∀ e, r = Some e → (el_lastLogIndex e, el_lastLogTerm e) = last) n.
Proof.
  intros Hv Hlast. unfold startElection_begin. wp_pure.
  destruct (bool_decide (role n = RoleLeader)); [done|]. wp_pure. set (n1 := set_leaderID _ _).
  assert (view (store n1) = Idle t) as Hv1 by done.
  unfold wp at 1. pose proof (keeps_SaveTermVote (currentTerm n1) (votedFor n1) n1) as (_ & _ & Hk).
  destruct (Hk t Hv1) as (t2 & Hv2 & Hs2).
  destruct (with_store (SaveTermVote _ _) n1) as [[[]|e] n2]; cbn [fst snd] in *.
  2: { wp_skip as n3 Hq3. wp_skip as n4 Hq4. by wp_pure. }
  wp_pure. eapply wp_reads; [apply reads_LastIndexAndTerm|apply wf_LastIndexAndTerm|exact Hv2| |].
  2: { intros e n3 _ _. wp_skip as n4 Hq4. wp_skip as n5 Hq5. by wp_pure. }
  intros [li lt] n3 Ha _. rewrite (spec_LastIndexAndTerm_same _ _ Hs2), Hlast in Ha. injection Ha as ->.
  wp_skip as n4 Hq4. wp_skip as n5 Hq5. wp_skip as n6 Hq6. wp_pure. wp_skip as n7 Hq7. wp_pure.
  by intros e [= <-].
Qed.
End vote_log.
