(* ===== verification/RaftLogs.v ===== *)
(** * Logs of terms: the list theory of Raft

    A log is the list of its entries; the index of an entry is its position plus
    one.  [G] gives for a term the log of the leader of that term.  A log is
    [good] when each of its entries comes, with everything before it, from the log
    of the leader of its term. *)

From stdpp Require Import strings gmap list.

Abbreviation ent := (Z * string)%type.
Abbreviation logs := (gmap Z (list ent)).

(** The term of the entry of index [k], zero for the empty prefix. *)
Definition lterm (l : list ent) (k : nat) : Z :=
  match k with O => 0%Z | S j => default 0%Z (fst <$> l !! j) end.

Definition last_lterm (l : list ent) : Z := lterm l (length l).

(** The candidate's log is at least as up to date as the voter's. *)
Definition uptodate (lc lv : list ent) : Prop :=
  (last_lterm lv < last_lterm lc)%Z ∨ (last_lterm lv = last_lterm lc ∧ length lv ≤ length lc).

(** Accepting the entries [es] after index [p]. *)
Fixpoint amerge (l : list ent) (p : nat) (es : list ent) : list ent :=
  match es with
  | [] => l
  | e :: es' =>
      match l !! p with
      | Some x => if bool_decide (x.1 = e.1) then amerge l (S p) es' else take p l ++ es
      | None => take p l ++ es
      end
  end.

Definition good (G : logs) (l : list ent) : Prop :=
  ∀ k e, l !! k = Some e → ∃ g, G !! e.1 = Some g ∧ take (S k) l `prefix_of` g.

(** Leaders' logs grow by entries of their own term. *)
Definition grows (G G' : logs) : Prop :=
  ∀ T g, G !! T = Some g → ∃ x, G' !! T = Some (g ++ x) ∧ Forall (λ e, e.1 = T) x.

Definition leaders_good (G : logs) : Prop :=
  ∀ T g, G !! T = Some g → (0 < T)%Z ∧ good G g ∧ ∀ e, e ∈ g → (e.1 ≤ T)%Z.

(** The first [k] entries of the log of term [T] are in [l], or a later leader,
    of a term up to [tm], does not have them. *)
Definition kept (G : logs) (T : Z) (k : nat) (l : list ent) (tm : Z) : Prop :=
  ∀ g, G !! T = Some g → take k g `prefix_of` l
    ∨ ∃ T' g', (T < T' ≤ tm)%Z ∧ G !! T' = Some g' ∧ ¬ take k g `prefix_of` g'.

(** ** Prefixes *)

Lemma prefix_take_eq {A} (l1 l2 : list A) k : l1 `prefix_of` l2 → k ≤ length l1 → take k l1 = take k l2.
Proof. intros [x ->] Hk. by rewrite take_app_le. Qed.

Lemma prefix_of_take {A} (l1 l2 : list A) k : l1 `prefix_of` l2 → length l1 ≤ k → l1 `prefix_of` take k l2.
Proof. intros [x ->] Hk. rewrite take_app_ge by lia. by apply prefix_app_r. Qed.

Lemma take_prefix_mono {A} (l : list A) j k : j ≤ k → take j l `prefix_of` take k l.
Proof. intros H. replace (take j l) with (take j (take k l)); [apply prefix_take|]. rewrite take_take. f_equal. lia. Qed.

Lemma prefix_same_length {A} (l1 l2 g : list A) :
  l1 `prefix_of` g → l2 `prefix_of` g → length l1 ≤ length l2 → l1 `prefix_of` l2.
Proof.
  intros H1 H2 Hl. replace l2 with (take (length l2) g).
  - by apply prefix_of_take.
  - destruct H2 as [x ->]. by rewrite take_app_length.
Qed.

Lemma prefix_lookup_eq {A} (l1 l2 : list A) i : l1 `prefix_of` l2 → i < length l1 → l1 !! i = l2 !! i.
Proof. intros [x ->] Hi. by rewrite lookup_app_l. Qed.

(** ** Growth *)

#[global] Instance grows_preorder : PreOrder grows.
Proof.
  split.
  - intros G T g HG. exists []. by rewrite app_nil_r.
  - intros G1 G2 G3 H12 H23 T g HG. destruct (H12 T g HG) as (x & H2 & Hx).
    destruct (H23 T _ H2) as (y & H3 & Hy). exists (x ++ y). rewrite app_assoc. split; [done|].
    by apply Forall_app.
Qed.

Lemma grows_prefix G G' T g : grows G G' → G !! T = Some g → ∃ g', G' !! T = Some g' ∧ g `prefix_of` g'.
Proof. intros H HG. destruct (H T g HG) as (x & ? & _). exists (g ++ x). split; [done|by apply prefix_app_r]. Qed.

Lemma good_grows G G' l : grows G G' → good G l → good G' l.
Proof.
  intros HG Hl k e He. destruct (Hl k e He) as (g & Hg & Hp).
  destruct (grows_prefix G G' _ g HG Hg) as (g' & Hg' & Hpp). exists g'. split; [done|by etrans].
Qed.

Lemma good_prefix G l l' : l' `prefix_of` l → good G l → good G l'.
Proof.
  intros [x ->] Hl k e He. assert (k < length l') as Hk by (by eapply lookup_lt_Some).
  destruct (Hl k e) as (g & Hg & Hp); [by rewrite lookup_app_l|].
  rewrite take_app_le in Hp by lia. by exists g.
Qed.

Lemma good_nil G : good G [].
Proof. by intros k e. Qed.

(** Entries of one term at one index: the same prefix. *)
Lemma good_match G l l' k e e' :
  good G l → good G l' → l !! k = Some e → l' !! k = Some e' → e.1 = e'.1 →
  take (S k) l = take (S k) l'.
Proof.
  intros Hl Hl' He He' Et. destruct (Hl k e He) as (g & Hg & Hp). destruct (Hl' k e' He') as (g' & Hg' & Hp').
  assert (g' = g) as -> by congruence. apply lookup_lt_Some in He, He'.
  assert (length (take (S k) l) = S k) as E1 by (rewrite length_take; lia).
  assert (length (take (S k) l') = S k) as E2 by (rewrite length_take; lia).
  rewrite <- (firstn_all (take (S k) l)), E1, <- (firstn_all (take (S k) l')), E2.
  rewrite (prefix_take_eq _ _ _ Hp), (prefix_take_eq _ _ _ Hp') by lia. done.
Qed.

Lemma good_term_mono G l j k ej ek :
  leaders_good G → good G l → j ≤ k → l !! j = Some ej → l !! k = Some ek → (ej.1 ≤ ek.1)%Z.
Proof.
  intros HG Hl Hjk Hj Hk. destruct (Hl k ek Hk) as (g & Hg & Hp).
  destruct (HG _ _ Hg) as (_ & _ & Hle). apply Hle. eapply elem_of_prefix; [|exact Hp].
  apply list_elem_of_lookup. exists j. rewrite lookup_take_lt by lia. done.
Qed.

Lemma lterm_lookup l k e : l !! k = Some e → lterm l (S k) = e.1.
Proof. intros H. cbn. by rewrite H. Qed.

Lemma lterm_prefix l l' k : l `prefix_of` l' → k ≤ length l → lterm l k = lterm l' k.
Proof. intros Hp Hk. destruct k as [|k]; [done|]. cbn. by rewrite (prefix_lookup_eq _ _ _ Hp). Qed.

(** A prefix of [l] of length [k] whose last entry's term names a leader's log. *)
Lemma good_lterm G l k :
  good G l → 0 < k ≤ length l → ∃ g, G !! lterm l k = Some g ∧ take k l `prefix_of` g.
Proof.
  intros Hl [Hk Hlen]. destruct k as [|k]; [lia|].
  destruct (lookup_lt_is_Some_2 l k Hlen) as [e He]. rewrite (lterm_lookup _ _ _ He). eauto.
Qed.

Lemma lterm_pos G l k : leaders_good G → good G l → 0 < k ≤ length l → (0 < lterm l k)%Z.
Proof. intros HG Hl Hk. destruct (good_lterm G l k Hl Hk) as (g & Hg & _). by apply HG in Hg as [? _]. Qed.

(** Equal terms at an index: equal prefixes. *)
Lemma lterm_match G l l' k :
  leaders_good G → good G l → good G l' → k ≤ length l → k ≤ length l' → lterm l k = lterm l' k →
  take k l = take k l'.
Proof.
  intros HG Hl Hl' H1 H2 E. destruct k as [|k]; [done|].
  destruct (lookup_lt_is_Some_2 l k H1) as [e He]. destruct (lookup_lt_is_Some_2 l' k H2) as [e' He'].
  apply (good_match G _ _ _ e e'); try done. rewrite (lterm_lookup _ _ _ He), (lterm_lookup _ _ _ He') in E. done.
Qed.

(** ** Keeping an acknowledged prefix *)

Lemma not_prefix_grows g g' x (T T' : Z) k :
  (∀ e, e ∈ g → (e.1 ≤ T)%Z) → (T < T')%Z → Forall (λ e : ent, e.1 = T') x →
  ¬ take k g `prefix_of` g' → ¬ take k g `prefix_of` g' ++ x.
Proof.
  intros Hg HT Hx Hn Hp. destruct (decide (length (take k g) ≤ length g')) as [Hle|Hgt].
  - apply Hn. eapply prefix_same_length; [exact Hp|by apply prefix_app_r|done].
  - destruct (lookup_lt_is_Some_2 (take k g) (length g')) as [e He]; [lia|].
    pose proof (prefix_lookup_Some _ _ _ _ He Hp) as He'. rewrite lookup_app_r, Nat.sub_diag in He' by lia.
    assert (e.1 = T') as E by (rewrite Forall_lookup in Hx; by eapply Hx).
    assert (e ∈ g) as Hin. { eapply elem_of_prefix; [|apply (prefix_take g k)]. by eapply list_elem_of_lookup_2. }
    apply Hg in Hin. lia.
Qed.

Lemma kept_grows G G' T g k l tm :
  leaders_good G → grows G G' → G !! T = Some g → k ≤ length g → kept G T k l tm → kept G' T k l tm.
Proof.
  intros HG Hgr Hg Hk Hkept g1 Hg1. destruct (grows_prefix _ _ _ _ Hgr Hg) as (g1' & E & Hp).
  assert (g1' = g1) as -> by congruence. rewrite <- (prefix_take_eq _ _ _ Hp Hk).
  destruct (Hkept g Hg) as [?|(T' & g' & HT & Hg' & Hn)]; [by left|].
  right. destruct (Hgr _ _ Hg') as (x & Hx & Hfx). exists T', (g' ++ x). split_and!; [lia|lia|done|].
  eapply not_prefix_grows; [|exact (proj1 HT)|exact Hfx|exact Hn]. by apply HG.
Qed.

Lemma kept_term G T k l tm tm' : (tm ≤ tm')%Z → kept G T k l tm → kept G T k l tm'.
Proof. intros Hle Hk g Hg. destruct (Hk g Hg) as [?|(T' & g' & ? & ?)]; [by left|]. right. exists T', g'. split; [lia|done]. Qed.

Lemma kept_app G T k l x tm : kept G T k l tm → kept G T k (l ++ x) tm.
Proof. intros Hk g Hg. destruct (Hk g Hg) as [?|?]; [left; by apply prefix_app_r|by right]. Qed.

(** A log that keeps what [l] shares with the leader's log [g]. *)
Lemma kept_shared G T g (Hg : G !! T = Some g) l l' T0 k tm :
  (∀ P, P `prefix_of` l → P `prefix_of` g → P `prefix_of` l') →
  (T0 ≤ T)%Z → (tm ≤ T)%Z → kept G T0 k l tm → kept G T0 k l' T.
Proof.
  intros Hsh HT Htm Hk g0 Hg0. destruct (Hk g0 Hg0) as [Hpre|(T' & g' & ? & ?)].
  2: { right. exists T', g'. split; [lia|done]. }
  destruct (decide (take k g0 `prefix_of` g)) as [Hin|Hni].
  - left. by apply Hsh.
  - right. exists T, g. split_and!; [|lia|done|done]. destruct (decide (T0 = T)) as [->|]; [|lia].
    assert (g0 = g) as -> by congruence. destruct Hni. apply prefix_take.
Qed.

(** Cutting a log where it differs from the leader's. *)
Lemma take_shared (l g : list ent) j x e P :
  l !! j = Some x → g !! j = Some e → x.1 ≠ e.1 →
  P `prefix_of` l → P `prefix_of` g → P `prefix_of` take j l.
Proof.
  intros Hx He Hne H1 H2. destruct (decide (length P ≤ j)) as [Hle|Hgt]; [by apply prefix_of_take|].
  destruct Hne. pose proof (prefix_lookup_eq _ _ j H1) as E1. pose proof (prefix_lookup_eq _ _ j H2) as E2.
  rewrite E1, Hx in E2 by lia. rewrite He in E2 by lia. specialize (E2 ltac:(lia)). by injection E2 as ->.
Qed.

(** ** Accepting *)

Section accepting.
Context (G : logs) (HG : leaders_good G) (T : Z) (g : list ent) (Hg : G !! T = Some g).

Lemma amerge_accept l p es :
  good G l → p ≤ length l → es `prefix_of` drop p g → p ≤ length g → lterm l p = lterm g p →
  let m := p + length es in
  m ≤ length g ∧ take m (amerge l p es) = take m g ∧
  (amerge l p es = l ∨ (amerge l p es = take m g ∧ ¬ take m g `prefix_of` l)).
Proof.
  intros Hl. revert p. induction es as [|e es IH]; intros p Hp Hes Hpg Ht; cbn zeta.
  - cbn [amerge length]. rewrite Nat.add_0_r. split; [done|].
    split; [|by left]. eapply lterm_match; [done|done| |done..]. by eapply HG.
  - assert (take p l = take p g) as Etake.
    { eapply lterm_match; [done|done| |done..]. by eapply HG. }
    assert (g !! p = Some e ∧ es `prefix_of` drop (S p) g) as [Hge Hes'].
    { destruct Hes as [x Hx]. assert (drop p g !! 0 = Some e) as H0 by (by rewrite Hx).
      rewrite lookup_drop, Nat.add_0_r in H0. split; [done|]. exists x.
      rewrite <- (Nat.add_1_r p), <- drop_drop, Hx. done. }
    assert (p < length g) as Hplt by (by eapply lookup_lt_Some).
    assert (S p + length es ≤ length g) as Hlen.
    { apply prefix_length in Hes'. rewrite length_drop in Hes'. lia. }
    cbn [amerge length]. replace (p + S (length es)) with (S p + length es) by lia.
    assert (take p l ++ e :: es = take (S p + length es) g) as Ecut.
    { rewrite Etake, <- (take_drop p (take (S p + length es) g)), take_take. f_equal; [f_equal; lia|].
      rewrite <- (take_drop_middle g p e Hge) at 1. rewrite take_app_ge; [|rewrite length_take; lia].
      rewrite length_take, Nat.min_l by lia. rewrite drop_app_ge by (rewrite length_take; lia).
      rewrite length_take, Nat.min_l, Nat.sub_diag by lia. cbn [drop].
      replace (S p + length es - p) with (S (length es)) by lia. cbn [take]. f_equal.
      destruct Hes' as [x ->]. by rewrite take_app_length. }
    assert (∀ x, l !! p = x → x ≠ Some e → ¬ take (S p + length es) g `prefix_of` l) as Hcut.
    { intros x Hx Hne Hpre. apply Hne. rewrite <- Hx, <- Hge.
      rewrite <- (prefix_lookup_eq _ _ p Hpre) by (rewrite length_take; lia).
      by rewrite lookup_take_lt by lia. }
    destruct (l !! p) as [x|] eqn:Hlx.
    + case_bool_decide as Hterm.
      * assert (take (S p) l = take (S p) g) as Enext.
        { eapply good_match; [done| |done|done|done]. by eapply HG. }
        destruct (IH (S p)) as (H1 & H2 & H3).
        -- by apply lookup_lt_Some in Hlx.
        -- done.
        -- lia.
        -- by rewrite (lterm_lookup _ _ _ Hlx), (lterm_lookup _ _ _ Hge).
        -- done.
      * split; [done|]. rewrite Ecut. split; [rewrite take_take; f_equal; lia|]. right. split; [done|].
        apply (Hcut _ eq_refl). by intros [= ->].
    + split; [done|]. rewrite Ecut. split; [rewrite take_take; f_equal; lia|]. right. split; [done|].
      by apply (Hcut _ eq_refl).
Qed.

Context (l : list ent) (p : nat) (es : list ent) (Hl : good G l) (Hp : p ≤ length l)
  (Hes : es `prefix_of` drop p g) (Hpg : p ≤ length g) (Ht : lterm l p = lterm g p).

Lemma amerge_good : good G (amerge l p es).
Proof.
  destruct (amerge_accept l p es Hl Hp Hes Hpg Ht) as (_ & _ & [->|[-> _]]); [done|].
  eapply good_prefix; [apply prefix_take|]. by eapply HG.
Qed.

Lemma amerge_elem e : e ∈ amerge l p es → e ∈ l ∨ e ∈ g.
Proof.
  destruct (amerge_accept l p es Hl Hp Hes Hpg Ht) as (_ & _ & [->|[-> _]]); [by left|].
  intros H. right. eapply elem_of_prefix; [exact H|apply prefix_take].
Qed.

(** What the follower shares with the leader stays. *)
Lemma amerge_prefix P : P `prefix_of` l → P `prefix_of` g → P `prefix_of` amerge l p es.
Proof.
  intros H1 H2. destruct (amerge_accept l p es Hl Hp Hes Hpg Ht) as (Hm & _ & [->|[-> Hn]]); [done|].
  destruct (decide (length P ≤ p + length es)) as [Hle|Hgt].
  - by apply prefix_of_take.
  - destruct Hn. etrans; [|exact H1]. eapply prefix_same_length; [apply prefix_take|exact H2|].
    rewrite length_take. lia.
Qed.

Lemma amerge_kept T0 k tm :
  (T0 ≤ T)%Z → (tm ≤ T)%Z → kept G T0 k l tm → kept G T0 k (amerge l p es) T.
Proof. apply (kept_shared G T g Hg), amerge_prefix. Qed.
End accepting.

(** ** Up-to-date logs *)

(** If every leader between [T] and the candidate has the first [k] entries, the last
    of which is of term [T], then so has a candidate at least as up to date as a log that
    has them. *)
Lemma uptodate_kept G T g k lc lv :
  leaders_good G → G !! T = Some g → 0 < k ≤ length g → lterm g k = T →
  good G lc → good G lv → take k g `prefix_of` lv → uptodate lc lv →
  (∀ T' g', (T < T')%Z → T' = last_lterm lc → G !! T' = Some g' → take k g `prefix_of` g') →
  take k g `prefix_of` lc.
Proof.
  intros HG Hg Hk Hterm Hlc Hlv Hpre Hup Hall.
  assert (k ≤ length lv) as Hkv.
  { apply prefix_length in Hpre. rewrite length_take in Hpre. lia. }
  assert (lterm lv k = T) as Hvk.
  { assert (length (take k g) = k) as Ek by (rewrite length_take; lia).
    rewrite <- Hterm. rewrite <- (lterm_prefix (take k g) lv) by (done || lia).
    apply lterm_prefix; [apply prefix_take|lia]. }
  assert (T ≤ last_lterm lv)%Z as Hlast.
  { unfold last_lterm. destruct k as [|k]; [lia|]. destruct (length lv) as [|n] eqn:En; [lia|].
    destruct (lookup_lt_is_Some_2 lv k) as [e1 H1]; [lia|].
    destruct (lookup_lt_is_Some_2 lv n) as [e2 H2]; [lia|].
    rewrite (lterm_lookup _ _ _ H1) in Hvk. rewrite (lterm_lookup _ _ _ H2), <- Hvk.
    apply (good_term_mono G lv k n); done || lia. }
  assert (0 < T)%Z as HT by (by eapply HG).
  assert (0 < length lc) as Hlen.
  { destruct lc; [|cbn; lia]. exfalso. unfold uptodate in Hup.
    change (last_lterm []) with 0%Z in Hup. lia. }
  destruct (good_lterm G lc (length lc) Hlc) as (gc & Hgc & Hpc); [lia|].
  fold (last_lterm lc) in Hgc. rewrite firstn_all in Hpc.
  assert (0 < length lv) as Hlenv by lia.
  destruct (good_lterm G lv (length lv) Hlv) as (gv & Hgv & Hpv); [lia|].
  fold (last_lterm lv) in Hgv. rewrite firstn_all in Hpv.
  assert (∀ gc, (T < last_lterm lc)%Z → G !! last_lterm lc = Some gc → lc `prefix_of` gc →
    take k g `prefix_of` lc) as Hlater.
  { intros gc' HTc Hgc' Hpc'. pose proof (Hall _ _ HTc eq_refl Hgc') as Hp.
    destruct (decide (k ≤ length lc)) as [Hle|Hgt].
    - eapply prefix_same_length; [exact Hp|exact Hpc'|rewrite length_take; lia].
    - exfalso. destruct (length lc) as [|n] eqn:En; [lia|].
      destruct (lookup_lt_is_Some_2 lc n) as [e He]; [lia|].
      assert (last_lterm lc = e.1) as El by (unfold last_lterm; rewrite En; by apply lterm_lookup).
      assert (take k g !! n = Some e) as Hge.
      { rewrite (prefix_lookup_eq _ _ _ Hp) by (rewrite length_take; lia).
        rewrite <- (prefix_lookup_eq _ _ _ Hpc') by lia. done. }
      assert (e.1 ≤ T)%Z as Hle.
      { destruct (HG _ _ Hg) as (_ & _ & Hb). apply Hb.
        eapply elem_of_prefix; [by eapply list_elem_of_lookup_2|apply prefix_take]. }
      lia. }
  destruct Hup as [Hlt|[Heq Hll]].
  - apply (Hlater gc); [lia|done|done].
  - etrans; [exact Hpre|]. assert (gc = gv) as -> by congruence.
    by eapply prefix_same_length.
Qed.
