(* ===== verification/LogRel.v ===== *)
(** * The rows of the log as a list

    The rows of [log_entries] of a member are its log as a list, from its snapshot on:
    row [k + 1] is entry [k], and the entries up to the snapshot have no rows.  Reading,
    merging, cutting, compacting and applying the rows are the list operations of
    [RaftLogs]. *)

From Stdlib Require Import Ascii String.
From stdpp Require Import strings relations.
From S2P Require Import Prelude GoStd Json Wire Sql Storage StoreSpec LogSpec LogStore.
From S2P Require Import Types JsonValid NodeFrame Apply Follower RaftLogs LogFrame.
#[local] Open Scope Z_scope.

(** A stored row: its term as a signed word. *)
Definition row (e : ent) : Z * string := (int64 e.1, e.2).

(** An [Entry] without its index. *)
Definition ents (es : list Entry) : list ent := (λ e, (Entry_Term e, Entry_Command e)) <$> es.

(** The rows are those of [l] above [b]. *)
Definition is_log (b : nat) (m : rows) (l : list ent) : Prop :=
  ∀ i, m !! i = if decide (Z.of_nat b < i) then row <$> l !! Z.to_nat (i - 1) else None.

Definition words (l : list ent) : Prop := ∀ e, e ∈ l → is_u64 e.1.

Lemma is_log_lookup b m l k : is_log b m l → (b <= k)%nat → m !! Z.of_nat (S k) = row <$> l !! k.
Proof. intros H Hk. rewrite H, decide_True by lia. do 2 f_equal. lia. Qed.

Lemma is_log_dense b m l : is_log b m l → dense (Z.of_nat b) (Z.of_nat (length l)) m.
Proof.
  intros H i. rewrite H. destruct (decide (Z.of_nat b < i)) as [Hi|Hi].
  - rewrite fmap_is_Some, lookup_lt_is_Some. lia.
  - split; [by intros [? ?]|lia].
Qed.

(** A row is an entry. *)
Lemma is_log_row b m l i r :
  is_log b m l → m !! i = Some r → ∃ e, Z.of_nat b < i ∧ l !! Z.to_nat (i - 1) = Some e ∧ r = row e.
Proof.
  intros H. rewrite H. destruct (decide (Z.of_nat b < i)); [|done].
  destruct (l !! Z.to_nat (i - 1)) as [e|]; [|done]. intros [= <-]. by exists e.
Qed.

Lemma row_term e : is_u64 e.1 → uint64 (row e).1 = e.1.
Proof. apply uint64_int64_id. Qed.

Lemma words_lookup l k e : words l → l !! k = Some e → is_u64 e.1.
Proof. intros H He. apply H. by eapply list_elem_of_lookup_2. Qed.

Lemma words_lterm l k : words l → is_u64 (lterm l k).
Proof.
  intros H. destruct k as [|k]; [done|]. cbn. destruct (l !! k) as [e|] eqn:E; [|done]. by eapply words_lookup.
Qed.

Section log.
Context (b : nat) (t : tables) (l : list ent)
  (Hm : spec_SnapshotIndexTerm t = Some (Z.of_nat b, lterm l b))
  (Hl : is_log b (log_entries t) l) (Hw : words l) (Hb : (b <= length l)%nat)
  (Hlen : Z.of_nat (length l) < two63).

Lemma is_log_shape : shape t (Z.of_nat b) (lterm l b) (Z.of_nat (length l)).
Proof. split; [done|by apply is_log_dense|lia|unfold is_idx; lia]. Qed.

Lemma is_log_term k :
  (b <= k <= length l)%nat → term_at t (Z.of_nat b) (lterm l b) (Z.of_nat k) = Some (lterm l k).
Proof.
  intros Hk. unfold term_at. destruct k as [|k]; [done|].
  destruct (Z.eqb_spec (Z.of_nat (S k)) 0); [lia|].
  destruct (Z.eqb_spec (Z.of_nat (S k)) (Z.of_nat b)) as [E|E]; [by replace b with (S k) by lia|].
  rewrite (is_log_lookup _ _ _ _ Hl) by lia.
  destruct (lookup_lt_is_Some_2 l k) as [e He]; [lia|]. rewrite (lterm_lookup _ _ _ He), He. cbn.
  f_equal. apply row_term. by eapply words_lookup.
Qed.

Lemma is_log_term_inv i tm :
  Z.of_nat b <= i → term_at t (Z.of_nat b) (lterm l b) i = Some tm →
  ∃ k, i = Z.of_nat k ∧ (b <= k <= length l)%nat ∧ tm = lterm l k.
Proof.
  intros Hi Ht. pose proof (term_at_range _ _ _ _ _ _ is_log_shape Hi Ht).
  exists (Z.to_nat i). split_and!; [lia|lia|lia|].
  assert (Some tm = Some (lterm l (Z.to_nat i))) as [=]; [|done].
  rewrite <- is_log_term, <- Ht by lia. f_equal. lia.
Qed.

Lemma is_log_last : spec_LastIndexAndTerm t = Some (Z.of_nat (length l), last_lterm l).
Proof.
  rewrite (spec_LastIndexAndTerm_shape _ _ _ _ is_log_shape). do 2 f_equal.
  destruct (decide (length l = 0)%nat) as [E|E].
  - unfold last_term, last_lterm. rewrite E. by destruct (0 =? Z.of_nat b)%Z eqn:?; replace b with 0%nat by lia.
  - assert (Some (last_term t (Z.of_nat b) (lterm l b) (Z.of_nat (length l))) = Some (last_lterm l)) as [=]; [|done].
    rewrite <- (last_term_at _ _ _ _ is_log_shape) by lia. unfold last_lterm. apply is_log_term. lia.
Qed.

(** Compacting. *)
Lemma is_log_kept base' bterm' t' :
  log_kept (Z.of_nat b) (lterm l b) (Z.of_nat (length l)) t base' bterm' t' →
  ∃ b', base' = Z.of_nat b' ∧ bterm' = lterm l b' ∧ (b <= b' <= length l)%nat
    ∧ is_log b' (log_entries t') l ∧ spec_SnapshotIndexTerm t' = Some (Z.of_nat b', lterm l b').
Proof.
  intros [K1 K2 K3 K4 K5]. pose proof (sh_base _ _ _ _ K1) as Hb'.
  exists (Z.to_nat base'). assert (base' = Z.of_nat (Z.to_nat base')) as Eb by lia.
  set (b' := Z.to_nat base') in *. clearbody b'. subst base'.
  assert (bterm' = lterm l b') as ->.
  { destruct (decide (b' = b)) as [->|Hne]; [by apply K5|].
    pose proof (K4 (Z.of_nat b') ltac:(lia)) as H. rewrite is_log_term in H by lia.
    unfold term_at in H. destruct (Z.eqb_spec (Z.of_nat b') 0); [lia|].
    rewrite Z.eqb_refl in H. by injection H. }
  split_and!; [done|done|lia|lia| |apply K1].
  intros i. destruct (decide (Z.of_nat b' < i)) as [Hi|Hi].
  - rewrite K3 by done. rewrite Hl. by rewrite decide_True by lia.
  - destruct (log_entries t' !! i) eqn:E; [|done].
    assert (is_Some (log_entries t' !! i)) as Hs by eauto. apply (sh_dense _ _ _ _ K1) in Hs. lia.
Qed.
End log.

(** ** Writing *)

Lemma is_log_take b m l k :
  is_log b m l → (k <= length l)%nat →
  is_log b (filter (λ kv, kv.1 < Z.of_nat (S k)) m) (take k l).
Proof.
  intros H Hk i. destruct (decide (Z.of_nat b < i)) as [Hi|Hi].
  - destruct (decide (i < Z.of_nat (S k))) as [Hlt|Hge].
    + rewrite lookup_take_lt by lia. pose proof (H i) as Hi'. rewrite decide_True in Hi' by lia.
      destruct (l !! Z.to_nat (i - 1)) as [e|] eqn:E; cbn in *.
      * apply map_lookup_filter_Some. by cbn.
      * apply map_lookup_filter_None. by left.
    + rewrite lookup_take_ge by lia. apply map_lookup_filter_None. right. intros r _. cbn. lia.
  - apply map_lookup_filter_None. left. rewrite H. by rewrite decide_False.
Qed.

Lemma row_of_ents es k : row_of <$> es !! k = row <$> ents es !! k.
Proof. unfold ents. rewrite list_lookup_fmap. by destruct (es !! k). Qed.

Lemma is_log_upserts b m l es :
  is_log b m l → (b <= length l)%nat → chunk (Z.of_nat (length l)) es → is_idx (Z.of_nat (length l) + Z.of_nat (length es)) →
  is_log b (foldl upsert_row m es) (l ++ ents es).
Proof.
  intros H Hb Hc Hi i. rewrite (foldl_upsert _ (Z.of_nat (length l))) by (done || lia).
  destruct (decide (Z.of_nat b < i)) as [Hpos|Hn].
  - destruct (decide (Z.of_nat (length l) < i <= Z.of_nat (length l) + Z.of_nat (length es))) as [[H1 H2]|Hout].
    + rewrite lookup_app_r by lia. rewrite row_of_ents. do 2 f_equal. lia.
    + rewrite H, decide_True by done. destruct (decide (i <= Z.of_nat (length l))) as [Hle|Hgt].
      * rewrite lookup_app_l by lia. done.
      * rewrite (lookup_ge_None_2 l) by lia. rewrite (lookup_ge_None_2 (l ++ _)); [done|].
        rewrite length_app. unfold ents. rewrite length_fmap. lia.
  - rewrite decide_False by lia. rewrite H. by rewrite decide_False.
Qed.

Lemma is_log_merge b es m l p :
  is_log b m l → words l → chunk (Z.of_nat p) es → (b <= p <= length l)%nat →
  is_idx (Z.of_nat p + Z.of_nat (length es)) →
  is_log b (merge m es) (amerge l p (ents es)).
Proof.
  intros H Hw. revert p. induction es as [|e es IH]; intros p Hc Hp Hi; [done|].
  pose proof Hc as (He & Ht & Hc'). cbn [merge ents fmap list_fmap amerge length] in *.
  assert (is_idx (Z.of_nat (S p))) as Hip by (unfold is_idx, two63 in *; lia).
  replace (Z.of_nat p + 1) with (Z.of_nat (S p)) in * by lia.
  rewrite He, (is_log_lookup _ _ _ _ H) by lia.
  assert (∀ m', is_log b m' (take p l) →
    is_log b (foldl upsert_row m' (e :: es)) (take p l ++ ents (e :: es))) as Hput.
  { intros m' Hm'. assert (length (take p l) = p) as Elen by (rewrite length_take; lia).
    apply is_log_upserts; [done|lia|by rewrite Elen|]. rewrite Elen. cbn [length]. done. }
  destruct (l !! p) as [x|] eqn:Ex; cbn [fmap option_fmap option_map].
  - unfold row at 1. cbn. rewrite uint64_int64_id by (by eapply words_lookup).
    destruct (Z.eqb_spec x.1 (Entry_Term e)) as [Heq|Hne].
    + rewrite bool_decide_true by done. apply (IH (S p)); [done| |].
      * apply lookup_lt_Some in Ex. lia.
      * unfold is_idx in *. lia.
    + rewrite bool_decide_false by done. apply Hput. rewrite int64_id by done. apply is_log_take; [done|lia].
  - apply Hput. rewrite take_ge; [done|]. by apply lookup_ge_None_1.
Qed.

Lemma is_log_append b m l e :
  is_log b m l → (b <= length l)%nat → is_log b (<[Z.of_nat (S (length l)) := row e]> m) (l ++ [e]).
Proof.
  intros H Hb i. destruct (decide (i = Z.of_nat (S (length l)))) as [->|Hne].
  - rewrite lookup_insert_eq, decide_True by lia. rewrite lookup_app_r by lia.
    by replace (Z.to_nat _ - length l)%nat with 0%nat by lia.
  - rewrite lookup_insert_ne by done. rewrite H. destruct (decide (Z.of_nat b < i)); [|done].
    destruct (decide (i <= Z.of_nat (length l))).
    + by rewrite lookup_app_l by lia.
    + rewrite (lookup_ge_None_2 l), (lookup_ge_None_2 (l ++ _)); [done| |lia].
      rewrite length_app. cbn. lia.
Qed.

(** What an unfinished request leaves, as a list. *)
Lemma is_log_cut_short b m l p es m1 :
  is_log b m l → words l → chunk (Z.of_nat p) es → (b <= p)%nat → cut_short m es m1 →
  m1 = m ∨ ∃ j x e, (p <= j)%nat ∧ l !! j = Some x ∧ ents es !! (j - p)%nat = Some e ∧ x.1 ≠ e.1
    ∧ is_log b m1 (take j l).
Proof.
  intros H Hw Hc Hb [->|(e & He & [r Hr] & Hno & Hm1)]; [by left|]. right.
  destruct (chunk_elem _ _ _ Hc He) as [Hrange Hu].
  apply list_elem_of_lookup in He as [k Hk].
  assert (Entry_Index e = Z.of_nat (S (p + k))) as Ei.
  { clear -Hc Hk. revert p k Hc Hk. induction es as [|e0 es IH]; intros p k Hc Hk; [done|].
    destruct Hc as (E & _ & Hc). destruct k as [|k]; [injection Hk as <-; lia|].
    replace (Z.of_nat p + 1) with (Z.of_nat (S p)) in Hc by lia.
    rewrite (IH (S p) k Hc Hk). lia. }
  rewrite Ei, (is_log_lookup _ _ _ _ H) in Hr by lia.
  destruct (l !! (p + k)%nat) as [x|] eqn:Ex; [|done]. injection Hr as <-.
  exists (p + k)%nat, x, (Entry_Term e, Entry_Command e). split_and!; [lia|done| | |].
  - unfold ents. rewrite list_lookup_fmap. replace (p + k - p)%nat with k by lia. by rewrite Hk.
  - cbn. intros E. apply Hno. exists (int64 x.1), x.2. split.
    + rewrite Ei, (is_log_lookup _ _ _ _ H), Ex by lia. done.
    + rewrite uint64_int64_id by (by eapply words_lookup). done.
  - intros i. rewrite Hm1, Ei. destruct (decide (i < _)) as [Hlt|Hge].
    + rewrite H. destruct (decide (Z.of_nat b < i)); [|done]. by rewrite lookup_take_lt by lia.
    + destruct (decide (Z.of_nat b < i)); [|done]. by rewrite lookup_take_ge by lia.
Qed.

Lemma words_amerge l p es : words l → words es → words (amerge l p es).
Proof.
  intros Hl. revert p. induction es as [|e es IH]; intros p He; [done|].
  assert (words (take p l ++ e :: es)) as Hput.
  { intros x [Hx|Hx]%elem_of_app; [|by apply He]. apply Hl. eapply elem_of_prefix; [exact Hx|apply prefix_take]. }
  cbn. destruct (l !! p); [|done]. case_bool_decide; [|done]. apply IH. intros x Hx. apply He. by right.
Qed.

Lemma words_chunk p es : chunk p es → words (ents es).
Proof.
  intros Hc x Hx. unfold ents in Hx. apply list_elem_of_fmap in Hx as (e & -> & He).
  by apply (chunk_elem _ _ _ Hc).
Qed.

(** ** Replaying *)

(** The table, as clients see it, after the commands of [l] have been applied to [m]. *)
Fixpoint outcome_from (m : gmap string string) (l : list ent) : option (gmap string string) :=
  match l with
  | [] => Some m
  | e :: l' =>
      match decodeCommand e.2 with
      | Ok cmd => outcome_from (<[cmd_Key cmd := cmd_Value cmd]> m) l'
      | Err _ => None
      end
  end.

Definition outcome : list ent → option (gmap string string) := outcome_from ∅.

Lemma outcome_from_app l1 l2 m :
  outcome_from m (l1 ++ l2) = (m' ← outcome_from m l1; outcome_from m' l2).
Proof.
  revert m. induction l1 as [|e l1 IH]; intros m; cbn; [done|]. destruct (decodeCommand e.2); [apply IH|done].
Qed.

Lemma outcome_valid l m v : valid_map m → outcome_from m l = Some v → valid_map v.
Proof.
  revert m. induction l as [|e l IH]; intros m Hm; cbn; [by intros [= <-]|].
  destruct (decodeCommand e.2) as [cmd|] eqn:E; [|done]. apply IH.
  apply map_Forall_insert_2; [|done]. by eapply decodeCommand_valid.
Qed.

Lemma replay_outcome b m l kv a k kv' :
  is_log b m l → (b <= a)%nat → replay m kv (Z.of_nat a) k = Some kv' →
  outcome_from (fst <$> kv) (take k (skipn a l)) = Some (fst <$> kv').
Proof.
  intros H. revert kv a. induction k as [|k IH]; intros kv a Ha; cbn [replay].
  { intros [= ->]. by rewrite take_0. }
  replace (Z.of_nat a + 1) with (Z.of_nat (S a)) by lia. rewrite (is_log_lookup _ _ _ _ H Ha).
  destruct (l !! a) as [e|] eqn:E; [|done]. cbn [fmap option_fmap option_map row snd].
  rewrite (drop_S _ _ _ E). cbn [take outcome_from].
  destruct (decodeCommand e.2) as [cmd|]; [|done]. intros Hr. apply IH in Hr; [|lia].
  by rewrite fmap_insert in Hr.
Qed.

(** Applying goes on from where it was. *)
Lemma outcome_replayed b m l t t' a a' :
  is_log b m l → (b <= a)%nat → Z.of_nat a <= a' →
  outcome (take a l) = Some (kv_values t) →
  replay m (kv t) (Z.of_nat a) (Z.to_nat (a' - Z.of_nat a)) = Some (kv t') →
  outcome (take (Z.to_nat a') l) = Some (kv_values t').
Proof.
  intros H Hb Ha Hout Hr. apply (replay_outcome _ _ _ _ _ _ _ H Hb) in Hr.
  replace (Z.to_nat a') with (a + Z.to_nat (a' - Z.of_nat a))%nat by lia.
  rewrite <- take_take_drop. unfold outcome in *. rewrite outcome_from_app, Hout. exact Hr.
Qed.
