(* ===== verification/RaftSpec.v ===== *)
(** * Raft, abstractly

    The protocol the node implements, as a transition system on roles, terms, votes
    and logs of whole members, with a record of everything sent: the specification
    that executions of the cluster are shown to refine.  Logs are whole: compaction is
    not part of it, and a snapshot is a request that starts at the first entry.
    [tainted] tells that some follower has moved its commit index beyond the entries the
    request covered, or of its own accord; from then on commit indexes mean nothing. *)

From stdpp Require Import strings gmap list.
From S2P Require Import Prelude Types RaftLogs.
#[local] Open Scope nat_scope.

Record anode := ANode {
  a_role : Role;
  a_term : Z;
  a_vote : string;
  a_log : list ent;
  a_commit : nat;
  a_match : gmap string nat
}.

Record amsg := AMsg {
  m_term : Z;
  m_prev : nat;
  m_pterm : Z;
  m_es : list ent;
  m_commit : nat
}.

(** The members, the logs of the leaders, and what has happened so far: votes (voter,
    term, candidate, the voter's log), candidacies (candidate, term, log), requests
    sent and acknowledgements (member, term, number of entries). *)
Record astate := AState {
  mem : gmap string anode;
  lead : logs;
  avotes : list (string * Z * string * list ent);
  cands : list (string * Z * list ent);
  msgs : list amsg;
  acks : list (string * Z * nat);
  tainted : bool
}.

(** Adopting a term as a follower. *)
Definition follow (T : Z) (nd : anode) : anode :=
  ANode RoleFollower T (if bool_decide (a_term nd < T)%Z then "" else a_vote nd)
    (a_log nd) (a_commit nd) (a_match nd).

Definition with_vote (c : string) (nd : anode) : anode :=
  ANode (a_role nd) (a_term nd) c (a_log nd) (a_commit nd) (a_match nd).

Definition with_log_commit (l : list ent) (c : nat) (nd : anode) : anode :=
  ANode (a_role nd) (a_term nd) (a_vote nd) l c (a_match nd).

Definition with_match (m : gmap string nat) (nd : anode) : anode :=
  ANode (a_role nd) (a_term nd) (a_vote nd) (a_log nd) (a_commit nd) m.

Definition set_mem (i : string) (nd : anode) (s : astate) : astate :=
  AState (<[i := nd]> (mem s)) (lead s) (avotes s) (cands s) (msgs s) (acks s) (tainted s).

Definition set_lead (T : Z) (g : list ent) (s : astate) : astate :=
  AState (mem s) (<[T := g]> (lead s)) (avotes s) (cands s) (msgs s) (acks s) (tainted s).

Definition add_vote x (s : astate) : astate :=
  AState (mem s) (lead s) (x :: avotes s) (cands s) (msgs s) (acks s) (tainted s).

Definition add_cand x (s : astate) : astate :=
  AState (mem s) (lead s) (avotes s) (x :: cands s) (msgs s) (acks s) (tainted s).

Definition add_msg x (s : astate) : astate :=
  AState (mem s) (lead s) (avotes s) (cands s) (x :: msgs s) (acks s) (tainted s).

Definition add_ack x (s : astate) : astate :=
  AState (mem s) (lead s) (avotes s) (cands s) (msgs s) (x :: acks s) (tainted s).

Definition taint (b : bool) (s : astate) : astate :=
  AState (mem s) (lead s) (avotes s) (cands s) (msgs s) (acks s) (tainted s || b).

(** A commit index a follower may take from a request: none beyond its last entry. *)
Definition covered (c c' : nat) (m : amsg) : Prop :=
  c' = c ∨ (c' ≤ m_commit m ∧ c' ≤ m_prev m + length (m_es m)).

#[global] Instance covered_dec c c' m : Decision (covered c c' m).
Proof. unfold covered. apply _. Defined.

Section protocol.
Context (members : list string).

Definition quorum (q : list string) : Prop :=
  NoDup q ∧ (∀ v, v ∈ q → v ∈ members) ∧ length members < 2 * length q.

Inductive astep (s : astate) : astate → Prop :=
| a_follow i nd T :
    mem s !! i = Some nd → (a_term nd ≤ T)%Z →
    astep s (set_mem i (follow T nd) s)
| a_timeout i nd :
    mem s !! i = Some nd → i ≠ "" →
    astep s (add_cand (i, a_term nd + 1, a_log nd)%Z (add_vote (i, a_term nd + 1, i, a_log nd)%Z
      (set_mem i (ANode RoleCandidate (a_term nd + 1) i (a_log nd) (a_commit nd) (a_match nd)) s)))
| a_grant v nd c T lc :
    mem s !! v = Some nd → (a_term nd ≤ T)%Z → (c, T, lc) ∈ cands s →
    (a_term nd < T)%Z ∨ a_vote nd = "" ∨ a_vote nd = c → uptodate lc (a_log nd) →
    astep s (add_vote (v, T, c, a_log nd)
      (set_mem v (with_vote c (if decide (a_term nd < T)%Z then follow T nd else nd)) s))
| a_win i nd q :
    mem s !! i = Some nd → a_role nd = RoleCandidate → quorum q →
    (∀ v, v ∈ q → ∃ lv, (v, a_term nd, i, lv) ∈ avotes s) →
    astep s (add_ack (i, a_term nd, length (a_log nd)) (set_lead (a_term nd) (a_log nd)
      (set_mem i (ANode RoleLeader (a_term nd) (a_vote nd) (a_log nd) (a_commit nd) ∅) s)))
| a_append i nd cmd :
    mem s !! i = Some nd → a_role nd = RoleLeader →
    let l := a_log nd ++ [(a_term nd, cmd)] in
    astep s (add_ack (i, a_term nd, length l) (set_lead (a_term nd) l
      (set_mem i (with_log_commit l (a_commit nd) nd) s)))
| a_send i nd p k :
    mem s !! i = Some nd → a_role nd = RoleLeader → p ≤ length (a_log nd) →
    astep s (add_msg (AMsg (a_term nd) p (lterm (a_log nd) p) (take k (drop p (a_log nd)))
      (a_commit nd)) s)
| a_accept v nd m c' :
    mem s !! v = Some nd → m ∈ msgs s → (a_term nd ≤ m_term m)%Z →
    m_prev m ≤ length (a_log nd) → lterm (a_log nd) (m_prev m) = m_pterm m →
    astep s (taint (negb (bool_decide (covered (a_commit nd) c' m)))
      (add_ack (v, m_term m, m_prev m + length (m_es m))
        (set_mem v (with_log_commit (amerge (a_log nd) (m_prev m) (m_es m)) c' (follow (m_term m) nd)) s)))
| a_trim v nd m j x e :
    mem s !! v = Some nd → m ∈ msgs s → (a_term nd ≤ m_term m)%Z → m_prev m ≤ j →
    a_log nd !! j = Some x → m_es m !! (j - m_prev m) = Some e → x.1 ≠ e.1 →
    astep s (set_mem v (with_log_commit (take j (a_log nd)) (a_commit nd) (follow (m_term m) nd)) s)
| a_reply i nd v k :
    mem s !! i = Some nd → a_role nd = RoleLeader → (v, a_term nd, k) ∈ acks s →
    astep s (set_mem i (with_match (<[v := Nat.max k (default 0 (a_match nd !! v))]> (a_match nd)) nd) s)
| a_commit_to i nd c q :
    mem s !! i = Some nd → a_role nd = RoleLeader → 0 < c ≤ length (a_log nd) → a_commit nd ≤ c →
    lterm (a_log nd) c = a_term nd → quorum q →
    (∀ v, v ∈ q → v = i ∨ c ≤ default 0 (a_match nd !! v)) →
    astep s (set_mem i (with_log_commit (a_log nd) c nd) s)
| a_restart i nd c' :
    mem s !! i = Some nd → (tainted s = false → c' ≤ a_commit nd) →
    astep s (set_mem i (ANode RoleFollower (a_term nd) (a_vote nd) (a_log nd) c' ∅) s)
| a_usurp i nd :
    mem s !! i = Some nd → a_role nd ≠ RoleLeader →
    astep s (taint true s)
| a_wander i nd c' :
    mem s !! i = Some nd → tainted s = true →
    astep s (set_mem i (with_log_commit (a_log nd) c' nd) s).

(** ** The invariant *)

Definition cand_ok (s : astate) (c : string) (T : Z) (lc : list ent) : Prop :=
  (0 < T)%Z ∧ c ≠ "" ∧ good (lead s) lc ∧ (∀ e, e ∈ lc → (e.1 < T)%Z)
  ∧ ∃ nd, mem s !! c = Some nd ∧ (T ≤ a_term nd)%Z.

Definition acks_kept (s : astate) (v : string) (T : Z) (lv : list ent) (bound : Z) : Prop :=
  ∀ T0 k j, (v, T0, k) ∈ acks s → (T0 < T)%Z → j ≤ k → kept (lead s) T0 j lv bound.

Definition vote_ok (s : astate) (v : string) (T : Z) (c : string) (lv : list ent) : Prop :=
  (∃ nd, mem s !! v = Some nd ∧ (T ≤ a_term nd)%Z ∧ (T = a_term nd → a_vote nd = c))
  ∧ good (lead s) lv ∧ (∃ lc, (c, T, lc) ∈ cands s ∧ uptodate lc lv)
  ∧ acks_kept s v T lv T.

(** [c] was elected in [T] with the log [lc]. *)
Definition won (s : astate) (T : Z) (c : string) : Prop :=
  ∃ g lc q, lead s !! T = Some g ∧ (c, T, lc) ∈ cands s ∧ lc `prefix_of` g ∧ quorum q
    ∧ ∀ v, v ∈ q → ∃ lv, (v, T, c, lv) ∈ avotes s ∧ acks_kept s v T lv (T - 1).

Definition ack_ok (s : astate) (v : string) (T : Z) (k : nat) : Prop :=
  ∃ g nd, lead s !! T = Some g ∧ k ≤ length g ∧ mem s !! v = Some nd ∧ (T ≤ a_term nd)%Z
    ∧ ∀ j, j ≤ k → kept (lead s) T j (a_log nd) (a_term nd).

Definition msg_ok (s : astate) (m : amsg) : Prop :=
  ∃ g, lead s !! m_term m = Some g ∧ m_prev m ≤ length g ∧ m_pterm m = lterm g (m_prev m)
    ∧ m_es m `prefix_of` drop (m_prev m) g.

(** A majority has acknowledged the first [k] entries of the leader of [T], the last of
    which is of that term. *)
Definition committed (s : astate) (T : Z) (g : list ent) (k : nat) : Prop :=
  lead s !! T = Some g ∧ 0 < k ≤ length g ∧ lterm g k = T
  ∧ ∃ q, quorum q ∧ ∀ v, v ∈ q → ∃ k', k ≤ k' ∧ (v, T, k') ∈ acks s.

(** The first [c] entries of [l] are committed, by a leader of a term up to [tm]. *)
Definition commits (s : astate) (tm : Z) (l : list ent) (c : nat) : Prop :=
  c = 0 ∨ ∃ T g k, committed s T g k ∧ (T ≤ tm)%Z ∧ c ≤ k ∧ c ≤ length l ∧ take c l = take c g.

Record node_ok (s : astate) (i : string) (nd : anode) : Prop := {
  no_term : (0 ≤ a_term nd)%Z;
  no_good : good (lead s) (a_log nd);
  no_terms e : e ∈ a_log nd → (e.1 ≤ a_term nd)%Z;
  no_cand : a_role nd = RoleCandidate → (i, a_term nd, a_log nd) ∈ cands s ∧ ¬ won s (a_term nd) i;
  no_lead : a_role nd = RoleLeader → lead s !! a_term nd = Some (a_log nd) ∧ won s (a_term nd) i;
  no_match v k : a_role nd = RoleLeader → a_match nd !! v = Some k →
    ∃ k', k ≤ k' ∧ (v, a_term nd, k') ∈ acks s;
  no_self : a_role nd = RoleLeader → (i, a_term nd, length (a_log nd)) ∈ acks s;
  no_commit : tainted s = false → commits s (a_term nd) (a_log nd) (a_commit nd)
}.

Record raft_inv (s : astate) : Prop := {
  ri_lead : leaders_good (lead s);
  ri_node i nd : mem s !! i = Some nd → node_ok s i nd;
  ri_cand c T lc : (c, T, lc) ∈ cands s → cand_ok s c T lc;
  ri_cand1 c T lc lc' : (c, T, lc) ∈ cands s → (c, T, lc') ∈ cands s → lc = lc';
  ri_vote v T c lv : (v, T, c, lv) ∈ avotes s → vote_ok s v T c lv;
  ri_vote1 v T c c' lv lv' : (v, T, c, lv) ∈ avotes s → (v, T, c', lv') ∈ avotes s → c = c';
  ri_won T g : lead s !! T = Some g → ∃ c, won s T c;
  ri_ack v T k : (v, T, k) ∈ acks s → ack_ok s v T k;
  ri_msg m : m ∈ msgs s → msg_ok s m;
  ri_msg_commit m g : m ∈ msgs s → tainted s = false → lead s !! m_term m = Some g →
    commits s (m_term m) g (m_commit m)
}.

Lemma quorums_meet q1 q2 : quorum q1 → quorum q2 → ∃ v, v ∈ q1 ∧ v ∈ q2.
Proof.
  intros (H1 & M1 & L1) (H2 & M2 & L2). apply (quorum_intersection members); [done..|lia].
Qed.

Lemma won_unique s T c c' : raft_inv s → won s T c → won s T c' → c = c'.
Proof.
  intros Hi (g & lc & q & _ & _ & _ & Hq & Hv) (g' & lc' & q' & _ & _ & _ & Hq' & Hv').
  destruct (quorums_meet q q' Hq Hq') as (v & H1 & H2).
  destruct (Hv v H1) as (lv & E1 & _). destruct (Hv' v H2) as (lv' & E2 & _).
  by eapply (ri_vote1 s Hi).
Qed.

Lemma commits_le s tm l c c' : c' ≤ c → commits s tm l c → commits s tm l c'.
Proof.
  intros Hle [->|(T & g & k & Hc & HT & Hk & Hl & E)]; [left; lia|]. right. exists T, g, k.
  split_and!; [done|done|lia|lia|]. replace c' with (c' `min` c) by lia.
  rewrite <- !take_take. by rewrite E.
Qed.

(** ** Leader completeness *)

Lemma leader_completeness_aux s T g k :
  raft_inv s → committed s T g k →
  ∀ n T' g', Z.to_nat T' ≤ n → (T < T')%Z → lead s !! T' = Some g' → take k g `prefix_of` g'.
Proof.
  intros Hi (Hg & Hk & Hterm & q & Hq & Hacks) n. induction n as [|n IH]; intros T' g' Hn HT Hg'.
  { destruct (ri_lead s Hi _ _ Hg') as [? _]. lia. }
  destruct (ri_won s Hi _ _ Hg') as (c & gc & lc & qc & Hgc & Hc & Hpre & Hqc & Hv).
  assert (gc = g') as -> by congruence.
  destruct (quorums_meet q qc Hq Hqc) as (v & Hvq & Hvc).
  destruct (Hacks v Hvq) as (k' & Hk' & Hack). destruct (Hv v Hvc) as (lv & Hvote & Hkept).
  destruct (ri_vote s Hi _ _ _ _ Hvote) as (_ & Hlv & (lc' & Hc' & Hup) & _).
  assert (lc' = lc) as -> by (by eapply (ri_cand1 s Hi)).
  destruct (ri_cand s Hi _ _ _ Hc) as (_ & _ & Hlc & Hlt & _).
  assert (∀ T'' g'', (T < T'' ≤ T' - 1)%Z → lead s !! T'' = Some g'' → take k g `prefix_of` g'') as Hbetween.
  { intros T'' g'' HT'' Hg''. eapply (IH T''); [|lia|done]. pose proof (ri_lead s Hi _ _ Hg) as [? _]. lia. }
  assert (take k g `prefix_of` lv) as Hin.
  { destruct (Hkept T k' k Hack HT Hk' g Hg) as [Hp|(T'' & g'' & HT'' & Hg'' & Hno)]; [done|].
    destruct Hno. by eapply Hbetween. }
  etrans; [|exact Hpre]. eapply (uptodate_kept (lead s) T g k lc lv); try done; [apply Hi|].
  intros T'' g'' HT'' El Hg''. eapply Hbetween; [|exact Hg'']. split; [done|].
  assert (0 < length lc) as Hlen.
  { destruct lc; [|cbn; lia]. pose proof (ri_lead s Hi _ _ Hg) as [? _].
    change (last_lterm []) with 0%Z in El. lia. }
  destruct (length lc) as [|j] eqn:Ej; [lia|]. destruct (lookup_lt_is_Some_2 lc j) as [e He]; [lia|].
  assert (T'' = e.1) as -> by (rewrite El; unfold last_lterm; rewrite Ej; by apply lterm_lookup).
  assert (e.1 < T')%Z; [|lia]. apply Hlt. by eapply list_elem_of_lookup_2.
Qed.

(** What a majority has acknowledged, every later leader has. *)
Lemma leader_completeness s T g k T' g' :
  raft_inv s → committed s T g k → (T < T')%Z → lead s !! T' = Some g' → take k g `prefix_of` g'.
Proof. intros. by eapply (leader_completeness_aux s T g k). Qed.

Lemma committed_agree s T1 g1 k1 T2 g2 k2 c :
  raft_inv s → committed s T1 g1 k1 → committed s T2 g2 k2 → c ≤ k1 → c ≤ k2 →
  take c g1 = take c g2.
Proof.
  intros Hi H1 H2 Hc1 Hc2.
  assert (∀ T1 g1 k1 T2 g2 k2, committed s T1 g1 k1 → committed s T2 g2 k2 → c ≤ k1 → c ≤ k2 →
    (T1 < T2)%Z → take c g1 = take c g2) as Haux.
  { clear -Hi. intros T1 g1 k1 T2 g2 k2 H1 H2 Hc1 Hc2 HT. pose proof H1 as (Hg1 & Hk1 & _).
    pose proof (leader_completeness s T1 g1 k1 T2 g2 Hi H1 HT (proj1 H2)) as Hp.
    rewrite <- (prefix_take_eq _ _ c Hp) by (rewrite length_take; lia). rewrite take_take. f_equal. lia. }
  destruct (Z.lt_trichotomy T1 T2) as [?|[->|?]].
  - by eapply Haux.
  - destruct H1 as [E1 _], H2 as [E2 _]. congruence.
  - symmetry. by eapply (Haux T2 g2 k2 T1 g1 k1).
Qed.

(** ** What a step adds *)

Record ext (s s' : astate) : Prop := {
  x_grows : grows (lead s) (lead s');
  x_mem i nd : mem s !! i = Some nd → ∃ nd', mem s' !! i = Some nd' ∧ (a_term nd ≤ a_term nd')%Z
    ∧ (a_term nd = a_term nd' → a_vote nd ≠ "" → a_vote nd' = a_vote nd);
  x_votes : avotes s ⊆ avotes s';
  x_cands : cands s ⊆ cands s';
  x_acks : acks s ⊆ acks s';
  x_new v T k : (v, T, k) ∈ acks s' →
    (v, T, k) ∈ acks s ∨ ∃ nd, mem s !! v = Some nd ∧ (a_term nd ≤ T)%Z;
  x_taint : tainted s' = false → tainted s = false
}.

Section extension.
Context (s s' : astate) (Hi : raft_inv s) (Hx : ext s s').

Lemma good_ext l : good (lead s) l → good (lead s') l.
Proof. apply good_grows, Hx. Qed.

Lemma kept_ext v T k j l tm :
  (v, T, k) ∈ acks s → j ≤ k → kept (lead s) T j l tm → kept (lead s') T j l tm.
Proof.
  intros Ha Hj Hk. destruct (ri_ack s Hi _ _ _ Ha) as (g & nd & Hg & Hlen & _).
  eapply kept_grows; [apply Hi|apply Hx|exact Hg|lia|done].
Qed.

Lemma cand_ok_ext c T lc : cand_ok s c T lc → cand_ok s' c T lc.
Proof.
  intros (H1 & H2 & H3 & H4 & nd & Hnd & HT). split_and!; try done; [by apply good_ext|].
  destruct (x_mem s s' Hx c nd Hnd) as (nd' & ? & ? & _). exists nd'. split; [done|lia].
Qed.

Lemma acks_kept_ext v T lv b nd :
  mem s !! v = Some nd → (T ≤ a_term nd)%Z → acks_kept s v T lv b → acks_kept s' v T lv b.
Proof.
  intros Hnd HT Hk T0 k j Ha HT0 Hj. destruct (x_new s s' Hx _ _ _ Ha) as [Ho|(nd' & Hnd' & ?)].
  - eapply kept_ext; [exact Ho|done|by eapply Hk].
  - assert (nd' = nd) as -> by congruence. lia.
Qed.

Lemma vote_ok_ext v T c lv : c ≠ "" → vote_ok s v T c lv → vote_ok s' v T c lv.
Proof.
  intros Hc ((nd & Hnd & HT & Hv) & H2 & (lc & Hlc & Hup) & H4).
  split_and!; [|by apply good_ext| |by eapply acks_kept_ext].
  - destruct (x_mem s s' Hx v nd Hnd) as (nd' & Hnd' & Hle & Hvote). exists nd'.
    split_and!; [done|lia|]. intros ->. rewrite Hvote; [apply Hv|..]; try lia. by rewrite Hv by lia.
  - exists lc. split; [by apply Hx|done].
Qed.

Lemma won_ext T c : won s T c → won s' T c.
Proof.
  intros (g & lc & q & Hg & Hc & Hp & Hq & Hv).
  destruct (grows_prefix _ _ _ _ (x_grows s s' Hx) Hg) as (g' & Hg' & Hpp).
  exists g', lc, q. split_and!; [done|by apply Hx|by etrans|done|].
  intros v Hin. destruct (Hv v Hin) as (lv & Hlv & Hk). exists lv. split; [by apply Hx|].
  destruct (ri_vote s Hi _ _ _ _ Hlv) as ((nd & Hnd & HT & _) & _). by eapply acks_kept_ext.
Qed.

Lemma won_back T c :
  (∀ v T c c' lv lv', (v, T, c, lv) ∈ avotes s' → (v, T, c', lv') ∈ avotes s' → c = c') →
  is_Some (lead s !! T) → won s' T c → won s T c.
Proof.
  intros H1 [g Hg] (g' & lc & q & _ & _ & _ & Hq & Hv).
  destruct (ri_won s Hi _ _ Hg) as (c0 & Hw). pose proof (won_ext _ _ Hw) as Hw'.
  destruct Hw' as (g0 & lc0 & q0 & _ & _ & _ & Hq0 & Hv0).
  destruct (quorums_meet q q0 Hq Hq0) as (v & Hin & Hin0).
  destruct (Hv v Hin) as (lv & Hl & _). destruct (Hv0 v Hin0) as (lv0 & Hl0 & _).
  by assert (c = c0) as -> by (by eapply H1).
Qed.

Lemma ack_ok_ext v T k nd nd' :
  mem s !! v = Some nd → mem s' !! v = Some nd' → (a_term nd ≤ a_term nd')%Z →
  (∀ j, j ≤ k → kept (lead s) T j (a_log nd) (a_term nd) → kept (lead s') T j (a_log nd') (a_term nd')) →
  (v, T, k) ∈ acks s → ack_ok s' v T k.
Proof.
  intros Hnd Hnd' Hle Hk Ha. destruct (ri_ack s Hi _ _ _ Ha) as (g & nd0 & Hg & Hlen & Hnd0 & HT & Hkept).
  assert (nd0 = nd) as -> by congruence.
  destruct (grows_prefix _ _ _ _ (x_grows s s' Hx) Hg) as (g' & Hg' & Hpp).
  exists g', nd'. split_and!; [done| |done|lia|].
  - apply prefix_length in Hpp. lia.
  - intros j Hj. apply Hk; [done|by apply Hkept].
Qed.

Lemma msg_ok_ext m : msg_ok s m → msg_ok s' m.
Proof.
  intros (g & Hg & Hp & Ht & He).
  destruct (grows_prefix _ _ _ _ (x_grows s s' Hx) Hg) as (g' & Hg' & Hpp). exists g'.
  pose proof (prefix_length _ _ Hpp). split_and!; [done|lia| |].
  - rewrite Ht. by apply lterm_prefix.
  - destruct Hpp as [x ->]. rewrite drop_app_le by lia. by apply prefix_app_r.
Qed.

Lemma committed_ext T g k : committed s T g k → ∃ g', committed s' T g' k ∧ take k g' = take k g.
Proof.
  intros (Hg & Hk & Ht & q & Hq & Ha).
  destruct (grows_prefix _ _ _ _ (x_grows s s' Hx) Hg) as (g' & Hg' & Hpp). exists g'.
  pose proof (prefix_length _ _ Hpp). split; [|symmetry; apply prefix_take_eq; [done|lia]].
  split_and!; [done|lia|lia| |].
  - rewrite <- Ht. symmetry. apply lterm_prefix; [done|lia].
  - exists q. split; [done|]. intros v Hv. destruct (Ha v Hv) as (k' & ? & ?). exists k'.
    split; [done|by apply Hx].
Qed.

Lemma commits_ext tm tm' l l' c :
  (tm ≤ tm')%Z → c ≤ length l' → take c l' = take c l → commits s tm l c → commits s' tm' l' c.
Proof.
  intros Htm Hlen Hl [->|(T & g & k & Hc & HT & Hck & Hcl & E)]; [by left|]. right.
  destruct (committed_ext _ _ _ Hc) as (g' & Hc' & E'). exists T, g', k. split_and!; [done|lia|done|done|].
  rewrite Hl, E. replace c with (c `min` k) by lia. rewrite <- !take_take. by rewrite E'.
Qed.

(** A node that has not moved is still fine. *)
Lemma node_ok_ext i nd :
  (a_role nd = RoleLeader → lead s' !! a_term nd = lead s !! a_term nd) →
  (a_role nd = RoleCandidate → ¬ won s' (a_term nd) i) →
  node_ok s i nd → node_ok s' i nd.
Proof.
  intros Hl Hc [H1 H2 H3 H4 H5 H6 H7 H8]. split; try done.
  - by apply good_ext.
  - intros E. split; [apply Hx; by apply H4|by apply Hc].
  - intros E. destruct (H5 E). split; [by rewrite Hl|by apply won_ext].
  - intros v k E Hk. destruct (H6 v k E Hk) as (k' & ? & ?). exists k'. split; [done|by apply Hx].
  - intros E. apply Hx. by apply H7.
  - intros E. specialize (H8 (x_taint s s' Hx E)). destruct H8 as [E0|Hc8]; [by left|].
    pose proof Hc8 as (T & g & k & _ & _ & _ & Hlen & _).
    eapply (commits_ext (a_term nd)); [lia|exact Hlen|done|by right].
Qed.

(** ** Assembling the invariant *)

Lemma raft_inv_ext :
  leaders_good (lead s') →
  (∀ i nd, mem s' !! i = Some nd → node_ok s' i nd) →
  (∀ c T lc, (c, T, lc) ∈ cands s' → (c, T, lc) ∈ cands s ∨
     cand_ok s' c T lc ∧ ∀ lc', (c, T, lc') ∈ cands s → lc = lc') →
  (∀ c T lc lc', (c, T, lc) ∈ cands s' → (c, T, lc') ∈ cands s' →
     (c, T, lc) ∉ cands s → (c, T, lc') ∉ cands s → lc = lc') →
  (∀ v T c lv, (v, T, c, lv) ∈ avotes s' → (v, T, c, lv) ∈ avotes s ∨ vote_ok s' v T c lv) →
  (∀ v T c c' lv lv', (v, T, c, lv) ∈ avotes s' → (v, T, c', lv') ∈ avotes s' → c = c') →
  (∀ T g, lead s' !! T = Some g → is_Some (lead s !! T) ∨ ∃ c, won s' T c) →
  (∀ v T k, (v, T, k) ∈ acks s' → ack_ok s' v T k) →
  (∀ m, m ∈ msgs s' → m ∈ msgs s ∨ msg_ok s' m
     ∧ (tainted s' = false → ∀ g, lead s' !! m_term m = Some g → commits s' (m_term m) g (m_commit m))) →
  raft_inv s'.
Proof.
  intros H1 H2 H3 H3' H4 H5 H6 H7 H8. split; try done.
  - intros c T lc Hc. destruct (H3 _ _ _ Hc) as [Ho|[? _]]; [|done]. by apply cand_ok_ext, Hi.
  - intros c T lc lc' Hc Hc'.
    destruct (decide ((c, T, lc) ∈ cands s)) as [Ho|Hno], (decide ((c, T, lc') ∈ cands s)) as [Ho'|Hno'].
    + by eapply (ri_cand1 s Hi).
    + destruct (H3 _ _ _ Hc') as [?|[_ ?]]; [done|]. symmetry. auto.
    + destruct (H3 _ _ _ Hc) as [?|[_ ?]]; [done|]. auto.
    + by eapply H3'.
  - intros v T c lv Hv. destruct (H4 _ _ _ _ Hv) as [Ho|?]; [|done].
    pose proof (ri_vote s Hi _ _ _ _ Ho) as Hok. apply vote_ok_ext; [|done].
    destruct Hok as (_ & _ & (lc & Hlc & _) & _). by destruct (ri_cand s Hi _ _ _ Hlc) as (_ & ? & _).
  - intros T g Hg. destruct (H6 _ _ Hg) as [[g0 Hg0]|?]; [|done].
    destruct (ri_won s Hi _ _ Hg0) as [c Hc]. exists c. by apply won_ext.
  - intros m Hm. destruct (H8 m Hm) as [Ho|[? _]]; [|done]. by apply msg_ok_ext, Hi.
  - intros m g Hm Ht Hg. destruct (H8 m Hm) as [Ho|[_ ?]]; [|auto].
    destruct (ri_msg s Hi m Ho) as (g0 & Hg0 & _).
    destruct (grows_prefix _ _ _ _ (x_grows s s' Hx) Hg0) as (g' & Hg' & Hpp).
    assert (g' = g) as -> by congruence.
    pose proof (ri_msg_commit s Hi m g0 Ho (x_taint s s' Hx Ht) Hg0) as [E|Hc]; [by left|].
    pose proof Hc as (T & g1 & k & _ & _ & _ & Hlen & _).
    pose proof (prefix_length _ _ Hpp).
    eapply (commits_ext (m_term m) _ g0); [lia|lia| |by right]. symmetry. by apply prefix_take_eq.
Qed.
End extension.

(** ** Steps of one member that change no leader's log *)

Section move.
Context (s s' : astate) (i : string) (nd nd' : anode) (Hi : raft_inv s)
  (Hnd : mem s !! i = Some nd) (Emem : mem s' = <[i := nd']> (mem s)) (Elead : lead s' = lead s)
  (Hterm : (a_term nd ≤ a_term nd')%Z)
  (Hvote : a_term nd = a_term nd' → a_vote nd ≠ "" → a_vote nd' = a_vote nd)
  (Hvotes : avotes s ⊆ avotes s') (Hcands : cands s ⊆ cands s') (Hacks : acks s ⊆ acks s')
  (Hnew : ∀ v T k, (v, T, k) ∈ acks s' → (v, T, k) ∈ acks s ∨ v = i ∧ (a_term nd ≤ T)%Z)
  (Htaint : tainted s' = false → tainted s = false).

Lemma move_ext : ext s s'.
Proof.
  split; try done.
  - by rewrite Elead.
  - intros j nj Hj. rewrite Emem. destruct (decide (j = i)) as [->|Hne].
    + rewrite lookup_insert_eq. assert (nj = nd) as -> by congruence. by exists nd'.
    + rewrite lookup_insert_ne by done. exists nj. split_and!; [done|lia|done].
  - intros v T k Ha. destruct (Hnew _ _ _ Ha) as [?|[-> ?]]; [by left|right; by exists nd].
Qed.

Lemma move_won T c :
  (∀ v T c c' lv lv', (v, T, c, lv) ∈ avotes s' → (v, T, c', lv') ∈ avotes s' → c = c') →
  won s' T c → won s T c.
Proof.
  intros H1 Hw. apply (won_back s s' Hi move_ext); [done| |done].
  destruct Hw as (g & _ & _ & Hg & _). rewrite <- Elead. by exists g.
Qed.

Lemma move_inv :
  node_ok s' i nd' →
  (∀ c T lc, (c, T, lc) ∈ cands s' → (c, T, lc) ∈ cands s ∨
     cand_ok s' c T lc ∧ ∀ lc', (c, T, lc') ∈ cands s → lc = lc') →
  (∀ c T lc lc', (c, T, lc) ∈ cands s' → (c, T, lc') ∈ cands s' →
     (c, T, lc) ∉ cands s → (c, T, lc') ∉ cands s → lc = lc') →
  (∀ v T c lv, (v, T, c, lv) ∈ avotes s' → (v, T, c, lv) ∈ avotes s ∨ vote_ok s' v T c lv) →
  (∀ v T c c' lv lv', (v, T, c, lv) ∈ avotes s' → (v, T, c', lv') ∈ avotes s' → c = c') →
  (∀ T k, (i, T, k) ∈ acks s' → ack_ok s' i T k) →
  (∀ m, m ∈ msgs s' → m ∈ msgs s ∨ msg_ok s' m
     ∧ (tainted s' = false → ∀ g, lead s' !! m_term m = Some g → commits s' (m_term m) g (m_commit m))) →
  raft_inv s'.
Proof.
  intros Hn Hc1 Hc2 Hv1 Hv2 Ha Hm. apply (raft_inv_ext s s' Hi move_ext); try done.
  - rewrite Elead. apply Hi.
  - intros j nj Hj. rewrite Emem in Hj. destruct (decide (j = i)) as [->|Hne].
    { rewrite lookup_insert_eq in Hj. by injection Hj as <-. }
    rewrite lookup_insert_ne in Hj by done. pose proof (ri_node s Hi j nj Hj) as Hok.
    apply (node_ok_ext s s' Hi move_ext); [by rewrite Elead| |done].
    intros Hr Hw. apply (move_won _ _ Hv2) in Hw. by apply (no_cand _ _ _ Hok Hr).
  - intros T g Hg. left. rewrite <- Elead. by exists g.
  - intros v T k Hin. destruct (Hnew _ _ _ Hin) as [Ho|[-> _]]; [|by apply Ha].
    destruct (decide (v = i)) as [->|Hne]; [by apply Ha|].
    destruct (ri_ack s Hi _ _ _ Ho) as (g & nv & _ & _ & Hnv & _).
    apply (ack_ok_ext s s' Hi move_ext v T k nv nv); [done| |lia| |done].
    + rewrite Emem. by rewrite lookup_insert_ne.
    + intros j Hj. by rewrite Elead.
Qed.

(** The same when nothing is voted, stood for or sent. *)
Lemma move_plain :
  avotes s' = avotes s → cands s' = cands s → msgs s' = msgs s →
  node_ok s' i nd' → (∀ T k, (i, T, k) ∈ acks s' → ack_ok s' i T k) → raft_inv s'.
Proof.
  intros Ev Ec Em Hn Ha. apply move_inv; try done.
  - rewrite Ec. by left.
  - rewrite Ec. done.
  - rewrite Ev. by left.
  - rewrite Ev. intros v T c c' lv lv' H1 H2. by eapply (ri_vote1 s Hi).
  - rewrite Em. by left.
Qed.

(** An old acknowledgement of the member, its log kept as it was. *)
Lemma move_ack T k : a_log nd' = a_log nd → (i, T, k) ∈ acks s → ack_ok s' i T k.
Proof.
  intros El Ho. apply (ack_ok_ext s s' Hi move_ext i T k nd nd'); [done| |done| |done].
  - by rewrite Emem, lookup_insert_eq.
  - intros j Hj. rewrite El, Elead. by apply kept_term.
Qed.

Lemma move_commits c :
  a_log nd' = a_log nd → c ≤ a_commit nd → tainted s' = false → commits s' (a_term nd') (a_log nd') c.
Proof.
  intros El Hc Ht. pose proof (no_commit _ _ _ (ri_node s Hi i nd Hnd) (Htaint Ht)) as H.
  apply (commits_le _ _ _ _ _ Hc) in H. destruct H as [->|H]; [by left|].
  pose proof H as (_ & _ & _ & _ & _ & _ & Hlen & _).
  eapply (commits_ext s s' move_ext (a_term nd)); [done|by rewrite El|by rewrite El|by right].
Qed.
End move.

Lemma keep_follow s i nd T :
  raft_inv s → mem s !! i = Some nd → (a_term nd ≤ T)%Z → raft_inv (set_mem i (follow T nd) s).
Proof.
  intros Hi Hnd HT. pose proof (ri_node s Hi i nd Hnd) as [N1 N2 N3 N4 N5 N6 N7 N8].
  assert (a_term nd = a_term (follow T nd) → a_vote nd ≠ "" → a_vote (follow T nd) = a_vote nd) as Hv.
  { cbn. intros -> _. by rewrite bool_decide_false by lia. }
  set (nd' := follow T nd) in *.
  assert (∀ v T k, (v, T, k) ∈ acks (set_mem i nd' s) →
    (v, T, k) ∈ acks s ∨ v = i ∧ (a_term nd ≤ T)%Z) as Hnew by (by left).
  eapply (move_plain s _ i nd nd'); try done.
  - split; cbn; try done; [lia|intros e He; specialize (N3 e He); lia|].
    intros Ht. by eapply (move_commits s (set_mem i nd' s) i nd nd').
  - intros T' k. by eapply (move_ack s (set_mem i nd' s) i nd nd').
Qed.

Lemma keep_rebooted s i nd c' :
  raft_inv s → mem s !! i = Some nd → (tainted s = false → c' ≤ a_commit nd) →
  raft_inv (set_mem i (ANode RoleFollower (a_term nd) (a_vote nd) (a_log nd) c' ∅) s).
Proof.
  intros Hi Hnd Hc. pose proof (ri_node s Hi i nd Hnd) as [N1 N2 N3 N4 N5 N6 N7 N8].
  set (nd' := ANode RoleFollower (a_term nd) (a_vote nd) (a_log nd) c' ∅).
  assert (∀ v T k, (v, T, k) ∈ acks (set_mem i nd' s) →
    (v, T, k) ∈ acks s ∨ v = i ∧ (a_term nd ≤ T)%Z) as Hnew by (by left).
  eapply (move_plain s _ i nd nd'); try done.
  - split; cbn; try done. intros Ht. eapply (move_commits s (set_mem i nd' s) i nd nd'); try done.
    by apply Hc.
  - intros T k. by eapply (move_ack s (set_mem i nd' s) i nd nd').
Qed.

Lemma keep_wander s i nd c' :
  raft_inv s → mem s !! i = Some nd → tainted s = true →
  raft_inv (set_mem i (with_log_commit (a_log nd) c' nd) s).
Proof.
  intros Hi Hnd Ht. pose proof (ri_node s Hi i nd Hnd) as [N1 N2 N3 N4 N5 N6 N7 N8].
  set (nd' := with_log_commit (a_log nd) c' nd).
  assert (∀ v T k, (v, T, k) ∈ acks (set_mem i nd' s) →
    (v, T, k) ∈ acks s ∨ v = i ∧ (a_term nd ≤ T)%Z) as Hnew by (by left).
  eapply (move_plain s _ i nd nd'); try done.
  - split; cbn; try done. by rewrite Ht.
  - intros T k. by eapply (move_ack s (set_mem i nd' s) i nd nd').
Qed.

Lemma keep_usurp s i nd : raft_inv s → mem s !! i = Some nd → raft_inv (taint true s).
Proof.
  intros Hi Hnd. pose proof (ri_node s Hi i nd Hnd) as [N1 N2 N3 N4 N5 N6 N7 N8].
  set (s' := taint true s).
  assert (tainted s' = false → False) as Ht by (cbn; by rewrite orb_true_r).
  assert (∀ v T k, (v, T, k) ∈ acks s' → (v, T, k) ∈ acks s ∨ v = i ∧ (a_term nd ≤ T)%Z) as Hnew by (by left).
  assert (mem s' = <[i := nd]> (mem s)) as Emem by (cbn; by rewrite insert_id).
  assert (tainted s' = false → tainted s = false) as Htaint by (intros H; by destruct (Ht H)).
  eapply (move_plain s s' i nd nd); try done.
  intros T k. by eapply (move_ack s s' i nd nd).
Qed.

Lemma keep_matched s i nd v k :
  raft_inv s → mem s !! i = Some nd → a_role nd = RoleLeader → (v, a_term nd, k) ∈ acks s →
  raft_inv (set_mem i (with_match (<[v := Nat.max k (default 0 (a_match nd !! v))]> (a_match nd)) nd) s).
Proof.
  intros Hi Hnd Hr Ha. pose proof (ri_node s Hi i nd Hnd) as [N1 N2 N3 N4 N5 N6 N7 N8].
  set (nd' := with_match _ nd).
  assert (∀ v T k, (v, T, k) ∈ acks (set_mem i nd' s) →
    (v, T, k) ∈ acks s ∨ v = i ∧ (a_term nd ≤ T)%Z) as Hnew by (by left).
  eapply (move_plain s _ i nd nd'); try done.
  - split; cbn; try done.
    intros u j _ Hj. destruct (decide (u = v)) as [->|Hne].
    + rewrite lookup_insert_eq in Hj. injection Hj as <-.
      destruct (a_match nd !! v) as [j|] eqn:Ej; cbn; [|exists k; split; [lia|done]].
      destruct (N6 v j Hr Ej) as (k' & ? & ?). destruct (decide (k ≤ j)).
      * exists k'. split; [lia|done].
      * exists k. split; [lia|done].
    + rewrite lookup_insert_ne in Hj by done. by apply N6.
  - intros T j. by eapply (move_ack s (set_mem i nd' s) i nd nd').
Qed.

Lemma keep_send s i nd p k :
  raft_inv s → mem s !! i = Some nd → a_role nd = RoleLeader → p ≤ length (a_log nd) →
  raft_inv (add_msg (AMsg (a_term nd) p (lterm (a_log nd) p) (take k (drop p (a_log nd))) (a_commit nd)) s).
Proof.
  intros Hi Hnd Hr Hp. pose proof (ri_node s Hi i nd Hnd) as [N1 N2 N3 N4 N5 N6 N7 N8].
  destruct (N5 Hr) as [Hl _].
  set (s' := add_msg _ s).
  assert (∀ v T k, (v, T, k) ∈ acks s' → (v, T, k) ∈ acks s ∨ v = i ∧ (a_term nd ≤ T)%Z) as Hnew by (by left).
  assert (mem s' = <[i := nd]> (mem s)) as Emem by (cbn; by rewrite insert_id).
  eapply (move_inv s s' i nd nd); try done.
  - by left.
  - by left.
  - intros v T c c' lv lv' H1 H2. by eapply (ri_vote1 s Hi).
  - intros T j. by eapply (move_ack s s' i nd nd).
  - intros m [->|Hm]%elem_of_cons; [|by left]. right. split.
    + exists (a_log nd). split_and!; [done|done|done|apply prefix_take].
    + intros Ht g Hg. cbn in Hg. assert (g = a_log nd) as -> by congruence. by apply N8.
Qed.
End protocol.
