(* ===== verification/RaftSafety.v ===== *)
(** * Raft is safe

    Every step of the abstract protocol keeps its invariant; so in every reachable
    state logs match, later leaders have every committed entry, and what two members
    have committed agrees. *)

From stdpp Require Import strings gmap list relations.
From S2P Require Import Prelude Types RaftLogs RaftSpec.
#[local] Open Scope nat_scope.

Section safety.
Context (members : list string).

Abbreviation inv := (raft_inv members).

Lemma keep_timeout s i nd :
  inv s → mem s !! i = Some nd → i ≠ "" →
  inv (add_cand (i, a_term nd + 1, a_log nd)%Z (add_vote (i, a_term nd + 1, i, a_log nd)%Z
    (set_mem i (ANode RoleCandidate (a_term nd + 1) i (a_log nd) (a_commit nd) (a_match nd)) s))).
Proof.
  intros Hi Hnd Hne. pose proof (ri_node _ s Hi i nd Hnd) as [N1 N2 N3 N4 N5 N6 N7 N8].
  set (nd' := ANode RoleCandidate (a_term nd + 1) i (a_log nd) (a_commit nd) (a_match nd)).
  set (s' := add_cand _ _).
  assert (∀ v T k, (v, T, k) ∈ acks s' → (v, T, k) ∈ acks s ∨ v = i ∧ (a_term nd ≤ T)%Z) as Hnew by (by left).
  assert (a_term nd ≤ a_term nd')%Z as Hterm by (cbn; lia).
  assert (a_term nd = a_term nd' → a_vote nd ≠ "" → a_vote nd' = a_vote nd) as Hvote by (cbn; lia).
  assert (avotes s ⊆ avotes s') as Hvs by (intros x Hx; by right).
  assert (cands s ⊆ cands s') as Hcs by (intros x Hx; by right).
  assert (∀ lc, (i, a_term nd + 1, lc)%Z ∉ cands s) as Hnc.
  { intros lc Hc. destruct (ri_cand _ s Hi _ _ _ Hc) as (_ & _ & _ & _ & nd0 & Hnd0 & Hle).
    assert (nd0 = nd) as -> by congruence. lia. }
  assert (∀ v T c c' lv lv', (v, T, c, lv) ∈ avotes s' → (v, T, c', lv') ∈ avotes s' → c = c') as H1.
  { assert (∀ c lv, (i, a_term nd + 1, c, lv)%Z ∉ avotes s) as Hnv.
    { intros c lv Hc. destruct (ri_vote _ s Hi _ _ _ _ Hc) as ((nd0 & Hnd0 & Hle & _) & _).
      assert (nd0 = nd) as -> by congruence. lia. }
    intros v T c c' lv lv' [E|Ho]%elem_of_cons [E'|Ho']%elem_of_cons; simplify_eq; try done.
    - by apply Hnv in Ho'.
    - by apply Hnv in Ho.
    - by eapply (ri_vote1 _ s Hi). }
  eapply (move_inv members s s' i nd nd'); try done.
  - split; cbn; try done; [lia|intros e He; specialize (N3 e He); lia| |].
    + intros _. split; [by left|]. intros Hw.
      eapply (move_won members s s' i nd nd') in Hw; try done.
      destruct Hw as (_ & lc & _ & _ & Hc & _). by apply (Hnc lc).
    + intros Ht. by eapply (move_commits members s s' i nd nd').
  - intros c T lc [E|Hc]%elem_of_cons; [|by left]. simplify_eq. right. split.
    + split_and!; [lia|done|done|intros e He; specialize (N3 e He); lia|].
      exists nd'. cbn. rewrite lookup_insert_eq. split; [done|lia].
    + intros lc' Hc'. by apply Hnc in Hc'.
  - intros c T lc lc' [E|Hc]%elem_of_cons [E'|Hc']%elem_of_cons; by simplify_eq.
  - intros v T c lv [E|Hv]%elem_of_cons; [|by left]. simplify_eq. right. split_and!.
    + exists nd'. cbn. rewrite lookup_insert_eq. split_and!; [done|lia|done].
    + done.
    + exists (a_log nd). split; [by left|]. by right.
    + intros T0 k j Ha _ Hj. destruct (ri_ack _ s Hi _ _ _ Ha) as (g & nd0 & _ & _ & Hnd0 & _ & Hk).
      assert (nd0 = nd) as -> by congruence. eapply kept_term; [|by apply Hk]. lia.
  - intros T k. by eapply (move_ack members s s' i nd nd').
  - by left.
Qed.

Lemma keep_grant s v nd c T lc :
  inv s → mem s !! v = Some nd → (a_term nd ≤ T)%Z → (c, T, lc) ∈ cands s →
  (a_term nd < T)%Z ∨ a_vote nd = "" ∨ a_vote nd = c → uptodate lc (a_log nd) →
  inv (add_vote (v, T, c, a_log nd)
    (set_mem v (with_vote c (if decide (a_term nd < T)%Z then follow T nd else nd)) s)).
Proof.
  intros Hi Hnd HT Hc Hcan Hup. pose proof (ri_node _ s Hi v nd Hnd) as [N1 N2 N3 N4 N5 N6 N7 N8].
  set (nd' := with_vote c _). set (s' := add_vote _ _).
  assert (∀ u T k, (u, T, k) ∈ acks s' → (u, T, k) ∈ acks s ∨ u = v ∧ (a_term nd ≤ T)%Z) as Hnew by (by left).
  assert (a_term nd' = T ∧ a_log nd' = a_log nd ∧ a_vote nd' = c ∧ a_commit nd' = a_commit nd
    ∧ a_match nd' = a_match nd ∧ (a_role nd' ≠ RoleFollower → a_term nd = T ∧ a_role nd' = a_role nd))
    as (Et & El & Ev & Ec & Em & Er).
  { subst nd'. destruct (decide (a_term nd < T)%Z); cbn; [by split_and!|].
    split_and!; try done; [lia|]. split; [lia|done]. }
  assert (a_term nd ≤ a_term nd')%Z as Hterm by (rewrite Et; lia).
  assert (a_term nd = a_term nd' → a_vote nd ≠ "" → a_vote nd' = a_vote nd) as Hvote.
  { rewrite Et, Ev. intros ? ?. destruct Hcan as [?|[?|?]]; [lia|done|done]. }
  assert (avotes s ⊆ avotes s') as Hvs by (intros x Hx; by right).
  assert (∀ u c' lu, (u, T, c', lu) ∈ avotes s → u = v → c' = c) as Hone.
  { intros u c' lu Hu ->. pose proof (ri_vote _ s Hi _ _ _ _ Hu) as ((nd0 & Hnd0 & Hle & Hv0) & _ & (lc' & Hlc' & _) & _).
    assert (nd0 = nd) as -> by congruence. destruct (ri_cand _ s Hi _ _ _ Hlc') as (_ & Hne & _).
    assert (T = a_term nd) as ET by lia. specialize (Hv0 ET). subst c'.
    destruct Hcan as [?|[?|?]]; [lia|done|done]. }
  assert (∀ u T c c' lv lv', (u, T, c, lv) ∈ avotes s' → (u, T, c', lv') ∈ avotes s' → c = c') as H1.
  { intros u T1 c1 c2 l1 l2 [E|Ho]%elem_of_cons [E'|Ho']%elem_of_cons; simplify_eq; try done.
    - symmetry. by eapply Hone.
    - by eapply Hone.
    - by eapply (ri_vote1 _ s Hi). }
  eapply (move_inv members s s' v nd nd'); try done.
  - split; rewrite ?Et, ?El, ?Ec, ?Em; try done; [lia|intros e He; specialize (N3 e He); lia|..].
    + intros Hr. destruct Er as [<- Er]; [by rewrite Hr|]. rewrite Er in Hr. destruct (N4 Hr) as [Hin Hnw].
      split; [done|]. intros Hw. apply Hnw. by eapply (move_won members s s' v nd nd').
    + intros Hr. destruct Er as [<- Er]; [by rewrite Hr|]. rewrite Er in Hr. destruct (N5 Hr) as [Hl Hw].
      split; [done|]. eapply (won_ext members s s'); [done| |done]. by eapply (move_ext s s' v nd nd').
    + intros u k Hr. destruct Er as [<- Er]; [by rewrite Hr|]. rewrite Er in Hr. by apply N6.
    + intros Hr. destruct Er as [<- Er]; [by rewrite Hr|]. rewrite Er in Hr. by apply N7.
    + intros Ht. rewrite <- Et, <- El. by eapply (move_commits members s s' v nd nd').
  - by left.
  - intros u T1 c1 lu [E|Hu]%elem_of_cons; [|by left]. simplify_eq. right. split_and!.
    + exists nd'. split_and!; [exact (lookup_insert_eq _ _ _)|by rewrite Et|done].
    + done.
    + by exists lc.
    + intros T0 k j Ha _ Hj. destruct (ri_ack _ s Hi _ _ _ Ha) as (g & nd0 & _ & _ & Hnd0 & _ & Hk).
      assert (nd0 = nd) as -> by congruence. eapply kept_term; [|by apply Hk]. done.
  - intros T1 k. by eapply (move_ack members s s' v nd nd').
  - by left.
Qed.

(** What a member has committed is in the log of every leader of its term or later. *)
Lemma commits_lead s tm l c T g :
  inv s → commits members s tm l c → (tm ≤ T)%Z → lead s !! T = Some g →
  take c l `prefix_of` g ∧ length (take c l) = c.
Proof.
  intros Hi [->|(T0 & g0 & k & Hc & HT & Hck & Hcl & E)] Htm Hg.
  { rewrite take_0. split; [apply prefix_nil|done]. }
  split; [|rewrite length_take; lia]. rewrite E.
  assert (take k g0 `prefix_of` g) as Hp.
  { destruct (decide (T0 = T)) as [->|Hne].
    - destruct Hc as [Hg0 _]. assert (g0 = g) as -> by congruence. apply prefix_take.
    - eapply leader_completeness; [done|done| |done]. lia. }
  etrans; [|exact Hp]. by apply take_prefix_mono.
Qed.

Lemma keep_accept s v nd m c' :
  inv s → mem s !! v = Some nd → m ∈ msgs s → (a_term nd ≤ m_term m)%Z →
  m_prev m ≤ length (a_log nd) → lterm (a_log nd) (m_prev m) = m_pterm m →
  inv (taint (negb (bool_decide (covered (a_commit nd) c' m)))
    (add_ack (v, m_term m, m_prev m + length (m_es m))
      (set_mem v (with_log_commit (amerge (a_log nd) (m_prev m) (m_es m)) c' (follow (m_term m) nd)) s))).
Proof.
  intros Hi Hnd Hm HT Hp Hpt. pose proof (ri_node _ s Hi v nd Hnd) as [N1 N2 N3 N4 N5 N6 N7 N8].
  destruct (ri_msg _ s Hi m Hm) as (g & Hg & Hpg & Eg & Hes). rewrite Eg in Hpt.
  pose proof (ri_lead _ s Hi) as HG.
  set (nd' := with_log_commit _ _ _). set (s' := taint _ _). set (l' := amerge _ _ _) in *.
  destruct (amerge_accept (lead s) HG (m_term m) g Hg _ _ _ N2 Hp Hes Hpg Hpt) as (Hlen & Htake & _).
  set (j := m_prev m + length (m_es m)) in *. fold l' in Htake.
  assert (j ≤ length l') as Hjl.
  { apply (f_equal length) in Htake. rewrite !length_take in Htake. lia. }
  assert (∀ u T k, (u, T, k) ∈ acks s' → (u, T, k) ∈ acks s ∨ u = v ∧ (a_term nd ≤ T)%Z) as Hnew.
  { intros u T k [E|?]%elem_of_cons; [simplify_eq; by right|by left]. }
  assert (acks s ⊆ acks s') as Has by (intros x Hx; by right).
  assert (tainted s' = false → tainted s = false) as Htaint by (cbn; destruct (tainted s); done).
  assert (a_term nd = a_term nd' → a_vote nd ≠ "" → a_vote nd' = a_vote nd) as Hvote.
  { cbn. intros -> _. by rewrite bool_decide_false by lia. }
  assert (ext s s') as Hx by (by eapply (move_ext s s' v nd nd')).
  eapply (move_plain members s s' v nd nd'); try done.
  - split; cbn; try done; [lia|by eapply amerge_good| |].
    + intros e He. destruct (amerge_elem (lead s) HG (m_term m) g Hg _ _ _ N2 Hp Hes Hpg Hpt e He) as [Hin|Hin].
      * specialize (N3 e Hin). lia.
      * by apply (HG _ _ Hg).
    + intros [Ht Hcov%negb_false_iff%bool_decide_eq_true]%orb_false_iff.
      destruct Hcov as [->|[Hle Hcj]].
      * pose proof (N8 Ht) as Hcm.
        destruct (commits_lead s _ _ _ _ _ Hi Hcm HT Hg) as [Hpre Hlc].
        pose proof (amerge_prefix (lead s) HG (m_term m) g Hg _ _ _ N2 Hp Hes Hpg Hpt _ (prefix_take _ _) Hpre) as Hp'.
        fold l' in Hp'.
        eapply (commits_ext members s s' Hx (a_term nd)); [done| | |exact Hcm].
        -- apply prefix_length in Hp'. lia.
        -- rewrite <- (prefix_take_eq _ _ (a_commit nd) Hp') by lia. rewrite take_take. f_equal. lia.
      * pose proof (ri_msg_commit _ s Hi m g Hm Ht Hg) as Hcm. apply (commits_le _ _ _ _ _ _ Hle) in Hcm.
        eapply (commits_ext members s s' Hx (m_term m) _ g); [lia|lia| |done].
        replace c' with (c' `min` j) by lia. rewrite <- !take_take. by rewrite Htake.
  - intros T k [E|Ha]%elem_of_cons.
    + simplify_eq. exists g, nd'. cbn. rewrite lookup_insert_eq. split_and!; [done|lia|done|lia|].
      intros i Hi' g0 Hg0. left. assert (g0 = g) as -> by congruence.
      replace i with (i `min` j) by lia. rewrite <- take_take, <- Htake, take_take. apply prefix_take.
    + pose proof (ri_ack _ s Hi _ _ _ Ha) as (g0 & nd0 & Hg0 & _ & Hnd0 & HT0 & Hk).
      assert (nd0 = nd) as -> by congruence.
      eapply (ack_ok_ext members s s' Hi Hx v T k nd nd'); [done| |done| |done].
      * cbn. by rewrite lookup_insert_eq.
      * intros i Hik Hkept. cbn. eapply amerge_kept; try done. lia.
Qed.

Lemma keep_trim s v nd m j x e :
  inv s → mem s !! v = Some nd → m ∈ msgs s → (a_term nd ≤ m_term m)%Z → m_prev m ≤ j →
  a_log nd !! j = Some x → m_es m !! (j - m_prev m) = Some e → x.1 ≠ e.1 →
  inv (set_mem v (with_log_commit (take j (a_log nd)) (a_commit nd) (follow (m_term m) nd)) s).
Proof.
  intros Hi Hnd Hm HT Hp Hx He Hne. pose proof (ri_node _ s Hi v nd Hnd) as [N1 N2 N3 N4 N5 N6 N7 N8].
  destruct (ri_msg _ s Hi m Hm) as (g & Hg & Hpg & _ & Hes).
  assert (g !! j = Some e) as Hge.
  { pose proof (prefix_lookup_Some _ _ _ _ He Hes) as H. rewrite lookup_drop in H.
    by replace (m_prev m + (j - m_prev m)) with j in H by lia. }
  pose proof (λ P, take_shared (a_log nd) g j x e P Hx Hge Hne) as Hshare.
  set (nd' := with_log_commit _ _ _). set (s' := set_mem v nd' s).
  assert (∀ u T k, (u, T, k) ∈ acks s' → (u, T, k) ∈ acks s ∨ u = v ∧ (a_term nd ≤ T)%Z) as Hnew by (by left).
  assert (a_term nd = a_term nd' → a_vote nd ≠ "" → a_vote nd' = a_vote nd) as Hvote.
  { cbn. intros -> _. by rewrite bool_decide_false by lia. }
  assert (ext s s') as Hext by (by eapply (move_ext s s' v nd nd')).
  eapply (move_plain members s s' v nd nd'); try done.
  - split; cbn; try done; [lia|by eapply good_prefix; [apply prefix_take|]| |].
    + intros y Hy. assert (y ∈ a_log nd) as Hin by (eapply elem_of_prefix; [exact Hy|apply prefix_take]).
      specialize (N3 y Hin). lia.
    + intros Ht. pose proof (N8 Ht) as Hcm. destruct (commits_lead s _ _ _ _ _ Hi Hcm HT Hg) as [Hpre Hlc].
      pose proof (Hshare _ (prefix_take _ _) Hpre) as Hp'. pose proof (prefix_length _ _ Hp') as Hl.
      eapply (commits_ext members s s' Hext (a_term nd)); [done|cbn; lia| |exact Hcm].
      rewrite <- (prefix_take_eq _ _ (a_commit nd) Hp') by lia. rewrite take_take. f_equal. lia.
  - intros T k Ha. pose proof (ri_ack _ s Hi _ _ _ Ha) as (g0 & nd0 & Hg0 & _ & Hnd0 & HT0 & Hk).
    assert (nd0 = nd) as -> by congruence.
    eapply (ack_ok_ext members s s' Hi Hext v T k nd nd'); [done|exact (lookup_insert_eq _ _ _)|done| |done].
    intros i Hik Hkept. cbn. eapply (kept_shared _ _ _ Hg); [exact Hshare|lia|exact HT|done].
Qed.

Lemma keep_commit_to s i nd c q :
  inv s → mem s !! i = Some nd → a_role nd = RoleLeader → 0 < c ≤ length (a_log nd) →
  lterm (a_log nd) c = a_term nd → quorum members q →
  (∀ v, v ∈ q → v = i ∨ c ≤ default 0 (a_match nd !! v)) →
  inv (set_mem i (with_log_commit (a_log nd) c nd) s).
Proof.
  intros Hi Hnd Hr Hc Ht Hq Hm. pose proof (ri_node _ s Hi i nd Hnd) as [N1 N2 N3 N4 N5 N6 N7 N8].
  set (nd' := with_log_commit _ _ _). set (s' := set_mem _ _ _).
  assert (∀ u T k, (u, T, k) ∈ acks s' → (u, T, k) ∈ acks s ∨ u = i ∧ (a_term nd ≤ T)%Z) as Hnew by (by left).
  eapply (move_plain members s s' i nd nd'); try done.
  - split; cbn; try done. intros _. right. exists (a_term nd), (a_log nd), c.
    split_and!; [|lia|lia|lia|done]. destruct (N5 Hr) as [Hl _]. split_and!; [done|lia|lia|done|].
    exists q. split; [done|]. intros v Hv. destruct (Hm v Hv) as [->|Hle].
    + exists (length (a_log nd)). split; [lia|by apply N7].
    + destruct (a_match nd !! v) as [k|] eqn:Ek; cbn in Hle; [|lia].
      destruct (N6 v k Hr Ek) as (k' & ? & ?). exists k'. split; [lia|done].
  - intros T k. by eapply (move_ack members s s' i nd nd').
Qed.

(** ** Steps that change a leader's log

    What the two of them share: the log of the leader of [T] becomes [l], of which its
    log until then, if there was one, is a prefix. *)

Section leading.
Context (s : astate) (i : string) (nd nd' : anode) (l : list ent) (Hi : inv s)
  (Hnd : mem s !! i = Some nd).

Abbreviation T := (a_term nd).

Context (Et : a_term nd' = T) (Ev : a_vote nd' = a_vote nd) (El : a_log nd' = l)
  (Er : a_role nd' = RoleLeader) (Ec : a_commit nd' = a_commit nd)
  (Hpos : (0 < T)%Z) (Hold : a_log nd `prefix_of` l)
  (Hgrow : ∀ g, lead s !! T = Some g → ∃ x, l = g ++ x ∧ Forall (λ e : ent, e.1 = T) x)
  (Hterms : ∀ e, e ∈ l → (e.1 ≤ T)%Z)
  (Hothers : ∀ j nj, j ≠ i → mem s !! j = Some nj → a_role nj = RoleLeader → a_term nj ≠ T).

Definition led : astate := add_ack (i, T, length l) (set_lead T l (set_mem i nd' s)).

Lemma led_grows : grows (lead s) (lead led).
Proof.
  intros T0 g Hg. cbn. destruct (decide (T0 = T)) as [->|Hne].
  - destruct (Hgrow g Hg) as (x & -> & Hx). exists x. by rewrite lookup_insert_eq.
  - exists []. rewrite app_nil_r, lookup_insert_ne by done. done.
Qed.

Lemma led_ext : ext s led.
Proof.
  split; try done.
  - apply led_grows.
  - intros j nj Hj. cbn. destruct (decide (j = i)) as [->|Hne].
    + assert (nj = nd) as -> by congruence. exists nd'. rewrite lookup_insert_eq, Et, Ev. split_and!; [done|lia|done].
    + exists nj. rewrite lookup_insert_ne by done. split_and!; [done|lia|done].
  - intros x Hx. by right.
  - intros v T0 k [E|Ha]%elem_of_cons; [|by left]. simplify_eq. right. exists nd. split; [done|lia].
Qed.

Lemma led_inv :
  good (lead led) l → won members led T i →
  (∀ v k, a_match nd' !! v = Some k → ∃ k', k ≤ k' ∧ (v, T, k') ∈ acks led) →
  inv led.
Proof.
  intros Hgood Hwon Hmatch. pose proof led_ext as Hx.
  pose proof (ri_node _ s Hi i nd Hnd) as [N1 N2 N3 N4 N5 N6 N7 N8].
  assert (∀ v T c c' lv lv', (v, T, c, lv) ∈ avotes led → (v, T, c', lv') ∈ avotes led → c = c') as H1.
  { intros v T0 c c' lv lv' Ha Hb. by eapply (ri_vote1 _ s Hi). }
  apply (raft_inv_ext members s led Hi Hx); try done.
  - intros T0 g Hg. cbn in Hg. destruct (decide (T0 = T)) as [->|Hne].
    + rewrite lookup_insert_eq in Hg. injection Hg as <-. done.
    + rewrite lookup_insert_ne in Hg by done. destruct (ri_lead _ s Hi _ _ Hg) as (? & Hgd & ?).
      split_and!; [done|exact (good_grows _ _ _ led_grows Hgd)|done].
  - intros j nj Hj. cbn in Hj. destruct (decide (j = i)) as [->|Hne].
    + rewrite lookup_insert_eq in Hj. injection Hj as <-.
      split; rewrite ?Et, ?El, ?Er, ?Ec; try done.
      * intros _. split; [exact (lookup_insert_eq _ _ _)|done].
      * intros v k _. by apply Hmatch.
      * intros _. by left.
      * intros Ht. pose proof (prefix_length _ _ Hold).
        destruct (N8 Ht) as [E|Hc]; [by left|]. pose proof Hc as (? & ? & ? & _ & _ & _ & Hlen & _).
        eapply (commits_ext members s led Hx T T (a_log nd)); [lia|lia| |by right].
        symmetry. by apply prefix_take_eq.
    + rewrite lookup_insert_ne in Hj by done. pose proof (ri_node _ s Hi j nj Hj) as Hok.
      apply (node_ok_ext members s led Hi Hx); [|intros Hr Hw|done].
      * intros Hr. cbn. rewrite lookup_insert_ne; [done|]. intros E. by apply (Hothers j nj).
      * pose proof Hw as (g & _ & _ & Hg & _). cbn in Hg.
        destruct (decide (T = a_term nj)) as [E|Hn].
        -- apply Hne. rewrite <- E in Hw.
           destruct Hw as (_ & _ & q1 & _ & _ & _ & Hq1 & Hv1).
           destruct Hwon as (_ & _ & q2 & _ & _ & _ & Hq2 & Hv2).
           destruct (quorums_meet members q1 q2 Hq1 Hq2) as (v & Hin1 & Hin2).
           destruct (Hv1 v Hin1) as (l1 & Hl1 & _). destruct (Hv2 v Hin2) as (l2 & Hl2 & _).
           by eapply H1.
        -- rewrite lookup_insert_ne in Hg by done.
           apply (no_cand _ _ _ _ Hok Hr). by apply (won_back members s led Hi Hx _ _ H1).
  - by left.
  - by left.
  - intros T0 g Hg. cbn in Hg. destruct (decide (T0 = T)) as [->|Hne].
    + right. by exists i.
    + rewrite lookup_insert_ne in Hg by done. left. by exists g.
  - intros v T0 k [E|Ha]%elem_of_cons.
    + injection E as -> -> ->. exists l, nd'. rewrite El, Et.
      split_and!; [exact (lookup_insert_eq _ _ _)|done|exact (lookup_insert_eq _ _ _)|lia|].
      intros j Hj g Hg. left. cbn in Hg. rewrite lookup_insert_eq in Hg. injection Hg as <-. apply prefix_take.
    + destruct (ri_ack _ s Hi _ _ _ Ha) as (g & nv & _ & _ & Hnv & _).
      destruct (decide (v = i)) as [->|Hne].
      * assert (nv = nd) as -> by congruence.
        apply (ack_ok_ext members s led Hi Hx i T0 k nd nd'); [done|exact (lookup_insert_eq _ _ _)|lia| |done].
        intros j Hj Hk. rewrite Et, El. destruct Hold as [x ->]. apply kept_app.
        by apply (kept_ext members s led Hi Hx i T0 k).
      * apply (ack_ok_ext members s led Hi Hx v T0 k nv nv); [done| |lia| |done].
        -- cbn. by rewrite lookup_insert_ne.
        -- intros j Hj. by apply (kept_ext members s led Hi Hx v T0 k).
  - by left.
Qed.
End leading.

(** Nobody has led the term of an election that is being won. *)
Lemma win_new s i nd q :
  inv s → mem s !! i = Some nd → a_role nd = RoleCandidate → quorum members q →
  (∀ v, v ∈ q → ∃ lv, (v, a_term nd, i, lv) ∈ avotes s) → lead s !! a_term nd = None.
Proof.
  intros Hi Hnd Hr Hq Hv. destruct (no_cand _ _ _ _ (ri_node _ s Hi i nd Hnd) Hr) as [_ Hnw].
  destruct (lead s !! a_term nd) as [g|] eqn:Hg; [|done]. destruct Hnw.
  destruct (ri_won _ s Hi _ _ Hg) as (c & Hw). pose proof Hw as (_ & _ & q0 & _ & _ & _ & Hq0 & Hv0).
  destruct (quorums_meet members q q0 Hq Hq0) as (v & H1 & H2).
  destruct (Hv v H1) as (l1 & Hl1). destruct (Hv0 v H2) as (l2 & Hl2 & _).
  by assert (i = c) as -> by (by eapply (ri_vote1 _ s Hi)).
Qed.

Lemma keep_win s i nd q :
  inv s → mem s !! i = Some nd → a_role nd = RoleCandidate → quorum members q →
  (∀ v, v ∈ q → ∃ lv, (v, a_term nd, i, lv) ∈ avotes s) →
  inv (add_ack (i, a_term nd, length (a_log nd)) (set_lead (a_term nd) (a_log nd)
    (set_mem i (ANode RoleLeader (a_term nd) (a_vote nd) (a_log nd) (a_commit nd) ∅) s))).
Proof.
  intros Hi Hnd Hr Hq Hv. pose proof (ri_node _ s Hi i nd Hnd) as [N1 N2 N3 N4 N5 N6 N7 N8].
  destruct (N4 Hr) as [Hcand Hnw]. set (T := a_term nd) in *. set (nd' := ANode _ _ _ _ _ _).
  destruct (ri_cand _ s Hi _ _ _ Hcand) as (Hpos & _ & _ & Hlt & _).
  assert (lead s !! T = None) as Hnone by (by apply (win_new s i nd q)).
  assert (∀ g, lead s !! T = Some g → ∃ x, a_log nd = g ++ x ∧ Forall (λ e : ent, e.1 = T) x) as Hgrow by congruence.
  apply (led_inv s i nd nd' (a_log nd)); try done.
  - intros j nj _ Hj Hl E. destruct (no_lead _ _ _ _ (ri_node _ s Hi j nj Hj) Hl) as [Hg _].
    rewrite E in Hg. fold T in Hg. congruence.
  - by eapply good_grows, N2; apply led_grows.
  - exists (a_log nd), (a_log nd), q. split_and!; [exact (lookup_insert_eq _ _ _)|done|done|done|].
    intros v Hin. destruct (Hv v Hin) as (lv & Hlv). exists lv. split; [done|].
    destruct (ri_vote _ s Hi _ _ _ _ Hlv) as (_ & _ & _ & Hk).
    intros T0 k j [E|Ha]%elem_of_cons HT Hj; [simplify_eq; lia|].
    intros g Hg. cbn in Hg. fold T in HT |- *. rewrite lookup_insert_ne in Hg by (fold T; lia).
    destruct (Hk T0 k j Ha HT Hj g Hg) as [?|(T' & g' & HT' & Hg' & Hn)]; [by left|].
    assert (T' ≠ T) as HTT by congruence. fold T in HT'. right. exists T', g'.
    split_and!; [lia|lia|cbn; by rewrite lookup_insert_ne|done].
Qed.

Lemma keep_append s i nd cmd :
  inv s → mem s !! i = Some nd → a_role nd = RoleLeader →
  let l := a_log nd ++ [(a_term nd, cmd)] in
  inv (add_ack (i, a_term nd, length l) (set_lead (a_term nd) l
    (set_mem i (with_log_commit l (a_commit nd) nd) s))).
Proof.
  intros Hi Hnd Hr l. pose proof (ri_node _ s Hi i nd Hnd) as [N1 N2 N3 N4 N5 N6 N7 N8].
  destruct (N5 Hr) as [Hl Hwon]. set (nd' := with_log_commit _ _ _).
  destruct (ri_lead _ s Hi _ _ Hl) as (Hpos & _).
  assert (∀ g, lead s !! a_term nd = Some g → ∃ x, l = g ++ x ∧ Forall (λ e : ent, e.1 = a_term nd) x) as Hgrow.
  { intros g Hg. assert (g = a_log nd) as -> by congruence. eexists. split; [done|]. by constructor. }
  assert (a_log nd `prefix_of` l) as Hold by (by apply prefix_app_r).
  assert (∀ e, e ∈ l → (e.1 ≤ a_term nd)%Z) as Hterms.
  { intros e [He|He%list_elem_of_singleton]%elem_of_app; [by apply N3|by subst e]. }
  assert (grows (lead s) (lead (led s i nd nd' l))) as Hgr by (by apply led_grows).
  apply (led_inv s i nd nd' l); try done.
  - intros j nj Hne Hj Hlj E. destruct (no_lead _ _ _ _ (ri_node _ s Hi j nj Hj) Hlj) as [_ Hw].
    apply Hne. rewrite E in Hw. by eapply won_unique.
  - intros k e He. destruct (decide (k < length (a_log nd))) as [Hk|Hk].
    + unfold l in He |- *. rewrite lookup_app_l in He by done.
      destruct (good_grows _ _ _ Hgr N2 k e He) as (g & Hg & Hp).
      exists g. split; [done|]. by rewrite take_app_le by lia.
    + pose proof (lookup_lt_Some _ _ _ He) as Hlen. unfold l in Hlen. rewrite length_app in Hlen. cbn in Hlen.
      unfold l in He. rewrite lookup_app_r, list_lookup_singleton in He by lia.
      destruct (k - length (a_log nd)) eqn:Ek; [|done]. injection He as <-.
      exists l. split; [exact (lookup_insert_eq _ _ _)|apply prefix_take].
  - eapply (won_ext members s); [done| |done]. by apply led_ext.
  - intros v k Hm. destruct (N6 v k Hr Hm) as (k' & ? & ?). exists k'. split; [done|by right].
Qed.

(** ** Every step keeps the invariant *)

Lemma step_inv s s' : inv s → astep members s s' → inv s'.
Proof.
  intros Hi Hs. destruct Hs.
  - by apply keep_follow.
  - by apply keep_timeout.
  - by eapply keep_grant.
  - by eapply keep_win.
  - by apply keep_append.
  - by eapply keep_send.
  - by apply keep_accept.
  - by eapply keep_trim.
  - by apply keep_matched.
  - by eapply keep_commit_to.
  - by apply keep_rebooted.
  - by eapply keep_usurp.
  - by apply keep_wander.
Qed.

(** ** What only grows *)

Record only_grows (s s' : astate) : Prop := {
  og_lead : grows (lead s) (lead s');
  og_acks : acks s ⊆ acks s';
  og_taint : tainted s' = false → tainted s = false
}.

#[global] Instance only_grows_preorder : PreOrder only_grows.
Proof.
  split.
  - intros s. split; [|done|done]. intros T g Hg. exists []. by rewrite app_nil_r.
  - intros s1 s2 s3 [G1 A1 T1] [G2 A2 T2]. split; [|by etrans|auto]. intros T g Hg.
    destruct (G1 T g Hg) as (x & Hx & Fx). destruct (G2 T _ Hx) as (y & Hy & Fy).
    exists (x ++ y). rewrite app_assoc. split; [done|]. by apply Forall_app.
Qed.

Lemma step_grows s s' : inv s → astep members s s' → only_grows s s'.
Proof.
  intros Hi Hs.
  assert (∀ s' : astate, lead s' = lead s → acks s ⊆ acks s' → (tainted s' = false → tainted s = false) →
    only_grows s s') as Hsame.
  { intros s2 El Ha Ht. split; [rewrite El|done|done]. intros T g Hg. exists []. by rewrite app_nil_r. }
  destruct Hs as [| | |i nd q Hnd Hr Hq Hv|i nd cmd Hnd Hr l| |v nd m c' | | | | |i nd Hnd Hne| ];
    try (by apply Hsame).
  - pose proof (win_new s i nd q Hi Hnd Hr Hq Hv) as Hnone. split; [|intros x Hx; by right|done].
    intros T g Hg. exists []. cbn. rewrite app_nil_r, lookup_insert_ne; [done|]. intros <-. congruence.
  - split; [|intros x Hx; by right|done]. intros T g Hg. cbn.
    destruct (no_lead _ _ _ _ (ri_node _ s Hi i nd Hnd) Hr) as [Hl _].
    destruct (decide (T = a_term nd)) as [->|Hne].
    + exists [(a_term nd, cmd)]. assert (g = a_log nd) as -> by congruence.
      rewrite lookup_insert_eq. split; [done|by constructor].
    + exists []. by rewrite app_nil_r, lookup_insert_ne.
  - apply Hsame; [done|intros x Hx; by right|]. cbn. by destruct (tainted s).
  - apply Hsame; [done|done|]. cbn. by rewrite orb_true_r.
Qed.

Lemma run_grows s s' : inv s → rtc (astep members) s s' → only_grows s s'.
Proof.
  intros Hi Hr. revert Hi. induction Hr as [s|s s1 s2 Hs _ IH]; intros Hi; [reflexivity|].
  etrans; [by apply step_grows|]. apply IH. by eapply step_inv.
Qed.

Lemma commits_grows s s' tm l c :
  only_grows s s' → commits members s tm l c → commits members s' tm l c.
Proof.
  intros [Hg Ha _] [->|(T & g & k & (Hl & Hk & Ht & q & Hq & Hack) & HT & Hck & Hcl & E)]; [by left|right].
  destruct (grows_prefix _ _ _ _ Hg Hl) as (g' & Hg' & Hp). pose proof (prefix_length _ _ Hp).
  exists T, g', k. split; [|split_and!; [done..|]].
  - split_and!; [done|lia|lia| |].
    + rewrite <- Ht. symmetry. apply lterm_prefix; [done|lia].
    + exists q. split; [done|]. intros v Hv. destruct (Hack v Hv) as (k' & ? & ?). exists k'.
      split; [done|by apply Ha].
  - rewrite E. apply prefix_take_eq; [done|lia].
Qed.

(** At first nobody has heard of anything. *)
Record astart (s : astate) : Prop := {
  as_node i nd : mem s !! i = Some nd →
    a_role nd = RoleFollower ∧ (0 ≤ a_term nd)%Z ∧ a_log nd = [] ∧ a_commit nd = 0;
  as_lead : lead s = ∅;
  as_votes : avotes s = [];
  as_cands : cands s = [];
  as_msgs : msgs s = [];
  as_acks : acks s = []
}.

Lemma start_inv s : astart s → inv s.
Proof.
  intros [H1 H2 H3 H4 H5 H6]. split; rewrite ?H2, ?H3, ?H4, ?H5, ?H6.
  2: { intros i nd Hnd. destruct (H1 i nd Hnd) as (E1 & E2 & E3 & E4).
       split; rewrite ?E1, ?E3, ?E4; try done; [by intros e ?%elem_of_nil|by left]. }
  1, 6: intros T g Hg; by rewrite lookup_empty in Hg.
  all: intros; by match goal with H : _ ∈ [] |- _ => apply elem_of_nil in H end.
Qed.

Lemma run_inv s s' : inv s → rtc (astep members) s s' → inv s'.
Proof. intros Hi. induction 1; [done|]. eauto using step_inv. Qed.

(** ** What the invariant says of two members *)

Lemma inv_log_matching s i j ni nj k ei ej :
  inv s → mem s !! i = Some ni → mem s !! j = Some nj →
  a_log ni !! k = Some ei → a_log nj !! k = Some ej → ei.1 = ej.1 →
  take (S k) (a_log ni) = take (S k) (a_log nj).
Proof.
  intros Hi Hni Hnj Hei Hej Et.
  eapply (good_match (lead s)); [apply (no_good _ _ _ _ (ri_node _ s Hi i ni Hni))|
    apply (no_good _ _ _ _ (ri_node _ s Hi j nj Hnj))|done..].
Qed.

Lemma inv_one_leader s i j ni nj :
  inv s → mem s !! i = Some ni → mem s !! j = Some nj →
  a_role ni = RoleLeader → a_role nj = RoleLeader → a_term ni = a_term nj → i = j.
Proof.
  intros Hi Hni Hnj Hri Hrj Et.
  destruct (no_lead _ _ _ _ (ri_node _ s Hi i ni Hni) Hri) as [_ Hw].
  destruct (no_lead _ _ _ _ (ri_node _ s Hi j nj Hnj) Hrj) as [_ Hw'].
  rewrite Et in Hw. by eapply won_unique.
Qed.

Lemma commits_agree s tm1 l1 c1 tm2 l2 c2 k :
  inv s → commits members s tm1 l1 c1 → commits members s tm2 l2 c2 → k ≤ c1 → k ≤ c2 →
  take k l1 = take k l2.
Proof.
  intros Hi [->|(T1 & g1 & k1 & H1 & _ & L1 & _ & E1)] [->|(T2 & g2 & k2 & H2 & _ & L2 & _ & E2)] Hk1 Hk2;
    [by assert (k = 0) as -> by lia..|].
  replace k with (k `min` c1) at 1 by lia. rewrite <- take_take, E1, take_take.
  replace k with (k `min` c2) at 2 by lia. rewrite <- (take_take l2), E2, take_take.
  rewrite !Nat.min_l by lia. eapply (committed_agree members s); try done; lia.
Qed.

Lemma inv_state_machine s i j ni nj k :
  inv s → tainted s = false → mem s !! i = Some ni → mem s !! j = Some nj →
  k ≤ a_commit ni → k ≤ a_commit nj → take k (a_log ni) = take k (a_log nj).
Proof.
  intros Hi Ht Hni Hnj Hk1 Hk2.
  pose proof (no_commit _ _ _ _ (ri_node _ s Hi i ni Hni) Ht) as C1.
  pose proof (no_commit _ _ _ _ (ri_node _ s Hi j nj Hnj) Ht) as C2.
  by eapply commits_agree.
Qed.

(** What a member has committed, every later leader of its term or a later one has. *)
Lemma inv_commit_survives s s' i j ni nj :
  inv s → rtc (astep members) s s' → tainted s' = false →
  mem s !! i = Some ni → mem s' !! j = Some nj → a_role nj = RoleLeader → (a_term ni ≤ a_term nj)%Z →
  take (a_commit ni) (a_log ni) `prefix_of` a_log nj ∧ a_commit ni ≤ length (a_log ni).
Proof.
  intros Hi Hr Ht Hni Hnj Hrole HT. pose proof (run_grows s s' Hi Hr) as Hg. pose proof (run_inv s s' Hi Hr) as Hi'.
  pose proof (no_commit _ _ _ _ (ri_node _ s Hi i ni Hni) (og_taint _ _ Hg Ht)) as C1.
  apply (commits_grows s s' _ _ _ Hg) in C1.
  destruct (no_lead _ _ _ _ (ri_node _ s' Hi' j nj Hnj) Hrole) as [Hl _].
  destruct (commits_lead s' _ _ _ _ _ Hi' C1 HT Hl) as [Hp Hlen].
  split; [done|]. rewrite length_take in Hlen. lia.
Qed.
End safety.
