(* ===== verification/RaftReads.v ===== *)
(** * Leaders over time, abstractly

    A member leads a term in one stretch, and its commit index does not go down while it
    leads; terms never go down; what a leader has committed in its term, a majority has
    been told of.  With a majority seen in no later term since, a later leader is of that
    term or a later one. *)

From stdpp Require Import strings gmap list relations.
From S2P Require Import Prelude Types RaftLogs RaftSpec RaftSafety.
#[local] Open Scope nat_scope.

Section reads.
Context (members : list string).
Abbreviation inv := (raft_inv members).
Abbreviation asteps := (rtc (astep members)).

(** ** Terms *)

Lemma set_mem_term (m : gmap string anode) i nd nd' v x :
  m !! i = Some nd → (a_term nd ≤ a_term nd')%Z → m !! v = Some x →
  ∃ x', <[i := nd']> m !! v = Some x' ∧ (a_term x ≤ a_term x')%Z.
Proof.
  intros Hi Hle Hv. destruct (decide (v = i)) as [->|Hne].
  - assert (x = nd) as -> by congruence. exists nd'. by rewrite lookup_insert_eq.
  - exists x. rewrite lookup_insert_ne by done. split; [done|lia].
Qed.

Lemma step_terms s s' v x :
  astep members s s' → mem s !! v = Some x → ∃ x', mem s' !! v = Some x' ∧ (a_term x ≤ a_term x')%Z.
Proof.
  intros Hs Hv. destruct Hs; cbn [mem set_mem set_lead add_ack add_vote add_cand add_msg taint];
    try (eapply set_mem_term; [eassumption| |exact Hv]; cbn; try lia).
  - destruct (decide (a_term nd < T)%Z); cbn; lia.
  - exists x. split; [done|lia].
  - exists x. split; [done|lia].
Qed.

Lemma run_terms s s' v x :
  asteps s s' → mem s !! v = Some x → ∃ x', mem s' !! v = Some x' ∧ (a_term x ≤ a_term x')%Z.
Proof.
  intros Hr. revert x. induction Hr as [s|s s1 s2 Hs _ IH]; intros x Hv; [exists x; split; [done|lia]|].
  destruct (step_terms _ _ _ _ Hs Hv) as (x1 & H1 & ?). destruct (IH x1 H1) as (x2 & ? & ?).
  exists x2. split; [done|lia].
Qed.

(** ** Leading *)

(** A leader of [T] with some commit index. *)
Definition leads s (j : string) (T : Z) (c : nat) : Prop :=
  ∃ nd, mem s !! j = Some nd ∧ a_role nd = RoleLeader ∧ a_term nd = T ∧ a_commit nd = c.

Lemma leads_insert s s' i nd nd' j T c :
  mem s !! i = Some nd → mem s' = <[i := nd']> (mem s) →
  (a_role nd' = RoleLeader → a_role nd = RoleLeader ∧ a_term nd' = a_term nd ∧ a_commit nd ≤ a_commit nd') →
  leads s' j T c → ∃ c0, leads s j T c0 ∧ c0 ≤ c.
Proof.
  intros Hi Em Hl (x & Hx & Hr & Ht & Hc). rewrite Em in Hx. destruct (decide (j = i)) as [->|Hne].
  - rewrite lookup_insert_eq in Hx. injection Hx as <-. destruct (Hl Hr) as (Hr' & Ht' & Hc').
    exists (a_commit nd). split; [|lia]. exists nd. split_and!; congruence.
  - rewrite lookup_insert_ne in Hx by done. exists c. split; [|lia]. by exists x.
Qed.

Lemma step_leads s s' j T c g :
  inv s → astep members s s' → lead s !! T = Some g → tainted s' = false → leads s' j T c →
  ∃ c0, leads s j T c0 ∧ c0 ≤ c.
Proof.
  intros Hi Hs Hg Ht Hl. destruct Hs as [i nd T' Hnd HT|i nd Hnd Hne|v nd c' T' lc Hnd HT Hc Hf Hu|i nd q Hnd Hr Hq Hv
    |i nd cmd Hnd Hr l|i nd p k Hnd Hr Hp|v nd m c' Hnd Hm HT Hp Hpt|v nd m k x e Hnd Hm HT Hp Hx He Hne
    |i nd v k Hnd Hr Ha|i nd c' q Hnd Hr Hc Hcc Hlt Hq Hv|i nd c' Hnd Hc|i nd Hnd Hne|i nd c' Hnd Htn].
  1, 2, 7, 8, 11: by (eapply leads_insert; [exact Hnd| | |exact Hl]; [reflexivity|]).
  - eapply leads_insert; [exact Hnd| | |exact Hl]; [reflexivity|].
    destruct (decide (a_term nd < T')%Z); cbn; [done|]. intros Hr. split_and!; [done|done|lia].
  - destruct Hl as (x & Hx & Hxr & Hxt & Hxc). cbn in Hx. destruct (decide (j = i)) as [->|Hne].
    + rewrite lookup_insert_eq in Hx. injection Hx as <-. cbn in Hxt. exfalso.
      pose proof (win_new members s i nd q Hi Hnd Hr Hq Hv). congruence.
    + rewrite lookup_insert_ne in Hx by done. exists c. split; [|lia]. by exists x.
  - eapply leads_insert; [exact Hnd| | |exact Hl]; [reflexivity|]. intros _. split_and!; [done|done|cbn; lia].
  - exists c. split; [exact Hl|lia].
  - eapply leads_insert; [exact Hnd| | |exact Hl]; [reflexivity|]. intros _. split_and!; [done|done|cbn; lia].
  - eapply leads_insert; [exact Hnd| | |exact Hl]; [reflexivity|]. intros _. split_and!; [done|done|cbn; lia].
  - cbn in Ht. by rewrite orb_true_r in Ht.
  - cbn in Ht. congruence.
Qed.

(** Who leads a term that already had a leader was leading it then. *)
Lemma run_leads s s' j T c g :
  inv s → asteps s s' → lead s !! T = Some g → tainted s' = false → leads s' j T c →
  ∃ c0, leads s j T c0 ∧ c0 ≤ c.
Proof.
  intros Hi Hr Hg Ht. revert c g Hg. induction Hr as [s|s s1 s2 Hs Hr IH]; intros c g Hg Hl; [exists c; by split|].
  pose proof (step_inv members s s1 Hi Hs) as Hi1. pose proof (run_grows members s1 s2 Hi1 Hr) as Hgr.
  destruct (grows_prefix _ _ _ _ (og_lead _ _ (step_grows members s s1 Hi Hs)) Hg) as (g1 & Hg1 & _).
  destruct (IH Hi1 Ht c g1 Hg1 Hl) as (c1 & Hl1 & ?).
  destruct (step_leads s s1 j T c1 g Hi Hs Hg (og_taint _ _ Hgr Ht) Hl1) as (c0 & ? & ?).
  exists c0. split; [done|lia].
Qed.

(** ** What a later leader has committed *)

(** An entry of its own term that a member has committed: of any majority, someone is
    in that term or a later one. *)
Lemma own_entry_quorum s i ni k e q :
  inv s → tainted s = false → mem s !! i = Some ni → a_log ni !! k = Some e → e.1 = a_term ni →
  k < a_commit ni → quorum members q →
  ∃ v x, v ∈ q ∧ mem s !! v = Some x ∧ (a_term ni ≤ a_term x)%Z.
Proof.
  intros Hi Ht Hni He Et Hk Hq.
  destruct (no_commit _ _ _ _ (ri_node _ s Hi i ni Hni) Ht) as [?|(T & g & k0 & Hc & HT & Hck & Hlen & E)]; [lia|].
  pose proof Hc as (Hg & _ & _ & q0 & Hq0 & Hacks).
  assert (g !! k = Some e) as Hge.
  { rewrite <- (lookup_take_lt g (a_commit ni)), <- E, lookup_take_lt by lia. done. }
  destruct (ri_lead _ s Hi _ _ Hg) as (_ & _ & Hterms).
  pose proof (Hterms e (list_elem_of_lookup_2 _ _ _ Hge)).
  destruct (quorums_meet members q q0 Hq Hq0) as (v & Hv & Hv0). destruct (Hacks v Hv0) as (k' & _ & Ha).
  destruct (ri_ack _ s Hi _ _ _ Ha) as (_ & x & _ & _ & Hx & Hle & _). exists v, x. split_and!; [done..|lia].
Qed.

(** What a leader has committed, a later leader has too, once it has committed an entry
    of its own term. *)
Lemma later_commit s s' i j ni nj k e c :
  inv s → asteps s s' → tainted s' = false →
  mem s !! i = Some ni → a_role ni = RoleLeader → a_log ni !! k = Some e → k < a_commit ni →
  mem s' !! j = Some nj → a_role nj = RoleLeader → (a_term ni ≤ a_term nj)%Z →
  0 < c ≤ a_commit nj → lterm (a_log nj) c = a_term nj →
  a_log nj !! k = Some e ∧ k < a_commit nj.
Proof.
  intros Hi Hr Ht Hni Hri He Hk Hnj Hrj HT Hc Hown. pose proof (run_inv members s s' Hi Hr) as Hi'.
  destruct (inv_commit_survives members s s' i j ni nj) as [Hpre Hlen]; try done.
  assert (a_log nj !! k = Some e) as Hej.
  { eapply prefix_lookup_Some; [|exact Hpre]. by rewrite lookup_take_lt by lia. }
  split; [done|]. destruct (decide (a_term ni = a_term nj)) as [Et|Hne].
  - destruct (no_lead _ _ _ _ (ri_node _ s Hi i ni Hni) Hri) as [Hg _].
    assert (leads s' j (a_term ni) (a_commit nj)) as Hl by (by exists nj).
    destruct (run_leads s s' j _ _ _ Hi Hr Hg Ht Hl) as (c0 & (x & Hx & Hxr & Hxt & Hxc) & Hle).
    assert (i = j) as <- by (by eapply (inv_one_leader members s)). assert (x = ni) as -> by congruence. lia.
  - destruct (decide (c ≤ k)) as [Hck|]; [|lia]. exfalso. destruct c as [|c]; [lia|].
    destruct (lookup_lt_is_Some_2 (a_log nj) c) as [e' He']; [apply lookup_lt_Some in Hej; lia|].
    rewrite (lterm_lookup _ _ _ He') in Hown.
    pose proof (good_term_mono (lead s') (a_log nj) c k e' e (ri_lead _ s' Hi')
      (no_good _ _ _ _ (ri_node _ s' Hi' j nj Hnj)) ltac:(lia) He' Hej).
    pose proof (no_terms _ _ _ _ (ri_node _ s Hi i ni Hni) e (list_elem_of_lookup_2 _ _ _ He)). lia.
Qed.

(** An entry under two commit indexes, at two moments, is the same. *)
Lemma commit_kept s s' i j ni nj k e :
  inv s → asteps s s' → tainted s' = false → mem s !! i = Some ni → mem s' !! j = Some nj →
  k < a_commit ni → k < a_commit nj → a_log ni !! k = Some e → a_log nj !! k = Some e.
Proof.
  intros Hi Hr Ht Hni Hnj Hk Hk' He. pose proof (run_inv members s s' Hi Hr) as Hi'.
  pose proof (run_grows members s s' Hi Hr) as Hg.
  pose proof (commits_grows members s s' _ _ _ Hg
    (no_commit _ _ _ _ (ri_node _ s Hi i ni Hni) (og_taint _ _ Hg Ht))) as H1.
  pose proof (no_commit _ _ _ _ (ri_node _ s' Hi' j nj Hnj) Ht) as H2.
  pose proof (commits_agree members s' _ _ _ _ _ _ (S k) Hi' H1 H2 ltac:(lia) ltac:(lia)) as E.
  rewrite <- (lookup_take_lt _ (S k)), <- E, lookup_take_lt by lia. done.
Qed.
End reads.
