(* ===== verification/Simulation.v ===== *)
(** * The cluster refines Raft: the relation

    How a state of the cluster with its messages corresponds to a state of the abstract
    protocol of [RaftSpec]: the rows of each member are its log from its snapshot on, its
    term and role are those of the ledger, what it has voted it keeps, the table and the
    snapshot are what the commands applied make; every request, snapshot and answer in
    the network is one the protocol has sent. *)

From Stdlib Require Import Ascii String.
From stdpp Require Import strings relations.
From S2P Require Import Prelude GoStd Json Wire Logging Metrics Sql Storage StoreSpec LogSpec LogStore.
From S2P Require Import Config Types Node Rpc NodeFrame Apply Follower Leader VoteLedger NodeVote Voting.
From S2P Require Import Snapshots Cluster ClusterSafety Elections Clients LogFrame Net VoteLog.
From S2P Require Import RaftLogs LogRel RaftSpec RaftSafety.
#[local] Open Scope Z_scope.

(** A vote that memory keeps, and the disk too once it has reached the term. *)
Definition pledged (t : Z) (c : string) (l : ledger) : Prop :=
  holds t c (mem_vote l) ∧ (t <= d_term l → holds t c (disk_vote l)).

Lemma lstep_pledged t c l l' : c ≠ "" → lstep l l' → pledged t c l → pledged t c l'.
Proof.
  intros Hc Hs. unfold pledged, holds.
  destruct Hs as [t' r m v d dv Hlt _|c' r m v d dv Hv| |]; cbn; intros [Hm Hd]; (split; [|try done]).
  - left. destruct Hm as [?|[-> _]]; lia.
  - destruct Hm as [?|[-> Hvc]]; [by left|]. right. split; [done|]. destruct Hv as [->| ->]; congruence.
  - done.
  - done.
Qed.

Lemma lsteps_pledged t c l l' : c ≠ "" → lsteps l l' → pledged t c l → pledged t c l'.
Proof. intros Hc. induction 1; eauto using lstep_pledged. Qed.

Section relation.
Context `{D : !SqlDriver} `{L : !SqlLaws D} `{R : !GoRuntime}.
Implicit Types (n : Node) (nd : anode) (s : astate) (N : net).

Definition bounded (l : list ent) : Prop := Z.of_nat (length l) + 1 < two63.

(** The tables of a member with a snapshot at [b] that has applied up to [a]. *)
Record disk_rel (t : tables) nd (b : nat) (a : Z) : Prop := {
  dr_log : is_log b (log_entries t) (a_log nd);
  dr_words : words (a_log nd);
  dr_meta : spec_SnapshotIndexTerm t = Some (Z.of_nat b, lterm (a_log nd) b);
  dr_base : (b <= length (a_log nd))%nat;
  dr_applied : meta_uint "last_applied" t = Some a;
  dr_index : Z.of_nat b <= a < two63 - 1;
  dr_stored : (0 < b)%nat → LastIncludedIndex (spec_LoadSnapshot t) = Z.of_nat b
    ∧ LastIncludedTerm (spec_LoadSnapshot t) = lterm (a_log nd) b
}.

(** The table is what the applied commands make of the empty one, and so is the snapshot. *)
Record applied_rel (t : tables) nd (b : nat) (a : Z) : Prop := {
  ar_index : a <= Z.of_nat (a_commit nd);
  ar_table : outcome (take (Z.to_nat a) (a_log nd)) = Some (kv_values t);
  ar_stored : (0 < b)%nat → ∃ v, decode_snapshot (Data (spec_LoadSnapshot t)) = Ok v
    ∧ outcome (take b (a_log nd)) = Some v
}.

(** A match index, of a member the protocol knows to have [k] entries of the leader's
    term: it may be above [k], for the answer to a snapshot of an older term counts, but
    then no entry of the leader's own term is between. *)
Definition match_rel s nd (m : Z) (k : nat) : Prop :=
  m + 1 < two63 ∧ (tainted s = false → m <= Z.of_nat (length (a_log nd))
    ∧ ∀ c, (0 < c)%nat → Z.of_nat c <= m → lterm (a_log nd) c = a_term nd → (c <= k)%nat).

Definition state_rel s (t : tables) nd (a : Z) : Prop :=
  ∃ b, disk_rel t nd b a ∧ (tainted s = false → applied_rel t nd b a).

Record up_rel s n nd : Prop := {
  ur_ledger : ∃ l, has_ledger n l ∧ l_role l = a_role nd ∧ l_term l = a_term nd
    ∧ (a_vote nd ≠ "" → pledged (a_term nd) (a_vote nd) l);
  ur_commit : commitIndex n = Z.of_nat (a_commit nd);
  ur_index : commitIndex n < two63 - 1;
  ur_next p : is_u64 (map_get (nextIndex n) p);
  ur_match : role n = RoleLeader → ∀ p, p ∈ Peer_ID <$> peers n →
    match_rel s nd (map_get (matchIndex n) p) (default 0%nat (a_match nd !! p));
  ur_disk : ∃ t, view (store n) = Idle t ∧ state_rel s t nd (lastApplied n)
}.

Definition down_rel s (file : tables) nd : Prop :=
  ∃ v a, file_vote file = Some (a_term nd, v) ∧ (a_vote nd ≠ "" → v = a_vote nd)
    ∧ state_rel s (spec_init file) nd a.

Definition proc_rel s (p : proc) nd : Prop :=
  match p with Up n => up_rel s n nd | Down file => down_rel s file nd end.

Definition request_rel s (r : string * RequestVoteRequest) : Prop :=
  ∃ lc, (RequestVoteRequest_CandidateId r.2, RequestVoteRequest_Term r.2, lc) ∈ cands s
    ∧ RequestVoteRequest_LastLogIndex r.2 = Z.of_nat (length lc)
    ∧ RequestVoteRequest_LastLogTerm r.2 = last_lterm lc.

Definition message_of (req : AppendEntriesRequest) (m : amsg) : Prop :=
  m_term m = AppendEntriesRequest_Term req
  ∧ Z.of_nat (m_prev m) = AppendEntriesRequest_PrevLogIndex req
  ∧ m_pterm m = AppendEntriesRequest_PrevLogTerm req
  ∧ m_es m = ents (entries_of req)
  ∧ Z.of_nat (m_commit m) = AppendEntriesRequest_LeaderCommit req.

Definition flight_rel s (f : flight) : Prop :=
  fl_term f = AppendEntriesRequest_Term (fl_req f) ∧ fl_lastSent f = match_index (fl_req f)
  ∧ ok_append (fl_req f) ∧ wf_AppendEntriesRequest (Some (fl_req f))
  ∧ ∃ m, m ∈ msgs s ∧ message_of (fl_req f) m.

Definition answer_rel s (fr : flight * AppendEntriesResponse) : Prop :=
  let '(f, resp) := fr in
  flight_rel s f ∧ is_u64 (AppendEntriesResponse_Term resp)
  ∧ (AppendEntriesResponse_Success resp = true →
     AppendEntriesResponse_MatchIndex resp = match_index (fl_req f)
     ∧ (fl_to f, AppendEntriesRequest_Term (fl_req f), Z.to_nat (match_index (fl_req f))) ∈ acks s).

(** A snapshot under way: the entries it stands for are a request from the first one. *)
Definition parcel_rel s (f : parcel) : Prop :=
  let req := pc_req f in let k := Z.to_nat (InstallSnapshotRequest_LastIncludedIndex req) in
  ok_install req ∧ 0 < InstallSnapshotRequest_LastIncludedIndex req < two63 - 1
  ∧ LastIncludedIndex (pc_snap f) = InstallSnapshotRequest_LastIncludedIndex req
  ∧ ∃ m, m ∈ msgs s ∧ m_term m = InstallSnapshotRequest_Term req ∧ m_prev m = 0%nat ∧ m_pterm m = 0
    ∧ length (m_es m) = k ∧ words (m_es m) ∧ lterm (m_es m) k = InstallSnapshotRequest_LastIncludedTerm req
    ∧ (tainted s = false → (k <= m_commit m)%nat
       ∧ ∃ v, decode_snapshot (InstallSnapshotRequest_Data req) = Ok v ∧ outcome (m_es m) = Some v).

Definition receipt_rel s (fr : parcel * InstallSnapshotResponse) : Prop :=
  let '(f, resp) := fr in
  parcel_rel s f ∧ is_u64 (InstallSnapshotResponse_Term resp)
  ∧ InstallSnapshotRequest_Term (pc_req f) <= InstallSnapshotResponse_Term resp
  ∧ (InstallSnapshotResponse_Term resp = InstallSnapshotRequest_Term (pc_req f) → tainted s = false →
     (pc_to f, InstallSnapshotRequest_Term (pc_req f),
      Z.to_nat (InstallSnapshotRequest_LastIncludedIndex (pc_req f))) ∈ acks s).

Record sim N s : Prop := {
  sim_proc i p : procs (net_world N) !! i = Some p → ∃ nd, mem s !! i = Some nd ∧ proc_rel s p nd;
  sim_given v T c : (v, T, c) ∈ given (net_world N) → ∃ lv, (v, T, c, lv) ∈ avotes s;
  sim_request r : r ∈ requests (net_world N) → request_rel s r;
  sim_sent f : f ∈ sent N → flight_rel s f;
  sim_acked fr : fr ∈ acked N → answer_rel s fr;
  sim_lead T g : lead s !! T = Some g → bounded g;
  sim_len i nd : mem s !! i = Some nd → bounded (a_log nd);
  sim_taint : tainted s = overrun N;
  sim_parcel f : f ∈ parcels (mail N) → parcel_rel s f;
  sim_receipt fr : fr ∈ receipts (mail N) → receipt_rel s fr
}.

(** ** Frames *)

(** What the steps of one member leave of the abstract state. *)
Record spread (i : string) (nd' : anode) s s' : Prop := {
  sp_mem : mem s' = <[i := nd']> (mem s);
  sp_votes : avotes s ⊆ avotes s';
  sp_cands : cands s ⊆ cands s';
  sp_msgs : msgs s ⊆ msgs s';
  sp_acks : acks s ⊆ acks s';
  sp_taint : tainted s' = false → tainted s = false
}.

Lemma spread_trans i nd1 nd2 s s1 s2 : spread i nd1 s s1 → spread i nd2 s1 s2 → spread i nd2 s s2.
Proof.
  intros [H1 H2 H3 H4 H5 H6] [G1 G2 G3 G4 G5 G6].
  split; [by rewrite G1, H1, insert_insert_eq|set_solver..|auto].
Qed.

Lemma spread_refl i nd s : mem s !! i = Some nd → spread i nd s s.
Proof. intros H. split; try done. by rewrite insert_id. Qed.

Lemma state_rel_taint s s' t nd a :
  (tainted s' = false → tainted s = false) → state_rel s t nd a → state_rel s' t nd a.
Proof. intros Ht (b & ? & ?). exists b. auto. Qed.

Lemma match_rel_mono s s' nd m k k' :
  (tainted s' = false → tainted s = false) → (k <= k')%nat → match_rel s nd m k → match_rel s' nd m k'.
Proof.
  intros Ht Hk [H1 H2]. split; [done|]. intros Ht'. destruct (H2 (Ht Ht')) as [H3 H4].
  split; [done|]. intros c Hc Hcm Hct. specialize (H4 c Hc Hcm Hct). lia.
Qed.

Lemma match_rel_zero s nd k : match_rel s nd 0 k.
Proof. split; [done|]. intros _. split; [lia|]. intros c Hc Hle. lia. Qed.

Lemma proc_rel_taint s s' p nd :
  (tainted s' = false → tainted s = false) → proc_rel s p nd → proc_rel s' p nd.
Proof.
  intros Ht. destruct p as [n|file]; cbn.
  - intros [H1 H2 H3 H4 H5 (t & ? & ?)]. split; try done.
    + intros Hr p Hp. by eapply match_rel_mono, H5.
    + exists t. split; [done|by eapply state_rel_taint].
  - intros (v & a & ? & ? & ?). exists v, a. split_and!; [done|done|by eapply state_rel_taint].
Qed.

Lemma request_rel_mono s s' r : cands s ⊆ cands s' → request_rel s r → request_rel s' r.
Proof. intros H (lc & ? & ?). exists lc. split; [by apply H|done]. Qed.

Lemma flight_rel_mono s s' f : msgs s ⊆ msgs s' → flight_rel s f → flight_rel s' f.
Proof. intros H (? & ? & ? & ? & m & ? & ?). split_and!; try done. exists m. split; [by apply H|done]. Qed.

Lemma answer_rel_mono s s' fr :
  msgs s ⊆ msgs s' → acks s ⊆ acks s' → answer_rel s fr → answer_rel s' fr.
Proof.
  destruct fr as [f resp]. intros H1 H2 (? & ? & H). split_and!; [by eapply flight_rel_mono|done|].
  intros Hs. destruct (H Hs). split; [done|by apply H2].
Qed.

Lemma parcel_rel_mono s s' f :
  msgs s ⊆ msgs s' → (tainted s' = false → tainted s = false) → parcel_rel s f → parcel_rel s' f.
Proof.
  intros H Ht (? & ? & ? & m & ? & ? & ? & ? & ? & ? & ? & Hm).
  split; [done|]. split; [done|]. split; [done|]. exists m. split; [by apply H|]. split_and!; auto.
Qed.

Lemma receipt_rel_mono s s' fr :
  msgs s ⊆ msgs s' → acks s ⊆ acks s' → (tainted s' = false → tainted s = false) →
  receipt_rel s fr → receipt_rel s' fr.
Proof.
  destruct fr as [f resp]. intros H1 H2 Ht (? & ? & ? & H). split_and!; [by eapply parcel_rel_mono|done|done|].
  intros E Ht'. auto.
Qed.

Lemma sim_move N s N' s' i p' nd' :
  sim N s → spread i nd' s s' →
  procs (net_world N') = <[i := p']> (procs (net_world N)) → proc_rel s' p' nd' →
  (∀ v T c, (v, T, c) ∈ given (net_world N') →
     (v, T, c) ∈ given (net_world N) ∨ ∃ lv, (v, T, c, lv) ∈ avotes s') →
  (∀ r, r ∈ requests (net_world N') → r ∈ requests (net_world N) ∨ request_rel s' r) →
  (∀ f, f ∈ sent N' → f ∈ sent N ∨ flight_rel s' f) →
  (∀ fr, fr ∈ acked N' → fr ∈ acked N ∨ answer_rel s' fr) →
  (∀ f, f ∈ parcels (mail N') → f ∈ parcels (mail N) ∨ parcel_rel s' f) →
  (∀ fr, fr ∈ receipts (mail N') → fr ∈ receipts (mail N) ∨ receipt_rel s' fr) →
  (∀ T g, lead s' !! T = Some g → lead s !! T = Some g ∨ bounded g) →
  bounded (a_log nd') → tainted s' = overrun N' → sim N' s'.
Proof.
  intros [S1 S2 S3 S4 S5 S6 S7 S8 S9 S10] [P1 P2 P3 P4 P5 P6] Ep Hp Hg Hr Hf Ha Hpc Hrc Hl Hb Ht. split.
  - intros j p Hj. rewrite Ep in Hj. rewrite P1. destruct (decide (j = i)) as [->|Hne].
    + rewrite lookup_insert_eq in Hj. rewrite lookup_insert_eq. injection Hj as <-. by exists nd'.
    + rewrite lookup_insert_ne in Hj by done. rewrite lookup_insert_ne by done. destruct (S1 j p Hj) as (nd & ? & ?).
      exists nd. split; [done|]. by eapply proc_rel_taint.
  - intros v T c Hin. destruct (Hg _ _ _ Hin) as [Ho|?]; [|done].
    destruct (S2 _ _ _ Ho) as (lv & ?). exists lv. by apply P2.
  - intros r Hin. destruct (Hr r Hin) as [Ho|?]; [|done]. by eapply request_rel_mono, S3.
  - intros f Hin. destruct (Hf f Hin) as [Ho|?]; [|done]. by eapply flight_rel_mono, S4.
  - intros fr Hin. destruct (Ha fr Hin) as [Ho|?]; [|done]. by eapply answer_rel_mono, S5.
  - intros T g Hin. destruct (Hl T g Hin) as [?|?]; [by eapply S6|done].
  - intros j nd Hj. rewrite P1 in Hj. destruct (decide (j = i)) as [->|Hne].
    + rewrite lookup_insert_eq in Hj. by injection Hj as <-.
    + rewrite lookup_insert_ne in Hj by done. by eapply S7.
  - done.
  - intros f Hin. destruct (Hpc f Hin) as [Ho|?]; [|done]. by eapply parcel_rel_mono, S9.
  - intros fr Hin. destruct (Hrc fr Hin) as [Ho|?]; [|done]. by eapply receipt_rel_mono, S10.
Qed.

(** A member that has only voted, followed or been told something. *)
Lemma disk_rel_same t t' nd nd' b a :
  same_log t t' → a_log nd' = a_log nd → disk_rel t nd b a → disk_rel t' nd' b a.
Proof.
  intros Hs El [H1 H2 H3 H4 H5 H6 H7]. split; rewrite ?El; try done.
  - by rewrite (sl_log _ _ Hs).
  - by rewrite (same_log_snapshot _ _ Hs).
  - by rewrite (same_log_applied _ _ Hs).
  - by rewrite (same_log_stored _ _ Hs).
Qed.

Lemma applied_rel_same t t' nd nd' b a :
  same_log t t' → a_log nd' = a_log nd → a_commit nd' = a_commit nd →
  applied_rel t nd b a → applied_rel t' nd' b a.
Proof.
  intros Hs El Ec [H1 H2 H3]. split; rewrite ?El, ?Ec; [done| |].
  - by rewrite (same_log_values _ _ Hs).
  - by rewrite (same_log_stored _ _ Hs).
Qed.

Lemma state_rel_same s s' t t' nd nd' a :
  (tainted s' = false → tainted s = false) → same_log t t' →
  a_log nd' = a_log nd → a_commit nd' = a_commit nd → state_rel s t nd a → state_rel s' t' nd' a.
Proof.
  intros Ht Hs El Ec (b & Hd & Ha). exists b. split; [by eapply disk_rel_same|].
  intros Ht'. by apply (applied_rel_same t t' nd nd'); auto.
Qed.

Lemma match_rel_same s s' nd nd' m k :
  (tainted s' = false → tainted s = false) → a_log nd' = a_log nd → a_term nd' = a_term nd →
  match_rel s nd m k → match_rel s' nd' m k.
Proof. intros Ht El Et [H1 H2]. split; [done|]. rewrite El, Et. auto. Qed.

Lemma up_rel_keeps s s' n nd n' nd' l' :
  up_rel s n nd → keeps_log n n' → next_words n n' → has_ledger n' l' →
  l_role l' = a_role nd' → l_term l' = a_term nd' →
  (a_vote nd' ≠ "" → pledged (a_term nd') (a_vote nd') l') →
  a_log nd' = a_log nd → a_commit nd' = a_commit nd →
  (role n' = RoleLeader → ∀ p, p ∈ Peer_ID <$> peers n' →
     match_rel s' nd' (map_get (matchIndex n') p) (default 0%nat (a_match nd' !! p))) →
  (tainted s' = false → tainted s = false) → up_rel s' n' nd'.
Proof.
  intros [U1 U2 U3 U4 U5 (t & Hv & Hd)] (K1 & K2 & K3) Hnx Hl' Er Et Ev El Ec Hm Htn.
  destruct (K3 t Hv) as (t' & Hv' & Hs). split.
  - by exists l'.
  - by rewrite K1, Ec.
  - by rewrite K1.
  - by apply Hnx.
  - done.
  - exists t'. rewrite K2. split; [done|]. by eapply state_rel_same.
Qed.

(** ** Following, abstractly *)

Definition adopt (l' : ledger) nd : anode :=
  if decide (l_role l' = RoleFollower) then follow (l_term l') nd else nd.

Lemma adopt_fields l' nd :
  a_log (adopt l' nd) = a_log nd ∧ a_commit (adopt l' nd) = a_commit nd
  ∧ a_match (adopt l' nd) = a_match nd
  ∧ a_role (adopt l' nd) = (if decide (l_role l' = RoleFollower) then RoleFollower else a_role nd)
  ∧ a_term (adopt l' nd) = (if decide (l_role l' = RoleFollower) then l_term l' else a_term nd).
Proof. unfold adopt. by destruct (decide _). Qed.

Context (members : list string).

Lemma adopt_spread s i nd l' :
  mem s !! i = Some nd → a_term nd <= l_term l' →
  ∃ s', rtc (astep members) s s' ∧ spread i (adopt l' nd) s s' ∧ lead s' = lead s
    ∧ tainted s' = tainted s ∧ avotes s' = avotes s.
Proof.
  intros Hnd Hle. unfold adopt. destruct (decide _) as [E|E].
  - exists (set_mem i (follow (l_term l') nd) s). split; [|done].
    apply rtc_once. by apply a_follow.
  - exists s. split_and!; [done|by apply spread_refl|done..].
Qed.

Lemma adopt_pledged l l' nd :
  lsteps l l' → disk_behind l → l_term l = a_term nd →
  (a_vote nd ≠ "" → pledged (a_term nd) (a_vote nd) l) →
  (l_role l' ≠ RoleFollower → l_role l = l_role l' ∧ l_term l = l_term l') →
  a_vote (adopt l' nd) ≠ "" → pledged (a_term (adopt l' nd)) (a_vote (adopt l' nd)) l'.
Proof.
  intros Hs Hb Et Hv Hr. unfold adopt. destruct (decide _) as [E|E]; cbn.
  - case_bool_decide; [done|]. intros Hne. destruct (lsteps_mono _ _ Hs Hb) as (Hle & _ & _).
    replace (l_term l') with (a_term nd) by lia. eapply lsteps_pledged; [done|done|auto].
  - intros Hne. eapply lsteps_pledged; [done|done|auto].
Qed.

(** The ledger takes steps and the log is left alone. *)
Lemma up_follow s i n nd n' l l' :
  up_rel s n nd → mem s !! i = Some nd → has_ledger n l → disk_behind l →
  has_ledger n' l' → lsteps l l' → keeps_log n n' → next_words n n' → same_identity n n' →
  (role n' = RoleLeader → matchIndex n' = matchIndex n) →
  ∃ s' nd', rtc (astep members) s s' ∧ spread i nd' s s' ∧ up_rel s' n' nd'
    ∧ a_log nd' = a_log nd ∧ lead s' = lead s ∧ tainted s' = tainted s.
Proof.
  intros U Hnd Hl Hb Hl' Hs Hk Hnx Hid Hm.
  pose proof U as [(l0 & Hl0 & Er & Et & Ev) _ _ _ U5 _].
  assert (l0 = l) as -> by (by eapply has_ledger_inj).
  destruct (lsteps_mono _ _ Hs Hb) as (Hle & _ & _).
  destruct (adopt_spread s i nd l') as (s' & Hr & Hsp & Hle' & Ht & _); [done|lia|].
  exists s', (adopt l' nd). split_and!; [done|done| |unfold adopt; by destruct (decide _)|done|done].
  assert (l_role l' ≠ RoleFollower → l_role l = l_role l' ∧ l_term l = l_term l') as Hrole
    by (by apply lsteps_role).
  apply (up_rel_keeps s s' n nd n' (adopt l' nd) l'); try done.
  - unfold adopt. destruct (decide _) as [E|E]; [by rewrite E|]. destruct (Hrole E) as [<- _]. done.
  - unfold adopt. destruct (decide _) as [E|E]; [done|]. destruct (Hrole E) as [_ <-]. done.
  - by eapply adopt_pledged.
  - unfold adopt. by destruct (decide _).
  - unfold adopt. by destruct (decide _).
  - intros Hlead p Hp. rewrite (Hm Hlead).
    assert (l_role l' = RoleLeader) as Hl'r by (destruct Hl' as (? & _ & _ & <- & _); done).
    destruct (Hrole ltac:(by rewrite Hl'r)) as [E1 E2]. unfold adopt. rewrite Hl'r. cbn.
    apply (match_rel_same s s' nd); [by rewrite Ht|done|done|].
    apply U5; [|destruct Hid as (_ & <- & _); done].
    destruct Hl as (? & _ & _ & -> & _). by rewrite E1.
  - by rewrite Ht.
Qed.
End relation.
