(* ===== verification/SimElections.v ===== *)
(** * The cluster refines Raft: elections, crashes and restarts

    The steps of the cluster that write no row of the log, each matched by steps of the
    abstract protocol. *)

From Stdlib Require Import Ascii String.
From stdpp Require Import strings relations.
From S2P Require Import Prelude GoStd Json Wire Logging Metrics Sql Storage StoreSpec LogSpec LogStore.
From S2P Require Import Config Types Node Rpc NodeFrame Apply Follower Leader VoteLedger NodeVote Voting.
From S2P Require Import Cluster ClusterSafety Elections Clients LogFrame Net VoteLog.
From S2P Require Import RaftLogs LogRel RaftSpec RaftSafety Simulation.
#[local] Open Scope Z_scope.

Section elections.
Context `{D : !SqlDriver} `{L : !SqlLaws D} `{R : !GoRuntime}.
Context (C : cluster) (HC : well_configured C).
Implicit Types (n : Node) (nd : anode) (s : astate) (N : net).

Abbreviation mems := (members C).
Abbreviation inv := (raft_inv mems).
Abbreviation asteps := (rtc (astep mems)).

Definition simulates N' s : Prop := ∃ s', asteps s s' ∧ sim N' s'.

(** A member that is up, on both sides. *)
Record at_node N s (i : string) n nd l : Prop := {
  an_mem : mem s !! i = Some nd;
  an_rel : up_rel s n nd;
  an_ledger : has_ledger n l;
  an_role : l_role l = a_role nd;
  an_term : l_term l = a_term nd;
  an_vote : a_vote nd ≠ "" → pledged (a_term nd) (a_vote nd) l;
  an_behind : disk_behind l;
  an_self : self_voted i l;
  an_conf : configured C i n;
  an_member : i ∈ mems;
  an_name : i ≠ "";
  an_bound : bounded (a_log nd)
}.

Lemma up_node N s i n :
  sim N s → invariant C (net_world N) → procs (net_world N) !! i = Some (Up n) →
  ∃ nd l, at_node N s i n nd l.
Proof.
  intros Hs Hi Hp. destruct (sim_proc _ _ Hs i _ Hp) as (nd & Hnd & U).
  destruct (sv_node _ _ _ (inv_votes _ _ Hi) i n Hp) as (Hc & Hne & l & Hl & Hb & Hself & _).
  pose proof (sv_member _ _ _ (inv_votes _ _ Hi) i _ Hp) as Him.
  destruct (ur_ledger _ _ _ U) as (l0 & Hl0 & Er & Et & Ev).
  assert (l0 = l) as -> by (by eapply has_ledger_inj).
  exists nd, l. split; try done. by eapply sim_len.
Qed.

Lemma ledger_role n l : has_ledger n l → role n = l_role l.
Proof. by intros (? & _ & _ & ? & _). Qed.

Lemma ledger_term n l : has_ledger n l → currentTerm n = l_term l.
Proof. by intros (? & _ & _ & _ & ? & _). Qed.

Lemma ledger_voted n l : has_ledger n l → votedFor n = l_vote l.
Proof. by intros (? & _ & _ & _ & _ & ? & _). Qed.

(** ** Steps that the abstract member follows *)

Lemma sim_follow N s i n nd l n' l' N' :
  sim N s → at_node N s i n nd l →
  has_ledger n' l' → lsteps l l' → keeps_log n n' → next_words n n' → same_identity n n' →
  (role n' = RoleLeader → matchIndex n' = matchIndex n) →
  procs (net_world N') = <[i := Up n']> (procs (net_world N)) →
  given (net_world N') ⊆ given (net_world N) → requests (net_world N') ⊆ requests (net_world N) →
  sent N' = sent N → (∀ fr, fr ∈ acked N' → fr ∈ acked N ∨ answer_rel s fr) →
  overrun N' = overrun N → parcels (mail N') = parcels (mail N) →
  (∀ fr, fr ∈ receipts (mail N') → fr ∈ receipts (mail N) ∨ receipt_rel s fr) → simulates N' s.
Proof.
  intros Hs [A1 A2 A3 A4 A5 A6 A7 A8 A9 A10 A11 A12] Hl' Hst Hk Hnx Hid Hm Ep Eg Er Es Ea Eo Epc Erc.
  destruct (up_follow mems s i n nd n' l l') as (s' & nd' & Hrun & Hsp & U' & El & Elead & Et); try done.
  exists s'. split; [done|].
  eapply (sim_move N s N' s' i (Up n') nd'); [done..| | | | | | | | |].
  - intros v T c Hin. left. by apply Eg.
  - intros r Hin. left. by apply Er.
  - intros f Hin. left. by rewrite <- Es.
  - intros fr Hin. destruct (Ea fr Hin) as [?|Hr]; [by left|right].
    eapply answer_rel_mono; [apply Hsp|apply Hsp|done].
  - intros f Hin. left. by rewrite <- Epc.
  - intros fr Hin. destruct (Erc fr Hin) as [?|Hr]; [by left|right].
    eapply receipt_rel_mono; [apply Hsp|apply Hsp|apply Hsp|done].
  - rewrite Elead. by left.
  - by rewrite El.
  - rewrite Et, Eo. by apply sim_taint.
Qed.

(** The same for a computation that refines votes and leaves the bookkeeping alone. *)
Lemma sim_calm {A} (m : ST Node A) N s i n nd l N' :
  sim N s → at_node N s i n nd l →
  preserves vote_refines m → preserves keeps_log m → preserves same_progress m →
  procs (net_world N') = <[i := Up (m n).2]> (procs (net_world N)) →
  given (net_world N') ⊆ given (net_world N) → requests (net_world N') ⊆ requests (net_world N) →
  sent N' = sent N → acked N' = acked N → overrun N' = overrun N → mail N' = mail N → simulates N' s.
Proof.
  intros Hs Hat Hv Hk Hp Ep Eg Er Es Ea Eo Em. destruct (Hv n) as [Hid Hl].
  destruct (Hl l (an_ledger _ _ _ _ _ _ Hat)) as (l' & Hl' & Hst).
  eapply (sim_follow N s i n nd l (m n).2 l' N'); try done.
  - apply (next_words_progress _ Hp).
  - intros _. by destruct (Hp n).
  - rewrite Ea. by left.
  - by rewrite Em.
  - rewrite Em. by left.
Qed.

Lemma sim_client N s i n nd l o :
  sim N s → at_node N s i n nd l → client_op o = true → (∀ req, o ≠ OpWrite req) →
  simulates (with_world (set_proc i (Up (run_local o n)) (net_world N)) N) s.
Proof.
  intros Hs Hat Ho Hw. destruct o as [| |req|key index term d|req|k|req| |h| | |]; try done.
  - by destruct (Hw req).
  - apply (sim_calm (Write_round key index term d) N s i n nd l); try done;
      [apply vote_Write_round|apply keeps_Write_round|apply progress_Write_round].
  - apply (sim_calm (Read_begin req) N s i n nd l); try done;
      [apply vote_Read_begin|apply keeps_Read_begin|apply progress_Read_begin].
  - apply (sim_calm (Read_check k) N s i n nd l); try done;
      first [apply vote_Read_check|apply keeps_Read_check|apply progress_Read_check].
  - apply (sim_calm (Read_get req) N s i n nd l); try done;
      [apply vote_Read_get|apply keeps_Read_get|apply progress_Read_get].
  - apply (sim_calm Status N s i n nd l); try done; [apply vote_Status|apply keeps_Status|apply progress_Status].
  - apply (sim_calm (run_tick h) N s i n nd l); try done;
      [apply vote_run_tick|apply keeps_run_tick|apply progress_run_tick].
Qed.

(** ** Votes *)

Lemma up_to_date_list lc (lv : list ent) req :
  RequestVoteRequest_LastLogIndex req = Z.of_nat (length lc) →
  RequestVoteRequest_LastLogTerm req = last_lterm lc →
  log_up_to_date req (Z.of_nat (length lv), last_lterm lv) = true → uptodate lc lv.
Proof.
  intros E1 E2. unfold log_up_to_date, uptodate. cbn. rewrite E1, E2.
  intros [H%Z.ltb_lt|[H1%Z.eqb_eq H2%Z.leb_le]%andb_prop]%orb_prop; [by left|right; lia].
Qed.

Lemma node_last N s i n nd l :
  at_node N s i n nd l → ∃ t, view (store n) = Idle t
    ∧ spec_LastIndexAndTerm t = Some (Z.of_nat (length (a_log nd)), last_lterm (a_log nd)).
Proof.
  intros [_ U _ _ _ _ _ _ _ _ _ Hb].
  destruct (ur_disk _ _ _ U) as (t & Hv & b & [H1 H2 H3 H4 _ _ _] & _).
  exists t. split; [done|]. apply (is_log_last b); try done. unfold bounded in Hb. lia.
Qed.

Lemma keep_request_granted N s i n nd l req r n' l' lc :
  sim N s → at_node N s i n nd l →
  RequestVote (Some req) n = (r, n') → granted r = true → is_u64 (RequestVoteRequest_Term req) →
  request_rel s (i, req) → same_identity n n' → has_ledger n' l' → lsteps l l' →
  voted (RequestVoteRequest_Term req) (RequestVoteRequest_CandidateId req) l' →
  RequestVoteRequest_CandidateId req ≠ "" →
  (RequestVoteRequest_CandidateId req, RequestVoteRequest_Term req, lc) ∈ cands s →
  RequestVoteRequest_LastLogIndex req = Z.of_nat (length lc) →
  RequestVoteRequest_LastLogTerm req = last_lterm lc →
  ∃ s' nd', asteps s s' ∧ spread i nd' s s' ∧ up_rel s' n' nd' ∧ a_log nd' = a_log nd
    ∧ lead s' = lead s ∧ tainted s' = tainted s
    ∧ (i, RequestVoteRequest_Term req, RequestVoteRequest_CandidateId req, a_log nd) ∈ avotes s'.
Proof.
  intros Hs Hat E Hg Hu Hrel Hid Hl' Hst [Hm Hd] Hc Hin Elc Etc.
  set (T := RequestVoteRequest_Term req) in *. set (c := RequestVoteRequest_CandidateId req) in *.
  destruct (node_last _ _ _ _ _ _ Hat) as (t & Hv & Hlast).
  pose proof (RequestVote_granted n t _ req Hv Hlast Hu) as Hgr. unfold wp in Hgr. rewrite E in Hgr.
  specialize (Hgr Hg). unfold grants in Hgr. apply andb_prop in Hgr as [[Hle Hfree]%andb_prop Hup].
  apply Z.leb_le in Hle. destruct Hat as [A1 A2 A3 A4 A5 A6 A7 A8 A9 A10 A11 A12].
  pose proof (ledger_term _ _ A3) as Eterm. pose proof (ledger_voted _ _ A3) as Evote.
  fold T in Hle. rewrite Eterm, A5 in Hle.
  assert (a_term nd < T ∨ a_vote nd = "" ∨ a_vote nd = c) as Hcan.
  { unfold vote_free in Hfree. fold T c in Hfree. rewrite Eterm, A5, Evote in Hfree.
    apply orb_prop in Hfree as [[Hlt%Z.ltb_lt|He%bool_decide_eq_true]%orb_prop|He%bool_decide_eq_true];
      [by left|..]; right; (destruct (decide (a_vote nd = "")) as [?|Hne]; [by left|]);
      destruct (A6 Hne) as [[Hlt|[_ Hvv]] _]; cbn in *; try lia; [by left; congruence|right; congruence]. }
  assert (uptodate lc (a_log nd)) as Hupl by (by eapply up_to_date_list).
  set (nd1 := with_vote c (if decide (a_term nd < T) then follow T nd else nd)).
  set (s1 := add_vote (i, T, c, a_log nd) (set_mem i nd1 s)).
  assert (astep mems s s1) as Hstep by (by eapply a_grant).
  assert (a_term nd1 = T ∧ a_vote nd1 = c ∧ a_log nd1 = a_log nd ∧ a_commit nd1 = a_commit nd
    ∧ a_match nd1 = a_match nd) as (E1 & E2 & E3 & E4 & E5).
  { unfold nd1. destruct (decide (a_term nd < T)); cbn; [done|]. split_and!; try done. lia. }
  assert (l_term l' = T ∧ l_vote l' = c) as [ET Ec] by (unfold mem_vote in Hm; by simplify_eq/=).
  assert (mem s1 !! i = Some nd1) as Hmem1 by (cbn; by rewrite lookup_insert_eq).
  destruct (adopt_spread mems s1 i nd1 l' Hmem1) as (s2 & Hrun & Hsp & Hlead & Ht & Hav); [lia|].
  exists s2, (adopt l' nd1). split_and!; [by eapply rtc_l| | | | | |].
  - eapply spread_trans; [|exact Hsp]. split; try done. intros x Hx. by right.
  - assert (l_role l' ≠ RoleFollower → l_role l = l_role l' ∧ l_term l = l_term l') as Hrole
      by (by apply lsteps_role).
    pose proof (keeps_RequestVote (Some req) n) as Hk. rewrite E in Hk.
    pose proof (progress_RequestVote (Some req) n) as Hp. rewrite E in Hp. cbn in Hk, Hp.
    destruct (adopt_fields l' nd1) as (F1 & F2 & F3 & F4 & F5).
    apply (up_rel_keeps s s2 n nd n' (adopt l' nd1) l'); try done.
    + intros H. destruct Hp as (_ & -> & _). exact H.
    + rewrite F4. destruct (decide (l_role l' = RoleFollower)) as [Ef|Ef]; [done|].
      destruct (Hrole Ef) as [<- Etl]. rewrite A4. unfold nd1.
      destruct (decide (a_term nd < T)); [exfalso; lia|done].
    + rewrite F5, E1. by destruct (decide (l_role l' = RoleFollower)).
    + assert (a_term (adopt l' nd1) = T ∧ a_vote (adopt l' nd1) = c) as [-> ->].
      { clear -E1 E2 ET. clearbody nd1. unfold adopt.
        destruct (decide (l_role l' = RoleFollower)); [cbn|done].
        split; [done|]. rewrite bool_decide_false; [done|]. rewrite E1, ET. lia. }
      intros _. unfold pledged, holds. rewrite Hm, Hd. cbn. split; [by right|by right].
    + by rewrite F1.
    + by rewrite F2.
    + intros Hlead' p Hpp. destruct Hp as (-> & _). rewrite (ledger_role _ _ Hl') in Hlead'.
      destruct Hrole as [Er1 Er2]; [by rewrite Hlead'|]. rewrite F3, E5.
      apply (match_rel_same s s2 nd); [by rewrite Ht|by rewrite F1| |].
      { rewrite F5, E1. destruct (decide (l_role l' = RoleFollower)) as [Ef|_]; [congruence|]. lia. }
      apply (ur_match _ _ _ A2); [by rewrite (ledger_role _ _ A3), Er1|].
      destruct Hid as (_ & <- & _). done.
    + by rewrite Ht.
  - by destruct (adopt_fields l' nd1) as (-> & _).
  - by rewrite Hlead.
  - by rewrite Ht.
  - rewrite Hav. by left.
Qed.

Lemma sim_request_step N s i n req r n' :
  sim N s → invariant C (net_world N) →
  procs (net_world N) !! i = Some (Up n) → (i, req) ∈ requests (net_world N) →
  RequestVote (Some req) n = (r, n') →
  simulates (with_world (answered i req r (set_proc i (Up n') (net_world N))) N) s.
Proof.
  intros Hs Hi Hp Hin E. destruct (up_node N s i n Hs Hi Hp) as (nd & l & Hat).
  pose proof (inv_requests _ _ Hi) as Hq. rewrite Forall_forall in Hq. destruct (Hq _ Hin) as [Hne Hu].
  pose proof (RequestVote_ledger (Some req) n l Hu (an_ledger _ _ _ _ _ _ Hat)) as Hpost.
  unfold wp in Hpost. rewrite E in Hpost. destruct Hpost as (Hid & l' & Hl' & Hst & _ & Hg). cbn in Hg, Hne.
  destruct (granted r) eqn:Egr.
  - pose proof (sim_request _ _ Hs _ Hin) as Hrel. pose proof Hrel as (lc & Hc & Ei & Et).
    destruct (keep_request_granted N s i n nd l req r n' l' lc)
      as (s' & nd' & Hrun & Hsp & U & El & Elead & Etn & Hv); try done; [by apply Hg|].
    exists s'. split; [done|].
    eapply (sim_move N s _ s' i (Up n') nd'); [done|done|done|done| | | | | | | | |].
    + cbn. rewrite Egr. intros v T c [Hx|Hx]%elem_of_app; [|by left].
      apply list_elem_of_singleton in Hx. simplify_eq. right. by exists (a_log nd).
    + by left.
    + by left.
    + by left.
    + by left.
    + by left.
    + rewrite Elead. by left.
    + rewrite El. apply Hat.
    + rewrite Etn. exact (sim_taint _ _ Hs).
  - pose proof (keeps_RequestVote (Some req) n) as Hk. rewrite E in Hk.
    pose proof (progress_RequestVote (Some req) n) as Hpr. rewrite E in Hpr. cbn in Hk, Hpr.
    eapply (sim_follow N s i n nd l n' l'); try done.
    + intros H. destruct Hpr as (_ & -> & _). exact H.
    + intros _. by destruct Hpr.
    + cbn. by rewrite Egr.
    + by left.
    + by left.
Qed.

(** ** Standing for election *)

Definition standing (i : string) nd : anode :=
  ANode RoleCandidate (a_term nd + 1) i (a_log nd) (a_commit nd) (a_match nd).

Definition stood (i : string) nd s : astate :=
  add_cand (i, a_term nd + 1, a_log nd) (add_vote (i, a_term nd + 1, i, a_log nd)
    (set_mem i (standing i nd) s)).

Lemma stood_spread i nd s : spread i (standing i nd) s (stood i nd s).
Proof. split; try done; intros x Hx; by right. Qed.

Lemma up_standing N s i n nd l n' l' :
  at_node N s i n nd l → has_ledger n' l' → l' = elect i l ∨ l' = candidacy i l →
  keeps_log n n' → next_words n n' → up_rel (stood i nd s) n' (standing i nd).
Proof.
  intros [A1 A2 A3 A4 A5 A6 A7 A8 A9 A10 A11 A12] Hl' Hor Hk Hnx.
  assert (l_role l' = RoleCandidate ∧ l_term l' = a_term nd + 1 ∧ l_vote l' = i
    ∧ (d_term l' <= a_term nd ∨ disk_vote l' = (a_term nd + 1, i))) as (E1 & E2 & E3 & E4).
  { unfold disk_behind in A7. destruct Hor as [->| ->]; cbn; rewrite <- A5; split_and!; try done.
    - left. lia.
    - by right. }
  apply (up_rel_keeps s (stood i nd s) n nd n' (standing i nd) l'); try done.
  - intros _. cbn. split.
    + right. unfold mem_vote. by rewrite E2, E3.
    + intros Hd. destruct E4 as [?|E4]; [lia|]. right. by rewrite E4.
  - intros Hlead. rewrite (ledger_role _ _ Hl'), E1 in Hlead. done.
Qed.

Lemma sim_elect N s i n r n' :
  sim N s → invariant C (net_world N) →
  procs (net_world N) !! i = Some (Up n) → currentTerm n + 1 < two64 →
  startElection_begin n = (r, n') →
  simulates (with_world (match r with Some e => launch i e | None => id end
    (set_proc i (Up n') (net_world N))) N) s.
Proof.
  intros Hs Hi Hp Hb E. destruct (up_node N s i n Hs Hi Hp) as (nd & l & Hat).
  pose proof Hat as [A1 A2 A3 A4 A5 A6 A7 A8 A9 A10 A11 A12].
  pose proof (startElection_begin_ledger n l A3) as Hpost.
  rewrite <- (ledger_term _ _ A3) in Hpost. specialize (Hpost Hb). unfold wp in Hpost. rewrite E in Hpost.
  destruct Hpost as [Hid Hpost]. assert (node_id n = i) as Eid by apply A9. cbn in Hpost. rewrite Eid in Hpost.
  pose proof (keeps_startElection n) as Hk. rewrite E in Hk.
  pose proof (progress_startElection n) as Hpr. rewrite E in Hpr. cbn in Hk, Hpr.
  assert (next_words n n') as Hnx by (intros H; destruct Hpr as (_ & -> & _); exact H).
  assert (∀ l', has_ledger n' l' → l' = elect i l ∨ l' = candidacy i l →
    asteps s (stood i nd s) ∧ up_rel (stood i nd s) n' (standing i nd)) as Hstand.
  { intros l' Hl' Hor. split; [|by eapply up_standing]. apply rtc_once. by apply a_timeout. }
  assert (∀ l', has_ledger n' l' → l' = elect i l ∨ l' = candidacy i l →
    simulates (with_world (set_proc i (Up n') (net_world N)) N) s) as Hnone.
  { intros l' Hl' Hor. destruct (Hstand l' Hl' Hor) as [Hrun U]. exists (stood i nd s). split; [done|].
    eapply (sim_move N s _ _ i (Up n') (standing i nd) Hs (stood_spread i nd s)); try done;
      [by left..|exact (sim_taint _ _ Hs)]. }
  destruct r as [e|].
  - destruct Hpost as (Hl' & Het & _). destruct (Hstand _ Hl' (or_intror eq_refl)) as [Hrun U].
    exists (stood i nd s). split; [done|].
    destruct (node_last _ _ _ _ _ _ Hat) as (t & Hv & Hlast).
    pose proof (startElection_last n t _ Hv Hlast) as Hse. unfold wp in Hse. rewrite E in Hse.
    specialize (Hse e eq_refl). injection Hse as Eli Elt.
    assert (el_term e = a_term nd + 1) as Ete by (rewrite Het, (ledger_term _ _ A3), A5; done).
    eapply (sim_move N s _ _ i (Up n') (standing i nd) Hs (stood_spread i nd s)); try done;
      [..|exact (sim_taint _ _ Hs)].
    + intros v T c [Hx|Hx]%elem_of_cons; [|by left]. simplify_eq. right. exists (a_log nd).
      rewrite Ete. by left.
    + intros rq [Hx|Hx]%elem_of_app; [|by left]. right.
      apply list_elem_of_fmap in Hx as (p & -> & _). exists (a_log nd). cbn. rewrite Ete. split; [by left|done].
    + by left.
    + by left.
    + by left.
    + by left.
    + by left.
  - destruct Hpost as [->|[Hl'|Hl']]; [|by eapply Hnone; [|left]|by eapply Hnone; [|right]].
    exists s. split; [done|].
    eapply (sim_move N s _ s i (Up n) nd Hs (spread_refl i nd s A1)); try done;
      [by left..|exact (sim_taint _ _ Hs)].
Qed.

(** ** Winning *)

Lemma chosen_quorum g T i :
  chosen C g T i → ∃ q, quorum mems q ∧ ∀ v, v ∈ q → (v, T, i) ∈ g.
Proof.
  intros (q & Hn & Hlen & Hq). exists q. split; [split_and!; [done|by apply Hq|]|by apply Hq].
  unfold majority_of in Hlen. pose proof (Z.div_mod (Z.of_nat (length mems)) 2 ltac:(lia)).
  pose proof (Z.mod_pos_bound (Z.of_nat (length mems)) 2 ltac:(lia)). lia.
Qed.

(** A member that becomes the leader of its term, a majority having voted for it. *)
Lemma sim_win N s i n nd l n' N' :
  sim N s → at_node N s i n nd l →
  role n = RoleCandidate → role n' = RoleLeader → unmatched n' →
  has_ledger n' (leading l) → keeps_log n n' → next_words n n' → same_identity n n' →
  chosen C (given (net_world N)) (l_term l) i →
  procs (net_world N') = <[i := Up n']> (procs (net_world N)) →
  given (net_world N') = given (net_world N) → requests (net_world N') = requests (net_world N) →
  sent N' = sent N → acked N' = acked N → overrun N' = overrun N → mail N' = mail N → simulates N' s.
Proof.
  intros Hs Hat Hr Hr' Hun Hl' Hk Hnx Hid Hch Ep Eg Er Es Ea Eo Em.
  pose proof Hat as [A1 A2 A3 A4 A5 A6 A7 A8 A9 A10 A11 A12].
  destruct (chosen_quorum _ _ _ Hch) as (q & Hq & Hv).
  set (nd' := ANode RoleLeader (a_term nd) (a_vote nd) (a_log nd) (a_commit nd) ∅).
  set (s' := add_ack (i, a_term nd, length (a_log nd)) (set_lead (a_term nd) (a_log nd) (set_mem i nd' s))).
  exists s'. split.
  { apply rtc_once. eapply a_win; [done| |exact Hq|].
    - rewrite <- A4, <- (ledger_role _ _ A3). done.
    - intros v Hin. apply (sim_given _ _ Hs). rewrite <- A5. by apply Hv. }
  assert (spread i nd' s s') as Hsp by (split; try done; intros x Hx; by right).
  eapply (sim_move N s N' s' i (Up n') nd' Hs Hsp Ep).
  - apply (up_rel_keeps s s' n nd n' nd' (leading l)); try done.
    intros _ p Hp. rewrite Hun; [by apply match_rel_zero|done|]. destruct Hid as (Ei & Epp & _). rewrite Ei.
    destruct A9 as (Ei' & Hc). rewrite Ei'. rewrite Epp in Hp.
    destruct (peer_member C HC i n A10 (conj Ei' Hc)) as (_ & Hni & _). by intros ->.
  - rewrite Eg. by left.
  - rewrite Er. by left.
  - rewrite Es. by left.
  - rewrite Ea. by left.
  - rewrite Em. by left.
  - rewrite Em. by left.
  - intros T g Hg. cbn in Hg. destruct (decide (T = a_term nd)) as [->|Hne].
    + rewrite lookup_insert_eq in Hg. injection Hg as <-. by right.
    + rewrite lookup_insert_ne in Hg by done. by left.
  - done.
  - rewrite Eo. exact (sim_taint _ _ Hs).
Qed.

(** A vote goroutine or the end of an election: the member wins, or has followed. *)
Lemma sim_counted N s i n nd l n' l' N' :
  sim N s → at_node N s i n nd l → invariant C (net_world N') →
  has_ledger n' l' → lsteps l l' ∨ l' = leading l → keeps_log n n' → next_words n n' → same_identity n n' →
  (same_progress n n' ∧ (role n' = RoleLeader → role n = RoleLeader))
    ∨ (role n = RoleCandidate ∧ role n' = RoleLeader ∧ unmatched n') →
  procs (net_world N') = <[i := Up n']> (procs (net_world N)) →
  given (net_world N') = given (net_world N) → requests (net_world N') = requests (net_world N) →
  sent N' = sent N → acked N' = acked N → overrun N' = overrun N → mail N' = mail N → simulates N' s.
Proof.
  intros Hs Hat Hi' Hl' Hcase Hk Hnx Hid Hpr Ep Eg Er Es Ea Eo Em.
  pose proof Hat as [A1 A2 A3 A4 A5 A6 A7 A8 A9 A10 A11 A12].
  pose proof (ledger_role _ _ A3) as Erl. pose proof (ledger_role _ _ Hl') as Erl'.
  destruct Hpr as [[Hpr Hrole]|(Hr & Hr' & Hun)].
  - assert (lsteps l l') as Hst.
    { destruct Hcase as [?| ->]; [done|]. rewrite Erl', Erl in Hrole. specialize (Hrole eq_refl).
      destruct l. cbn in Hrole. subst. apply rtc_refl. }
    eapply (sim_follow N s i n nd l n' l' N'); try done.
    + intros _. by destruct Hpr.
    + by rewrite Eg.
    + by rewrite Er.
    + rewrite Ea. by left.
    + by rewrite Em.
    + rewrite Em. by left.
  - assert (l' = leading l) as ->.
    { destruct Hcase as [Hst|?]; [|done]. destruct (lsteps_role _ _ Hst) as [E _]; [by rewrite <- Erl', Hr'|].
      congruence. }
    apply (sim_win N s i n nd l n' N'); try done. rewrite <- Eg.
    destruct (sv_node _ _ _ (inv_votes _ _ Hi') i n') as (_ & _ & l2 & Hl2 & _ & _ & Hch).
    + by rewrite Ep, lookup_insert_eq.
    + assert (l2 = leading l) as -> by (by eapply has_ledger_inj). by apply Hch.
Qed.

Lemma node_shape N s i n nd l :
  at_node N s i n nd l → ∃ t b, view (store n) = Idle t ∧ disk_rel t nd b (lastApplied n)
    ∧ shape t (Z.of_nat b) (lterm (a_log nd) b) (Z.of_nat (length (a_log nd)))
    ∧ (tainted s = false → applied_rel t nd b (lastApplied n)).
Proof.
  intros [_ U _ _ _ _ _ _ _ _ _ Hb]. destruct (ur_disk _ _ _ U) as (t & Hv & b & Hd & Ha).
  exists t, b. split_and!; [done|done| |done]. destruct Hd. apply is_log_shape; try done. unfold bounded in Hb. lia.
Qed.

Lemma sim_reply N s rs1 rs2 i e ty ps b n peer resp ty' n' :
  sim N s → invariant C (net_world N) →
  runs (net_world N) = rs1 ++ Run i e ty ps b :: rs2 → peer ∈ ps →
  (peer, vote_request i e, resp) ∈ replies (net_world N) →
  procs (net_world N) !! i = Some (Up n) → handleVote e resp ty n = (ty', n') →
  simulates (with_world (with_runs (rs1 ++ Run i e ty' (drop peer ps) b :: rs2)
    (set_proc i (Up n') (net_world N))) N) s.
Proof.
  intros Hs Hi Hr Hps Hin Hp E. destruct (up_node N s i n Hs Hi Hp) as (nd & l & Hat).
  pose proof (step_reply C (net_world N) rs1 rs2 i e ty ps b n peer resp ty' n' Hr Hps Hin Hp E) as Hstep.
  pose proof (step_invariant C HC _ _ Hstep Hi) as Hi'.
  pose proof (inv_replies _ _ Hi) as Hq. rewrite Forall_forall in Hq. destruct (Hq _ Hin) as [Hu _].
  pose proof Hat as [A1 A2 A3 A4 A5 A6 A7 A8 A9 A10 A11 A12].
  assert (node_id n = i) as Eid by apply A9.
  pose proof (handleVote_ledger e resp ty n l A3) as Hpost. rewrite Eid in Hpost.
  specialize (Hpost A8 Hu). unfold wp in Hpost. rewrite E in Hpost. destruct Hpost as (Hid & l' & Hl' & Hcase).
  destruct (node_shape _ _ _ _ _ _ Hat) as (t & b0 & Hv & _ & Hsh & _).
  pose proof (handleVote_progress e resp ty n t _ _ _ Hv Hsh) as Hpr. unfold wp in Hpr. rewrite E in Hpr.
  pose proof (keeps_handleVote e resp ty n) as Hk. rewrite E in Hk.
  pose proof (next_words_handleVote e resp ty n) as Hnx. rewrite E in Hnx.
  eapply (sim_counted N s i n nd l n' l'); try done.
  destruct Hcase as [[Hst _]|(_ & _ & [->|(-> & _)])]; [by left|left; apply rtc_refl|by right].
Qed.

Lemma sim_single N s rs1 rs2 i e ty ps n :
  sim N s → invariant C (net_world N) →
  runs (net_world N) = rs1 ++ Run i e ty ps true :: rs2 →
  procs (net_world N) !! i = Some (Up n) →
  simulates (with_world (with_runs (rs1 ++ Run i e ty ps false :: rs2)
    (set_proc i (Up (startElection_single e n).2) (net_world N))) N) s.
Proof.
  intros Hs Hi Hr Hp. destruct (up_node N s i n Hs Hi Hp) as (nd & l & Hat).
  pose proof (step_single C (net_world N) rs1 rs2 i e ty ps n Hr Hp) as Hstep.
  pose proof (step_invariant C HC _ _ Hstep Hi) as Hi'.
  pose proof Hat as [A1 A2 A3 A4 A5 A6 A7 A8 A9 A10 A11 A12].
  assert (node_id n = i) as Eid by apply A9.
  pose proof (startElection_single_ledger e n l A3) as Hpost. rewrite Eid in Hpost.
  destruct (Hpost A8) as (Hid & l' & Hl' & Hcase).
  destruct (node_shape _ _ _ _ _ _ Hat) as (t & b0 & Hv & _ & Hsh & _).
  eapply (sim_counted N s i n nd l _ l'); try done.
  - destruct Hcase as [->|(-> & _)]; [left; apply rtc_refl|by right].
  - apply keeps_single.
  - apply next_words_single.
  - exact (single_progress e n t _ _ _ Hv Hsh).
Qed.

(** A world that differs only in the elections under way. *)
Lemma sim_runs N s rs : sim N s → simulates (with_world (with_runs rs (net_world N)) N) s.
Proof. intros []. exists s. split; [done|]. by split. Qed.

(** ** Crashes and restarts *)

Lemma sim_crash N s i n :
  sim N s → invariant C (net_world N) →
  procs (net_world N) !! i = Some (Up n) → forgets n = false →
  simulates (crashed i n N) s.
Proof.
  intros Hs Hi Hp Hsaved%negb_false_iff%bool_decide_eq_true. destruct (up_node N s i n Hs Hi Hp) as (nd & l & Hat).
  destruct (node_shape _ _ _ _ _ _ Hat) as (t & b & Hv & Hd & Hsh & Ha).
  destruct Hat as [A1 A2 A3 A4 A5 A6 A7 A8 A9 A10 A11 A12].
  pose proof (ledger_durable n l A3) as Hdur. cbn in Hdur.
  unfold term_saved in Hsaved. rewrite Hdur in Hsaved. injection Hsaved as Edt.
  rewrite (ledger_term _ _ A3) in Edt.
  assert (drv_file (store n) = t) as Ef by (by rewrite file_law, Hv).
  assert (same_log t (spec_init t)) as Hsame.
  { destruct Hd as [_ _ D3 _ D5 _ _]. unfold spec_SnapshotIndexTerm, meta_uint in D3, D5. split; [done..|].
    intros key Hk. rewrite !elem_of_cons in Hk.
    assert (is_Some (metadata t !! key)) as [x Hx].
    { destruct Hk as [->|[->|[->|[]%elem_of_nil]]].
      - destruct (metadata t !! "snapshot_index"); [done|]. cbn in D3. done.
      - destruct (metadata t !! "snapshot_index"); [|done]. cbn in D3.
        destruct (ParseUint _); [|done]. cbn in D3. by destruct (metadata t !! "snapshot_term").
      - by destruct (metadata t !! "last_applied"). }
    cbn. by rewrite lookup_union, Hx, union_Some_l. }
  exists s. split; [done|].
  eapply (sim_move N s _ s i (Down (drv_file (store n))) nd Hs (spread_refl i nd s A1)); try done;
    [|by left..|exact (sim_taint _ _ Hs)].
  exists (d_vote l), (lastApplied n). rewrite Hdur, Ef. split_and!.
  - unfold disk_vote. by rewrite Edt, A5.
  - intros Hne. destruct (A6 Hne) as [_ Hdk]. destruct Hdk as [Hlt|[_ E]]; [lia|cbn in Hlt; lia|done].
  - eapply state_rel_same; [done|done|done|done|]. by exists b.
Qed.

Definition restarted_node nd (a : Z) : anode :=
  ANode RoleFollower (a_term nd) (a_vote nd) (a_log nd) (Z.to_nat a) ∅.

Lemma sim_restart N s i file mkdir path env r file' :
  sim N s → invariant C (net_world N) →
  procs (net_world N) !! i = Some (Down file) →
  New (options C i) mkdir path file env = (r, file') →
  simulates (with_world (set_proc i (match r with Ok n => Up n | Err _ => Down file' end)
    (net_world N)) N) s.
Proof.
  intros Hs Hi Hp E.
  destruct (sim_proc _ _ Hs i _ Hp) as (nd & Hnd & (v & a & Hf & Hvote & b & Hd & Ha)).
  pose proof (New_ledger (options C i) mkdir path file env) as Hnew. rewrite E in Hnew.
  destruct Hnew as [Hfile Hok].
  pose proof (New_started (options C i) mkdir path file env) as Hst. rewrite E in Hst.
  destruct Hst as [Hinit Hst]. destruct r as [n|e].
  2: { exists s. split; [done|].
       eapply (sim_move N s _ s i (Down file') nd Hs (spread_refl i nd s Hnd)); try done;
         [|by left..|by eapply sim_len|exact (sim_taint _ _ Hs)].
       exists v, a. rewrite Hfile, Hinit. split_and!; [done..|]. by exists b. }
  destruct (Hst n eq_refl) as (Hv & Hla & Ec & Enx & Er).
  destruct (Hok n eq_refl) as (_ & _ & _ & _ & t & v' & Hf' & Hl).
  rewrite Hf in Hf'. injection Hf' as <- <-.
  assert (a = lastApplied n) as -> by (pose proof (dr_applied _ _ _ _ Hd); congruence).
  pose proof (dr_index _ _ _ _ Hd) as Hix.
  set (nd' := restarted_node nd (lastApplied n)). set (s' := set_mem i nd' s).
  assert (∀ a, disk_rel (spec_init file) nd b a → disk_rel (spec_init file) nd' b a) as Hd'
    by (intros ? []; by split).
  exists s'. split.
  { apply rtc_once. apply a_restart; [done|]. intros Ht. destruct (Ha Ht). lia. }
  eapply (sim_move N s _ s' i (Up n) nd'); try done;
    [..|by left|by left|by left|by left|by left|by left|by left|exact (sim_len _ _ Hs i nd Hnd)|exact (sim_taint _ _ Hs)].
  split.
  - exists (restarted (a_term nd) v). split_and!; try done. cbn. intros Hne.
    unfold pledged, holds. cbn. rewrite (Hvote Hne). split; [by right|by right].
  - rewrite Ec. cbn. lia.
  - rewrite Ec. lia.
  - intros p. by rewrite Enx.
  - by rewrite Er.
  - exists (spec_init file). split; [done|]. exists b. split; [by apply Hd'|].
    intros Ht. destruct (Ha Ht) as [_ Hrep Hsnap]. split; [cbn; lia|done|done].
Qed.
End elections.
