(* ===== verification/SimReplication.v ===== *)
(** * The cluster refines Raft: replication

    Requests cut from the leader's log, merged by a follower, acknowledged and
    committed, each matched by steps of the abstract protocol. *)

From Stdlib Require Import Ascii String.
From stdpp Require Import strings relations.
From S2P Require Import Prelude GoStd Json Wire Logging Metrics Sql Storage StoreSpec LogSpec LogStore.
From S2P Require Import Config Types Node Rpc NodeFrame Apply Follower Leader VoteLedger NodeVote Voting.
From S2P Require Import Snapshots Cluster ClusterSafety Elections Replication Clients LogFrame Net VoteLog.
From S2P Require Import RaftLogs LogRel RaftSpec RaftSafety Simulation SimElections.
#[local] Open Scope Z_scope.

Lemma ents_length es : length (ents es) = length es.
Proof. apply length_fmap. Qed.

(** Entries that are rows of the log are a piece of it. *)
Lemma ents_cut b t l es p :
  is_log b (log_entries t) l → words l → chunk (Z.of_nat p) es → (b <= p)%nat → rows_of_log t es →
  ents es = take (length es) (skipn p l).
Proof.
  intros H Hw. revert p. induction es as [|e es IH]; intros p Hc Hb Hr; [done|].
  destruct Hc as (He & _ & Hc). destruct (Hr e) as (r & Hl & Ht & Hcmd); [by left|].
  replace (Z.of_nat p + 1) with (Z.of_nat (S p)) in * by lia.
  rewrite He, (is_log_lookup _ _ _ _ H) in Hl by done. destruct (l !! p) as [x|] eqn:Ex; [|done].
  injection Hl as <-. cbn [ents fmap list_fmap length]. rewrite (drop_S _ _ _ Ex). cbn [take].
  f_equal; [|apply IH; [done|lia|]; intros e' He'; apply Hr; by right].
  rewrite Ht, Hcmd, row_term by (by eapply words_lookup). by destruct x.
Qed.

Lemma lterm_take l l' k : take k l = take k l' → lterm l k = lterm l' k.
Proof.
  destruct k as [|k]; [done|]. intros E. cbn.
  by rewrite <- (lookup_take_lt l (S k)), <- (lookup_take_lt l' (S k)), E by lia.
Qed.

Lemma amerge_take l p es : (p <= length l)%nat → take p (amerge l p es) = take p l.
Proof.
  revert p. induction es as [|e es IH]; intros p Hp; cbn; [done|].
  assert (∀ x, take p (take p l ++ x) = take p l) as Hput.
  { intros x. rewrite take_app_le by (rewrite length_take; lia). rewrite take_take. f_equal. lia. }
  destruct (l !! p) as [x|] eqn:E; [|apply Hput]. case_bool_decide; [|apply Hput].
  apply lookup_lt_Some in E. specialize (IH (S p) ltac:(lia)).
  apply (f_equal (take p)) in IH. rewrite !take_take in IH. by rewrite !Nat.min_l in IH by lia.
Qed.

Lemma take_mono_eq {A} (l l' : list A) j k : (j <= k)%nat → take k l = take k l' → take j l = take j l'.
Proof. intros Hj E. apply (f_equal (take j)) in E. rewrite !take_take in E. by rewrite !Nat.min_l in E by lia. Qed.

Lemma chunk_wf p es :
  chunk p (entry_of_wire <$> es) → 0 <= p → is_idx (p + Z.of_nat (length es)) → Forall wf_LogEntry es.
Proof.
  revert p. induction es as [|e es IH]; intros p Hc Hp Hi; [constructor|].
  destruct Hc as (He & Ht & Hc). cbn [length] in Hi. unfold is_idx in Hi. constructor.
  - split; [|done]. cbn in He. unfold is_u64, two64, two63 in *. lia.
  - apply (IH (p + 1)); [done|lia|unfold is_idx; lia].
Qed.

Lemma ok_append_wf req :
  ok_append req → is_u64 (AppendEntriesRequest_PrevLogTerm req) → wf_AppendEntriesRequest (Some req).
Proof.
  intros [H1 H2 H3 H4 H5] Ht. split_and!; try done. eapply chunk_wf; [exact H4|apply H2|done].
Qed.

(** ** Accepting, abstractly *)

Section accept.
Context (members : list string) (s : astate) (v : string) (nd : anode) (m : amsg)
  (Hi : raft_inv members s) (Hnd : mem s !! v = Some nd) (Hm : m ∈ msgs s) (HT : a_term nd <= m_term m).

Lemma committed_lead :
  tainted s = false → ∃ g, lead s !! m_term m = Some g
    ∧ take (a_commit nd) (a_log nd) `prefix_of` g ∧ (a_commit nd <= length (a_log nd))%nat.
Proof.
  intros Ht. destruct (ri_msg _ s Hi m Hm) as (g & Hg & _). exists g. split; [done|].
  destruct (commits_lead members s _ _ _ _ g Hi (no_commit _ _ _ _ (ri_node _ s Hi v nd Hnd) Ht) HT Hg)
    as [Hp Hl]. split; [done|]. rewrite length_take in Hl. lia.
Qed.

Lemma trim_keeps j x e :
  a_log nd !! j = Some x → (m_prev m <= j)%nat → m_es m !! (j - m_prev m)%nat = Some e → x.1 ≠ e.1 →
  tainted s = false → (a_commit nd <= j)%nat.
Proof.
  intros Hx Hj He Hne Ht. destruct (committed_lead Ht) as (g & Hg & Hp & Hl).
  destruct (ri_msg _ s Hi m Hm) as (g' & Hg' & Hpg & _ & Hes). assert (g' = g) as -> by congruence.
  assert (g !! j = Some e) as Hge.
  { pose proof (prefix_lookup_Some _ _ _ _ He Hes) as H. rewrite lookup_drop in H.
    by replace (m_prev m + (j - m_prev m))%nat with j in H by lia. }
  pose proof (prefix_length _ _ (take_shared _ _ _ _ _ _ Hx Hge Hne (prefix_take _ _) Hp)) as Hlen.
  rewrite !length_take in Hlen. lia.
Qed.

Context (Hp : (m_prev m <= length (a_log nd))%nat) (Hpt : lterm (a_log nd) (m_prev m) = m_pterm m).

Lemma accept_keeps :
  let l' := amerge (a_log nd) (m_prev m) (m_es m) in
  (l' = a_log nd ∨ ∃ T g, lead s !! T = Some g ∧ l' `prefix_of` g)
  ∧ (m_prev m + length (m_es m) <= length l')%nat
  ∧ (tainted s = false → (a_commit nd <= length l')%nat
     ∧ take (a_commit nd) l' = take (a_commit nd) (a_log nd)).
Proof.
  intros l'. destruct (ri_msg _ s Hi m Hm) as (g & Hg & Hpg & Eg & Hes). rewrite Eg in Hpt.
  pose proof (no_good _ _ _ _ (ri_node _ s Hi v nd Hnd)) as Hgood.
  destruct (amerge_accept (lead s) (ri_lead _ s Hi) (m_term m) g Hg _ _ _ Hgood Hp Hes Hpg Hpt)
    as (Hlen & Htake & Hcase).
  split_and!.
  - destruct Hcase as [?|[E _]]; [by left|right]. exists (m_term m), g. split; [done|].
    unfold l'. rewrite E. apply prefix_take.
  - apply (f_equal length) in Htake. rewrite !length_take in Htake. unfold l'. lia.
  - intros Ht. destruct (committed_lead Ht) as (g' & Hg' & Hpre & Hl). assert (g' = g) as -> by congruence.
    pose proof (amerge_prefix (lead s) (ri_lead _ s Hi) (m_term m) g Hg _ _ _ Hgood Hp Hes Hpg Hpt _
      (prefix_take _ _) Hpre) as Hp'. fold l' in Hp'. pose proof (prefix_length _ _ Hp') as Hlen'.
    rewrite length_take in Hlen'. split; [lia|].
    rewrite <- (prefix_take_eq _ _ (a_commit nd) Hp') by (rewrite length_take; lia).
    rewrite take_take. f_equal. lia.
Qed.
End accept.

Section replication.
Context `{D : !SqlDriver} `{L : !SqlLaws D} `{R : !GoRuntime}.
Context (C : cluster) (HC : well_configured C).
Implicit Types (n : Node) (nd : anode) (s : astate) (N : net).

Abbreviation mems := (members C).
Abbreviation inv := (raft_inv mems).
Abbreviation asteps := (rtc (astep mems)).
Abbreviation simulates := (simulates C).
Abbreviation at_node := (at_node C).

(** ** More in the network *)

Lemma sim_more N s fs ps :
  sim N s → (∀ f, f ∈ fs → flight_rel s f) → (∀ f, f ∈ ps → parcel_rel s f) →
  sim (Net (net_world N) (fs ++ sent N) (acked N) (overrun N) (ship ps (mail N))) s.
Proof.
  intros [S1 S2 S3 S4 S5 S6 S7 S8 S9 S10] Hf Hp. split; try done.
  - intros f [?|?]%elem_of_app; [by apply Hf|by apply S4].
  - intros f [?|?]%elem_of_app; [by apply Hp|by apply S9].
Qed.

Lemma sim_message N s m : sim N s → sim N (add_msg m s).
Proof.
  intros [S1 S2 S3 S4 S5 S6 S7 S8 S9 S10]. assert (msgs s ⊆ msgs (add_msg m s)) as Hsub by (intros x Hx; by right).
  split; [|exact S2|exact S3| | |exact S6|exact S7|exact S8| |].
  - intros i p Hp. destruct (S1 i p Hp) as (nd & ? & ?). exists nd. split; [done|].
    by apply (proc_rel_taint s).
  - intros f Hf. by apply (flight_rel_mono s), S4.
  - intros f Hf. by apply (answer_rel_mono s), S5.
  - intros f Hf. by apply (parcel_rel_mono s), S9.
  - intros f Hf. by apply (receipt_rel_mono s), S10.
Qed.

Lemma simulates_more N' s s' : asteps s s' → simulates N' s' → simulates N' s.
Proof. intros H (s2 & H2 & ?). exists s2. split; [by etrans|done]. Qed.

(** ** Sending *)

Lemma node_words N s i n nd l :
  at_node N s i n nd l → is_u64 (currentTerm n) ∧ is_u64 (commitIndex n) ∧ is_u64 (commitIndex n + 1)
    ∧ is_u64 (lastApplied n).
Proof.
  intros Hat. destruct (node_shape _ _ _ _ _ _ _ Hat) as (t & b & _ & [_ _ _ _ _ Hix _] & _).
  destruct Hat as [_ U Hl _ _ _ _ _ _ _ _ _]. pose proof (ur_commit _ _ _ U). pose proof (ur_index _ _ _ U).
  split; [by apply (ledger_u64 n l)|]. unfold is_u64, two64, two63 in *. lia.
Qed.

Lemma cut_message N s i n nd l t b req :
  at_node N s i n nd l → disk_rel t nd b (lastApplied n) →
  cut_from n t (Z.of_nat b) (lterm (a_log nd) b) (Z.of_nat (length (a_log nd))) req →
  let p := Z.to_nat (AppendEntriesRequest_PrevLogIndex req) in
  (p <= length (a_log nd))%nat ∧ AppendEntriesRequest_PrevLogTerm req = lterm (a_log nd) p
  ∧ message_of req (AMsg (a_term nd) p (lterm (a_log nd) p)
      (take (length (entries_of req)) (skipn p (a_log nd))) (a_commit nd)).
Proof.
  intros [A1 A2 A3 A4 A5 A6 A7 A8 A9 A10 A11 A12] [D1 D2 D3 D4 D5 D6 D7] [F1 F2 F3 F4 F5 F6 F7 F8] p.
  assert (AppendEntriesRequest_PrevLogIndex req = Z.of_nat p) as Ep by (unfold p; lia).
  unfold bounded in A12.
  rewrite Ep, (is_log_term b t (a_log nd)) in F5 by (done || lia). injection F5 as F5.
  split_and!; [lia|done|]. unfold message_of. cbn. split_and!.
  - rewrite F1, (ledger_term _ _ A3). by rewrite A5.
  - by rewrite Ep.
  - by rewrite F5.
  - symmetry. eapply (ents_cut b); [done|done|by rewrite <- Ep|lia|done].
  - rewrite F3. symmetry. by apply (ur_commit _ _ _ A2).
Qed.

(** A leader's snapshot stands for its entries up to there. *)
Lemma snapshot_message N s i n nd l t b peer :
  at_node N s i n nd l → role n = RoleLeader → disk_rel t nd b (lastApplied n) → (0 < b)%nat →
  (tainted s = false → applied_rel t nd b (lastApplied n)) →
  let snap := spec_LoadSnapshot t in
  let m := AMsg (a_term nd) 0 (lterm (a_log nd) 0) (take b (skipn 0 (a_log nd))) (a_commit nd) in
  parcel_rel (add_msg m s) (Parcel i peer snap (mkInstallSnapshotRequest (currentTerm n) (node_id n)
    (LastIncludedIndex snap) (LastIncludedTerm snap) (Data snap))).
Proof.
  intros [A1 A2 A3 A4 A5 A6 A7 A8 A9 A10 A11 A12] Hr [D1 D2 D3 D4 D5 D6 D7] Hb Hap snap m.
  destruct (D7 Hb) as [E1 E2]. fold snap in E1, E2. unfold bounded in A12.
  unfold parcel_rel. cbn -[lterm]. rewrite E1, E2, Nat2Z.id.
  split; [|split; [lia|split; [done|]]].
  { split; cbn -[lterm]; rewrite ?E1, ?E2; [by apply (ledger_u64 n l)|unfold is_idx; lia|by apply words_lterm]. }
  exists m. unfold m. cbn -[lterm]. split; [by left|]. rewrite drop_0. split_and!; try done.
  - rewrite (ledger_term _ _ A3). by rewrite A5.
  - rewrite length_take. lia.
  - intros e He. apply D2. eapply elem_of_prefix; [exact He|apply prefix_take].
  - apply lterm_take. rewrite take_take. f_equal. lia.
  - intros Ht. destruct (Hap Ht) as [P1 P2 P3]. split; [lia|]. by apply P3.
Qed.

Lemma sim_send N s i n peer a n' :
  sim N s → invariant C (net_world N) →
  procs (net_world N) !! i = Some (Up n) → peer ∈ Peer_ID <$> peers n →
  replicatePeer_prepare peer n = (a, n') →
  simulates (Net (set_proc i (Up n') (net_world N)) (flights i peer a ++ sent N) (acked N) (overrun N)
    (ship (shipped i peer a) (mail N))) s.
Proof.
  intros Hs Hi Hp Hpeer E. destruct (up_node C N s i n Hs Hi Hp) as (nd & l & Hat).
  destruct (node_shape _ _ _ _ _ _ _ Hat) as (t & b & Hv & Hd & Hsh & Hap).
  destruct (node_words _ _ _ _ _ _ Hat) as (Hut & Huc & _ & _).
  pose proof (wp_replicatePeer_prepare n t _ _ _ peer Hv Hsh) as Hpost. unfold wp in Hpost. rewrite E in Hpost.
  pose proof Hat as [A1 A2 A3 A4 A5 A6 A7 A8 A9 A10 A11 A12].
  destruct Hpost as [(nx & [Eq _]) Hpost]; [unfold bounded, is_idx in *; lia|apply A2|].
  destruct (vote_replicatePeer_prepare peer n) as [Hid Hl]. rewrite E in Hid, Hl.
  destruct (Hl l A3) as (l' & Hl' & Hst).
  pose proof (keeps_prepare peer n) as Hk. rewrite E in Hk.
  pose proof (next_words_prepare peer n) as Hnx. rewrite E in Hnx.
  cbn [fst snd] in Eq, Hid, Hl', Hk, Hnx, Hpost.
  set (N0 := Net (net_world N) (flights i peer a ++ sent N) (acked N) (overrun N) (ship (shipped i peer a) (mail N))).
  change (simulates (with_world (set_proc i (Up n') (net_world N0)) N0) s).
  assert (∀ s0, asteps s s0 → sim N0 s0 → simulates (with_world (set_proc i (Up n') (net_world N0)) N0) s)
    as Hfollow.
  { intros s0 Hr0 Hs0. apply (simulates_more _ s s0 Hr0).
    destruct (up_node C N0 s0 i n Hs0 Hi Hp) as (nd0 & l0 & Hat0).
    assert (l0 = l) as -> by (eapply has_ledger_inj; [apply Hat0|done]).
    eapply (sim_follow C N0 s0 i n nd0 l n' l'); try done; [|by left..].
    intros _. by rewrite Eq. }
  assert (role n = RoleLeader → a_role nd = RoleLeader) as Hlead
    by (intros Hr; by rewrite <- A4, <- (ledger_role _ _ A3)).
  destruct a as [r| |snap req|term lastSent req]; cbn [flights shipped app] in N0.
  - apply (Hfollow s); [done|]. by apply (sim_more N s [] []); [|intros ? ?%elem_of_nil..].
  - apply (Hfollow s); [done|]. by apply (sim_more N s [] []); [|intros ? ?%elem_of_nil..].
  - destruct Hpost as (Hr & Hnb & -> & ->).
    assert (0 < b)%nat as Hb0.
    { unfold next_of in Hnb. pose proof (ur_next _ _ _ A2 peer) as Hu. unfold is_u64 in Hu.
      destruct (Z.eqb_spec (map_get (nextIndex n) peer) 0); lia. }
    pose proof (snapshot_message N s i n nd l t b peer Hat Hr Hd Hb0 Hap) as Hpc. cbn zeta in Hpc.
    set (m := AMsg _ _ _ _ _) in Hpc. apply (Hfollow (add_msg m s)).
    + apply rtc_once. apply (a_send _ _ i); [done|by apply Hlead|lia].
    + apply (sim_more N _ []); [by apply sim_message|by intros ? ?%elem_of_nil|].
      by intros f ->%list_elem_of_singleton.
  - destruct Hpost as (Hr & -> & -> & _ & Hcut).
    pose proof (cut_ok _ _ _ _ _ _ Hcut Hsh Hut Huc) as Hok.
    destruct (cut_message _ _ _ _ _ _ _ _ _ Hat Hd Hcut) as (Hpl & Hpt & Hmsg).
    set (m := AMsg _ _ _ _ _) in Hmsg. set (p := Z.to_nat _) in *.
    assert (is_u64 (AppendEntriesRequest_PrevLogTerm req)) as Hupt by (rewrite Hpt; by apply words_lterm, Hd).
    apply (Hfollow (add_msg m s)).
    + apply rtc_once. apply (a_send _ _ i); [done|by apply Hlead|done].
    + apply (sim_more N (add_msg m s) [_] []); [by apply sim_message| |by intros ? ?%elem_of_nil].
      intros f ->%list_elem_of_singleton. split_and!; cbn.
      * by rewrite (cf_term _ _ _ _ _ _ Hcut).
      * done.
      * done.
      * by apply ok_append_wf.
      * exists m. split; [by left|done].
Qed.

(** ** Receiving *)

(** A member that follows the leader of the request, with another log. *)
Lemma up_rewritten N s i n nd l s' n' l' log' c' :
  at_node N s i n nd l → lsteps l l' → has_ledger n' l' → l_role l' = RoleFollower →
  let nd' := with_log_commit log' c' (follow (l_term l') nd) in
  commitIndex n' = Z.of_nat c' → commitIndex n' < two63 - 1 → next_words n n' →
  (∃ t', view (store n') = Idle t' ∧ state_rel s' t' nd' (lastApplied n')) →
  up_rel s' n' nd'.
Proof.
  intros [A1 A2 A3 A4 A5 A6 A7 A8 A9 A10 A11 A12] Hst Hl' Er nd' Ec Hb Hnx Hd. split; try done.
  - exists l'. split_and!; try done.
    assert (adopt l' nd = follow (l_term l') nd) as Ea by (unfold adopt; by rewrite decide_True).
    assert (a_vote nd' = a_vote (adopt l' nd) ∧ a_term nd' = a_term (adopt l' nd)) as [-> ->] by (by rewrite Ea).
    apply (adopt_pledged l l' nd); try done.
  - apply Hnx, A2.
  - intros Hr. rewrite (ledger_role _ _ Hl'), Er in Hr. done.
Qed.

(** Matching a move of one member that only received something. *)
Lemma sim_received N s s' i nd' n' frs b :
  sim N s → asteps s s' → spread i nd' s s' → lead s' = lead s → up_rel s' n' nd' →
  (∀ fr, fr ∈ frs → answer_rel s' fr) → bounded (a_log nd') → tainted s' = overrun N || b →
  simulates (Net (set_proc i (Up n') (net_world N)) (sent N) (frs ++ acked N) (overrun N || b) (mail N)) s.
Proof.
  intros Hs Hrun Hsp El U Ha Hb Ht. exists s'. split; [done|].
  eapply (sim_move N s _ s' i (Up n') nd' Hs Hsp);
    [done|done|by left|by left|by left| |by left|by left| |done|done].
  - cbn. intros fr [?|?]%elem_of_app; [right; by apply Ha|by left].
  - rewrite El. by left.
Qed.

Lemma accepted_facts N s i n nd l t b req m :
  sim N s → inv s → at_node N s i n nd l → disk_rel t nd b (lastApplied n) →
  m ∈ msgs s → message_of req m → ok_append req → accepts n t (Z.of_nat b) (lterm (a_log nd) b) req →
  let l' := amerge (a_log nd) (m_prev m) (m_es m) in
  (a_term nd <= m_term m ∧ (m_prev m <= length (a_log nd))%nat ∧ lterm (a_log nd) (m_prev m) = m_pterm m)
  ∧ ((b <= m_prev m)%nat ∧ take b l' = take b (a_log nd) ∧ (b <= length l')%nat)
  ∧ is_log b (merge (log_entries t) (entries_of req)) l' ∧ words l' ∧ bounded l'
  ∧ Z.of_nat (m_prev m + length (m_es m)) = match_index req ∧ match_index req <= Z.of_nat (length l')
  ∧ (tainted s = false → (a_commit nd <= length l')%nat
     ∧ take (a_commit nd) l' = take (a_commit nd) (a_log nd)).
Proof.
  intros Hs Hi [A1 A2 A3 A4 A5 A6 A7 A8 A9 A10 A11 A12] [D1 D2 D3 D4 D5 D6 D7] Hm (M1 & M2 & M3 & M4 & M5)
    [O1 O2 O3 O4 O5] (H1 & H2 & H3) l'.
  pose proof A12 as Hb. unfold bounded in Hb. rewrite (ledger_term _ _ A3), A5, <- M1 in H1.
  destruct (is_log_term_inv b t (a_log nd) D3 D1 D2 D4 ltac:(lia) _ _ H2 H3) as (k & Ek & Hk & Et).
  assert (k = m_prev m) as -> by lia. rewrite <- M3 in Et. destruct Hk as [Hbk Hk].
  destruct (accept_keeps mems s i nd m Hi A1 Hm H1 Hk (eq_sym Et)) as (K1 & K2 & K3). fold l' in K1, K2, K3.
  assert (Z.of_nat (m_prev m + length (m_es m)) = match_index req) as Emi.
  { unfold match_index. rewrite M4, ents_length, length_fmap. lia. }
  split_and!; try done.
  - apply (take_mono_eq _ _ _ (m_prev m) Hbk). by apply amerge_take.
  - lia.
  - unfold l'. rewrite M4. apply is_log_merge; try done; [by rewrite M2|].
    rewrite M2, length_fmap. done.
  - unfold l'. rewrite M4. apply words_amerge; [done|]. eapply words_chunk. exact O4.
  - destruct K1 as [->|(T & g & Hg & Hpre)]; [done|]. pose proof (sim_lead _ _ Hs _ _ Hg) as Hbg.
    pose proof (prefix_length _ _ Hpre). unfold bounded in *. lia.
  - rewrite <- Emi. lia.
Qed.

(** The rows were rewritten above the snapshot. *)
Lemma disk_rel_log t t0 t' nd nd' b a :
  disk_rel t nd b a → same_log t t0 → t' = set_log (λ _, log_entries t') t0 →
  is_log b (log_entries t') (a_log nd') → words (a_log nd') → (b <= length (a_log nd'))%nat →
  take b (a_log nd') = take b (a_log nd) → disk_rel t' nd' b a.
Proof.
  intros [D1 D2 D3 D4 D5 D6 D7] Hs Et H1 H2 H3 Htake. pose proof (lterm_take _ _ _ Htake) as El.
  assert (spec_SnapshotIndexTerm t' = spec_SnapshotIndexTerm t
    ∧ meta_uint "last_applied" t' = meta_uint "last_applied" t
    ∧ spec_LoadSnapshot t' = spec_LoadSnapshot t) as (E1 & E2 & E3).
  { rewrite Et, <- (same_log_snapshot _ _ Hs), <- (same_log_applied _ _ Hs), <- (same_log_stored _ _ Hs). done. }
  by split; rewrite ?E1, ?E2, ?E3, ?El.
Qed.

Lemma applied_rel_log t t0 t' nd nd' b a :
  applied_rel t nd b a → same_log t t0 → t' = set_log (λ _, log_entries t') t0 → Z.of_nat b <= a →
  take (a_commit nd) (a_log nd') = take (a_commit nd) (a_log nd) → (a_commit nd <= a_commit nd')%nat →
  applied_rel t' nd' b a.
Proof.
  intros [H1 H2 H3] Hs Et Hb Htake Hc.
  assert (kv_values t' = kv_values t ∧ spec_LoadSnapshot t' = spec_LoadSnapshot t) as (E1 & E2).
  { rewrite Et, <- (same_log_values _ _ Hs), <- (same_log_stored _ _ Hs). done. }
  split; rewrite ?E1, ?E2.
  - lia.
  - by rewrite (take_mono_eq _ (a_log nd) (Z.to_nat a) (a_commit nd)) by (done || lia).
  - by rewrite (take_mono_eq _ (a_log nd) b (a_commit nd)) by (done || lia).
Qed.

(** A member that took the term of a request, and rewrote rows above the committed ones. *)
Lemma up_cut N s i n nd l s' n' l' log' t t0 t' b :
  at_node N s i n nd l → lsteps l l' → has_ledger n' l' → l_role l' = RoleFollower →
  commitIndex n' = commitIndex n → lastApplied n' = lastApplied n → next_words n n' →
  disk_rel t nd b (lastApplied n) → (tainted s = false → applied_rel t nd b (lastApplied n)) →
  same_log t t0 → view (store n') = Idle t' → t' = set_log (λ _, log_entries t') t0 →
  is_log b (log_entries t') log' → words log' → (b <= length log')%nat → take b log' = take b (a_log nd) →
  (tainted s = false → take (a_commit nd) log' = take (a_commit nd) (a_log nd)) →
  (tainted s' = false → tainted s = false) →
  up_rel s' n' (with_log_commit log' (a_commit nd) (follow (l_term l') nd)).
Proof.
  intros Hat Hst Hl' Er Ec Ea Hnx Hd Hap Hsame Hv' Et' Hlog Hw Hlen Htb Htake Htn.
  pose proof (an_rel _ _ _ _ _ _ _ Hat) as U.
  eapply up_rewritten; try done.
  - rewrite Ec. apply U.
  - rewrite Ec. apply U.
  - exists t'. rewrite Ea. split; [done|]. exists b. split; [by eapply disk_rel_log|].
    intros Ht. eapply (applied_rel_log t t0 t' nd); auto. apply (dr_index _ _ _ _ Hd).
Qed.

Lemma adopted_same n T t t0 : adopted n T t t0 → same_log t t0.
Proof. intros [->| ->]; [done|apply same_log_step_down]. Qed.

Lemma overruns_covered n n' nd c' req m :
  commitIndex n = Z.of_nat (a_commit nd) → commitIndex n' = Z.of_nat c' → message_of req m →
  Z.of_nat (m_prev m + length (m_es m)) = match_index req →
  (commitIndex n' = commitIndex n ∨ commitIndex n' <= AppendEntriesRequest_LeaderCommit req) →
  overruns n n' req = negb (bool_decide (covered (a_commit nd) c' m)).
Proof.
  intros E1 E2 (_ & _ & _ & _ & M5) Em Hc. unfold overruns, covered. rewrite E1, E2 in *.
  destruct (Z.eqb_spec (Z.of_nat c') (Z.of_nat (a_commit nd))) as [E|E]; cbn [negb andb].
  - rewrite bool_decide_true; [done|]. left. lia.
  - destruct (Z.ltb_spec (match_index req) (Z.of_nat c')).
    + rewrite bool_decide_false; [done|]. lia.
    + rewrite bool_decide_true; [done|]. lia.
Qed.

Lemma new_commit_cases n lc last :
  0 <= commitIndex n → 0 <= lc → 0 <= last →
  (new_commit n lc last = commitIndex n ∧ lc <= commitIndex n)
  ∨ (commitIndex n < lc ∧ new_commit n lc last = Z.min lc last).
Proof.
  intros. unfold new_commit, minUint64. destruct (Z.ltb_spec (commitIndex n) lc); [right|by left].
  destruct (Z.ltb_spec lc last); lia.
Qed.

Lemma decode_MarshalMap m : valid_map m → decode_snapshot (MarshalMap m) = Ok m.
Proof. apply UnmarshalMap_MarshalMap. Qed.

(** Committing, applying and compacting leave the log where it was. *)
Lemma followed_state n0 t nd nd' b base' bterm' n' t' c' :
  followed n0 t (Z.of_nat b) (lterm (a_log nd) b) (Z.of_nat (length (a_log nd))) (Z.of_nat c') n' t' base' bterm' →
  disk_rel t nd b (lastApplied n0) → bounded (a_log nd) → Z.of_nat c' < two63 - 1 →
  a_log nd' = a_log nd → a_commit nd' = c' →
  ∃ b', disk_rel t' nd' b' (lastApplied n')
    ∧ (applied_rel t nd b (lastApplied n0) → (a_commit nd <= c')%nat → applied_rel t' nd' b' (lastApplied n')).
Proof.
  intros [F1 F2 F3 [F4 _] F5 F6 F7 F8] [D1 D2 D3 D4 D5 D6 D7] Hbl Hc El Ec. unfold bounded in Hbl.
  destruct (is_log_kept b t (a_log nd) D1 D2 D4 _ _ _ F2) as (b' & -> & -> & Hb' & Hlog' & Hmeta').
  assert (is_u64 (lastApplied n0)) as Hu by (unfold is_u64, two64, two63 in *; lia).
  destruct (F7 ltac:(lia) Hu) as [Hle Hmeta]. specialize (F5 ltac:(lia)). specialize (F8 ltac:(lia)).
  assert (Z.of_nat b' <= lastApplied n') as Hba.
  { destruct F8 as [[? _]|(_ & ? & _)]; lia. }
  exists b'. split.
  - split; rewrite ?El; try done; [lia|by apply Hmeta|lia|].
    intros Hpos. destruct F8 as [[E1 E2]|(_ & E1 & E2)].
    + assert (b' = b) as -> by lia. unfold spec_LoadSnapshot. rewrite E2. by apply D7.
    + rewrite E2. cbn. by rewrite E1.
  - intros [P1 P2 P3] Hcc.
    assert (outcome (take (Z.to_nat (lastApplied n')) (a_log nd)) = Some (kv_values t')) as Hout.
    { assert (lastApplied n0 = Z.of_nat (Z.to_nat (lastApplied n0))) as Ea by lia.
      eapply (outcome_replayed b (log_entries t) (a_log nd) t t' (Z.to_nat (lastApplied n0)));
        [done|lia|lia|done|by rewrite <- Ea]. }
    split; rewrite ?El, ?Ec; [lia|done|]. intros Hpos. destruct F8 as [[E1 E2]|(_ & E1 & E2)].
    + assert (b' = b) as -> by lia. unfold spec_LoadSnapshot. rewrite E2. by apply P3.
    + rewrite E2. cbn [Data]. exists (kv_values t'). split.
      * apply decode_MarshalMap. eapply outcome_valid; [|exact Hout]. apply map_Forall_empty.
      * rewrite <- Hout. do 2 f_equal. lia.
Qed.

Lemma sim_taken N s i n nd l n' l' f t b rt mi :
  sim N s → inv s → at_node N s i n nd l →
  disk_rel t nd b (lastApplied n) → (tainted s = false → applied_rel t nd b (lastApplied n)) →
  flight_rel s f → fl_to f = i →
  append_post n t (Z.of_nat b) (lterm (a_log nd) b) (fl_req f) (Ok (mkAppendEntriesResponse rt true mi)) n' →
  lsteps l l' → has_ledger n' l' → next_words n n' →
  simulates (Net (set_proc i (Up n') (net_world N)) (sent N)
    ([(f, mkAppendEntriesResponse rt true mi)] ++ acked N) (overrun N || overruns n n' (fl_req f)) (mail N)) s.
Proof.
  intros Hs Hi Hat Hd Hap Hf Hto Hpost Hst Hl' Hnx. pose proof Hf as (_ & _ & Hok & _ & m & Hm & Hmsg).
  destruct Hpost as (Hacc & -> & -> & c & t0 & last2 & t' & base' & bterm' & Hta & Hs2 & _ & Hfo).
  destruct (accepted_facts _ _ _ _ _ _ _ _ _ _ Hs Hi Hat Hd Hm Hmsg Hok Hacc)
    as ((G1 & G2 & G3) & (B1 & B2 & B3) & Hlog & Hw & Hb & Emi & _ & Hkept).
  pose proof Hat as [A1 A2 A3 A4 A5 A6 A7 A8 A9 A10 A11 A12].
  set (req := fl_req f) in *. set (T := AppendEntriesRequest_Term req) in *.
  pose proof (adopted_same _ _ _ _ Hta) as Hsame. pose proof (sl_log _ _ Hsame) as E1.
  unfold merged in Hs2, Hfo. assert (last2 = Z.of_nat (length (amerge (a_log nd) (m_prev m) (m_es m)))) as ->.
  { eapply dense_last; [exact (sh_dense _ _ _ _ Hs2)| |apply (sh_base _ _ _ _ Hs2)|lia]. cbn. rewrite E1.
    by apply is_log_dense. }
  set (l1 := amerge _ _ _) in *.
  pose proof (fo_same _ _ _ _ _ _ _ _ _ _ Hfo) as (Er & Et & _).
  set (n0 := stepped_down _ _ _ _) in *. set (t1 := set_log _ t0) in *.
  assert (role n0 = RoleFollower ∧ currentTerm n0 = T ∧ lastApplied n0 = lastApplied n) as (Er0 & Et0 & Ela).
  { subst n0. unfold stepped_down. cbn. destruct Hacc as (Hle & _). fold T in Hle.
    destruct (Z.ltb_spec (currentTerm n) T); cbn; [done|]. split_and!; try done. lia. }
  assert (l_role l' = RoleFollower ∧ l_term l' = T) as [Elr Elt]
    by (by rewrite <- (ledger_role _ _ Hl'), <- (ledger_term _ _ Hl'), Er, Et).
  pose proof (ur_commit _ _ _ A2) as Ec. pose proof (ur_index _ _ _ A2) as Hci.
  pose proof (oa_commit _ Hok) as Hlc. fold req in Hlc. unfold is_u64 in Hlc.
  pose proof (fo_commit _ _ _ _ _ _ _ _ _ _ Hfo) as Ecn. pose proof Hb as Hbl. unfold bounded in Hbl.
  assert (0 <= commitIndex n' < two63 - 1 ∧ (commitIndex n' = commitIndex n
    ∨ commitIndex n' <= AppendEntriesRequest_LeaderCommit req)
    ∧ (tainted s = false → Z.of_nat (a_commit nd) <= commitIndex n')) as (Hpos & Hcase & Hup).
  { rewrite Ecn. destruct (new_commit_cases n (AppendEntriesRequest_LeaderCommit req) (Z.of_nat (length l1)))
      as [[-> _]|[? ->]]; [lia|lia|lia|split_and!; [lia|lia|lia|]|split_and!; [lia|lia|lia|]].
    - lia.
    - intros Ht. destruct (Hkept Ht). lia. }
  assert (commitIndex n' = Z.of_nat (Z.to_nat (commitIndex n'))) as Ec' by lia.
  set (c' := Z.to_nat (commitIndex n')) in *. clearbody c'. rewrite <- Ecn, Ec' in Hfo.
  set (nd1 := with_log_commit l1 (a_commit nd) (follow (m_term m) nd)).
  set (nd' := with_log_commit l1 c' (follow (m_term m) nd)).
  assert (m_term m = T) as EmT by apply Hmsg.
  assert (t1 = set_log (λ _, log_entries t1) t0) as Et1 by done.
  assert (log_entries t1 = merge (log_entries t) (entries_of req)) as El1 by (unfold t1; cbn; by rewrite E1).
  assert (disk_rel t1 nd1 b (lastApplied n0)) as Hd1.
  { rewrite Ela. eapply (disk_rel_log t t0 t1 nd nd1); try done. by rewrite El1. }
  assert (lterm (a_log nd) b = lterm (a_log nd1) b) as Elb by (symmetry; by apply lterm_take).
  rewrite Elb in Hfo.
  destruct (followed_state n0 t1 nd1 nd' b base' bterm' n' t' c' Hfo Hd1) as (b' & Hd' & Hap'); try done; [lia|].
  set (s' := taint (negb (bool_decide (covered (a_commit nd) c' m)))
    (add_ack (i, m_term m, m_prev m + length (m_es m))%nat (set_mem i nd' s))).
  assert (tainted s' = false → tainted s = false) as Htn by (cbn; by destruct (tainted s)).
  rewrite (overruns_covered n n' nd c' req m); try done.
  apply (sim_received N s s' i nd'); try done.
  - apply rtc_once. by apply a_accept.
  - split; try done; intros x Hx; by right.
  - assert (up_rel s' n' (with_log_commit l1 c' (follow (l_term l') nd))) as U;
      [|by rewrite Elt, <- EmT in U].
    eapply up_rewritten; try done; [lia|]. rewrite Elt, <- EmT. fold nd'. exists t'.
    split; [apply Hfo|]. exists b'. split; [done|]. intros Ht. specialize (Htn Ht). apply Hap'; [|specialize (Hup Htn); cbn; lia].
    rewrite Ela. eapply (applied_rel_log t t0 t1 nd nd1); try done; [by apply Hap|apply Hd|by apply Hkept].
  - intros fr ->%list_elem_of_singleton. split_and!.
    + eapply flight_rel_mono; [|exact Hf]. done.
    + cbn. apply Hok.
    + cbn -[Z.to_nat Z.of_nat]. intros _. split; [done|]. rewrite Hto. fold req T. rewrite <- Emi, Nat2Z.id, <- EmT. by left.
  - cbn. by rewrite (sim_taint _ _ Hs).
Qed.

Lemma overruns_none n n' req : commitIndex n' = commitIndex n → overruns n n' req = false.
Proof. intros E. unfold overruns. by rewrite E, Z.eqb_refl. Qed.

(** An error while the entries went in: the log is as it was, cut, or merged. *)
Lemma sim_unfinished N s i n nd l n' l' f t b t0 t' :
  sim N s → inv s → at_node N s i n nd l →
  disk_rel t nd b (lastApplied n) → (tainted s = false → applied_rel t nd b (lastApplied n)) →
  flight_rel s f → accepts n t (Z.of_nat b) (lterm (a_log nd) b) (fl_req f) →
  same_log t t0 → view (store n') = Idle t' → t' = set_log (λ _, log_entries t') t0 →
  log_entries t' ≠ log_entries t → unfinished (log_entries t) (entries_of (fl_req f)) (log_entries t') →
  role n' = RoleFollower → currentTerm n' = AppendEntriesRequest_Term (fl_req f) →
  commitIndex n' = commitIndex n → lastApplied n' = lastApplied n →
  lsteps l l' → has_ledger n' l' → next_words n n' →
  simulates (Net (set_proc i (Up n') (net_world N)) (sent N) ([] ++ acked N)
    (overrun N || overruns n n' (fl_req f)) (mail N)) s.
Proof.
  intros Hs Hi Hat Hd Hap Hf Hacc Hsame Hv' Et' Hne Hun Er Et Ec Ea Hst Hl' Hnx.
  pose proof Hf as (_ & _ & Hok & _ & m & Hm & Hmsg).
  destruct (accepted_facts _ _ _ _ _ _ _ _ _ _ Hs Hi Hat Hd Hm Hmsg Hok Hacc)
    as ((G1 & G2 & G3) & (B1 & B2 & B3) & Hlog & Hw & Hb & Emi & _ & Hkept).
  pose proof Hat as [A1 A2 A3 A4 A5 A6 A7 A8 A9 A10 A11 A12]. pose proof Hd as [D1 D2 _ D4 _ _ _].
  rewrite (overruns_none _ _ _ Ec). pose proof Hmsg as (M1 & M2 & _ & M4 & _).
  assert (l_role l' = RoleFollower ∧ l_term l' = m_term m) as [Elr Elt].
  { rewrite M1, <- Et. by rewrite <- (ledger_role _ _ Hl'), <- (ledger_term _ _ Hl'). }
  assert (∀ log' s', is_log b (log_entries t') log' → words log' →
    (b <= length log')%nat → take b log' = take b (a_log nd) →
    (tainted s = false → take (a_commit nd) log' = take (a_commit nd) (a_log nd)) →
    (tainted s' = false → tainted s = false) →
    up_rel s' n' (with_log_commit log' (a_commit nd) (follow (m_term m) nd))) as Hup.
  { intros log' s' H1 H2 H3 H4 H5 H6. rewrite <- Elt.
    by apply (up_cut N s i n nd l s' n' l' log' t t0 t' b). }
  destruct Hun as [Hcut|Hmerge].
  - destruct (is_log_cut_short b _ _ (m_prev m) _ _ D1 D2 ltac:(rewrite M2; apply Hok) B1 Hcut)
      as [?|(j & x & e & Hj & Hx & He & Hxe & Hlog')]; [done|]. rewrite <- M4 in He.
    set (nd' := with_log_commit (take j (a_log nd)) (a_commit nd) (follow (m_term m) nd)).
    apply (sim_received N s (set_mem i nd' s) i nd'); try done.
    + apply rtc_once. by eapply a_trim.
    + apply lookup_lt_Some in Hx as Hxl. apply Hup; [done| | | | |done].
      * intros y Hy. apply D2. eapply elem_of_prefix; [exact Hy|apply prefix_take].
      * rewrite length_take. lia.
      * rewrite take_take. f_equal. lia.
      * intros Ht. rewrite take_take. f_equal.
        pose proof (trim_keeps mems s i nd m Hi A1 Hm G1 j x e Hx Hj He Hxe Ht). lia.
    + by intros ? ?%elem_of_nil.
    + cbn. unfold bounded in *. rewrite length_take. lia.
    + rewrite orb_false_r. apply Hs.
  - set (l1 := amerge _ _ _) in *.
    set (nd' := with_log_commit l1 (a_commit nd) (follow (m_term m) nd)).
    set (s' := taint (negb (bool_decide (covered (a_commit nd) (a_commit nd) m)))
      (add_ack (i, m_term m, m_prev m + length (m_es m))%nat (set_mem i nd' s))).
    assert (tainted s' = tainted s) as Htn.
    { cbn. rewrite bool_decide_true by (by left). by rewrite orb_false_r. }
    apply (sim_received N s s' i nd'); try done.
    + apply rtc_once. by apply a_accept.
    + split; try done; [intros x Hx; by right|by rewrite Htn].
    + apply Hup; [by rewrite Hmerge|done|done|done| |by rewrite Htn]. intros Ht. by apply Hkept.
    + by intros ? ?%elem_of_nil.
    + rewrite Htn, orb_false_r. apply Hs.
Qed.

Lemma sim_deliver N s i n f r n' :
  sim N s → inv s → invariant C (net_world N) →
  procs (net_world N) !! i = Some (Up n) → f ∈ sent N → fl_to f = i →
  AppendEntries (Some (fl_req f)) n = (r, n') →
  simulates (Net (set_proc i (Up n') (net_world N)) (sent N) (answers f r ++ acked N)
    (overrun N || overruns n n' (fl_req f)) (mail N)) s.
Proof.
  intros Hs Hri Hi Hp Hin Hto E. destruct (up_node C N s i n Hs Hi Hp) as (nd & l & Hat).
  pose proof (sim_sent _ _ Hs f Hin) as Hf. pose proof Hf as (_ & _ & Hok & Hwf & _).
  destruct (node_shape _ _ _ _ _ _ _ Hat) as (t & b & Hv & Hd & Hsh & Hap).
  destruct (node_words _ _ _ _ _ _ Hat) as (Hut & Huc & _ & Hua).
  pose proof (wp_AppendEntries n t _ _ _ (fl_req f) Hv Hsh Hok Hua Huc) as Hpost.
  unfold wp in Hpost. rewrite E in Hpost.
  pose proof Hat as [A1 A2 A3 A4 A5 A6 A7 A8 A9 A10 A11 A12].
  destruct (vote_AppendEntries (Some (fl_req f)) Hwf n) as [Hid Hl]. rewrite E in Hid, Hl.
  destruct (Hl l A3) as (l' & Hl' & Hst).
  pose proof (progress_AppendEntries (Some (fl_req f)) n) as Hpr. rewrite E in Hpr.
  cbn [fst snd] in Hid, Hl', Hpr, Hpost.
  assert (next_words n n') as Hnx by (intros H; destruct Hpr as (_ & -> & _); exact H).
  assert (∀ t0 t', same_log t t0 → view (store n') = Idle t' → same_log t0 t' →
    commitIndex n' = commitIndex n → lastApplied n' = lastApplied n →
    (∀ fr, fr ∈ answers f r → answer_rel s fr) →
    simulates (Net (set_proc i (Up n') (net_world N)) (sent N) (answers f r ++ acked N)
      (overrun N || overruns n n' (fl_req f)) (mail N)) s) as Hfollow.
  { intros t0 t' H1 H2 H3 H4 H5 H6. rewrite (overruns_none _ _ _ H4), orb_false_r.
    apply (sim_follow C N s i n nd l n' l'); try done.
    - split_and!; [done|done|]. intros t1 Hv1. assert (t1 = t) as -> by congruence.
      exists t'. split; [done|by etrans].
    - intros _. by destruct Hpr.
    - intros fr [?|?]%elem_of_app; [right; auto|by left].
    - by left. }
  destruct r as [[rt [] mi]|e].
  - apply (sim_taken N s i n nd l n' l' f t b rt mi); done.
  - destruct Hpost as (_ & Ert & (t0 & Hta & Hv') & Ec & Ea).
    apply (Hfollow t0 t0); [by eapply adopted_same|done|done|done|done|].
    intros fr ->%list_elem_of_singleton. split_and!; [done| |done]. cbn. rewrite Ert.
    pose proof (oa_term _ Hok). unfold is_u64 in *. lia.
  - destruct Hpost as (_ & t0 & t' & Hta & Hv' & Et' & _ & Hcase & Ec & Ea).
    pose proof (adopted_same _ _ _ _ Hta) as Hsame.
    destruct (decide (log_entries t' = log_entries t)) as [El|Hne].
    + apply (Hfollow t0 t'); try done; [|by intros ? ?%elem_of_nil].
      rewrite Et', El, <- (sl_log _ _ Hsame). by split.
    + destruct Hcase as [?|(Hacc & Hun & Er & Et)]; [done|].
      by eapply (sim_unfinished N s i n nd l n' l' f t b t0 t').
Qed.
End replication.
