(* ===== verification/SimCommit.v ===== *)
(** * The cluster refines Raft: acknowledgements, commits and writes

    What a leader learns from an answer, the commit rule, and the entries its clients
    write, each matched by steps of the abstract protocol. *)

From Stdlib Require Import Ascii String.
From stdpp Require Import strings relations.
From S2P Require Import Prelude GoStd Json Wire Logging Metrics Sql Storage StoreSpec LogSpec LogStore.
From S2P Require Import Config Types Node Rpc NodeFrame Apply Follower Leader VoteLedger NodeVote Voting.
From S2P Require Import Snapshots Cluster ClusterSafety Elections Replication Clients LogFrame Net VoteLog.
From S2P Require Import RaftLogs LogRel RaftSpec RaftSafety Simulation SimElections SimReplication.
#[local] Open Scope Z_scope.

Section commit.
Context `{D : !SqlDriver} `{L : !SqlLaws D} `{R : !GoRuntime}.
Context (C : cluster) (HC : well_configured C).
Implicit Types (n : Node) (nd : anode) (s : astate) (N : net).

Abbreviation mems := (members C).
Abbreviation inv := (raft_inv mems).
Abbreviation asteps := (rtc (astep mems)).
Abbreviation simulates := (simulates C).
Abbreviation at_node := (at_node C).

(** ** The commit rule *)

Lemma committable_quorum i n t base bterm s nd c :
  i ∈ mems → configured C i n → committable n t base bterm (Z.of_nat c) →
  tainted s = false → (0 < c)%nat → lterm (a_log nd) c = a_term nd →
  (∀ p, p ∈ Peer_ID <$> peers n →
     match_rel s nd (map_get (matchIndex n) p) (default 0%nat (a_match nd !! p))) →
  ∃ q, quorum mems q ∧ ∀ v, v ∈ q → v = i ∨ (c <= default 0%nat (a_match nd !! v))%nat.
Proof.
  intros Hi Hc [_ Hmaj] Ht Hpos Hct Hm. destruct (peer_member C HC i n Hi Hc) as (Hnd & Hni & Hmem).
  set (ps := filter (λ p, Z.of_nat c <= map_get (matchIndex n) (Peer_ID p)) (peers n)) in *.
  assert (Peer_ID <$> ps `sublist_of` Peer_ID <$> peers n) as Hsub by (apply fmap_sublist, sublist_filter).
  assert (∀ v, v ∈ Peer_ID <$> ps → v ∈ Peer_ID <$> peers n ∧ Z.of_nat c <= map_get (matchIndex n) v) as Hps.
  { intros v (p & -> & Hp)%list_elem_of_fmap. apply list_elem_of_filter in Hp as [? Hp].
    split; [by apply list_elem_of_fmap_2|done]. }
  exists (i :: (Peer_ID <$> ps)). split; [split_and!|].
  - apply NoDup_cons. split; [|by eapply sublist_NoDup]. intros Hv. by apply Hni, Hps.
  - intros v [->|Hv]%elem_of_cons; [done|]. by apply Hmem, Hps.
  - rewrite (majority_configured C HC i n Hi Hc) in Hmaj. unfold replicas, majority_of in Hmaj. fold ps in Hmaj.
    cbn [length]. rewrite length_fmap.
    pose proof (Z.div_mod (Z.of_nat (length mems)) 2 ltac:(lia)).
    pose proof (Z.mod_pos_bound (Z.of_nat (length mems)) 2 ltac:(lia)). lia.
  - intros v [->|Hv]%elem_of_cons; [by left|right]. destruct (Hps v Hv) as [Hp Hle].
    destruct (Hm v Hp) as [_ Hmv]. by apply (Hmv Ht).
Qed.

(** The term of a row that is still there. *)
Lemma disk_term t nd b a c T :
  disk_rel t nd b a → bounded (a_log nd) → Z.of_nat b <= c →
  term_at t (Z.of_nat b) (lterm (a_log nd) b) c = Some T → lterm (a_log nd) (Z.to_nat c) = T.
Proof.
  intros [D1 D2 D3 D4 _ _ _] Hb Hc Ht. unfold bounded in Hb.
  destruct (is_log_term_inv b t (a_log nd) D3 D1 D2 D4 ltac:(lia) c T Hc Ht) as (k & -> & _ & ->).
  by rewrite Nat2Z.id.
Qed.

(** A member has no snapshot beyond its commit index. *)
Lemma applied_base t nd b a :
  disk_rel t nd b a → applied_rel t nd b a → (b <= a_commit nd)%nat.
Proof. intros Hd [Ha _ _]. pose proof (dr_index _ _ _ _ Hd). lia. Qed.

(** What a member commits and applies. *)
Lemma sim_advanced i s nd n0 t b c n' t' base' bterm' :
  mem s !! i = Some nd →
  disk_rel t nd b (lastApplied n0) → (tainted s = false → applied_rel t nd b (lastApplied n0)) →
  commitIndex n0 = Z.of_nat (a_commit nd) → commitIndex n0 < two63 - 1 → bounded (a_log nd) →
  followed n0 t (Z.of_nat b) (lterm (a_log nd) b) (Z.of_nat (length (a_log nd))) c n' t' base' bterm' →
  (c = commitIndex n0 ∨ commitIndex n0 < c <= Z.of_nat (length (a_log nd)) ∧ (tainted s = false →
     a_role nd = RoleLeader ∧ lterm (a_log nd) (Z.to_nat c) = a_term nd
     ∧ ∃ q, quorum mems q ∧ ∀ v, v ∈ q → v = i ∨ (Z.to_nat c <= default 0%nat (a_match nd !! v))%nat)) →
  ∃ s' c', let nd' := with_log_commit (a_log nd) c' nd in
    asteps s s' ∧ spread i nd' s s' ∧ lead s' = lead s ∧ tainted s' = tainted s
    ∧ commitIndex n' = Z.of_nat c' ∧ commitIndex n' < two63 - 1
    ∧ ∃ t', view (store n') = Idle t' ∧ state_rel s' t' nd' (lastApplied n').
Proof.
  intros Hnd Hd Hap Ec Hb Hbl Hfo Hcase. pose proof Hbl as Hbl'. unfold bounded in Hbl'.
  set (c' := Z.to_nat c). set (nd' := with_log_commit (a_log nd) c' nd).
  assert (c = Z.of_nat c') as Ecc by (unfold c'; lia). rewrite Ecc in Hfo.
  destruct (followed_state n0 t nd nd' b base' bterm' n' t' c' Hfo Hd) as (b' & Hd' & Hap');
    [done|lia|done|done|].
  assert (∀ s', tainted s' = tainted s → commitIndex n' = Z.of_nat c' ∧ commitIndex n' < two63 - 1
    ∧ ∃ t', view (store n') = Idle t' ∧ state_rel s' t' nd' (lastApplied n')) as Hrest.
  { intros s' Ht. rewrite (fo_commit _ _ _ _ _ _ _ _ _ _ Hfo). split_and!; [done|lia|]. exists t'.
    split; [apply Hfo|]. exists b'. split; [done|]. rewrite Ht. intros Ht'. apply Hap'; [by apply Hap|lia]. }
  destruct Hcase as [E|(Hc & Hlead)].
  - exists s, c'. cbn zeta.
    assert (nd' = nd) as End.
    { unfold nd'. assert (c' = a_commit nd) as -> by lia. by destruct nd. }
    split; [done|]. split; [rewrite <- End in Hnd; by apply spread_refl|].
    split; [done|]. split; [done|]. by apply Hrest.
  - exists (set_mem i nd' s), c'. cbn zeta. split; [|split; [done|]].
    + apply rtc_once. destruct (tainted s) eqn:Ht; [by apply a_wander|].
      destruct (Hlead eq_refl) as (Hr & Hterm & q & Hq & Hv).
      apply (a_commit_to _ _ i nd c' q); try done; lia.
    + split; [done|]. split; [done|]. by apply Hrest.
Qed.

Lemma up_staying N s i n nd l s' n' l' nd' :
  at_node N s i n nd l → lsteps l l' → has_ledger n' l' → l_role l' = l_role l → l_term l' = l_term l →
  a_role nd' = a_role nd → a_term nd' = a_term nd → a_vote nd' = a_vote nd →
  commitIndex n' = Z.of_nat (a_commit nd') → commitIndex n' < two63 - 1 → next_words n n' →
  (role n' = RoleLeader → ∀ p, p ∈ Peer_ID <$> peers n' →
     match_rel s' nd' (map_get (matchIndex n') p) (default 0%nat (a_match nd' !! p))) →
  (∃ t', view (store n') = Idle t' ∧ state_rel s' t' nd' (lastApplied n')) →
  up_rel s' n' nd'.
Proof.
  intros [A1 A2 A3 A4 A5 A6 A7 A8 A9 A10 A11 A12] Hst Hl' Hrl Htl Er Et Ev Ec Hb Hnx Hm Hd.
  split; try done; [|by apply Hnx, A2].
  exists l'. split_and!; [done|congruence|congruence|]. rewrite Ev, Et. intros Hne.
  eapply lsteps_pledged; [done|done|by apply A6].
Qed.

Lemma leading_stays n n' l l' :
  has_ledger n' l' → lsteps l l' → role n' = RoleLeader → l_role l' = l_role l ∧ l_term l' = l_term l.
Proof.
  intros Hl' Hst Hr. destruct (lsteps_role _ _ Hst) as [E1 E2]; [|done].
  by rewrite <- (ledger_role _ _ Hl'), Hr.
Qed.

(** Matching a move of one member that nobody is told of. *)
Lemma sim_alone N s s' i nd' n' m :
  sim N s → spread i nd' s s' →
  (∀ T g, lead s' !! T = Some g → lead s !! T = Some g ∨ bounded g) →
  up_rel s' n' nd' → bounded (a_log nd') → tainted s' = tainted s →
  parcels m = parcels (mail N) → receipts m = receipts (mail N) →
  sim (with_world (set_proc i (Up n') (net_world N)) (with_mail m N)) s'.
Proof.
  intros Hs Hsp El U Hb Ht Ep Er.
  eapply (sim_move N s _ s' i (Up n') nd' Hs Hsp);
    [done|done|by left|by left|by left|by left| | |done|done|].
  - intros f Hf. left. by rewrite <- Ep.
  - intros f Hf. left. by rewrite <- Er.
  - rewrite Ht. apply Hs.
Qed.

(** ** Hearing of an answer *)

Lemma append_reply_calm n peer term la resp :
  currentTerm n < AppendEntriesResponse_Term resp
    ∨ ¬ (role n = RoleLeader ∧ currentTerm n = term) ∨ AppendEntriesResponse_Success resp = false →
  wp (replicatePeer_append_reply peer term la (Some resp))
    (λ _ n', keeps_log n n' ∧ matchIndex n' = matchIndex n) n.
Proof.
  intros Hc. unfold replicatePeer_append_reply. wp_pure.
  cbn [AppendEntriesResponse_GetTerm AppendEntriesResponse_GetSuccess AppendEntriesResponse_GetMatchIndex].
  destruct (Z.ltb_spec (currentTerm n) (AppendEntriesResponse_Term resp)) as [Hlt|Hge].
  { wp_pure. eapply (wp_mono _ (λ _ n1, keeps_log n n1 ∧ same_progress n n1)).
    - split; [apply keeps_stepDown|apply progress_stepDown].
    - intros _ n1 [Hk (E & _)]. wp_pure. by split. }
  destruct (_ || _) eqn:Eb; [wp_pure; by split|].
  destruct (AppendEntriesResponse_Success resp) eqn:Es.
  - exfalso. apply orb_false_iff in Eb as [E1 E2]. rewrite negb_false_iff in E1, E2.
    apply bool_decide_eq_true in E1. apply Z.eqb_eq in E2. destruct Hc as [?|[Hn|?]]; [lia|tauto|done].
  - wp_pure. destruct (_ <? _); wp_pure; (split; [|done]).
    + split_and!; [done..|]. intros t Hv. by exists t.
    + done.
Qed.

(** The match index of one peer is raised to what it has acknowledged. *)
Lemma match_raised s s' nd nd' m k v x j :
  match_rel s nd m (default 0%nat (a_match nd !! v)) → tainted s' = tainted s →
  a_log nd' = a_log nd → a_term nd' = a_term nd → bounded (a_log nd) -> (k <= length (a_log nd))%nat →
  x <= Z.max m (Z.of_nat k) → (Nat.max k (default 0%nat (a_match nd !! v)) <= j)%nat →
  match_rel s' nd' x j.
Proof.
  intros [H1 H2] Ht El Et Hb Hk Hx Hj. unfold bounded in Hb. split; [lia|]. rewrite Ht, El, Et. intros Ht'.
  destruct (H2 Ht') as [H3 H4]. split; [lia|]. intros c Hc Hcx Hct.
  destruct (decide (Z.of_nat c <= m)) as [Hle|Hgt]; [|lia]. specialize (H4 c Hc Hle Hct). lia.
Qed.

(** A leader whose match indexes have changed, and that has run the commit rule. *)
Lemma sim_led N s i n nd l n' l' t b s1 mtc m :
  sim N s → at_node N s i n nd l → role n = RoleLeader → role n' = RoleLeader →
  disk_rel t nd b (lastApplied n) → (tainted s = false → applied_rel t nd b (lastApplied n)) →
  let nd1 := with_match mtc nd in
  asteps s s1 → spread i nd1 s s1 → lead s1 = lead s → tainted s1 = tainted s →
  (∀ p, p ∈ Peer_ID <$> peers n → match_rel s1 nd1 (map_get (matchIndex n') p) (default 0%nat (mtc !! p))) →
  advance_post (set_matchIndex (matchIndex n') n) t (Z.of_nat b) (lterm (a_log nd) b)
    (Z.of_nat (length (a_log nd))) n' →
  lsteps l l' → has_ledger n' l' → next_words n n' → same_identity n n' →
  parcels m = parcels (mail N) → receipts m = receipts (mail N) →
  simulates (with_world (set_proc i (Up n') (net_world N)) (with_mail m N)) s.
Proof.
  intros Hs Hat Hr Hr' Hd Hap nd1 Hrun1 Hsp1 El1 Et1 Hmatch (c & t' & base' & bterm' & Hc & _ & Hfo)
    Hst Hl' Hnx Hid Emp Emr.
  pose proof Hat as [A1 A2 A3 A4 A5 A6 A7 A8 A9 A10 A11 A12].
  set (n0 := set_matchIndex (matchIndex n') n) in *.
  assert (a_role nd = RoleLeader) as Har by (by rewrite <- A4, <- (ledger_role _ _ A3)).
  assert (disk_rel t nd1 b (lastApplied n0)) as Hd1 by (destruct Hd; by split).
  assert (tainted s1 = false → applied_rel t nd1 b (lastApplied n0)) as Hap1.
  { rewrite Et1. intros Ht. destruct (Hap Ht). by split. }
  assert (mem s1 !! i = Some nd1) as Hnd1 by (rewrite (sp_mem _ _ _ _ Hsp1); exact (lookup_insert_eq _ _ _)).
  assert (configured C i n0) as Hconf by exact A9.
  destruct (sim_advanced i s1 nd1 n0 t b c n' t' base' bterm') as (s2 & c' & H1 & H2 & H3 & H4 & H5 & H6 & H7);
    try done.
  { apply A2. } { apply A2. }
  { destruct Hc as [?|[Hrange Hcm]]; [by left|right]. cbn in Hrange. pose proof Hcm as [Htm _].
    pose proof (ur_commit _ _ _ A2) as Ecm. split; [done|]. rewrite Et1. intros Ht. split; [done|].
    assert (b <= a_commit nd)%nat as Hbc by (by apply (applied_base t nd b (lastApplied n) Hd), Hap).
    assert (lterm (a_log nd) (Z.to_nat c) = a_term nd) as Hct.
    { rewrite (disk_term t nd b (lastApplied n) c _ Hd A12 ltac:(lia) Htm). cbn. by rewrite (ledger_term _ _ A3). }
    split; [done|]. assert (c = Z.of_nat (Z.to_nat c)) as Ecc by lia. rewrite Ecc in Hcm.
    apply (committable_quorum i n0 t (Z.of_nat b) (lterm (a_log nd) b) s1 nd1); try done; [by rewrite Et1|lia]. }
  set (nd2 := with_log_commit _ c' nd1) in *.
  exists s2. split; [by etrans|]. apply (sim_alone N s s2 i nd2); try done.
  - by eapply spread_trans.
  - rewrite H3, El1. by left.
  - destruct (leading_stays n n' l l' Hl' Hst Hr') as [E1 E2].
    eapply (up_staying N s i n nd l s2 n' l' nd2); try done.
    intros _ p Hp. eapply (match_rel_same s1 s2 nd1 nd2); [by rewrite H4|done|done|].
    apply Hmatch. by destruct Hid as (_ & <- & _).
  - by rewrite H4.
Qed.

(** The match indexes after that of one peer was raised to what it acknowledged. *)
Lemma sim_raised s i nd v k n mi :
  inv s → mem s !! i = Some nd → a_role nd = RoleLeader → bounded (a_log nd) → (v, a_term nd, k) ∈ acks s →
  (∀ p, p ∈ Peer_ID <$> peers n →
     match_rel s nd (map_get (matchIndex n) p) (default 0%nat (a_match nd !! p))) →
  v ∈ Peer_ID <$> peers n →
  map_get mi v <= Z.max (map_get (matchIndex n) v) (Z.of_nat k) →
  (∀ p, p ≠ v → map_get mi p = map_get (matchIndex n) p) →
  let mtc := <[v := Nat.max k (default 0%nat (a_match nd !! v))]> (a_match nd) in
  let s1 := set_mem i (with_match mtc nd) s in
  astep mems s s1 ∧ spread i (with_match mtc nd) s s1
  ∧ ∀ p, p ∈ Peer_ID <$> peers n → match_rel s1 (with_match mtc nd) (map_get mi p) (default 0%nat (mtc !! p)).
Proof.
  intros Hri Hnd Har Hb Hack Hup Hv Hmi Hoth mtc s1. split; [by apply a_reply|]. split; [by split|].
  assert (k <= length (a_log nd))%nat as Hk.
  { destruct (ri_ack _ s Hri _ _ _ Hack) as (g & _ & Hg & Hlen & _).
    destruct (no_lead _ _ _ _ (ri_node _ s Hri i nd Hnd) Har) as [Hg' _].
    assert (g = a_log nd) as -> by congruence. done. }
  intros p Hp. unfold mtc. destruct (decide (p = v)) as [->|Hne].
  - rewrite lookup_insert_eq. by eapply (match_raised s s1 nd _ _ k v); [by apply Hup|..].
  - rewrite lookup_insert_ne, Hoth by done. by apply (match_rel_same s s1 nd), Hup.
Qed.

Lemma sim_matched N s i n nd l f resp r n' l' t b :
  sim N s → inv s → at_node N s i n nd l →
  disk_rel t nd b (lastApplied n) → (tainted s = false → applied_rel t nd b (lastApplied n)) →
  answer_rel s (f, resp) → fl_to f ∈ Peer_ID <$> peers n →
  reply_post n t (Z.of_nat b) (lterm (a_log nd) b) (Z.of_nat (length (a_log nd))) (fl_to f) (fl_term f) (fl_lastSent f) resp r n' →
  AppendEntriesResponse_Term resp <= currentTerm n → role n = RoleLeader → currentTerm n = fl_term f →
  AppendEntriesResponse_Success resp = true →
  lsteps l l' → has_ledger n' l' → next_words n n' → same_identity n n' →
  simulates (with_world (set_proc i (Up n') (net_world N)) N) s.
Proof.
  intros Hs Hri Hat Hd Hap ((Hft & Hfl & Hok & _) & _ & Hsucc) Hpeer Hpost Hle Hr Hterm Hsc Hst Hl' Hnx Hid.
  pose proof Hat as [A1 A2 A3 A4 A5 A6 A7 A8 A9 A10 A11 A12]. destruct (Hsucc Hsc) as [Emi Hack].
  unfold reply_post in Hpost. rewrite (proj2 (Z.ltb_ge _ _) Hle), decide_True, Hsc in Hpost by done.
  destruct Hpost as (_ & Hr' & _ & Hm & _ & Hadv).
  assert (a_role nd = RoleLeader) as Har by (by rewrite <- A4, <- (ledger_role _ _ A3)).
  rewrite <- Hft, <- Hterm, (ledger_term _ _ A3), A5 in Hack.
  destruct (sim_raised s i nd (fl_to f) (Z.to_nat (match_index (fl_req f))) n (matchIndex n'))
    as (Hstep & Hsp & Hmatch); try done.
  { by apply A2. }
  { rewrite Hm, decide_True by done. unfold matched_after. rewrite Emi, Hfl.
    pose proof (oa_prev _ Hok) as [Hpos _]. assert (0 <= match_index (fl_req f)) by (unfold match_index; lia). lia. }
  { intros p Hne. by rewrite Hm, decide_False by done. }
  change (simulates (with_world (set_proc i (Up n') (net_world N)) (with_mail (mail N) N)) s).
  eapply (sim_led N s i n nd l n' l' t b); [..|exact Hmatch|exact Hadv|exact Hst| | | | |]; try done.
  by apply rtc_once.
Qed.

Lemma sim_answer N s i n f resp :
  sim N s → inv s → invariant C (net_world N) →
  procs (net_world N) !! i = Some (Up n) → (f, resp) ∈ acked N →
  fl_to f ∈ Peer_ID <$> peers n →
  simulates (with_world (set_proc i
    (Up (replicatePeer_append_reply (fl_to f) (fl_term f) (fl_lastSent f) (Some resp) n).2)
    (net_world N)) N) s.
Proof.
  intros Hs Hri Hi Hp Hin Hpeer. destruct (up_node C N s i n Hs Hi Hp) as (nd & l & Hat).
  pose proof (sim_acked _ _ Hs _ Hin) as Ha. pose proof Ha as ((_ & Hfl & Hok & _) & Hut & Hsucc).
  destruct (node_shape _ _ _ _ _ _ _ Hat) as (t & b & Hv & Hd & Hsh & Hap).
  destruct (node_words C N s i n nd l Hat) as (_ & Huc & Huc1 & Hua).
  pose proof Hat as [A1 A2 A3 A4 A5 A6 A7 A8 A9 A10 A11 A12].
  destruct (vote_append_reply (fl_to f) (fl_term f) (fl_lastSent f) (Some resp) Hut n) as [Hid Hl].
  destruct (Hl l A3) as (l' & Hl' & Hst).
  pose proof (next_words_append_reply (fl_to f) (fl_term f) (fl_lastSent f) (Some resp) n) as Hnx.
  pose proof (append_reply_calm n (fl_to f) (fl_term f) (fl_lastSent f) resp) as Hcalm. unfold wp in Hcalm.
  destruct (decide (currentTerm n < AppendEntriesResponse_Term resp
    ∨ ¬ (role n = RoleLeader ∧ currentTerm n = fl_term f) ∨ AppendEntriesResponse_Success resp = false))
    as [Hc|Hc].
  - destruct (Hcalm Hc) as [Hk Hm]. eapply (sim_follow C N s i n nd l _ l'); try done; by left.
  - assert (AppendEntriesResponse_Term resp <= currentTerm n) as H1 by lia.
    assert (role n = RoleLeader ∧ currentTerm n = fl_term f) as [H2 H3] by (apply dec_stable; tauto).
    assert (AppendEntriesResponse_Success resp = true) as H4
      by (destruct (AppendEntriesResponse_Success resp); [done|tauto]).
    destruct (Hsucc H4) as [Emi _].
    assert (0 <= match_index (fl_req f) < two63) as Hmi.
    { pose proof (oa_prev _ Hok) as [? _]. pose proof (oa_room _ Hok) as [_ ?].
      unfold match_index, is_idx in *. lia. }
    pose proof (wp_append_reply n t _ _ _ (fl_to f) (fl_term f) (fl_lastSent f) resp Hv Hsh Hua Huc Huc1 Hut)
      as Hpost. unfold wp in Hpost.
    eapply sim_matched; try done. apply Hpost; [|lia|apply A2].
    intros Hr. destruct (ur_match _ _ _ A2 Hr _ Hpeer) as [Hup _]. unfold matched_after. rewrite Emi, Hfl.
    unfold is_u64, two64, two63 in *. lia.
Qed.

(** ** Writing *)

Section append.
Context (t : tables) nd (b : nat) (a : Z) (raw : string) (Hd : disk_rel t nd b a) (Hu : is_u64 (a_term nd)).

Abbreviation log1 := (a_log nd ++ [(a_term nd, raw)]).
Abbreviation t1 := (appended (Z.of_nat (length (a_log nd)) + 1) (a_term nd) raw t).
Abbreviation nd1 := (with_log_commit log1 (a_commit nd) nd).

Lemma disk_append : disk_rel t1 nd1 b a.
Proof.
  pose proof Hd as [D1 D2 D3 D4 _ _ _]. apply (disk_rel_log t t t1 nd nd1); try done.
  - cbn. replace (Z.of_nat (length (a_log nd)) + 1) with (Z.of_nat (S (length (a_log nd)))) by lia.
    by apply (is_log_append _ _ _ (a_term nd, raw)).
  - cbn. intros x [Hx|Hx]%elem_of_app; [by apply D2|]. apply list_elem_of_singleton in Hx as ->. done.
  - cbn. rewrite length_app. lia.
  - cbn. by rewrite take_app_le.
Qed.

Lemma applied_append : (a_commit nd <= length (a_log nd))%nat → applied_rel t nd b a → applied_rel t1 nd1 b a.
Proof.
  intros Hc Hap. apply (applied_rel_log t t t1 nd nd1); try done; [apply Hd|].
  cbn. by rewrite take_app_le.
Qed.

Lemma match_append s s' m k : tainted s' = tainted s → match_rel s nd m k → match_rel s' nd1 m k.
Proof.
  intros Et [H1 H2]. split; [done|]. rewrite Et. intros Ht. destruct (H2 Ht) as [H3 H4].
  cbn. rewrite length_app. split; [lia|]. intros c Hc Hcm. rewrite (lterm_take _ (a_log nd)); [by apply H4|].
  apply take_app_le. lia.
Qed.
End append.

Lemma lone_quorum i n :
  i ∈ mems → configured C i n → majorityLocked n = 1 → quorum mems [i].
Proof.
  intros Hi Hc Hm. rewrite (majority_configured C HC i n Hi Hc) in Hm. unfold majority_of in Hm.
  pose proof (Z.div_mod (Z.of_nat (length mems)) 2 ltac:(lia)).
  pose proof (Z.mod_pos_bound (Z.of_nat (length mems)) 2 ltac:(lia)). split_and!.
  - apply NoDup_singleton.
  - by intros v ->%list_elem_of_singleton.
  - cbn. lia.
Qed.

Lemma room_bounded N s i n nd l :
  at_node N s i n nd l → has_room n → Z.of_nat (length (a_log nd)) + 2 < two63.
Proof.
  intros Hat Hr. destruct (node_last C N s i n nd l Hat) as (t & Hv & Hl).
  assert (drv_file (store n) = t) as Ef by (by rewrite file_law, Hv).
  unfold has_room, last_index in Hr. rewrite Ef, Hl in Hr. exact Hr.
Qed.

(** The leader of [term] has the command of a write at the index the write was given. *)
Definition logged_write N s (i : string) n' (req : ClientWriteRequest) (index term : Z) : Prop :=
  ∃ s', asteps s s' ∧ sim (with_world (set_proc i (Up n') (net_world N)) N) s' ∧ 0 < index
    ∧ ∃ g, lead s' !! term = Some g
        ∧ g !! Z.to_nat (index - 1)
          = Some (term, command_json (ClientWriteRequest_Key req) (ClientWriteRequest_Value req)).

Lemma sim_appended N s i n nd l req index term n' l' t b :
  sim N s → inv s → at_node N s i n nd l → has_room n → view (store n) = Idle t →
  disk_rel t nd b (lastApplied n) → (tainted s = false → applied_rel t nd b (lastApplied n)) →
  write_post n t (Z.of_nat b) (lterm (a_log nd) b) (Z.of_nat (length (a_log nd))) req (WriteWait index term) n' →
  lsteps l l' → has_ledger n' l' → next_words n n' → same_identity n n' →
  logged_write N s i n' req index term.
Proof.
  intros Hs Hri Hat Hroom Hv Hd Hap Hpost Hst Hl' Hnx Hid.
  pose proof (room_bounded _ _ _ _ _ _ Hat Hroom) as Hlen.
  pose proof Hat as [A1 A2 A3 A4 A5 A6 A7 A8 A9 A10 A11 A12].
  destruct Hpost as (_ & Hr & -> & -> & Hr' & _ & Hm & _ & t' & base' & bterm' & Hfo & Hcc & Hmaj).
  set (raw := command_json _ _) in *.
  assert (a_role nd = RoleLeader) as Har by (by rewrite <- A4, <- (ledger_role _ _ A3)).
  assert (currentTerm n = a_term nd) as Eterm by (by rewrite (ledger_term _ _ A3)).
  assert (is_u64 (a_term nd)) as Hut by (rewrite <- Eterm; by apply (ledger_u64 n l)).
  rewrite Eterm in Hfo, Hcc, Hmaj |- *. set (l1 := a_log nd ++ [(a_term nd, raw)]).
  set (nd1 := with_log_commit l1 (a_commit nd) nd).
  set (s1 := add_ack (i, a_term nd, length l1) (set_lead (a_term nd) l1 (set_mem i nd1 s))).
  assert (astep mems s s1) as Hstep1 by (by apply a_append).
  assert (spread i nd1 s s1) as Hsp1 by (split; try done; intros x Hx; by right).
  pose proof (disk_append t nd b _ raw Hd Hut) as Hd1. fold l1 nd1 in Hd1.
  assert (tainted s1 = false → applied_rel (appended (Z.of_nat (length (a_log nd)) + 1) (a_term nd) raw t) nd1 b
    (lastApplied n)) as Hap1.
  { intros Ht. apply applied_append; [done| |by apply Hap].
    destruct (no_commit _ _ _ _ (ri_node _ s Hri i nd A1) Ht) as [->|(? & ? & ? & _ & _ & _ & ? & _)]; [lia|done]. }
  assert (Z.of_nat (length (a_log nd)) + 1 = Z.of_nat (length l1)) as El
    by (unfold l1; rewrite length_app; cbn; lia).
  rewrite El in Hfo, Hcc, Hmaj, Hd1, Hap1. set (t1 := appended _ _ _ _) in *.
  assert (bounded l1) as Hb1 by (unfold bounded; lia).
  assert (lterm (a_log nd1) b = lterm (a_log nd) b) as Elb.
  { apply lterm_take, take_app_le. apply (dr_base _ _ _ _ Hd). }
  rewrite <- Elb in Hfo, Hcc.
  assert (mem s1 !! i = Some nd1) as Hnd1 by exact (lookup_insert_eq _ _ _).
  destruct (sim_advanced i s1 nd1 n t1 b (commitIndex n') n' t' base' bterm') as (s2 & c' & H1 & H2 & H3 & H4 & H5 & H6 & H7);
    try done.
  { apply A2. } { apply A2. }
  { destruct Hcc as [?|[Hrange Htm]]; [by left|right]. pose proof (ur_commit _ _ _ A2) as Ecm. split; [done|].
    intros Ht. pose proof (applied_base _ _ _ _ Hd1 (Hap1 Ht)) as Hbc. cbn in Hbc. split; [done|]. split.
    - by apply (disk_term t1 nd1 b (lastApplied n)); [| |lia|].
    - destruct (decide (majorityLocked n = 1)) as [E1|Hne]; [|destruct (Hmaj Hne); lia].
      exists [i]. split; [by eapply lone_quorum|]. intros v ->%list_elem_of_singleton. by left. }
  set (nd2 := with_log_commit _ c' nd1) in *.
  exists s2. split; [by eapply rtc_l|]. split.
  2: { split; [lia|]. exists l1. rewrite H3. split; [exact (lookup_insert_eq _ _ _)|].
       unfold l1. rewrite lookup_app_r by lia. by replace (_ - _)%nat with 0%nat by lia. }
  change (sim (with_world (set_proc i (Up n') (net_world N)) (with_mail (mail N) N)) s2).
  apply (sim_alone N s s2 i nd2); try done.
  - by eapply spread_trans.
  - rewrite H3. intros T g Hg. cbn in Hg. destruct (decide (T = a_term nd)) as [->|Hne].
    + rewrite lookup_insert_eq in Hg. injection Hg as <-. by right.
    + rewrite lookup_insert_ne in Hg by done. by left.
  - destruct (leading_stays n n' l l' Hl' Hst Hr') as [E1 E2].
    eapply (up_staying N s i n nd l s2 n' l' nd2); try done.
    intros _ p Hp. rewrite Hm. destruct Hid as (Ei & Ep & _). rewrite Ep in Hp.
    destruct (peer_member C HC i n A10 A9) as (_ & Hni & _). pose proof A9 as (Ei' & _).
    rewrite map_get_insert_ne by (intros <-; by rewrite Ei' in Hp).
    apply (match_rel_same s1 s2 nd1 nd2); [by rewrite H4|done|done|].
    apply match_append with (s := s); [done|]. by apply A2.
Qed.

Lemma keeps_set_store n c n' t :
  view (store n) = Idle t → view c = Idle t → quiet (set_store c n) n' → keeps_log n n'.
Proof.
  intros Hv Hvc Hq. pose proof Hq as [E _]. split_and!; [by rewrite E|by rewrite E|].
  intros t1 Hv1. assert (t1 = t) as -> by congruence. exists t. split; [|done].
  by apply (quiet_view (set_store c n)).
Qed.

Lemma sim_write_wait N s i n req n' index term :
  sim N s → inv s → invariant C (net_world N) →
  procs (net_world N) !! i = Some (Up n) → has_room n →
  Write_begin (Some req) n = (WriteWait index term, n') → logged_write N s i n' req index term.
Proof.
  intros Hs Hri Hi Hp Hroom E. destruct (up_node C N s i n Hs Hi Hp) as (nd & l & Hat).
  destruct (node_shape _ _ _ _ _ _ _ Hat) as (t & b & Hv & Hd & Hsh & Hap).
  destruct (node_words C N s i n nd l Hat) as (_ & Huc & Huc1 & Hua).
  pose proof (room_bounded _ _ _ _ _ _ Hat Hroom) as Hlen.
  destruct (vote_Write_begin (Some req) n) as [Hid Hl]. destruct (Hl l (an_ledger _ _ _ _ _ _ _ Hat)) as (l' & Hl' & Hst).
  pose proof (next_words_Write (Some req) n) as Hnx.
  pose proof (wp_Write_begin n t _ _ _ req Hv Hsh Hua Huc Huc1) as Hpost. unfold wp in Hpost.
  specialize (Hpost ltac:(unfold is_idx; lia)). rewrite E in *. by eapply sim_appended.
Qed.

Lemma sim_write N s i n req :
  sim N s → inv s → invariant C (net_world N) →
  procs (net_world N) !! i = Some (Up n) → has_room n →
  simulates (with_world (set_proc i (Up (Write_begin req n).2) (net_world N)) N) s.
Proof.
  intros Hs Hri Hi Hp Hroom. destruct (up_node C N s i n Hs Hi Hp) as (nd & l & Hat).
  destruct (node_shape _ _ _ _ _ _ _ Hat) as (t & b & Hv & Hd & Hsh & Hap).
  destruct (node_words C N s i n nd l Hat) as (_ & Huc & Huc1 & Hua).
  pose proof (room_bounded _ _ _ _ _ _ Hat Hroom) as Hlen.
  destruct (vote_Write_begin req n) as [Hid Hl]. destruct (Hl l (an_ledger _ _ _ _ _ _ _ Hat)) as (l' & Hl' & Hst).
  pose proof (next_words_Write req n) as Hnx.
  destruct req as [req|].
  2: { apply (sim_follow C N s i n nd l n l); try done; try apply Hat; try apply rtc_refl; by left. }
  pose proof (wp_Write_begin n t _ _ _ req Hv Hsh Hua Huc Huc1) as Hpost. unfold wp in Hpost.
  specialize (Hpost ltac:(unfold is_idx; lia)).
  destruct (Write_begin (Some req) n) as [w n'] eqn:E. cbn [fst snd] in *.
  assert (n' = n → simulates (with_world (set_proc i (Up n') (net_world N)) N) s) as Hsame.
  { intros ->. apply (sim_follow C N s i n nd l n l); try done; try apply Hat; try apply rtc_refl; by left. }
  destruct w as [[resp|e]|leader|index term].
  - apply Hsame, Hpost.
  - destruct Hpost as (_ & c & Hvc & Hq). pose proof Hq as [Eq _].
    apply (sim_follow C N s i n nd l n' l'); try done.
    + by eapply keeps_set_store.
    + by rewrite Eq.
    + by left.
    + by left.
  - apply Hsame, Hpost.
  - destruct (sim_write_wait N s i n req n' index term) as (s' & ? & ? & _); try done. by exists s'.
Qed.
End commit.
