(* ===== verification/SimSnapshots.v ===== *)
(** * The cluster refines Raft: snapshots

    A snapshot stands for the entries up to its index: installing it is accepting a
    request that starts at the first entry, and the answer to it acknowledges those
    entries. *)

From Stdlib Require Import Ascii String.
From stdpp Require Import strings relations.
From S2P Require Import Prelude GoStd Json Wire Logging Metrics Sql Storage StoreSpec LogSpec LogStore.
From S2P Require Import Config Types Node Rpc NodeFrame Apply Follower Leader VoteLedger NodeVote Voting.
From S2P Require Import Snapshots Cluster ClusterSafety Elections Replication Clients LogFrame Net VoteLog.
From S2P Require Import RaftLogs LogRel RaftSpec RaftSafety Simulation SimElections SimReplication SimCommit.
#[local] Open Scope Z_scope.

(** A log with the entries of a snapshot. *)
Section merging.
Context (members : list string) (s : astate) (v : string) (nd : anode) (m : amsg)
  (Hi : raft_inv members s) (Hnd : mem s !! v = Some nd) (Hm : m ∈ msgs s) (Hp : m_prev m = 0%nat).

Abbreviation k := (length (m_es m)).
Abbreviation l1 := (amerge (a_log nd) 0 (m_es m)).

Lemma snapshot_lead : ∃ g, lead s !! m_term m = Some g ∧ take k g = m_es m ∧ (k <= length g)%nat.
Proof.
  destruct (ri_msg _ s Hi m Hm) as (g & Hg & _ & _ & Hes). rewrite Hp, drop_0 in Hes.
  exists g. split_and!; [done| |by apply prefix_length].
  rewrite <- (prefix_take_eq _ _ k Hes) by lia. apply firstn_all.
Qed.

Lemma snapshot_merge : take k l1 = m_es m ∧ (k <= length l1)%nat
  ∧ (l1 = a_log nd ∨ l1 = m_es m ∧ ¬ m_es m `prefix_of` a_log nd).
Proof.
  destruct snapshot_lead as (g & Hg & Htake & Hlen).
  pose proof (no_good _ _ _ _ (ri_node _ s Hi v nd Hnd)) as Hgood.
  assert (m_es m `prefix_of` skipn 0 g) as Hes by (rewrite drop_0, <- Htake at 1; apply prefix_take).
  destruct (amerge_accept (lead s) (ri_lead _ s Hi) (m_term m) g Hg (a_log nd) 0%nat (m_es m) Hgood ltac:(lia) Hes
    ltac:(lia) eq_refl) as (_ & E & Hcase).
  cbn in E, Hcase. rewrite Htake in E, Hcase. split_and!; [done| |done].
  apply (f_equal length) in E. rewrite length_take in E. lia.
Qed.

(** Entries that are committed already change nothing. *)
Lemma snapshot_known :
  tainted s = false → a_term nd <= m_term m → (k <= a_commit nd)%nat → l1 = a_log nd.
Proof.
  intros Ht HT Hk. destruct snapshot_lead as (g & Hg & Htake & Hlen).
  destruct (committed_lead members s v nd m Hi Hnd Hm HT Ht) as (g' & Hg' & Hpre & Hcl).
  assert (g' = g) as -> by congruence. destruct snapshot_merge as (_ & _ & [?|[_ Hn]]); [done|].
  destruct Hn. rewrite <- Htake. etrans; [|apply (prefix_take (a_log nd) (a_commit nd))].
  eapply prefix_same_length; [apply prefix_take|exact Hpre|]. rewrite !length_take. lia.
Qed.

(** Where the log has another entry at the index of the snapshot, nothing is above it. *)
Lemma snapshot_fits :
  (length (a_log nd) <= k)%nat ∨ lterm (a_log nd) k = lterm (m_es m) k →
  l1 = a_log nd ∨ l1 = m_es m ∧ (length (a_log nd) <= k)%nat.
Proof.
  intros Hfit. destruct snapshot_merge as (_ & _ & [?|[E Hn]]); [by left|right]. split; [done|].
  destruct Hfit as [?|Ht]; [done|]. destruct (decide (length (a_log nd) <= k)%nat) as [?|Hgt]; [done|].
  destruct Hn. destruct snapshot_lead as (g & Hg & Htake & Hlen).
  rewrite <- Htake. rewrite <- (lterm_match (lead s) (a_log nd) g k).
  - apply prefix_take.
  - apply Hi.
  - apply (no_good _ _ _ _ (ri_node _ s Hi v nd Hnd)).
  - by apply (ri_lead _ s Hi _ _ Hg).
  - lia.
  - done.
  - rewrite Ht. apply lterm_take. rewrite Htake. apply firstn_all.
Qed.
End merging.

Section snapshots.
Context `{D : !SqlDriver} `{L : !SqlLaws D} `{R : !GoRuntime}.
Context (C : cluster) (HC : well_configured C).
Implicit Types (n : Node) (nd : anode) (s : astate) (N : net).

Abbreviation mems := (members C).
Abbreviation inv := (raft_inv mems).
Abbreviation asteps := (rtc (astep mems)).
Abbreviation simulates := (simulates C).
Abbreviation at_node := (at_node C).

(** ** Installing *)

(** A member that has the entries of a snapshot, in whatever way. *)
Lemma sim_has_snapshot N s i n nd l n' l' m c' frs ml :
  sim N s → inv s → at_node N s i n nd l → m ∈ msgs s → a_term nd <= m_term m →
  m_prev m = 0%nat → m_pterm m = 0 →
  lsteps l l' → has_ledger n' l' → l_role l' = RoleFollower → l_term l' = m_term m →
  commitIndex n' = Z.of_nat c' → commitIndex n' < two63 - 1 → next_words n n' →
  (tainted s = false → covered (a_commit nd) c' m) →
  let nd' := with_log_commit (amerge (a_log nd) 0 (m_es m)) c' (follow (m_term m) nd) in
  (∃ t', view (store n') = Idle t' ∧ state_rel s t' nd' (lastApplied n')) →
  parcels ml = parcels (mail N) → receipts ml = frs ++ receipts (mail N) →
  (∀ fr s', fr ∈ frs → msgs s ⊆ msgs s' → (tainted s' = false → tainted s = false) →
     (i, m_term m, length (m_es m)) ∈ acks s' → receipt_rel s' fr) →
  simulates (with_world (set_proc i (Up n') (net_world N)) (with_mail ml N)) s.
Proof.
  intros Hs Hri Hat Hm HT Hp Hpt Hst Hl' Er Et Ec Hci Hnx Hcov nd' (t' & Hv' & Hd') Emp Emr Hfrs.
  pose proof Hat as [A1 A2 A3 A4 A5 A6 A7 A8 A9 A10 A11 A12].
  set (s' := taint (negb (bool_decide (covered (a_commit nd) c' m)))
    (add_ack (i, m_term m, m_prev m + length (m_es m))%nat
      (set_mem i (with_log_commit (amerge (a_log nd) (m_prev m) (m_es m)) c' (follow (m_term m) nd)) s))).
  assert (tainted s' = tainted s) as Htn.
  { cbn. destruct (tainted s) eqn:Ht; [done|]. rewrite bool_decide_true; [done|by apply Hcov]. }
  assert (bounded (a_log nd')) as Hb.
  { cbn. destruct (snapshot_merge mems s i nd m Hri A1 Hm Hp) as (_ & _ & [->|[-> _]]); [done|].
    destruct (snapshot_lead mems s m Hri Hm Hp) as (g & Hg & _ & Hlg).
    pose proof (sim_lead _ _ Hs _ _ Hg). unfold bounded in *. lia. }
  exists s'. split.
  { apply rtc_once. apply a_accept; try done; rewrite Hp; [lia|by rewrite Hpt]. }
  eapply (sim_move N s _ s' i (Up n') nd' Hs).
  - split; try done; [cbn; by rewrite Hp|intros x Hx; by right|by rewrite Htn].
  - done.
  - assert (up_rel s' n' (with_log_commit (amerge (a_log nd) 0 (m_es m)) c' (follow (l_term l') nd))) as U;
      [|by rewrite Et in U].
    eapply up_rewritten; try done. rewrite Et. fold nd'. exists t'. split; [done|].
    eapply state_rel_taint; [|exact Hd']. by rewrite Htn.
  - by left.
  - by left.
  - by left.
  - by left.
  - intros f Hf. left. by rewrite <- Emp.
  - cbn. rewrite Emr. intros fr [Hf|Hf]%elem_of_app; [right|by left].
    apply (Hfrs fr s' Hf); [done|by rewrite Htn|]. cbn. rewrite Hp. by left.
  - by left.
  - done.
  - rewrite Htn. apply Hs.
Qed.

(** The tables of a member that has taken a snapshot. *)
Lemma installed_state s t t0 nd nd' b a req values k es :
  disk_rel t nd b a → same_log t t0 → ok_install req →
  InstallSnapshotRequest_LastIncludedIndex req = Z.of_nat k → 0 < Z.of_nat k < two63 - 1 → (b < k)%nat →
  InstallSnapshotRequest_LastIncludedTerm req = lterm (a_log nd') k → words (a_log nd') →
  take k (a_log nd') = es → (k <= length (a_log nd'))%nat →
  a_log nd' = a_log nd ∨ a_log nd' = es ∧ (length (a_log nd) <= k)%nat →
  decode_snapshot (InstallSnapshotRequest_Data req) = Ok values →
  (tainted s = false → outcome es = Some values ∧ (k <= a_commit nd')%nat) →
  state_rel s (put_snapshot (snapshot_of req) (set_kv (λ _, kv_of_snapshot (Z.of_nat k) values) t0)) nd' (Z.of_nat k).
Proof.
  intros Hd Hsame [_ Hoi Hot] Ei Hk Hbk Et Hw Htake Hlen Hcase Hdec Hap.
  assert (is_u64 (Z.of_nat k)) as Hku by (unfold is_u64, two64, two63 in *; lia).
  assert (int64 (Z.of_nat k) = Z.of_nat k) as Eik by (apply int64_id; unfold is_idx; lia).
  set (t' := put_snapshot _ _). exists k.
  assert (spec_LoadSnapshot t' = snapshot_of req) as Est.
  { unfold spec_LoadSnapshot, t', put_snapshot. cbn. rewrite Ei, !uint64_int64_id by done. by rewrite <- Ei. }
  split.
  - split; try done; [| | |lia|].
    + intros i. unfold t'. cbn. rewrite Ei, Eik, (sl_log _ _ Hsame).
      destruct (decide (Z.of_nat k < i)) as [Hi|Hi].
      * assert (log_entries t !! i = row <$> a_log nd' !! Z.to_nat (i - 1)) as <-.
        { rewrite (dr_log _ _ _ _ Hd), decide_True by lia. destruct Hcase as [->|[-> Hle]]; [done|].
          rewrite (lookup_ge_None_2 (a_log nd)), (lookup_ge_None_2 es); [done| |lia].
          rewrite <- Htake, length_take. lia. }
        destruct (log_entries t !! i) eqn:E.
        -- by apply map_lookup_filter_Some.
        -- apply map_lookup_filter_None. by left.
      * apply map_lookup_filter_None. right. intros r _. cbn. lia.
    + unfold t'. rewrite spec_SnapshotIndexTerm_put; cbn; [by rewrite Ei, Et|by rewrite Ei|done].
    + unfold t'. rewrite spec_last_applied_put; cbn; [by rewrite Ei|by rewrite Ei].
    + intros _. rewrite Est. cbn. by rewrite Ei, Et.
  - intros Ht. destruct (Hap Ht) as [Hout Hc]. split; [lia| |].
    + rewrite Nat2Z.id, Htake, Hout. f_equal. symmetry. by apply (kv_values_of_snapshot (Z.of_nat k)).
    + intros _. exists values. rewrite Est. split; [done|]. by rewrite Htake.
Qed.

(** What the state of a member says of a snapshot that is not misplaced. *)
Lemma fitting N s i n nd l t b req k :
  at_node N s i n nd l → view (store n) = Idle t → disk_rel t nd b (lastApplied n) →
  InstallSnapshotRequest_LastIncludedIndex req = Z.of_nat k → Z.of_nat k < two63 - 1 →
  installs n (Z.of_nat b) req → misplaced n req = false →
  lastApplied n <= Z.of_nat k
  ∧ ((length (a_log nd) <= k)%nat ∨ lterm (a_log nd) k = InstallSnapshotRequest_LastIncludedTerm req).
Proof.
  intros Hat Hv Hd Ei Hk [Hcur Hbk] Hmis. pose proof Hd as [D1 D2 D3 D4 D5 D6 D7].
  pose proof (an_bound _ _ _ _ _ _ _ Hat) as Hb. unfold bounded in Hb.
  assert (Z.of_nat (length (a_log nd)) < two63) as Hlt by lia.
  pose proof (is_log_shape b t (a_log nd) D3 D1 D4 Hlt) as Hsh.
  pose proof (is_log_last b t (a_log nd) D3 D1 D2 D4 Hlt) as Hlast.
  unfold misplaced, snap_index, last_index in Hmis. rewrite file_law, Hv in Hmis. cbn [durable] in Hmis.
  rewrite D3, Hlast in Hmis. cbn in Hmis. rewrite Ei in *.
  rewrite (proj2 (Z.leb_le _ _) Hcur), (proj2 (Z.ltb_lt _ _) Hbk) in Hmis. cbn in Hmis.
  apply orb_false_iff in Hmis as [H1%Z.ltb_ge H2]. split; [done|].
  apply andb_false_iff in H2 as [H2%Z.ltb_ge|H2]; [left; lia|].
  destruct (decide (length (a_log nd) <= k)%nat) as [?|Hgt]; [by left|right].
  apply negb_false_iff, bool_decide_eq_true in H2.
  rewrite (spec_Term_shape _ _ _ _ Hsh) in H2 by (unfold is_u64, two64, two63 in *; lia).
  rewrite (is_log_term b t (a_log nd)) in H2 by (done || lia). by injection H2.
Qed.

Lemma ok_install_wf req : ok_install req → wf_InstallSnapshotRequest (Some req).
Proof. intros [H1 H2 H3]. split_and!; [done| |done]. by apply is_idx_u64. Qed.

(** The answer to a snapshot whose entries are known to be acknowledged. *)
Lemma receipt_known s s' f resp (i : string) m k :
  parcel_rel s f → pc_to f = i → m_term m = InstallSnapshotRequest_Term (pc_req f) →
  InstallSnapshotRequest_LastIncludedIndex (pc_req f) = Z.of_nat k →
  is_u64 (InstallSnapshotResponse_Term resp) →
  InstallSnapshotRequest_Term (pc_req f) <= InstallSnapshotResponse_Term resp →
  msgs s ⊆ msgs s' → (tainted s' = false → tainted s = false) →
  (i, m_term m, k) ∈ acks s' → receipt_rel s' (f, resp).
Proof.
  intros Hf Hto HmT Ei Hu Hle Hms Ht Hack. split_and!; [by eapply parcel_rel_mono|done|done|].
  intros _ _. by rewrite Hto, Ei, Nat2Z.id, <- HmT.
Qed.

(** The entries of a snapshot under way. *)
Definition parcel_entries s (f : parcel) (m : amsg) (k : nat) : Prop :=
  InstallSnapshotRequest_LastIncludedIndex (pc_req f) = Z.of_nat k
  ∧ m ∈ msgs s ∧ m_term m = InstallSnapshotRequest_Term (pc_req f) ∧ m_prev m = 0%nat ∧ m_pterm m = 0
  ∧ length (m_es m) = k ∧ words (m_es m) ∧ lterm (m_es m) k = InstallSnapshotRequest_LastIncludedTerm (pc_req f)
  ∧ (tainted s = false → (k <= m_commit m)%nat
     ∧ ∃ v, decode_snapshot (InstallSnapshotRequest_Data (pc_req f)) = Ok v ∧ outcome (m_es m) = Some v).

Lemma parcel_rel_entries s f : parcel_rel s f → ∃ m k, parcel_entries s f m k ∧ 0 < Z.of_nat k < two63 - 1.
Proof.
  intros (_ & Hk & _ & m & Hm). exists m, (Z.to_nat (InstallSnapshotRequest_LastIncludedIndex (pc_req f))).
  split; [|lia]. split; [lia|]. tauto.
Qed.

(** The member takes the snapshot. *)
Lemma sim_installed N s i n nd l n' l' f resp ml t t0 b m k values :
  sim N s → inv s → at_node N s i n nd l → parcel_rel s f → parcel_entries s f m k → 0 < Z.of_nat k < two63 - 1 →
  view (store n) = Idle t → disk_rel t nd b (lastApplied n) → same_log t t0 →
  installs n (Z.of_nat b) (pc_req f) → misplaced n (pc_req f) = false →
  decode_snapshot (InstallSnapshotRequest_Data (pc_req f)) = Ok values →
  view (store n') = Idle (put_snapshot (snapshot_of (pc_req f)) (set_kv (λ _, kv_of_snapshot (Z.of_nat k) values) t0)) →
  commitIndex n' = Z.max (commitIndex n) (Z.of_nat k) → lastApplied n' = Z.max (lastApplied n) (Z.of_nat k) →
  lsteps l l' → has_ledger n' l' → a_term nd <= m_term m → l_role l' = RoleFollower → l_term l' = m_term m →
  next_words n n' → parcels ml = parcels (mail N) → receipts ml = [(f, resp)] ++ receipts (mail N) →
  (∀ s', msgs s ⊆ msgs s' → (tainted s' = false → tainted s = false) → (i, m_term m, k) ∈ acks s' →
     receipt_rel s' (f, resp)) →
  simulates (with_world (set_proc i (Up n') (net_world N)) (with_mail ml N)) s.
Proof.
  intros Hs Hri Hat Hf (Ei & Hm & HmT & Hmp & Hmpt & Hmk & Hmw & Hmt & Hmv) Hk Hv Hd Hsame Hyes Hmis Hdec Hv' Ec Ea
    Hst Hl' HT Er Et Hnx Emp Emr Hrec.
  pose proof (an_mem _ _ _ _ _ _ _ Hat) as A1. pose proof (an_rel _ _ _ _ _ _ _ Hat) as A2.
  destruct (fitting N s i n nd l t b _ k Hat Hv Hd Ei (proj2 Hk) Hyes Hmis) as [Hak Hfit].
  pose proof (ur_commit _ _ _ A2) as Ecm. pose proof (ur_index _ _ _ A2).
  destruct (snapshot_merge mems s i nd m Hri A1 Hm Hmp) as (Htake & Hkl & _).
  rewrite <- Hmt, <- Hmk in Hfit. pose proof (snapshot_fits mems s i nd m Hri A1 Hm Hmp Hfit) as Hcase.
  rewrite Hmk in Htake, Hkl, Hcase.
  apply (sim_has_snapshot N s i n nd l n' l' m (Nat.max (a_commit nd) k) [(f, resp)]); try done; [lia|lia| | |].
  - intros Ht. destruct (Hmv Ht) as [Hkc _]. unfold covered. lia.
  - rewrite Ea, Z.max_r by lia. eexists. split; [exact Hv'|]. destruct Hyes as [_ Hbk].
    apply (installed_state s t t0 nd _ b (lastApplied n) (pc_req f) values k (m_es m)); try done; [apply Hf|lia| | |].
    + rewrite <- Hmt. apply lterm_take. cbn. by rewrite Htake, <- Hmk, firstn_all.
    + apply words_amerge; [apply Hd|done].
    + intros Ht. destruct (Hmv Ht) as (_ & v & Hdv & Hout). rewrite Hdec in Hdv. injection Hdv as <-. split; [done|cbn; lia].
  - intros fr s' ->%list_elem_of_singleton. rewrite Hmk. apply Hrec.
Qed.

(** The member has the entries of the snapshot already. *)
Lemma sim_ignored N s i n nd l n' l' f resp ml t t0 b m k :
  sim N s → inv s → at_node N s i n nd l → parcel_entries s f m k → tainted s = false →
  disk_rel t nd b (lastApplied n) → applied_rel t nd b (lastApplied n) → same_log t t0 → (k <= b)%nat →
  view (store n') = Idle t0 → commitIndex n' = commitIndex n → lastApplied n' = lastApplied n →
  lsteps l l' → has_ledger n' l' → a_term nd <= m_term m → l_role l' = RoleFollower → l_term l' = m_term m →
  next_words n n' → parcels ml = parcels (mail N) → receipts ml = [(f, resp)] ++ receipts (mail N) →
  (∀ s', msgs s ⊆ msgs s' → (tainted s' = false → tainted s = false) → (i, m_term m, k) ∈ acks s' →
     receipt_rel s' (f, resp)) →
  simulates (with_world (set_proc i (Up n') (net_world N)) (with_mail ml N)) s.
Proof.
  intros Hs Hri Hat (Ei & Hm & HmT & Hmp & Hmpt & Hmk & _) Ht Hd Hap Hsame Hkb Hv' Ec Ea Hst Hl' HT Er Et Hnx Emp Emr Hrec.
  pose proof (an_mem _ _ _ _ _ _ _ Hat) as A1. pose proof (an_rel _ _ _ _ _ _ _ Hat) as A2.
  assert (k <= a_commit nd)%nat as Hkc by (pose proof (applied_base _ _ _ _ Hd Hap); lia).
  apply (sim_has_snapshot N s i n nd l n' l' m (a_commit nd) [(f, resp)]); try done.
  - rewrite Ec. apply A2.
  - rewrite Ec. apply A2.
  - by left.
  - rewrite (snapshot_known mems s i nd m) by (done || lia). exists t0. split; [done|].
    rewrite Ea. apply (state_rel_same s s t t0 nd); [done|exact Hsame|done|done|]. exists b. by auto.
  - intros fr s' ->%list_elem_of_singleton. rewrite Hmk. apply Hrec.
Qed.

Lemma sim_install N s i n f r n' :
  sim N s → inv s → invariant C (net_world N) →
  procs (net_world N) !! i = Some (Up n) → f ∈ parcels (mail N) → pc_to f = i →
  InstallSnapshot (Some (pc_req f)) n = (r, n') → is_ok r && misplaced n (pc_req f) = false →
  simulates (with_world (set_proc i (Up n') (net_world N))
    (with_mail (signed f r (misplaced n (pc_req f)) (mail N)) N)) s.
Proof.
  intros Hs Hri Hi Hp Hin Hto E Hmis. destruct (up_node C N s i n Hs Hi Hp) as (nd & l & Hat).
  pose proof (sim_parcel _ _ Hs f Hin) as Hf. pose proof Hf as (Hok & _).
  destruct (parcel_rel_entries s f Hf) as (m & k & He & Hk).
  pose proof He as (Ei & Hm & HmT & Hmp & Hmpt & Hmk & _). set (req := pc_req f) in *.
  destruct (node_shape _ _ _ _ _ _ _ Hat) as (t & b & Hv & Hd & Hsh & Hap).
  pose proof Hat as [A1 A2 A3 A4 A5 A6 A7 A8 A9 A10 A11 A12].
  pose proof (wp_InstallSnapshot n t _ _ _ req Hv Hsh Hok) as Hpost. unfold wp in Hpost. rewrite E in Hpost.
  destruct (vote_InstallSnapshot (Some req) (ok_install_wf _ Hok) n) as [Hid Hl]. rewrite E in Hid, Hl.
  destruct (Hl l A3) as (l' & Hl' & Hst). pose proof (progress_InstallSnapshot (Some req) n) as Hpr.
  rewrite E in Hpr. cbn [fst snd] in Hid, Hl', Hpr, Hpost.
  assert (next_words n n') as Hnx by (intros H; destruct Hpr as (_ & -> & _); exact H).
  destruct Hpost as (t0 & Hta & _ & Hpost). pose proof (adopted_same _ _ _ _ Hta) as Hsame.
  assert (view (store n') = Idle t0 → commitIndex n' = commitIndex n → lastApplied n' = lastApplied n →
    (∀ resp, r = Ok resp → receipt_rel s (f, resp)) →
    simulates (with_world (set_proc i (Up n') (net_world N))
      (with_mail (signed f r (misplaced n req) (mail N)) N)) s) as Hfollow.
  { intros H1 H2 H3 H4. apply (sim_follow C N s i n nd l n' l'); try done.
    - split_and!; [done|done|]. intros t1 Hv1. assert (t1 = t) as -> by congruence. by exists t0.
    - intros _. by destruct Hpr.
    - by left.
    - cbn. destruct r as [resp|e]; [|by left]. intros fr [Hx|Hx]%elem_of_app; [right|by left].
      apply list_elem_of_singleton in Hx as ->. by apply H4. }
  destruct r as [resp|e]; [|by destruct Hpost as (_ & ? & ? & ?); apply Hfollow].
  destruct Hpost as (Hrt & Hfol & Hcase). pose proof (ledger_u64 n l A3) as Hcu.
  pose proof (oi_term _ Hok) as HTu. fold req in HTu.
  assert (is_u64 (InstallSnapshotResponse_Term resp)) as Hru by (rewrite Hrt; unfold is_u64 in *; lia).
  assert (InstallSnapshotRequest_Term req <= InstallSnapshotResponse_Term resp) as Hrle by (rewrite Hrt; lia).
  assert (currentTerm n <= InstallSnapshotRequest_Term req →
    a_term nd <= m_term m ∧ l_role l' = RoleFollower ∧ l_term l' = m_term m) as Hcur.
  { intros Hle. destruct (Hfol Hle) as [Er Et].
    rewrite <- (ledger_role _ _ Hl'), <- (ledger_term _ _ Hl'), Er, Et, HmT, <- A5, <- (ledger_term _ _ A3). done. }
  assert (∀ s', msgs s ⊆ msgs s' → (tainted s' = false → tainted s = false) →
    (i, m_term m, k) ∈ acks s' → receipt_rel s' (f, resp)) as Hrec
    by (intros s' H1 H2 H3; by eapply (receipt_known s s' f resp i m k)).
  assert (InstallSnapshotResponse_Term resp ≠ InstallSnapshotRequest_Term req ∨ tainted s = true →
    receipt_rel s (f, resp)) as Hvac.
  { intros Hor. split; [done|]. split; [done|]. split; [done|]. intros E1 Ht. destruct Hor as [Hne|Hx]; [by destruct Hne|congruence]. }
  destruct Hcase as [(Hno & Hv' & Ec & Ea)|(values & Hyes & Hdec & Hv' & Ec & Ea)].
  - destruct (decide (currentTerm n <= InstallSnapshotRequest_Term req)) as [Hle|Hgt].
    2: { apply Hfollow; try done. intros ? [= <-]. apply Hvac. left. lia. }
    destruct (tainted s) eqn:Ht.
    { apply Hfollow; try done. intros ? [= <-]. apply Hvac. by right. }
    assert (k <= b)%nat as Hkb by (destruct (decide (k <= b)%nat); [done|destruct Hno; split; [done|lia]]).
    destruct (Hcur Hle) as (HT & Er & Et).
    by eapply (sim_ignored N s i n nd l n' l' f resp _ t t0 b m k); auto.
  - pose proof Hyes as [Hle _]. destruct (Hcur Hle) as (HT & Er & Et). cbn in Hmis. rewrite Ei in Hv', Ec, Ea.
    by eapply (sim_installed N s i n nd l n' l' f resp _ t t0 b m k values).
Qed.

(** ** Hearing of it *)

Lemma snapshot_reply_calm n peer snap resp :
  currentTerm n < InstallSnapshotResponse_Term resp →
  wp (replicatePeer_snapshot_reply peer snap (Some resp))
    (λ _ n', keeps_log n n' ∧ matchIndex n' = matchIndex n) n.
Proof.
  intros Hlt. unfold replicatePeer_snapshot_reply. wp_pure. cbn [InstallSnapshotResponse_GetTerm].
  rewrite (proj2 (Z.ltb_lt _ _) Hlt). wp_pure. eapply (wp_mono _ (λ _ n1, keeps_log n n1 ∧ same_progress n n1)).
  - split; [apply keeps_stepDown|apply progress_stepDown].
  - intros _ n1 [Hk (E & _)]. wp_pure. by split.
Qed.

(** A leader of a later term has the entries of the snapshot, and none of its own term
    are among them. *)
Lemma match_older s i nd f k x :
  inv s → mem s !! i = Some nd → a_role nd = RoleLeader → parcel_rel s f →
  InstallSnapshotRequest_LastIncludedIndex (pc_req f) = Z.of_nat k →
  InstallSnapshotRequest_Term (pc_req f) < a_term nd → match_rel s nd (Z.of_nat k) x.
Proof.
  intros Hri Hnd Har (_ & Hk & _ & m & Hm & HmT & _ & _ & _ & _ & _ & Hmv) Ei Hlt.
  split; [lia|]. intros Ht. destruct (Hmv Ht) as [Hkc _]. rewrite Ei, Nat2Z.id in Hkc.
  destruct (no_lead _ _ _ _ (ri_node _ s Hri i nd Hnd) Har) as [Hg _].
  destruct (ri_msg _ s Hri m Hm) as (g & Hgm & _).
  assert (m_term m <= a_term nd) as HTle by lia.
  destruct (commits_lead mems s _ _ _ _ _ Hri (ri_msg_commit _ s Hri m g Hm Ht Hgm) HTle Hg) as [Hpre Hlen].
  pose proof (prefix_length _ _ Hpre). rewrite Hlen in *. split; [lia|]. intros c Hc Hck Hct. exfalso.
  destruct c as [|c]; [lia|]. destruct (lookup_lt_is_Some_2 (a_log nd) c) as [e He]; [lia|].
  rewrite (lterm_lookup _ _ _ He) in Hct.
  assert (e ∈ g) as Hin.
  { eapply elem_of_prefix; [|apply (prefix_take g (m_commit m))]. eapply (list_elem_of_lookup_2 _ c).
    rewrite (prefix_lookup_eq _ _ c Hpre) by lia. done. }
  pose proof (ri_lead _ s Hri _ _ Hgm) as (_ & _ & Hle). specialize (Hle e Hin). lia.
Qed.

(** A member that does not lead: its commit index stays, or means nothing any more. *)
Lemma sim_unled N s i n nd l n' l' t b ml :
  sim N s → at_node N s i n nd l → role n ≠ RoleLeader → role n' = role n → currentTerm n' = currentTerm n →
  disk_rel t nd b (lastApplied n) → (tainted s = false → applied_rel t nd b (lastApplied n)) →
  advance_post (set_matchIndex (matchIndex n') n) t (Z.of_nat b) (lterm (a_log nd) b)
    (Z.of_nat (length (a_log nd))) n' → (tainted s = false → commitIndex n' = commitIndex n) →
  lsteps l l' → has_ledger n' l' → next_words n n' →
  parcels ml = parcels (mail N) → receipts ml = receipts (mail N) →
  simulates (with_world (set_proc i (Up n') (net_world N)) (with_mail ml N)) s.
Proof.
  intros Hs Hat Hr Er Et Hd Hap (c & t' & base' & bterm' & Hc & _ & Hfo) Ec Hst Hl' Hnx Emp Emr.
  pose proof Hat as [A1 A2 A3 A4 A5 A6 A7 A8 A9 A10 A11 A12].
  set (n0 := set_matchIndex (matchIndex n') n) in *.
  destruct (sim_advanced C i s nd n0 t b c n' t' base' bterm') as (s2 & c' & H1 & H2 & H3 & H4 & H5 & H6 & H7);
    try done.
  { apply A2. } { apply A2. }
  { destruct (tainted s) eqn:Hts.
    - destruct Hc as [?|[? _]]; [by left|right]. by split.
    - left. rewrite <- (fo_commit _ _ _ _ _ _ _ _ _ _ Hfo). by apply Ec. }
  set (nd2 := with_log_commit _ c' nd) in *.
  exists s2. split; [done|]. apply (sim_alone N s s2 i nd2); try done.
  - rewrite H3. by left.
  - eapply (up_staying C N s i n nd l s2 n' l' nd2); try done.
    + by rewrite <- (ledger_role _ _ Hl'), <- (ledger_role _ _ A3).
    + by rewrite <- (ledger_term _ _ Hl'), <- (ledger_term _ _ A3).
    + rewrite Er. by intros ?.
Qed.

(** The match indexes after the answer to a snapshot. *)
Lemma sim_snapshot_matched s i n nd f resp k mi :
  inv s → mem s !! i = Some nd → up_rel s n nd → a_role nd = RoleLeader → role n = RoleLeader → bounded (a_log nd) →
  currentTerm n = a_term nd → receipt_rel s (f, resp) → pc_to f ∈ Peer_ID <$> peers n →
  InstallSnapshotRequest_LastIncludedIndex (pc_req f) = Z.of_nat k →
  InstallSnapshotResponse_Term resp <= currentTerm n → mi = <[pc_to f := Z.of_nat k]> (matchIndex n) →
  ∃ mtc s1, asteps s s1 ∧ spread i (with_match mtc nd) s s1 ∧ lead s1 = lead s ∧ tainted s1 = tainted s
    ∧ ∀ p, p ∈ Peer_ID <$> peers n →
        match_rel s1 (with_match mtc nd) (map_get mi p) (default 0%nat (mtc !! p)).
Proof.
  intros Hri Hnd U Har Hr Hb Et (Hf & _ & Hle & Hack) Hpeer Ei Hcur ->.
  pose proof Hf as (_ & Hk & _). pose proof (ur_match _ _ _ U Hr) as Hup.
  assert (∀ p, p ≠ pc_to f → map_get (<[pc_to f := Z.of_nat k]> (matchIndex n)) p = map_get (matchIndex n) p) as Hoth
    by (intros p Hne; by rewrite map_get_insert_ne).
  destruct (decide (tainted s = false ∧ InstallSnapshotRequest_Term (pc_req f) = a_term nd)) as [[Ht ET]|Hno].
  - assert ((pc_to f, a_term nd, k) ∈ acks s) as Hk'.
    { rewrite <- ET. rewrite Ei, Nat2Z.id in Hack. apply Hack; [lia|done]. }
    destruct (sim_raised C s i nd (pc_to f) k n (<[pc_to f := Z.of_nat k]> (matchIndex n)))
      as (Hstep & Hsp & Hm); try done.
    { rewrite map_get_insert_eq. lia. }
    eexists _, _. split; [by apply rtc_once|]. split_and!; [exact Hsp|done|done|exact Hm].
  - assert (match_rel s nd (Z.of_nat k) (default 0%nat (a_match nd !! pc_to f))) as Hnew.
    { destruct (tainted s) eqn:Ht.
      - split; [lia|]. by rewrite Ht.
      - apply (match_older s i nd f); try done.
        destruct (decide (InstallSnapshotRequest_Term (pc_req f) = a_term nd)); [tauto|lia]. }
    exists (a_match nd), s. assert (with_match (a_match nd) nd = nd) as -> by (by destruct nd).
    split_and!; [done|by apply spread_refl|done|done|]. intros p Hp.
    destruct (decide (p = pc_to f)) as [->|Hne]; [by rewrite map_get_insert_eq|]. rewrite Hoth by done. by apply Hup.
Qed.

Lemma sim_receipt_calm N s i n f resp r n' :
  sim N s → inv s → invariant C (net_world N) →
  procs (net_world N) !! i = Some (Up n) → (f, resp) ∈ receipts (mail N) → pc_to f ∈ Peer_ID <$> peers n →
  replicatePeer_snapshot_reply (pc_to f) (pc_snap f) (Some resp) n = (r, n') →
  (tainted s = false → usurps n n' = false) →
  simulates (with_world (set_proc i (Up n') (net_world N)) N) s.
Proof.
  intros Hs Hri Hi Hp Hin Hpeer E Hus.
  change (with_world (set_proc i (Up n') (net_world N)) N)
    with (with_world (set_proc i (Up n') (net_world N)) (with_mail (mail N) N)). destruct (up_node C N s i n Hs Hi Hp) as (nd & l & Hat).
  pose proof (sim_receipt _ _ Hs _ Hin) as Hrec. pose proof Hrec as (Hf & Hru & _).
  pose proof Hf as (_ & Hk & Esn & _).
  destruct (node_shape _ _ _ _ _ _ _ Hat) as (t & b & Hv & Hd & Hsh & Hap).
  destruct (node_words C N s i n nd l Hat) as (_ & Huc & Huc1 & Hua).
  pose proof Hat as [A1 A2 A3 A4 A5 A6 A7 A8 A9 A10 A11 A12].
  destruct (vote_snapshot_reply (pc_to f) (pc_snap f) (Some resp) Hru n) as [Hid Hl]. rewrite E in Hid, Hl.
  destruct (Hl l A3) as (l' & Hl' & Hst).
  pose proof (next_words_snapshot_reply (pc_to f) (pc_snap f) (Some resp) n) as Hnx. rewrite E in Hnx.
  pose proof (wp_snapshot_reply n t _ _ _ (pc_to f) (pc_snap f) resp Hv Hsh Hua Huc Huc1 Hru) as Hpost.
  unfold wp in Hpost. rewrite E in Hpost. specialize (Hpost ltac:(unfold is_idx; lia)).
  pose proof (snapshot_reply_calm n (pc_to f) (pc_snap f) resp) as Hcalm. unfold wp in Hcalm. rewrite E in Hcalm.
  cbn [fst snd] in Hid, Hl', Hnx, Hpost, Hcalm. unfold receipt_post in Hpost.
  destruct (Z.ltb_spec (currentTerm n) (InstallSnapshotResponse_Term resp)) as [Hlt|Hge].
  - destruct (Hcalm Hlt) as [Hkeep Hm]. apply (sim_follow C N s i n nd l n' l'); try done; by left.
  - destruct Hpost as (_ & Er & Et & Hm & _ & Hadv).
    destruct (decide (role n = RoleLeader)) as [Hr|Hr].
    + assert (a_role nd = RoleLeader) as Har by (by rewrite <- A4, <- (ledger_role _ _ A3)).
      destruct (sim_snapshot_matched s i n nd f resp (Z.to_nat (LastIncludedIndex (pc_snap f))) (matchIndex n'))
        as (mtc & s1 & Hrun & Hsp & El & Ht & Hmatch); try done.
      { by rewrite (ledger_term _ _ A3). } { lia. } { rewrite Hm. f_equal. lia. }
      eapply (sim_led C HC N s i n nd l n' l' t b s1 mtc); try done. by rewrite Er.
    + apply (sim_unled N s i n nd l n' l' t b); try done. intros Hts. specialize (Hus Hts).
      unfold usurps in Hus. rewrite bool_decide_false in Hus by done. cbn in Hus.
      by apply negb_false_iff, Z.eqb_eq in Hus.
Qed.
(** From here on commit indexes mean nothing. *)
Lemma sim_overrun N s :
  sim N s → sim (Net (net_world N) (sent N) (acked N) true (mail N)) (taint true s).
Proof.
  intros [S1 S2 S3 S4 S5 S6 S7 S8 S9 S10].
  assert (tainted (taint true s) = false → tainted s = false) as Ht by (cbn; by rewrite orb_true_r).
  split; try done.
  - intros i p Hp. destruct (S1 i p Hp) as (nd & Hnd & Hr). exists nd. split; [done|].
    by apply (proc_rel_taint s).
  - cbn. by rewrite orb_true_r.
  - intros f Hf. by apply (parcel_rel_mono s), S9.
  - intros fr Hf. by apply (receipt_rel_mono s), S10.
Qed.

Lemma sim_receipt_step N s i n f resp r n' :
  sim N s → inv s → invariant C (net_world N) →
  procs (net_world N) !! i = Some (Up n) → (f, resp) ∈ receipts (mail N) → pc_to f ∈ Peer_ID <$> peers n →
  replicatePeer_snapshot_reply (pc_to f) (pc_snap f) (Some resp) n = (r, n') →
  simulates (heard i n n' N) s.
Proof.
  intros Hs Hri Hi Hp Hin Hpeer E. unfold heard. destruct (usurps n n') eqn:Hus.
  - destruct (up_node C N s i n Hs Hi Hp) as (nd & l & [A1 A2 A3 A4 A5 A6 A7 A8 A9 A10 A11 A12]).
    assert (a_role nd ≠ RoleLeader) as Hr.
    { unfold usurps in Hus. apply andb_prop in Hus as [Hus%negb_true_iff%bool_decide_eq_false _].
      by rewrite <- A4, <- (ledger_role _ _ A3). }
    pose proof (a_usurp mems s i nd A1 Hr) as Hstep.
    rewrite orb_true_r. eapply simulates_more; [by apply rtc_once|].
    apply (sim_receipt_calm (Net (net_world N) (sent N) (acked N) true (mail N)) (taint true s) i n f resp r n');
      try done; [by apply sim_overrun|by eapply step_inv|cbn; by rewrite orb_true_r].
  - rewrite orb_false_r. by apply (sim_receipt_calm N s i n f resp r n').
Qed.
End snapshots.
