(* ===== verification/Refinement.v ===== *)
(** * The cluster refines Raft: the theorems

    Every step of the cluster of [Net] is matched by steps of the abstract protocol of
    [RaftSpec], so the invariant of [RaftSafety] holds of the rows, terms and commit
    indexes of the members. *)

From Stdlib Require Import Ascii String.
From stdpp Require Import strings relations.
From S2P Require Import Prelude GoStd Json Wire Logging Metrics Sql Storage StoreSpec LogSpec LogStore.
From S2P Require Import Config Types Node Rpc NodeFrame Apply Follower Leader VoteLedger NodeVote Voting.
From S2P Require Import Snapshots Cluster ClusterSafety Instances Elections Replication Clients LogFrame Net VoteLog.
From S2P Require Import RaftLogs LogRel RaftSpec RaftSafety Simulation SimElections SimReplication SimCommit SimSnapshots.
#[local] Open Scope Z_scope.

Section refinement.
Context `{D : !SqlDriver} `{L : !SqlLaws D} `{R : !GoRuntime}.
Context (C : cluster) (HC : well_configured C).
Implicit Types (n : Node) (nd : anode) (s : astate) (N : net).

Abbreviation mems := (members C).
Abbreviation inv := (raft_inv mems).
Abbreviation asteps := (rtc (astep mems)).

(** ** Every step *)

(** A step with its messages is a step of the members. *)
Lemma nstep_step N s N' :
  sim N s → nstep C N N' → step C (net_world N) (net_world N').
Proof.
  intros Hs Hst. destruct Hst as [i n o Hp Ho _|i n peer a n' Hp _ E|i n f r n' Hp Hin _ E|i n f resp Hp Hin _ _
    |i n f r n' Hp Hin _ E|i n f resp r n' Hp Hin _ _ E|i n r n' Hp Hb E|i n req r n' Hp Hin E|rs1 rs2 i e ty ps b n peer resp ty' n' Hr Hps Hin Hp E
    |rs1 rs2 i e ty ps b peer Hr|rs1 rs2 i e ty ps n Hr Hp|i n Hp|i file mkdir path env r file' Hp E]; cbn.
  - apply step_local; [done|by destruct o].
  - replace n' with (run_local (OpReplicate peer) n) by (cbn; by rewrite E). by apply step_local.
  - replace n' with (run_local (OpAppendEntries (Some (fl_req f))) n) by (cbn; by rewrite E).
    apply step_local; [done|]. apply (sim_sent _ _ Hs f Hin).
  - apply (step_local C (net_world N) i n (OpAppendReply (fl_to f) (fl_term f) (fl_lastSent f) (Some resp)));
      [done|]. cbn. apply (sim_acked _ _ Hs _ Hin).
  - replace n' with (run_local (OpInstallSnapshot (Some (pc_req f))) n) by (cbn; by rewrite E).
    apply step_local; [done|]. apply ok_install_wf, (sim_parcel _ _ Hs f Hin).
  - replace n' with (run_local (OpSnapshotReply (pc_to f) (pc_snap f) (Some resp)) n) by (cbn; by rewrite E).
    apply step_local; [done|]. cbn. apply (sim_receipt _ _ Hs _ Hin).
  - by apply (step_elect C _ i n).
  - by apply (step_request C _ i n).
  - by apply (step_reply C _ rs1 rs2 i e ty ps b n peer resp).
  - by eapply step_rpc_error.
  - by apply (step_single C _ rs1 rs2).
  - by apply step_crash.
  - by apply (step_restart C _ i file mkdir path env).
Qed.

(** What has happened is never forgotten. *)
Lemma nstep_astray N N' : nstep C N N' → astray (mail N') = false → astray (mail N) = false.
Proof. destruct 1; cbn; try done; by intros [? _]%orb_false_iff. Qed.

Lemma nsteps_astray N N' : rtc (nstep C) N N' → astray (mail N') = false → astray (mail N) = false.
Proof. induction 1; eauto using nstep_astray. Qed.

Lemma nstep_overrun N N' : nstep C N N' → overrun N' = false → overrun N = false.
Proof. destruct 1; cbn; try done; by intros [? _]%orb_false_iff. Qed.

Lemma nsteps_overrun N N' : rtc (nstep C) N N' → overrun N' = false → overrun N = false.
Proof. induction 1; eauto using nstep_overrun. Qed.

Lemma nstep_simulates N s N' :
  sim N s → inv s → invariant C (net_world N) → nstep C N N' → astray (mail N') = false → simulates C N' s.
Proof.
  intros Hs Hri Hi Hst Has.
  destruct Hst as [i n o Hp Ho Hroom|i n peer a n' Hp Hpeer E|i n f r n' Hp Hin Hto E|i n f resp Hp Hin _ Hpeer
    |i n f r n' Hp Hin Hto E|i n f resp r n' Hp Hin _ Hpeer E|i n r n' Hp Hb E|i n req r n' Hp Hin E|rs1 rs2 i e ty ps b n peer resp ty' n' Hr Hps Hin Hp E
    |rs1 rs2 i e ty ps b peer Hr|rs1 rs2 i e ty ps n Hr Hp|i n Hp|i file mkdir path env r file' Hp E].
  - destruct o as [| |req| | | | | | | | |]; try (destruct (up_node C N s i n Hs Hi Hp) as (nd & l & Hat);
      by apply (sim_client C N s i n nd l)). by apply sim_write.
  - by apply (sim_send C N s i n peer a n').
  - by apply sim_deliver.
  - by apply sim_answer.
  - apply sim_install; try done. cbn in Has. by apply orb_false_iff in Has as [_ ?].
  - by apply (sim_receipt_step C HC N s i n f resp r n').
  - by apply (sim_elect C N s i n).
  - by apply (sim_request_step C N s i n).
  - by eapply sim_reply.
  - by apply sim_runs.
  - by apply sim_single.
  - apply sim_crash; try done. cbn in Has. by apply orb_false_iff in Has as [_ ?].
  - by eapply sim_restart.
Qed.

Lemma nsteps_simulate N s N' :
  sim N s → inv s → invariant C (net_world N) → rtc (nstep C) N N' → astray (mail N') = false →
  invariant C (net_world N') ∧ simulates C N' s.
Proof.
  intros Hs Hri Hi Hr Has. revert s Hs Hri Hi. induction Hr as [N|N N1 N2 Hst Hr IH]; intros s Hs Hri Hi.
  { split; [done|]. by exists s. }
  pose proof (nsteps_astray _ _ Hr Has) as Has1.
  destruct (nstep_simulates N s N1 Hs Hri Hi Hst Has1) as (s1 & Hr1 & Hs1).
  destruct (IH Has s1 Hs1) as [Hi2 (s2 & Hr2 & Hs2)].
  - by eapply run_inv.
  - exact (step_invariant C HC _ _ (nstep_step N s N1 Hs Hst) Hi).
  - split; [done|]. exists s2. split; [by etrans|done].
Qed.

(** ** The start *)

Definition newborn : anode := ANode RoleFollower 0 "" [] 0 ∅.

Definition birth N : astate := AState ((λ _, newborn) <$> procs (net_world N)) ∅ [] [] [] [] false.

Lemma birth_start N : astart (birth N).
Proof.
  split; try done. intros i nd Hnd. cbn in Hnd. rewrite lookup_fmap in Hnd.
  destruct (procs (net_world N) !! i); simplify_eq/=. done.
Qed.

Lemma birth_sim N : ninitial C N → sim N (birth N).
Proof.
  intros (Hp & Hr & Hq & Hrp & Hg & Hs & Ha & Ho & Hm).
  split; rewrite ?Hq, ?Hg, ?Hs, ?Ha, ?Ho, ?Hm; try (by intros * ?%elem_of_nil); try done.
  - intros i p Hi. destruct (Hp i p Hi) as [_ ->]. exists newborn. cbn. rewrite lookup_fmap, Hi. split; [done|].
    exists "", 0. split; [by vm_compute|]. split; [done|]. exists 0%nat. split.
    + split; try done; [|by intros ? ?%elem_of_nil].
      intros j. cbn. rewrite lookup_empty. by destruct (decide _).
    + intros _. split; [done|by vm_compute|lia].
  - intros i nd Hnd. cbn in Hnd. rewrite lookup_fmap in Hnd.
    destruct (procs (net_world N) !! i); simplify_eq/=. done.
Qed.

Lemma ninitial_invariant N : ninitial C N → invariant C (net_world N).
Proof.
  intros (Hp & Hr & Hq & Hrp & Hg & _). apply (initial_invariant C HC). split; [|by split_and!].
  intros i p Hi. destruct (Hp i p Hi) as [? ->]. split; [done|]. by eexists.
Qed.

Lemma reachable_sim N : nreachable C N → astray (mail N) = false → ∃ s, inv s ∧ sim N s ∧ invariant C (net_world N)
  ∧ ∃ s0, astart s0 ∧ asteps s0 s.
Proof.
  intros (N0 & H0 & Hr) Has. pose proof (birth_start N0) as Hb.
  pose proof (start_inv mems _ Hb) as Hi0.
  destruct (nsteps_simulate N0 (birth N0) N (birth_sim N0 H0) Hi0 (ninitial_invariant N0 H0) Hr Has)
    as (Hi & s & Hs & Hsim).
  exists s. split; [by eapply run_inv|]. split_and!; [done|done|]. by exists (birth N0).
Qed.
End refinement.

(** ** The members of the cluster *)

Section theorems.
Context `{D : !SqlDriver} `{L : !SqlLaws D} `{R : !GoRuntime}.
Implicit Types (n : Node) (nd : anode) (s : astate) (N : net) (p q : proc).

(** The database of a member, up or down. *)
Definition database p : tables := match p with Up n => drv_file (store n) | Down file => file end.

(** The index a member would resume from. *)
Definition resumes_at p : option Z := meta_uint "last_applied" (spec_init (database p)).

Lemma up_database n t : view (store n) = Idle t → database (Up n) = t.
Proof. intros Hv. cbn. by rewrite file_law, Hv. Qed.

Lemma init_applied t a : meta_uint "last_applied" t = Some a → meta_uint "last_applied" (spec_init t) = Some a.
Proof.
  unfold meta_uint. cbn. rewrite lookup_union. destruct (metadata t !! "last_applied"); [by rewrite union_Some_l|done].
Qed.

Lemma proc_disk s p nd :
  proc_rel s p nd → ∃ t b a, log_entries t = log_entries (database p) ∧ kv t = kv (database p)
    ∧ disk_rel t nd b a ∧ resumes_at p = Some a ∧ (tainted s = false → applied_rel t nd b a).
Proof.
  destruct p as [n|file]; cbn [proc_rel].
  - intros U. destruct (ur_disk _ _ _ U) as (t & Hv & b & Hd & Ha). exists t, b, (lastApplied n).
    unfold resumes_at. rewrite (up_database n t Hv). split_and!; try done. apply init_applied, Hd.
  - intros (v & a & _ & _ & b & Hd & Ha). exists (spec_init file), b, a. split_and!; try done. apply Hd.
Qed.

Lemma member_log N s i p :
  sim N s → procs (net_world N) !! i = Some p → ∃ nd b, mem s !! i = Some nd
    ∧ is_log b (log_entries (database p)) (a_log nd) ∧ words (a_log nd).
Proof.
  intros Hs Hp. destruct (sim_proc _ _ Hs i p Hp) as (nd & Hnd & Hr).
  destruct (proc_disk s p nd Hr) as (t & b & a & El & _ & Hd & _). exists nd, b. rewrite <- El.
  split_and!; [done|apply Hd|apply Hd].
Qed.

(** A member that is up: its rows, and where its snapshot ends. *)
Lemma member_up N s i n :
  sim N s → procs (net_world N) !! i = Some (Up n) → ∃ nd b, mem s !! i = Some nd ∧ up_rel s n nd
    ∧ snap_index n = Z.of_nat b ∧ is_log b (log_entries (database (Up n))) (a_log nd) ∧ (b <= length (a_log nd))%nat.
Proof.
  intros Hs Hp. destruct (sim_proc _ _ Hs i _ Hp) as (nd & Hnd & U). cbn [proc_rel] in U.
  destruct (ur_disk _ _ _ U) as (t & Hv & b & [D1 D2 D3 D4 _ _ _] & _). exists nd, b.
  rewrite (up_database n t Hv). unfold snap_index. rewrite file_law, Hv. cbn [durable]. rewrite D3. done.
Qed.

Lemma up_term s n nd : up_rel s n nd → currentTerm n = a_term nd.
Proof. intros U. destruct (ur_ledger _ _ _ U) as (l & Hl & _ & <- & _). by apply ledger_term. Qed.

Lemma up_leader s n nd : up_rel s n nd → role n = RoleLeader → a_role nd = RoleLeader ∧ currentTerm n = a_term nd.
Proof.
  intros U Hr. split; [|by apply (up_term s)].
  destruct (ur_ledger _ _ _ U) as (l & Hl & <- & _). by rewrite <- (ledger_role _ _ Hl).
Qed.

(** A row that is there is the entry of the list. *)
Lemma row_at b m l k : is_log b m l → Z.of_nat b < k → (Z.to_nat k <= length l)%nat →
  ∃ e, l !! (Z.to_nat k - 1)%nat = Some e ∧ m !! k = Some (row e).
Proof.
  intros H Hb Hk. destruct (lookup_lt_is_Some_2 l (Z.to_nat k - 1)) as [e He]; [lia|]. exists e. split; [done|].
  rewrite H, decide_True by done. replace (Z.to_nat (k - 1)) with (Z.to_nat k - 1)%nat by lia. by rewrite He.
Qed.







(** A write that was acknowledged, in the abstract: it is committed, and in the log of the
    leader, which is in its term. *)
Lemma acknowledged_entry C N1 N3 i n1 n2 n3 n5 req index term deadline resp :
  well_configured C → nreachable C N1 → astray (mail N3) = false →
  procs (net_world N1) !! i = Some (Up n1) → has_room n1 →
  Write_begin (Some req) n1 = (WriteWait index term, n2) →
  rtc (nstep C) (with_world (set_proc i (Up n2) (net_world N1)) N1) N3 →
  procs (net_world N3) !! i = Some (Up n3) →
  Write_round (ClientWriteRequest_Key req) index term deadline n3 = (Some resp, n5) →
  ClientWriteResponse_Success resp = true →
  ∃ s0 s nd, astart s0 ∧ rtc (astep (members C)) s0 s ∧ raft_inv (members C) s ∧ sim N3 s
    ∧ invariant C (net_world N3) ∧ mem s !! i = Some nd ∧ a_role nd = RoleLeader ∧ a_term nd = term
    ∧ 0 < index ∧ (Z.to_nat (index - 1) < a_commit nd)%nat
    ∧ a_log nd !! Z.to_nat (index - 1)
      = Some (term, command_json (ClientWriteRequest_Key req) (ClientWriteRequest_Value req)).
Proof.
  intros HC HN Has3 Hp1 Hroom Hw Hr3 Hp3 Hround Hok.
  set (N2 := with_world (set_proc i (Up n2) (net_world N1)) N1) in *.
  pose proof (nsteps_astray C _ _ Hr3 Has3) as Has1. cbn in Has1.
  destruct (reachable_sim C HC N1 HN Has1) as (s1 & Hi1 & Hs1 & HI1 & s0 & Hs0 & Hr0).
  destruct (sim_write_wait C HC N1 s1 i n1 req n2 index term) as (s2 & Hr2 & Hs2 & Hpos & g & Hg & He); try done.
  assert (nstep C N1 N2) as Hstep.
  { pose proof (n_client C N1 i n1 (OpWrite (Some req)) Hp1 eq_refl Hroom) as H. cbn in H. by rewrite Hw in H. }
  pose proof (run_inv (members C) _ _ Hi1 Hr2) as Hi2.
  pose proof (step_invariant C HC _ _ (nstep_step C N1 s1 N2 Hs1 Hstep) HI1) as HI2.
  destruct (nsteps_simulate C HC N2 s2 N3 Hs2 Hi2 HI2 Hr3 Has3) as (HI3 & s3 & Hr23 & Hs3).
  destruct (member_up N3 s3 i n3 Hs3 Hp3) as (nd & _ & Hnd & U & _).
  destruct (write_acknowledged _ _ _ _ _ _ _ Hround Hok) as (Hlead & Eterm & Hidx & _).
  pose proof (ur_commit _ _ _ U) as Ec. destruct (up_leader _ _ _ U Hlead) as [Hrole Ht].
  pose proof (run_inv (members C) _ _ Hi2 Hr23) as Hi3.
  destruct (no_lead _ _ _ _ (ri_node _ s3 Hi3 i nd Hnd) Hrole) as [Hg3 _]. rewrite <- Ht, Eterm in Hg3.
  destruct (grows_prefix _ _ _ _ (og_lead _ _ (run_grows (members C) s2 s3 Hi2 Hr23)) Hg) as (g' & Hg' & Hpre).
  assert (g' = a_log nd) as -> by congruence.
  exists s0, s3, nd. split_and!; try done; [by etrans; [|etrans]|by rewrite <- Ht|lia|].
  by eapply prefix_lookup_Some.
Qed.

End theorems.
