(* ===== verification/Reads.v ===== *)
(** * What clients read

    A read is checked under the lock, by a leader that more than half of the members
    answered, and served afterwards from the applied table.  If that leader had committed an
    entry of its own term by the check, and by the time the table is read has applied what
    it had committed then, the table has every write acknowledged before the read began. *)

From Stdlib Require Import Ascii String.
From stdpp Require Import strings relations.
From S2P Require Import Prelude GoStd Json Wire Logging Metrics Sql Storage StoreSpec LogSpec LogStore.
From S2P Require Import Config Types Node Rpc NodeFrame Apply Voting Cluster ClusterSafety Instances Clients Net.
From S2P Require Import RaftLogs LogRel RaftSpec RaftSafety RaftReads Simulation SimElections SimCommit Refinement.
#[local] Open Scope Z_scope.

Section reads.
Context `{D : !SqlDriver} `{L : !SqlLaws D} `{R : !GoRuntime}.
Implicit Types (n : Node) (nd : anode) (s : astate) (N : net).

(** The commands a member has applied, compacted ones included: those of the protocol's
    execution that the cluster's corresponds to.  They are committed. *)
Definition history C N (i : string) (l : list ent) : Prop :=
  ∃ s0 s nd n, astart s0 ∧ rtc (astep (members C)) s0 s ∧ sim N s
    ∧ mem s !! i = Some nd ∧ procs (net_world N) !! i = Some (Up n)
    ∧ (Z.to_nat (lastApplied n) <= a_commit nd)%nat ∧ l = take (Z.to_nat (lastApplied n)) (a_log nd).

(** Between [N] and [N'], a member was up in a term that is not above [T]. *)
Definition seen_by C N N' (T : Z) (v : string) : Prop :=
  ∃ N1 n, rtc (nstep C) N N1 ∧ rtc (nstep C) N1 N' ∧ procs (net_world N1) !! v = Some (Up n) ∧ currentTerm n <= T.

(** A leader and the peers that answered it, when they are enough for [Read]. *)
Lemma answered_quorum C i n (q : list string) :
  well_configured C → i ∈ members C → configured C i n → NoDup q →
  (∀ v, v ∈ q → v ∈ Peer_ID <$> peers n) → majorityLocked n <= Z.of_nat (S (length q)) →
  quorum (members C) (i :: q).
Proof.
  intros HC Hi Hc Hnd Hq Hm. destruct (peer_member C HC i n Hi Hc) as (_ & Hni & Hmem).
  rewrite (majority_configured C HC i n Hi Hc) in Hm. unfold majority_of in Hm. split_and!.
  - apply NoDup_cons. split; [|done]. intros Hin. by apply Hni, Hq.
  - intros v [->|Hv]%elem_of_cons; [done|]. by apply Hmem, Hq.
  - cbn [length]. pose proof (Z.div_mod (Z.of_nat (length (members C))) 2 ltac:(lia)).
    pose proof (Z.mod_pos_bound (Z.of_nat (length (members C))) 2 ltac:(lia)). lia.
Qed.

(** The term the store tells for an index is the entry's. *)
Lemma disk_spec_term t nd b a c T :
  disk_rel t nd b a → bounded (a_log nd) → c < two63 → 0 < T → spec_Term c t = Some (T, true) →
  0 < c ∧ lterm (a_log nd) (Z.to_nat c) = T.
Proof.
  intros Hd Hb Hc HT E. assert (Z.of_nat b <= c ∧ 0 < c) as [Hbc Hpos].
  { unfold spec_Term in E. rewrite (dr_meta _ _ _ _ Hd) in E. destruct (Z.eqb_spec c 0) as [->|]; [injection E; lia|]. cbn in E.
    destruct (Z.eqb_spec c (Z.of_nat b)); [lia|]. destruct (Z.ltb_spec c (Z.of_nat b)); [congruence|lia]. }
  split; [done|]. apply (disk_term t nd b a); [done..|]. destruct Hd as [D1 D2 D3 D4 _ _ _].
  unfold bounded in Hb. rewrite (spec_Term_shape t (Z.of_nat b) (lterm (a_log nd) b) (Z.of_nat (length (a_log nd)))) in E;
    [|apply is_log_shape; try done; lia|apply is_idx_u64; unfold is_idx; lia].
  unfold found in E. destruct (term_at _ _ _ _); congruence.
Qed.

(** A leader that a majority answered leads a term that is not below that of what was
    committed before. *)
Lemma confirmed_later C N N' s i nd k e j n (q : list string) :
  well_configured C → sim N s → raft_inv (members C) s → invariant C (net_world N) →
  astray (mail N') = false → overrun N' = false →
  mem s !! i = Some nd → a_log nd !! k = Some e → e.1 = a_term nd → (k < a_commit nd)%nat →
  rtc (nstep C) N N' → procs (net_world N') !! j = Some (Up n) → NoDup q →
  (∀ v, v ∈ q → v ∈ Peer_ID <$> peers n ∧ seen_by C N N' (currentTerm n) v) →
  majorityLocked n <= Z.of_nat (S (length q)) →
  ∃ s', rtc (astep (members C)) s s' ∧ sim N' s' ∧ a_term nd <= currentTerm n.
Proof.
  intros HC Hs Hi HI Has Hov Hnd He Et Hk Hr Hp Hnq Hq Hm.
  destruct (nsteps_simulate C HC N s N' Hs Hi HI Hr Has) as (HI' & s' & Hr' & Hs').
  assert (tainted s = false) as Ht.
  { apply (og_taint _ _ (run_grows (members C) s s' Hi Hr')). by rewrite (sim_taint _ _ Hs'). }
  destruct (sv_node _ _ _ (inv_votes _ _ HI') j n Hp) as (Hc & _).
  pose proof (answered_quorum C j n q HC (sv_member _ _ _ (inv_votes _ _ HI') j _ Hp) Hc Hnq
    (λ v Hv, proj1 (Hq v Hv)) Hm) as Hquo.
  destruct (own_entry_quorum (members C) s i nd k e (j :: q)) as (v & x & Hv & Hx & Hle); try done.
  apply elem_of_cons in Hv as [->|Hv].
  - exists s'. split_and!; [done..|]. destruct (member_up N' s' j n Hs' Hp) as (nj & _ & Hnj & U & _).
    destruct (run_terms (members C) s s' j x Hr' Hx) as (y & Hy & ?).
    rewrite (up_term _ _ _ U). assert (y = nj) as -> by congruence. lia.
  - destruct (Hq v Hv) as (_ & Nv & nv & Hr1 & Hr2 & Hpv & Htv).
    destruct (nsteps_simulate C HC N s Nv Hs Hi HI Hr1 (nsteps_astray C _ _ Hr2 Has)) as (HIv & sv & Hrv & Hsv).
    destruct (nsteps_simulate C HC Nv sv N' Hsv (run_inv _ _ _ Hi Hrv) HIv Hr2 Has) as (_ & s2 & Hr2' & Hs2).
    exists s2. split_and!; [by etrans|done|].
    destruct (member_up Nv sv v nv Hsv Hpv) as (y & _ & Hy & U & _).
    destruct (run_terms (members C) s sv v x Hrv Hx) as (y' & Hy' & ?).
    pose proof (up_term _ _ _ U). assert (y' = y) as -> by congruence. lia.
Qed.

(** What a leader that passes the check has committed, in the abstract: everything that
    was before, if it has committed an entry of its own term. *)
Lemma checked_commit C N N' s i nd k e j n n' (q : list string) c :
  well_configured C → sim N s → raft_inv (members C) s → invariant C (net_world N) →
  astray (mail N') = false → overrun N' = false →
  mem s !! i = Some nd → a_role nd = RoleLeader → a_log nd !! k = Some e → e.1 = a_term nd →
  (k < a_commit nd)%nat →
  rtc (nstep C) N N' → procs (net_world N') !! j = Some (Up n) → NoDup q →
  (∀ v, v ∈ q → v ∈ Peer_ID <$> peers n ∧ seen_by C N N' (currentTerm n) v) →
  Read_check (Z.of_nat (S (length q))) n = (None, n') →
  c <= commitIndex n → spec_Term c (database (Up n)) = Some (currentTerm n, true) →
  ∃ s' nj, rtc (astep (members C)) s s' ∧ sim N' s' ∧ mem s' !! j = Some nj ∧ up_rel s' n nj
    ∧ a_log nj !! k = Some e ∧ (k < a_commit nj)%nat.
Proof.
  intros HC Hs Hi HI Has Hov Hnd Hrole He Et Hk Hr Hp Hnq Hq Hcheck Hc Hown.
  destruct (read_confirmed _ _ _ Hcheck) as [Hlead Hm].
  destruct (confirmed_later C N N' s i nd k e j n q) as (s' & Hr' & Hs' & HT); try done.
  pose proof (run_inv (members C) _ _ Hi Hr') as Hi'.
  destruct (sim_proc _ _ Hs' j _ Hp) as (nj & Hnj & U). cbn [proc_rel] in U. exists s', nj.
  destruct (up_leader _ _ _ U Hlead) as [Hrj Htj]. pose proof (ur_commit _ _ _ U) as Ec. pose proof (ur_index _ _ _ U).
  destruct (ur_disk _ _ _ U) as (t & Hv & b & Hd & _). rewrite (up_database n t Hv) in Hown.
  assert (0 < currentTerm n) as HTpos.
  { rewrite Htj. destruct (no_lead _ _ _ _ (ri_node _ s' Hi' j nj Hnj) Hrj) as [Hg _].
    by destruct (ri_lead _ s' Hi' _ _ Hg). }
  destruct (disk_spec_term t nj b _ c (currentTerm n) Hd (sim_len _ _ Hs' j nj Hnj)) as [Hcpos Hterm]; try done; [lia|].
  assert (tainted s' = false) as Hts by (by rewrite (sim_taint _ _ Hs')).
  destruct (later_commit (members C) s s' i j nd nj k e (Z.to_nat c)) as [Hej Hkj]; try done;
    [lia|lia|by rewrite Hterm].
Qed.

End reads.
