(* ===== verification/Runs.v ===== *)
(** * Executions of the cluster with its messages

    A concrete schedule of the cluster of [Net], whose members compact their logs every two
    entries: a member is elected, takes two writes, replicates them to a second member,
    commits and compacts them, and sends the third its snapshot; a third write follows,
    the leader crashes, and the member elected after it has what was committed.  The
    theorems of [Refinement] are applied to it. *)

From Stdlib Require Import Ascii String.
From stdpp Require Import strings relations.
From S2P Require Import Prelude GoStd Wire Logging Metrics Sql Storage StoreSpec LogSpec LogStore.
From S2P Require Import Config Types Node Rpc NodeFrame Apply Follower Leader NodeVote Voting.
From S2P Require Import Cluster Instances Replication Clients Net LogRel RaftSpec RaftSafety Simulation Refinement Reads.
#[local] Open Scope Z_scope.

(** The members of [trio], with a snapshot every two entries. *)
Definition compacting_options (i : string) : Options :=
  mkOptions i ":9001" ":8001" ("data/" +:+ i) (trio_peer <$> filter (.≠ i) trio)
    (500 * Millisecond) (900 * Millisecond) (100 * Millisecond) 2.

Definition small_cluster : cluster := Cluster trio compacting_options.

Lemma small_well_configured : well_configured small_cluster.
Proof. exact trio_well_configured. Qed.

Definition trio_net : net := Net trio_down [] [] false (Post [] [] false).

(** The state after a schedule. *)
Definition run_from (N : net) (l : list naction) : net := default N (nrun small_cluster l N).

Definition net_after (l : list naction) : net := run_from trio_net l.

Lemma run_from_steps (N : net) l :
  bool_decide (is_Some (nrun small_cluster l N)) = true → rtc (nstep small_cluster) N (run_from N l).
Proof.
  intros [N' HN]%bool_decide_eq_true. unfold run_from. rewrite HN. by apply nrun_nsteps in HN.
Qed.

Lemma trio_ninitial : ninitial small_cluster trio_net.
Proof.
  split; [|by split_and!]. intros i p. cbn [trio_net net_world trio_down procs].
  rewrite !lookup_insert_Some, lookup_singleton_Some. intros H. cbn. unfold trio.
  destruct H as [[<- <-]|[_ [[<- <-]|[_ [<- <-]]]]]; (split; [set_solver|done]).
Qed.

Lemma nrun_app C l1 l2 (N : net) :
  nrun C (l1 ++ l2) N = (N' ← nrun C l1 N; nrun C l2 N').
Proof.
  revert N. induction l1 as [|a l1 IH]; intros N; cbn; [done|].
  destruct (nexec C a N); cbn; [apply IH|done].
Qed.

Lemma net_after_reachable l :
  bool_decide (is_Some (nrun small_cluster l trio_net)) = true → nreachable small_cluster (net_after l).
Proof. intros H. exists trio_net. split; [apply trio_ninitial|by apply run_from_steps]. Qed.

Lemma net_after_extends l1 l2 :
  bool_decide (is_Some (nrun small_cluster (l1 ++ l2) trio_net)) = true →
  rtc (nstep small_cluster) (net_after l1) (net_after (l1 ++ l2)).
Proof.
  intros [N HN]%bool_decide_eq_true. unfold net_after, run_from. rewrite HN. rewrite nrun_app in HN.
  destruct (nrun _ l1 _) as [N1|]; cbn in *; [|done]. by apply nrun_nsteps in HN.
Qed.

(** The node of a member that is known to be up. *)
Definition node_in (N : net) (i : string) : Node :=
  match procs (net_world N) !! i with Some (Up n) => n | _ => fresh_node i end.

Definition is_up (N : net) (i : string) : bool :=
  match procs (net_world N) !! i with Some (Up _) => true | _ => false end.

Lemma node_in_up N i : is_up N i = true → procs (net_world N) !! i = Some (Up (node_in N i)).
Proof. unfold is_up, node_in. by destruct (procs (net_world N) !! i) as [[n|]|]. Qed.

(** [a] is elected and writes twice; each write goes to [b], and the leader commits it. *)
Definition write (k v : string) : naction :=
  NBase (ALocal "a" (OpWrite (Some (mkClientWriteRequest k v)))).

Definition replicate_to (peer : string) : list naction := [NSend "a" peer; NDeliver 0; NAnswer 0].

(** The entries that [c] lacks are in the snapshot by then. *)
Definition snapshot_to (peer : string) : list naction := [NSend "a" peer; NInstall 0; NReceipt 0].

Definition compacted_run : list naction :=
  (NBase <$> trio_boot ++ elect_a) ++ write "x" "1" :: replicate_to "b" ++ write "y" "2" :: replicate_to "b"
  ++ snapshot_to "c".

Definition spread_out : list naction := replicate_to "b" ++ replicate_to "b" ++ replicate_to "c".

Definition replicated : list naction := write "z" "3" :: spread_out.

(** Then [a] crashes and [b] is elected with the vote of [c]. *)
Definition taken_over : list naction :=
  [NCrash "a"; NBase (AElect "b"); NBase (ARequest 1); NBase (AReply 0 0)].

Abbreviation N0 := (net_after compacted_run).
Abbreviation N1 := (net_after (compacted_run ++ replicated)).
Abbreviation N2 := (net_after ((compacted_run ++ replicated) ++ taken_over)).

Lemma N0_reachable : nreachable small_cluster N0.
Proof. apply net_after_reachable. vm_compute. reflexivity. Qed.

Lemma N1_reachable : nreachable small_cluster N1.
Proof. apply net_after_reachable. vm_compute. reflexivity. Qed.

Lemma N2_extends : rtc (nstep small_cluster) N1 N2.
Proof. apply net_after_extends. vm_compute. reflexivity. Qed.

Lemma N0_calm : astray (mail N0) = false ∧ overrun N0 = false.
Proof. vm_compute. by split. Qed.

Lemma N1_calm : astray (mail N1) = false ∧ overrun N1 = false.
Proof. vm_compute. by split. Qed.

Lemma N2_calm : astray (mail N2) = false ∧ overrun N2 = false.
Proof. vm_compute. by split. Qed.

Lemma N0_a : procs (net_world N0) !! "a" = Some (Up (node_in N0 "a")).
Proof. apply node_in_up. vm_compute. reflexivity. Qed.

Lemma N0_c : procs (net_world N0) !! "c" = Some (Up (node_in N0 "c")).
Proof. apply node_in_up. vm_compute. reflexivity. Qed.

Lemma N1_a : procs (net_world N1) !! "a" = Some (Up (node_in N1 "a")).
Proof. apply node_in_up. vm_compute. reflexivity. Qed.

Lemma N1_b : procs (net_world N1) !! "b" = Some (Up (node_in N1 "b")).
Proof. apply node_in_up. vm_compute. reflexivity. Qed.

Lemma N2_b : procs (net_world N2) !! "b" = Some (Up (node_in N2 "b")).
Proof. apply node_in_up. vm_compute. reflexivity. Qed.

Definition covers (n : Node) (k : Z) : bool := (snap_index n <? k) && (k <=? commitIndex n).

Lemma covers_range n k : covers n k = true → snap_index n < k <= commitIndex n.
Proof. intros [?%Z.ltb_lt ?%Z.leb_le]%andb_prop. done. Qed.

Lemma a_covers : snap_index (node_in N1 "a") < 3 <= commitIndex (node_in N1 "a").
Proof. apply covers_range. vm_compute. reflexivity. Qed.

Lemma b_covers : snap_index (node_in N1 "b") < 3 <= commitIndex (node_in N1 "b").
Proof. apply covers_range. vm_compute. reflexivity. Qed.

(** The snapshot that [c] was sent covers two entries. *)
Lemma c_installed : snap_index (node_in N0 "c") = 2 ∧ resumes_at (Up (node_in N0 "a")) = Some 2.
Proof. vm_compute. by split. Qed.

Lemma b_leads : role (node_in N2 "b") = RoleLeader.
Proof. vm_compute. reflexivity. Qed.

Lemma b_later : (currentTerm (node_in N1 "a") <=? currentTerm (node_in N2 "b")) = true.
Proof. vm_compute. reflexivity. Qed.

Lemma same_resume : resumes_at (Up (node_in N1 "a")) = resumes_at (Up (node_in N1 "b")).
Proof. vm_compute. reflexivity. Qed.







(** The third write, from the call to the acknowledgement, and the leader elected later. *)
Definition third : ClientWriteRequest := mkClientWriteRequest "z" "3".

Definition begun : net :=
  with_world (set_proc "a" (Up (Write_begin (Some third) (node_in N0 "a")).2) (net_world N0)) N0.

Abbreviation committed_net := (run_from begun spread_out).
Abbreviation later_net := (run_from committed_net taken_over).
Abbreviation round_a := (Write_round "z" 3 1 None (node_in committed_net "a")).

Lemma third_begun :
  Write_begin (Some third) (node_in N0 "a") = (WriteWait 3 1, (Write_begin (Some third) (node_in N0 "a")).2).
Proof.
  assert ((Write_begin (Some third) (node_in N0 "a")).1 = WriteWait 3 1) as H by (vm_compute; reflexivity).
  exact (pair_of_fst _ _ H).
Qed.

Lemma third_committed : rtc (nstep small_cluster) begun committed_net.
Proof. apply run_from_steps. vm_compute. reflexivity. Qed.

Lemma third_later : rtc (nstep small_cluster) committed_net later_net.
Proof. apply run_from_steps. vm_compute. reflexivity. Qed.

Lemma later_calm : astray (mail later_net) = false ∧ overrun later_net = false.
Proof. vm_compute. by split. Qed.

Lemma committed_a : procs (net_world committed_net) !! "a" = Some (Up (node_in committed_net "a")).
Proof. apply node_in_up. vm_compute. reflexivity. Qed.

Lemma later_b : procs (net_world later_net) !! "b" = Some (Up (node_in later_net "b")).
Proof. apply node_in_up. vm_compute. reflexivity. Qed.

Lemma a_has_room : has_room (node_in N0 "a").
Proof. apply (bool_decide_unpack _). vm_compute. exact I. Qed.

Lemma third_answer : round_a = (Some (mkClientWriteResponse true "a" "" 3 1), round_a.2).
Proof.
  assert (round_a.1 = Some (mkClientWriteResponse true "a" "" 3 1)) as H by (vm_compute; reflexivity).
  exact (pair_of_fst _ _ H).
Qed.

Lemma later_b_leads : role (node_in later_net "b") = RoleLeader.
Proof. vm_compute. reflexivity. Qed.

Lemma later_b_term : (1 <=? currentTerm (node_in later_net "b")) = true.
Proof. vm_compute. reflexivity. Qed.


(** The new leader writes and commits an entry of its term with [c], and passes the check
    of a read; before it reads the table, it steps down for [c]. *)
Definition new_term : list naction :=
  [NBase (ALocal "b" (OpWrite (Some (mkClientWriteRequest "w" "4")))); NSend "b" "c"; NDeliver 0; NAnswer 0].

Definition deposed : list naction := [NBase (AElect "c"); NBase (ARequest 1)].

Definition get_z : ClientReadRequest := mkClientReadRequest "z".

Abbreviation check_net := (run_from committed_net (taken_over ++ new_term)).
Abbreviation read_net := (run_from check_net deposed).
Abbreviation check_b := (node_in check_net "b").
Abbreviation read_b := (node_in read_net "b").

Lemma check_later : rtc (nstep small_cluster) committed_net check_net.
Proof. apply run_from_steps. vm_compute. reflexivity. Qed.

Lemma read_later : rtc (nstep small_cluster) check_net read_net.
Proof. apply run_from_steps. vm_compute. reflexivity. Qed.

Lemma read_calm : astray (mail read_net) = false ∧ overrun read_net = false.
Proof. vm_compute. by split. Qed.

Lemma check_b_up : procs (net_world check_net) !! "b" = Some (Up check_b).
Proof. apply node_in_up. vm_compute. reflexivity. Qed.

Lemma check_c_up : procs (net_world check_net) !! "c" = Some (Up (node_in check_net "c")).
Proof. apply node_in_up. vm_compute. reflexivity. Qed.

Lemma read_b_up : procs (net_world read_net) !! "b" = Some (Up read_b).
Proof. apply node_in_up. vm_compute. reflexivity. Qed.

Lemma c_follows_b : (currentTerm (node_in check_net "c") <=? currentTerm check_b) = true.
Proof. vm_compute. reflexivity. Qed.

Lemma c_is_peer : bool_decide ("c" ∈ Peer_ID <$> peers check_b) = true.
Proof. vm_compute. reflexivity. Qed.

Lemma c_seen v : v ∈ ["c"] → v ∈ Peer_ID <$> peers check_b
  ∧ seen_by small_cluster committed_net check_net (currentTerm check_b) v.
Proof.
  intros ->%list_elem_of_singleton. split; [exact (bool_decide_eq_true_1 _ c_is_peer)|].
  exists check_net, (node_in check_net "c"). split_and!; [exact check_later|reflexivity|exact check_c_up|].
  exact (proj1 (Z.leb_le _ _) c_follows_b).
Qed.

Lemma b_checks : Read_check 2 check_b = (None, (Read_check 2 check_b).2).
Proof.
  assert ((Read_check 2 check_b).1 = None) as H by (vm_compute; reflexivity). exact (pair_of_fst _ _ H).
Qed.

Lemma b_own_entry : (4 <=? commitIndex check_b) = true
  ∧ spec_Term 4 (database (Up check_b)) = Some (currentTerm check_b, true)
  ∧ (commitIndex check_b <=? lastApplied read_b) = true.
Proof. vm_compute. by split_and!. Qed.

(** It reads although it does not lead any more. *)
Lemma b_deposed : role read_b = RoleFollower.
Proof. vm_compute. reflexivity. Qed.

Lemma z_read : Read_get (Some get_z) read_b
  = (Ok (mkClientReadResponse true "b" "" "3"), (Read_get (Some get_z) read_b).2).
Proof.
  assert ((Read_get (Some get_z) read_b).1 = Ok (mkClientReadResponse true "b" "" "3")) as H
    by (vm_compute; reflexivity).
  exact (pair_of_fst _ _ H).
Qed.

